(* ===== verification/_CoqProject ===== *)
-Q . S2P
Prelude.v
GoStd.v
GoError.v
Uuid.v
Text.v
Task.v
TaskMemory.v
TaskSpec.v
TaskService.v
TaskConcurrent.v
Concrete.v
TaskTheorems.v
Sha256.v
User.v
UserMemory.v
UserSpec.v
UserService.v
UserConcurrent.v
ConcreteUser.v
UserTheorems.v
Http.v
Middleware.v
MiddlewareTheorems.v
TaskHandler.v
TaskHandlerTheorems.v
CsvTheorems.v
UserHandler.v
UserHandlerTheorems.v
Breaker.v
Attachment.v
AttachmentMemory.v
AttachmentSpec.v
AttachmentService.v
AttachmentConcurrent.v
BlobStorage.v
AttachmentBreaker.v
BreakerTheorems.v
Wiring.v
ConcreteStore.v
AttachmentTheorems.v
StoreTheorems.v
AttachmentHandler.v
AttachmentHandlerTheorems.v
Link.v
LinkTheorems.v
Mux.v
Path.v
TaskCache.v
TaskCacheTheorems.v
Config.v
ConfigTheorems.v
Drain.v
Web.v
WebTheorems.v
Sql.v
Postgres.v
TaskPostgres.v
TaskPostgresSpec.v
SqlJoin.v
ConcreteDb.v
TaskPostgresTheorems.v
UserPostgres.v
UserPostgresSpec.v
UserPostgresTheorems.v
AttachmentPostgres.v
AttachmentPostgresSpec.v
AttachmentPostgresTheorems.v
Migrate.v
MigrateTheorems.v
Seed.v
SeedTheorems.v
Server.v
Telemetry.v
Startup.v
Lifecycle.v
StartupSpec.v
ServerSpec.v
ServerRoutes.v
ServerTheorems.v
LifecycleTheorems.v
