(* ===== verification/Prelude.v ===== *)
(** * task-api: a model of the service and the theorems that make it correct

    The program is an HTTP service in Go that keeps tasks, user accounts with
    sessions, file attachments and short links.  A request passes a chain of
    middlewares and two multiplexers ([cmd/api/main.go]), is authenticated
    ([internal/user/middleware.go]) and reaches a handler; a handler calls the
    [Service] of its package; a service calls its [Repository] (in memory or
    PostgreSQL, behind a circuit breaker and, for tasks, a cache) and, for
    attachments, a [BlobStore] (a directory or an S3 bucket).

    ** How code is modelled

    A method that calls an interface, the clock, randomness or a library is a
    [prog]: the tree of its calls.  [run] gives it a meaning over an implementation
    of the calls (a [handler] over a state); decorators such as the breakers are
    programs over the calls of what they decorate ([interp]); concurrent requests are
    pools of programs whose calls interleave one at a time.  Errors are values
    ([GoError]: sentinels, wrapping, [errors.Is] and [errors.As]); integers are [Z]
    with [int64] wrap-around where the code computes on 64 bits; strings are byte
    strings, decoded as UTF-8 where the code ranges over runes; times are nanoseconds.
    Maps are [gmap]; where Go ranges over a map the order is an input.

    ** Files

    - Foundations: [Prelude] (programs, runs, pools of threads, the logic [follows],
      what is inevitable), [GoStd] and [Text] (the standard library the code uses:
      strconv, strings, utf8, time, sorting, [http.DetectContentType]), [GoError],
      [Uuid] ([newID], [isValidID]), [Sha256], [Http] (requests, response writer,
      JSON), [Mux] ([http.ServeMux]), [Path], [Sql] (the statements the repositories
      send, what they mean on a schema of tables with keys and references, and what a
      database promises), [SqlJoin] (those over several tables).
    - [internal/task]: [Task] (entity and service), [TaskMemory], [TaskSpec] (what any
      repository promises), [TaskService] (each method against that promise),
      [TaskConcurrent] (interleavings), [TaskHandler] (handler.go, csv_export.go),
      [TaskCache] (cached_repository.go), [TaskPostgres] with [Postgres] and
      [TaskPostgresSpec] (postgres_repository.go).
    - [internal/user]: [User] (service, token cache, login delay, password policy),
      [UserMemory], [UserSpec], [UserService], [UserConcurrent], [UserHandler],
      [UserPostgres] and [UserPostgresSpec]; [Middleware] has its middleware.go.
    - [internal/attachment]: [Attachment], [AttachmentMemory], [AttachmentSpec],
      [AttachmentService], [AttachmentConcurrent], [BlobStorage] (storage.go,
      s3_storage.go), [AttachmentBreaker] (s3_breaker.go, postgres_breaker.go),
      [AttachmentHandler], [AttachmentPostgres] and [AttachmentPostgresSpec].
    - [internal/link]: [Link].  [internal/middleware]: [Middleware].
      [internal/config]: [Config].  [internal/platform/pgerr] and the repository
      breakers: [Breaker].  [internal/platform/migrate] and [cmd/migrate]: [Migrate].
    - [cmd/api]: [Wiring] (ownership callback, account cascade), [Server] (the routes
      and the chain in front of them), [ServerSpec] and [ServerRoutes] (what one
      request may do), [Startup] and [StartupSpec] (what is opened and closed), [Drain]
      and [Lifecycle] (the goroutines of [run] as a step relation, the periodic
      clean-up), [Telemetry] (crier.go, db_stats.go and the breakers' hooks).
    - [cmd/web]: [Web], over [Drain].  [cmd/seed]: [Seed].
    - [Concrete], [ConcreteUser], [ConcreteStore], [ConcreteDb]:
      implementations on which the witnesses evaluate.  Files named [...Theorems] hold
      the properties.

    ** Interfaces

    [TaskRepository], [UserRepository], [AttachmentRepository] and [BlobStore] state
    what a store promises on each call; services and handlers are verified against
    them, and the in-memory stores, the breakers and the cache are proved to keep them;
    the PostgreSQL repositories keep them up to what PostgreSQL makes of a value (the
    case of a UUID's digits, whole microseconds) and up to an answer that is lost.
    Libraries outside the repository are classes of operations with the laws the code
    relies on ([Bcrypt], [Validate], [Sanitize], [Bastion], [Shortener], [Database],
    [JoinDatabase], ...); none of them is defined here.

    ** What the theorems show

    - Tasks: no lost update and no illegal transition under any interleaving, isolation
      between users, the exact effect of each method, pages that reassemble, entity
      tags that never hide an edit, exports that read back and hold no formula.
    - Accounts: no enumeration by login, the curve of the login delay, passwords and
      sessions, revocation, what a deleted account leaves behind.
    - Attachments: no row without its bytes under any interleaving with the orphan
      collector, the checks of an upload, download headers, all stores to one contract.
    - Links: a user sees and ends only their own.
    - The edge: authentication, request identifiers, panics, CORS, configuration,
      errors that stay inside; and for the whole server, that no request reaches a task
      or an attachment but through authentication, as its user.
    - The process: what is open after start-up fails or succeeds, that a signal brings
      it down in every schedule, what its exit status says, that its maintenance removes only what it may; the
      log that is mirrored is not changed by it.
    - Stores: memory, breaker, cache and the three PostgreSQL repositories refine their
      specifications; the statements are read from their text, and the examples run
      them.
    - Migrations resume after any failure, can be run again after a success, and revert
      by the down file of the last one; the frontend serves
      only its directory, under a policy that admits its own scripts; the seeder prints
      what it added.

    ** Fuel and bounds

    Recursion that is not structural takes the length of its input as fuel, and each
    step consumes at least one byte ([utf8.runes], [strings.TrimSpace], [strconv.digits]
    by the logarithm of its number); lemmas next to the definitions show it is enough.

    ** Not modelled

    - Concurrent transactions of one database: each call of a PostgreSQL repository is
      one step after another, so the row lock of a task's update and the advisory lock
      of [CreateSession] have no effect here (interleavings of whole calls are
      covered, over any repository).
    - Run-time panics inside an in-memory store are values: a negative offset or cap, which
      the handlers and the configuration refuse, is answered as the error [Panic]; and the
      versions and counters of that store are integers without a bound, so that what
      happens after 2^63 updates of one task is left out.
    - A blob that was opened is its bytes: a bucket that fails while a download is being
      read, after the status was sent, is left out.  An export writes each row when it is
      made; the buffer between it and the response, which only moves the borders of the
      chunks, is left out.
    - The requests in flight while a server shuts down: [Shutdown] is a call that returns
      nil or an error, at the latest when its time is over.
    - The gob codec of the cache (cache_codec.go), which only calls [encoding/gob]; the
      [main] functions, which read flags, wait for signals and exit; what crier,
      bastion, cistern, cairn and the moat libraries do inside.
    - What a garbage-collected or preempted Go program does between two calls. *)
From stdpp Require Export base tactics option list gmap strings fin_maps sorting.
From Stdlib Require Export Ascii ZArith Lia.

#[export] Set Warnings "-clear-no-such-hyp,-register-all".

(** * Effectful programs

    A method of the source that calls an interface (a repository, a clock, a
    cache) is translated to a [prog]: a finite tree whose nodes are the calls
    it makes and whose branches are the answers.  The sequential meaning is
    [run]; a pool of such programs whose calls interleave is [pool_step]. *)

Declare Scope prog_scope.
Delimit Scope prog_scope with prog.

Inductive prog (E : Type → Type) (A : Type) : Type :=
| Ret (a : A)
| Vis {X : Type} (e : E X) (k : X → prog E A).
Arguments Ret {E A} a.
Arguments Vis {E A X} e k.

Fixpoint prog_bind {E : Type → Type} {A B : Type} (f : A → prog E B) (p : prog E A)
    : prog E B :=
  match p with
  | Ret a => f a
  | Vis e k => Vis e (λ x, prog_bind f (k x))
  end.

#[export] Instance prog_mret E : MRet (prog E) := λ A a, Ret a.
#[export] Instance prog_mbind E : MBind (prog E) := λ A B f p, prog_bind f p.

(** A family of calls [E] that is part of a larger family [F]. *)
Class Subevent (E F : Type → Type) : Type := inject : ∀ X, E X → F X.

#[global] Arguments inject {E F _} {X} e /.

Definition trigger {E F : Type → Type} `{!Subevent E F} {X : Type} (e : E X) : prog F X :=
  Vis (inject e) Ret.

(** The calls of two interfaces. *)
Definition sumE (E F : Type → Type) : Type → Type := λ X, (E X + F X)%type.

#[export] Instance subevent_refl E : Subevent E E | 10 := λ X e, e.
#[export] Instance subevent_l E F G `{!Subevent E F} : Subevent E (sumE F G) | 20 :=
  λ X e, inl (inject e).
#[export] Instance subevent_r E F G `{!Subevent E G} : Subevent E (sumE F G) | 30 :=
  λ X e, inr (inject e).

#[global] Arguments subevent_refl E X e /.
#[global] Arguments subevent_l E F G _ X e /.
#[global] Arguments subevent_r E F G _ X e /.

(** An implementation of the calls [E] over a state [S]. *)
Definition handler (E : Type → Type) (S : Type) : Type := ∀ X, E X → S → S * X.

Fixpoint run {E : Type → Type} {S A : Type} (h : handler E S) (p : prog E A) (s : S)
    : S * A :=
  match p with
  | Ret a => (s, a)
  | Vis e k => let '(s', x) := h _ e s in run h (k x) s'
  end.

(** Two implementations side by side, each over its part of the state. *)
Definition handle_sum {E F : Type → Type} {S T : Type} (h : handler E S) (g : handler F T)
    : handler (sumE E F) (S * T) :=
  λ X e '(s, t),
    match e with
    | inl e => let '(s', x) := h X e s in (s', t, x)
    | inr e => let '(t', x) := g X e t in (s, t', x)
    end.

(** The calls a run makes, in order. *)
Fixpoint calls {E : Type → Type} {S A : Type} (h : handler E S) (p : prog E A) (s : S)
    : list (sigT E) :=
  match p with
  | Ret _ => []
  | Vis e k => let '(s', x) := h _ e s in existT _ e :: calls h (k x) s'
  end.

(** A decorator implements calls [E] by programs over calls [F]. *)
Fixpoint interp {E F : Type → Type} {A : Type} (f : ∀ X, E X → prog F X) (p : prog E A)
    : prog F A :=
  match p with
  | Ret a => Ret a
  | Vis e k => prog_bind (λ x, interp f (k x)) (f _ e)
  end.

(** A program whose calls are among those of a larger interface. *)
Definition lift {E F : Type → Type} {A} (f : ∀ X, E X → F X) (p : prog E A) : prog F A :=
  interp (λ X e, Vis (f X e) Ret) p.

(** The effect and the answer of a run, separately. *)
Definition exec {E S A} (h : handler E S) (p : prog E A) (s : S) : S := (run h p s).1.
Definition eval {E S A} (h : handler E S) (p : prog E A) (s : S) : A := (run h p s).2.

(** The answer of a run that is computed. *)
Lemma run_answer {E S A} (h : handler E S) (p : prog E A) s w r a :
  run h p s = (w, r) → eval h p s = a → r = a.
Proof. unfold eval. by intros ->. Qed.

Section run_laws.
Context {E F : Type → Type} {S : Type}.

Lemma run_ret {A} (h : handler E S) (a : A) s : run h (mret a) s = (s, a).
Proof. reflexivity. Qed.

Lemma run_trigger `{!Subevent E F} {X} (h : handler F S) (e : E X) s :
  run h (trigger e) s = h X (inject e) s.
Proof. unfold trigger; cbn [run]. by destruct (h X _ s). Qed.

Lemma run_prog_bind {A B} (h : handler E S) (p : prog E A) (f : A → prog E B) s :
  run h (prog_bind f p) s = let '(s', a) := run h p s in run h (f a) s'.
Proof.
  revert s; induction p as [a|X e k IH]; intros s; simpl; [done|].
  destruct (h X e s) as [s' x]. apply IH.
Qed.

Lemma run_bind {A B} (h : handler E S) (p : prog E A) (f : A → prog E B) s :
  run h (p ≫= f) s = let '(s', a) := run h p s in run h (f a) s'.
Proof. apply run_prog_bind. Qed.

End run_laws.

Lemma run_interp {E F : Type → Type} {S A : Type} (h : handler F S)
    (f : ∀ X, E X → prog F X) (p : prog E A) s :
  run h (interp f p) s = run (λ X e, run h (f X e)) p s.
Proof.
  revert s; induction p as [a|X e k IH]; intros s; simpl; [done|].
  rewrite run_prog_bind. destruct (run h (f X e) s) as [s' x]. apply IH.
Qed.

(** An implementation [h] that a larger one [g] contains, with the part of its state
    that the calls act on. *)
Record embeds {E F : Type → Type} {S T : Type} (h : handler E S) (g : handler F T)
    (f : ∀ X, E X → F X) (get : T → S) (put : S → T → T) : Prop := {
  embeds_call : ∀ X (e : E X) t, g X (f X e) t = let '(s', x) := h X e (get t) in (put s' t, x);
  embeds_get : ∀ s t, get (put s t) = s;
  embeds_put : ∀ s s' t, put s (put s' t) = put s t;
  embeds_same : ∀ t, put (get t) t = t;
}.
Lemma run_lift {E F : Type → Type} {S T A : Type} (h : handler E S) (g : handler F T) f get put
    (p : prog E A) t :
  embeds h g f get put →
  run g (lift f p) t = let '(s', a) := run h p (get t) in (put s' t, a).
Proof.
  intros [Hc Hg Hp Hs]. unfold lift. rewrite run_interp. cbn.
  revert t; induction p as [a|X e k IH]; intros t; cbn [run]; [by rewrite Hs|].
  rewrite Hc. destruct (h X e (get t)) as [s' x]. rewrite IH, Hg.
  destruct (run h (k x) s') as [s'' a]. by rewrite Hp.
Qed.

Lemma run_lift_self {E S A} (h : handler E S) (p : prog E A) s : run h (lift (λ X e, e) p) s = run h p s.
Proof.
  rewrite (run_lift h h (λ X e, e) id (λ s _, s)).
  - cbn. by destruct (run h p s).
  - split; [|done..]. intros X e t. cbn. by destruct (h X e t).
Qed.

(** An invariant of the state that every call keeps is kept by every program. *)
Lemma run_invariant {E S A} (h : handler E S) (I : S → Prop) (p : prog E A) :
  (∀ X (e : E X) s, I s → I (h X e s).1) → ∀ s, I s → I (run h p s).1.
Proof.
  intros Hh. induction p as [a|X e k IH]; intros s Hs; simpl; [done|].
  specialize (Hh X e s Hs). destruct (h X e s) as [s' x]. by apply IH.
Qed.

(** The calls of a program and of its continuation. *)
Lemma calls_bind {E S A B} (h : handler E S) (p : prog E A) (f : A → prog E B) s :
  calls h (p ≫= f) s =
  calls h p s ++ (let '(s', a) := run h p s in calls h (f a) s').
Proof.
  change (p ≫= f) with (prog_bind f p). revert s; induction p as [a|X e k IH]; intros s; simpl; [done|].
  destruct (h X e s) as [s' x]. by rewrite IH.
Qed.

(** Every call of a program, whatever is answered. *)
Fixpoint only {E A} (P : ∀ X, E X → Prop) (p : prog E A) : Prop :=
  match p with Ret _ => True | Vis e k => P _ e ∧ ∀ x, only P (k x) end.
Lemma only_bind {E A B} (P : ∀ X, E X → Prop) (p : prog E A) (f : A → prog E B) :
  only P p → (∀ a, only P (f a)) → only P (p ≫= f).
Proof.
  change (p ≫= f) with (prog_bind f p). induction p as [a|X e k IH]; cbn; [auto|]. intros [He Hk] Hf. split; [done|].
  intros x. by apply IH.
Qed.
Lemma only_lift {E F A} (P : ∀ X, F X → Prop) (f : ∀ X, E X → F X) (p : prog E A) :
  only (λ X e, P X (f X e)) p → only P (Prelude.lift f p).
Proof. induction p as [a|X e k IH]; cbn; [done|]. intros [He Hk]. split; [done|]. intros x. by apply IH. Qed.
Lemma only_all {E A} (P : ∀ X, E X → Prop) (p : prog E A) : (∀ X e, P X e) → only P p.
Proof. intros HP. induction p as [a|X e k IH]; cbn; auto. Qed.
Lemma only_calls {E S A} (P : ∀ X, E X → Prop) (h : handler E S) (p : prog E A) s c :
  only P p → c ∈ calls h p s → P (projT1 c) (projT2 c).
Proof.
  revert s; induction p as [a|X e k IH]; intros s; cbn; [by intros _ ?%not_elem_of_nil|]. intros [He Hk].
  destruct (h X e s) as [s' x]. intros [-> |Hc]%elem_of_cons; [done|]. by eapply IH.
Qed.

(** * Interleaving

    Concurrent requests are a pool of programs over one shared state; each call
    is atomic (the in-memory stores hold their mutex for the whole call, the
    SQL store runs it as one statement or transaction) and any thread may take
    the next one: [pool_call] is thread [i] making its next call [e]. *)
Inductive pool_call {E S A} (h : handler E S) (s : S) (ts : list (prog E A))
    {X} (e : E X) (s' : S) : list (prog E A) → Prop :=
| PoolCall i (k : X → prog E A) x :
    ts !! i = Some (Vis e k) → h X e s = (s', x) → pool_call h s ts e s' (<[i := k x]> ts).

(** ** Protocols

    What threads may assume and must respect when their calls interleave: a
    world [W] that only grows along [le], the calls a thread may make in it and
    what it may conclude from an answer.  [follows Q w p] says that from world
    [w] on, and whatever the others do, the program keeps to the protocol and
    ends with an outcome that [Q] allows. *)
Section protocol.
Context {E : Type → Type} {W : Type} (le : W → W → Prop) `{!PreOrder le}.
Context (call_ok : W → ∀ X, E X → Prop) (answer_ok : W → ∀ X, E X → X → Prop).

Definition growing {A} (Q : W → A → Prop) : Prop := ∀ w w' a, le w w' → Q w a → Q w' a.

Fixpoint follows {A} (Q : W → A → Prop) (w : W) (p : prog E A) : Prop :=
  match p with
  | Ret a => Q w a
  | Vis e k => call_ok w _ e ∧
      ∀ w' x, le w w' → answer_ok w' _ e x → follows Q w' (k x)
  end.

Lemma follows_le {A} (Q : W → A → Prop) (w w' : W) (p : prog E A) :
  (∀ w w' X (e : E X), le w w' → call_ok w X e → call_ok w' X e) → growing Q →
  le w w' → follows Q w p → follows Q w' p.
Proof.
  intros Hmono HQ Hle. destruct p as [a|X e k]; simpl; [by apply HQ|]. intros [Hc Hk].
  split; [by eapply Hmono|]. intros w'' x Hle'. apply Hk. by transitivity w'.
Qed.

Lemma follows_weaken {A} (P Q : W → A → Prop) (w : W) (p : prog E A) :
  (∀ w a, P w a → Q w a) → follows P w p → follows Q w p.
Proof.
  intros HPQ. revert w; induction p as [a|X e k IH]; intros w; simpl; [by apply HPQ|].
  intros [Hc Hk]. split; [done|]. intros w' x Hle Hx. by apply IH, Hk.
Qed.

Lemma follows_bind {A B} (P : W → A → Prop) (Q : W → B → Prop) (w : W) (p : prog E A)
    (f : A → prog E B) :
  follows P w p → (∀ w' a, le w w' → P w' a → follows Q w' (f a)) → follows Q w (p ≫= f).
Proof.
  change (p ≫= f) with (prog_bind f p).
  revert w; induction p as [a|X e k IH]; intros w; simpl.
  - intros HP Hf. by apply Hf.
  - intros [Hc Hk] Hf. split; [done|]. intros w' x Hle Hx.
    apply IH; [by apply Hk|]. intros w'' a Hle'. apply Hf. by transitivity w'.
Qed.

(** One call of one thread, in a pool that keeps to the protocol: the call is
    one the protocol allows, and if the world grows to one the answer agrees
    with, the pool still keeps to it.  The threads may aim at different
    outcomes. *)
Lemma follows_pool {S A X} (Qs : nat → W → A → Prop) (h : handler E S) s
    (ts ts' : list (prog E A)) (e : E X) s' w :
  (∀ w w' X (e : E X), le w w' → call_ok w X e → call_ok w' X e) → (∀ i, growing (Qs i)) →
  pool_call h s ts e s' ts' → (∀ i p, ts !! i = Some p → follows (Qs i) w p) →
  call_ok w X e ∧
  ∀ w', le w w' → (∀ x, h X e s = (s', x) → answer_ok w' X e x) →
    ∀ i p, ts' !! i = Some p → follows (Qs i) w' p.
Proof.
  intros Hmono HQ Hstep Hts. destruct Hstep as [i k x Hi Hh].
  pose proof (Hts i _ Hi) as [Hc Hk]. split; [done|].
  intros w' Hle Hans j p. rewrite list_lookup_insert. case_decide as Hd.
  - destruct Hd as [<- _]. intros [= <-]. by apply Hk, Hans.
  - intros Hj. eapply follows_le; eauto.
Qed.

(** A program that keeps to the protocol, run alone: what every allowed call
    does to the state, the whole run does; its outcome is one that [Q] allows. *)
Lemma follows_run {S A} (Q : W → A → Prop) (h : handler E S) (I : S → Prop)
    (R : S → S → Prop) `{!PreOrder R} (w : W) :
  (∀ X (e : E X) s, I s → call_ok w X e →
     I (h X e s).1 ∧ R s (h X e s).1 ∧ answer_ok w X e (h X e s).2) →
  ∀ (p : prog E A) s, follows Q w p → I s →
    I (run h p s).1 ∧ R s (run h p s).1 ∧ Q w (run h p s).2.
Proof.
  intros Hh. induction p as [a|X e k IH]; intros s; simpl; [done|].
  intros [Hc Hk] Hs. destruct (Hh X e s Hs Hc) as (Hs' & HR & Ha).
  destruct (h X e s) as [s' x]; simpl in *.
  destruct (IH x s' (Hk w x (PreOrder_Reflexive w) Ha) Hs') as (HI' & HR' & HQ).
  split_and!; [done|by transitivity s'|done].
Qed.
End protocol.

(** Threads of which nothing is claimed at their end. *)
Abbreviation any_outcome := (λ _ _, True).

Lemma any_growing {W A} (le : W → W → Prop) : growing (A := A) le any_outcome.
Proof. done. Qed.

(** A claim about the final outcome, in a pool of requests each with its own
    aim. *)
Lemma Forall_pool {A} (P : A → Prop) (ts : list A) :
  Forall P ts ↔ ∀ i p, ts !! i = Some p → P p.
Proof. apply Forall_lookup. Qed.

(** ** What must happen

    [inevitably R P s]: every maximal run of steps [R] from [s] comes to a state that
    satisfies [P]. *)
Inductive inevitably {S} (R : S → S → Prop) (P : S → Prop) (s : S) : Prop :=
| AlreadyThere : P s → inevitably R P s
| AfterAnyStep : (∃ s', R s s') → (∀ s', R s s' → inevitably R P s') → inevitably R P s.

(** Some step is possible until then, and every step comes closer. *)
Lemma inevitably_by {S} (R : S → S → Prop) (I P : S → Prop) (m : S → nat) :
  (∀ s s', I s → R s s' → I s') →
  (∀ s, I s → P s ∨ (∃ s', R s s') ∧ ∀ s', R s s' → (m s' < m s)%nat) →
  ∀ s, I s → inevitably R P s.
Proof.
  intros Hkeep Hgo s. remember (m s) as n eqn:Hn. revert s Hn. induction (Nat.lt_wf_0 n) as [n _ IH]. intros s -> Hs.
  destruct (Hgo s Hs) as [Hp|[Hex Hdec]]; [by apply AlreadyThere|].
  apply AfterAnyStep; [done|]. intros s' Hr. eapply IH; eauto.
Qed.

(** * Automation *)

Create HintDb go discriminated.
Create Rewrite HintDb go_rw.

(** Case analysis on the scrutinee of a [match] or [if] of the goal. *)
Ltac case_goal :=
  match goal with
  | |- context [match ?x with _ => _ end] =>
      lazymatch x with
      | context [match _ with _ => _ end] => fail
      | _ => destruct x eqn:?
      end
  end.

(** The same in hypothesis [H], closing the impossible branches. *)
Ltac case_hyp H :=
  match type of H with
  | context [match ?x with _ => _ end] =>
      lazymatch x with
      | context [match _ with _ => _ end] => fail
      | _ => destruct x eqn:?; simplify_eq/=
      end
  end.

(** Walk through a program that has to keep to a protocol. *)
Ltac follow :=
  repeat (first [ done
                | progress simpl
                | case_goal
                | match goal with
                  | |- _ ∧ _ => split
                  | |- ∀ _, _ => intros ?
                  end ]).

Ltac bool_to_prop :=
  repeat match goal with
  | H : _ && _ = true |- _ => apply andb_true_iff in H as [? ?]
  | H : _ || _ = false |- _ => apply orb_false_iff in H as [? ?]
  | H : negb _ = true |- _ => apply negb_true_iff in H
  | H : negb _ = false |- _ => apply negb_false_iff in H
  | H : (_ <? _)%Z = true |- _ => apply Z.ltb_lt in H
  | H : (_ <? _)%Z = false |- _ => apply Z.ltb_ge in H
  | H : (_ <=? _)%Z = true |- _ => apply Z.leb_le in H
  | H : (_ <=? _)%Z = false |- _ => apply Z.leb_gt in H
  | H : (_ =? _)%Z = true |- _ => apply Z.eqb_eq in H
  | H : (_ =? _)%Z = false |- _ => apply Z.eqb_neq in H
  | H : bool_decide _ = true |- _ => apply bool_decide_eq_true in H
  | H : bool_decide _ = false |- _ => apply bool_decide_eq_false in H
  end.
