(* ===== verification/GoStd.v ===== *)
(** The parts of Go and its standard library that the code computes with:
    machine integers, byte strings and UTF-8, [strconv], [strings],
    [encoding/hex], [time], and iteration over maps.  Strings are Go's: byte
    sequences that need not be valid UTF-8. *)

From S2P Require Import Prelude.
Local Open Scope Z_scope.

(** * Machine integers *)
Module int64.
Definition min : Z := - 2 ^ 63.
Definition max : Z := 2 ^ 63 - 1.
(** Two's complement wrap-around, the meaning of [+], [-], [*] and [<<]. *)
Definition wrap (z : Z) : Z := (z + 2 ^ 63) mod 2 ^ 64 - 2 ^ 63.
Definition in_range (z : Z) : bool := (min <=? z) && (z <=? max).
Definition add (a b : Z) : Z := wrap (a + b).
Definition mul (a b : Z) : Z := wrap (a * b).
(** Shifting an [int64] left by a non-negative [int] count. *)
Definition shl (a n : Z) : Z := wrap (Z.shiftl a n).

Lemma wrap_range z : min ≤ wrap z ≤ max.
Proof.
  unfold wrap, min, max.
  pose proof (Z.mod_pos_bound (z + 2 ^ 63) (2 ^ 64) ltac:(lia)). lia.
Qed.

Lemma wrap_small z : min ≤ z ≤ max → wrap z = z.
Proof. unfold wrap, min, max; intros. rewrite Z.mod_small; lia. Qed.

Lemma in_range_spec z : in_range z = true ↔ min ≤ z ≤ max.
Proof. unfold in_range. rewrite andb_true_iff, !Z.leb_le. tauto. Qed.
End int64.

(** * Bytes *)
Definition byte_val (a : ascii) : Z := Z.of_N (N_of_ascii a).
Definition byte_of (z : Z) : ascii := ascii_of_N (Z.to_N z).
Definition bytes (s : string) : list Z := map byte_val (String.list_ascii_of_string s).
Definition of_bytes (l : list Z) : string := String.string_of_list_ascii (map byte_of l).
(** Go's [len] of a string. *)
Definition len (s : string) : Z := Z.of_nat (String.length s).

Lemma byte_val_range a : 0 ≤ byte_val a < 256.
Proof.
  unfold byte_val. pose proof (N_ascii_bounded a). lia.
Qed.

Lemma byte_of_val a : byte_of (byte_val a) = a.
Proof. unfold byte_of, byte_val. rewrite N2Z.id. apply ascii_N_embedding. Qed.

Lemma byte_val_of z : 0 ≤ z < 256 → byte_val (byte_of z) = z.
Proof.
  intros. unfold byte_of, byte_val.
  rewrite N_ascii_embedding; lia.
Qed.

Lemma of_bytes_bytes s : of_bytes (bytes s) = s.
Proof.
  unfold of_bytes, bytes. rewrite map_map.
  rewrite (map_ext _ id) by apply byte_of_val. rewrite map_id.
  apply String.string_of_list_ascii_of_string.
Qed.

Lemma bytes_of_bytes l : Forall (λ z, 0 ≤ z < 256) l → bytes (of_bytes l) = l.
Proof.
  intros H. unfold of_bytes, bytes.
  rewrite String.list_ascii_of_string_of_list_ascii, map_map.
  induction H as [|z l Hz H IH]; simpl; [done|].
  by rewrite byte_val_of, IH.
Qed.

Lemma bytes_range s : Forall (λ z, 0 ≤ z < 256) (bytes s).
Proof.
  unfold bytes. apply Forall_forall. intros z Hz.
  apply list_elem_of_In, in_map_iff in Hz as (a & <- & _). apply byte_val_range.
Qed.

Lemma bytes_inj s t : bytes s = bytes t → s = t.
Proof. intros H. by rewrite <-(of_bytes_bytes s), H, of_bytes_bytes. Qed.

Lemma length_bytes s : Z.of_nat (length (bytes s)) = len s.
Proof.
  unfold bytes, len. rewrite length_map. f_equal.
  induction s; simpl; congruence.
Qed.

Lemma append_cons c s t : String c s +:+ t = String c (s +:+ t).
Proof. reflexivity. Qed.
Lemma append_empty s : "" +:+ s = s.
Proof. reflexivity. Qed.
Lemma append_nil_r s : s +:+ "" = s.
Proof. induction s as [|c s IH]; [done|]. by rewrite append_cons, IH. Qed.
Lemma append_assoc s t u : (s +:+ t) +:+ u = s +:+ t +:+ u.
Proof. induction s as [|c s IH]; [done|]. by rewrite !append_cons, IH. Qed.
#[export] Hint Rewrite append_cons append_empty append_nil_r append_assoc : go_rw.

Lemma append_inj_l s t u : s +:+ t = s +:+ u → t = u.
Proof. induction s as [|c s IH]; [done|]. rewrite !append_cons. intros [=]; auto. Qed.

Lemma length_append s t : String.length (s +:+ t) = (String.length s + String.length t)%nat.
Proof. induction s as [|c s IH]; [done|]. rewrite append_cons. simpl. by rewrite IH. Qed.

(** Equal concatenations whose first parts have the same length. *)
Lemma append_inj s s' t t' :
  String.length s = String.length s' → s +:+ t = s' +:+ t' → s = s' ∧ t = t'.
Proof.
  revert s'; induction s as [|c s IH]; intros [|c' s']; try done.
  rewrite !append_cons. intros [=Hl] [= -> H]. by destruct (IH s' Hl H) as [-> ->].
Qed.

(** * Decimal and hexadecimal text *)
Definition digit_char (d : Z) : ascii := byte_of (48 + d).
Definition hex_char (d : Z) : ascii := if d <? 10 then byte_of (48 + d) else byte_of (87 + d).

Module strconv.
(** The decimal digits of [n], prepended to [acc]. *)
Fixpoint digits (fuel : nat) (n : Z) (acc : string) : string :=
  match fuel with
  | O => acc
  | S f =>
      let acc' := String (digit_char (n mod 10)) acc in
      if n <? 10 then acc' else digits f (n / 10) acc'
  end.

(** [strconv.Itoa]; the number of binary digits is fuel enough. *)
Definition Itoa (n : Z) : string :=
  if n <? 0 then String "-" (digits (S (Z.to_nat (Z.log2 (- n)))) (- n) "")
  else digits (S (Z.to_nat (Z.log2 n))) n "".

Definition digit_of (c : ascii) : option Z :=
  let v := byte_val c in
  if (48 <=? v) && (v <=? 57) then Some (v - 48) else None.

Fixpoint parse_digits (acc : Z) (s : string) : option Z :=
  match s with
  | "" => Some acc
  | String c s' =>
      match digit_of c with
      | Some d => parse_digits (acc * 10 + d) s'
      | None => None
      end
  end.

Definition parse_nonempty (s : string) : option Z :=
  match s with "" => None | _ => parse_digits 0 s end.

(** [strconv.ParseInt(s, 10, 64)], and [strconv.Atoi] where [int] has 64
    bits: an optional sign, at least one digit, and a value in range. *)
Definition ParseInt (s : string) : option Z :=
  let signed :=
    match s with
    | String "-" s' => option_map Z.opp (parse_nonempty s')
    | String "+" s' => parse_nonempty s'
    | _ => parse_nonempty s
    end in
  match signed with
  | Some n => if int64.in_range n then Some n else None
  | None => None
  end.
Definition Atoi := ParseInt.
End strconv.

Module hex.
(** [hex.EncodeToString], and [%x] of a byte slice. *)
Fixpoint EncodeToString (l : list Z) : string :=
  match l with
  | [] => ""
  | b :: l' => String (hex_char (b / 16)) (String (hex_char (b mod 16)) (EncodeToString l'))
  end.

Definition is_hex (c : ascii) : bool :=
  let v := byte_val c in
  ((48 <=? v) && (v <=? 57)) || ((97 <=? v) && (v <=? 102)) || ((65 <=? v) && (v <=? 70)).
End hex.

(** * UTF-8 *)
Module utf8.
Definition RuneError : Z := 65533.

(** The length of the sequence a lead byte announces and the range of the
    byte after it; [None] for a byte that starts no sequence. *)
Definition lead (b : Z) : option (nat * Z * Z) :=
  if b <? 128 then Some (1%nat, 0, 0)
  else if (194 <=? b) && (b <=? 223) then Some (2%nat, 128, 191)
  else if b =? 224 then Some (3%nat, 160, 191)
  else if (225 <=? b) && (b <=? 236) then Some (3%nat, 128, 191)
  else if b =? 237 then Some (3%nat, 128, 159)
  else if (238 <=? b) && (b <=? 239) then Some (3%nat, 128, 191)
  else if b =? 240 then Some (4%nat, 144, 191)
  else if (241 <=? b) && (b <=? 243) then Some (4%nat, 128, 191)
  else if b =? 244 then Some (4%nat, 128, 143)
  else None.

Definition is_cont (b : Z) : bool := (128 <=? b) && (b <=? 191).

(** [utf8.DecodeRune]: the first rune and its width; an invalid or
    truncated sequence is [RuneError] of width one. *)
Definition DecodeRune (l : list Z) : Z * nat :=
  match l with
  | [] => (RuneError, 0%nat)
  | b0 :: l1 =>
      match lead b0, l1 with
      | Some (1%nat, _, _), _ => (b0, 1%nat)
      | Some (2%nat, lo, hi), b1 :: _ =>
          if (lo <=? b1) && (b1 <=? hi)
          then ((b0 mod 32) * 64 + b1 mod 64, 2%nat) else (RuneError, 1%nat)
      | Some (3%nat, lo, hi), b1 :: b2 :: _ =>
          if (lo <=? b1) && (b1 <=? hi) && is_cont b2
          then ((b0 mod 16) * 4096 + (b1 mod 64) * 64 + b2 mod 64, 3%nat)
          else (RuneError, 1%nat)
      | Some (4%nat, lo, hi), b1 :: b2 :: b3 :: _ =>
          if (lo <=? b1) && (b1 <=? hi) && is_cont b2 && is_cont b3
          then ((b0 mod 8) * 262144 + (b1 mod 64) * 4096 + (b2 mod 64) * 64 + b3 mod 64, 4%nat)
          else (RuneError, 1%nat)
      | _, _ => (RuneError, 1%nat)
      end
  end.

(** [range] over a string and the conversion to [[]rune]; every rune has
    width at least one, so the number of bytes is fuel enough. *)
Fixpoint runes_fuel (fuel : nat) (l : list Z) : list Z :=
  match fuel, l with
  | S f, _ :: _ => let '(r, w) := DecodeRune l in r :: runes_fuel f (drop w l)
  | _, _ => []
  end.
Definition runes (s : string) : list Z := runes_fuel (String.length s) (bytes s).
Definition RuneCountInString (s : string) : Z := Z.of_nat (length (runes s)).

Definition EncodeRune (r : Z) : list Z :=
  if (0 <=? r) && (r <? 128) then [r]
  else if (128 <=? r) && (r <? 2048) then [192 + r / 64; 128 + r mod 64]
  else if ((2048 <=? r) && (r <? 55296)) || ((57344 <=? r) && (r <? 65536))
  then [224 + r / 4096; 128 + (r / 64) mod 64; 128 + r mod 64]
  else if (65536 <=? r) && (r <? 1114112)
  then [240 + r / 262144; 128 + (r / 4096) mod 64; 128 + (r / 64) mod 64; 128 + r mod 64]
  else [239; 191; 189].

(** [utf8.DecodeLastRune]: step back over at most three continuation bytes
    and decode from there; [RuneError] of width one unless that decoding
    ends exactly at the end. *)
Fixpoint back (n : nat) (l : list Z) (start : nat) : nat :=
  match n, start with
  | S n', S s' =>
      match l !! s' with
      | Some b => if is_cont b then back n' l s' else s'
      | None => s'
      end
  | _, _ => start
  end.
Definition DecodeLastRune (l : list Z) : Z * nat :=
  match last l with
  | None => (RuneError, 0%nat)
  | Some b =>
      if b <? 128 then (b, 1%nat)
      else
        let start := back 3 l (length l - 1) in
        let '(r, w) := DecodeRune (drop start l) in
        if bool_decide (start + w = length l)%nat then (r, w) else (RuneError, 1%nat)
  end.

Lemma DecodeRune_width b l : (1 ≤ (DecodeRune (b :: l)).2)%nat.
Proof. unfold DecodeRune. repeat case_goal; simpl; lia. Qed.

Lemma length_runes_fuel fuel l : (length (runes_fuel fuel l) ≤ length l)%nat.
Proof.
  revert l; induction fuel as [|f IH]; intros [|b l]; cbn [runes_fuel length]; try lia.
  pose proof (DecodeRune_width b l) as Hw.
  destruct (DecodeRune (b :: l)) as [r w]; simpl in Hw; cbn [length].
  specialize (IH (drop w (b :: l))). rewrite length_drop in IH; cbn [length] in IH. lia.
Qed.

(** A string has no more characters than bytes. *)
Lemma RuneCount_le_len s : RuneCountInString s ≤ len s.
Proof.
  unfold RuneCountInString. rewrite <-length_bytes.
  pose proof (length_runes_fuel (String.length s) (bytes s)). unfold runes. lia.
Qed.
End utf8.

(** * [strings] and [unicode] *)
Module unicode.
(** [unicode.IsSpace]: the characters with the White_Space property. *)
Definition IsSpace (r : Z) : bool :=
  bool_decide (r ∈ [9; 10; 11; 12; 13; 32; 133; 160; 5760; 8232; 8233; 8239; 8287; 12288])
  || ((8192 <=? r) && (r <=? 8202)).

(** The Unicode tables of the standard library outside ASCII: the lower-case
    mapping and the printable characters. *)
Class Tables := {
  lower_table : Z → Z;
  print_table : Z → bool;
}.
Definition ToLower `{Tables} (r : Z) : Z :=
  if r <? 128 then (if (65 <=? r) && (r <=? 90) then r + 32 else r) else lower_table r.
Definition IsPrint `{Tables} (r : Z) : bool :=
  if r <? 128 then (32 <=? r) && (r <? 127) else print_table r.
End unicode.

Module strings.
Fixpoint trim_left (fuel : nat) (l : list Z) : list Z :=
  match fuel, l with
  | S f, _ :: _ =>
      let '(r, w) := utf8.DecodeRune l in
      if unicode.IsSpace r then trim_left f (drop w l) else l
  | _, _ => l
  end.

Fixpoint trim_right (fuel : nat) (l : list Z) : list Z :=
  match fuel, l with
  | S f, _ :: _ =>
      let '(r, w) := utf8.DecodeLastRune l in
      if unicode.IsSpace r then trim_right f (take (length l - w) l) else l
  | _, _ => l
  end.

(** [strings.TrimSpace]; every step drops at least one byte. *)
Definition TrimSpace (s : string) : string :=
  let l := trim_left (String.length s) (bytes s) in
  of_bytes (trim_right (length l) l).

(** Trimming only removes. *)
Lemma trim_left_sub f l : trim_left f l ⊆ l.
Proof.
  revert l; induction f as [|f IH]; intros l; [done|]. destruct l as [|z l]; [done|]. cbn [trim_left].
  destruct (utf8.DecodeRune (z :: l)) as [r w]. destruct (unicode.IsSpace r); [|done].
  etransitivity; [apply IH|]. apply sublist_subseteq, sublist_drop.
Qed.
Lemma trim_right_sub f l : trim_right f l ⊆ l.
Proof.
  revert l; induction f as [|f IH]; intros l; [done|]. destruct l as [|z l]; [done|]. cbn [trim_right].
  destruct (utf8.DecodeLastRune (z :: l)) as [r w]. destruct (unicode.IsSpace r); [|done].
  etransitivity; [apply IH|]. apply sublist_subseteq, sublist_take.
Qed.
Lemma TrimSpace_sub s : bytes (TrimSpace s) ⊆ bytes s.
Proof.
  unfold TrimSpace. set (l := trim_left _ _).
  assert (Hsub : trim_right (length l) l ⊆ bytes s) by (etransitivity; [apply trim_right_sub|apply trim_left_sub]).
  rewrite bytes_of_bytes; [done|]. apply Forall_forall. intros z Hz.
  pose proof (bytes_range s) as Hr. rewrite Forall_forall in Hr. by apply Hr, Hsub.
Qed.

(** [strings.ToLower] re-encodes the lower-cased runes, an invalid byte as
    [RuneError]; on ASCII it maps bytes. *)
Definition ToLower `{unicode.Tables} (s : string) : string :=
  of_bytes (concat (map (λ r, utf8.EncodeRune (unicode.ToLower r)) (utf8.runes s))).

Definition HasPrefix (s prefix : string) : bool := String.prefix prefix s.

Fixpoint drop_bytes (n : nat) (s : string) : string :=
  match n, s with
  | S n', String _ s' => drop_bytes n' s'
  | _, _ => s
  end.

Definition TrimPrefix (s prefix : string) : string :=
  if HasPrefix s prefix then drop_bytes (String.length prefix) s else s.

Fixpoint Join (l : list string) (sep : string) : string :=
  match l with
  | [] => ""
  | [s] => s
  | s :: l' => s +:+ sep +:+ Join l' sep
  end.

(** [strings.Split] at a one-byte separator. *)
Fixpoint Split (s : string) (sep : ascii) : list string :=
  match s with
  | "" => [""]
  | String c s' =>
      if Ascii.eqb c sep then "" :: Split s' sep
      else match Split s' sep with
           | w :: ws => String c w :: ws
           | [] => [String c ""]
           end
  end.

Fixpoint ContainsByte (s : string) (c : ascii) : bool :=
  match s with
  | "" => false
  | String d s' => Ascii.eqb c d || ContainsByte s' c
  end.

(** The part of [s] before the first [c]; the whole of [s] without one. *)
Fixpoint before_byte (s : string) (c : ascii) : string :=
  match s with
  | "" => ""
  | String d s' => if Ascii.eqb c d then "" else String d (before_byte s' c)
  end.

(** Go's [<] on strings, bytewise. *)
Definition less (s t : string) : bool := String.ltb s t.
End strings.

Lemma less_false s t : strings.less s t = false ↔ String.le t s.
Proof.
  unfold strings.less, String.le, String.ltb, String.leb.
  rewrite String.compare_antisym.
  destruct (String.compare t s); simpl; split; done.
Qed.

(** * [strconv.Quote], the [%q] verb *)
Module quote.
Definition dquote : string := String (byte_of 34) "".
Definition backslash : string := String (byte_of 92) "".
Definition hex2 (b : Z) : string := hex.EncodeToString [b].

(** One rune of width [w] as it appears between the quotes. *)
Definition quote_rune `{unicode.Tables} (r : Z) (w : nat) (b : Z) : string :=
  if (r =? utf8.RuneError) && bool_decide (w = 1%nat) then backslash +:+ "x" +:+ hex2 b
  else if (r =? 34) || (r =? 92) then backslash +:+ of_bytes [r]
  else if unicode.IsPrint r then of_bytes (utf8.EncodeRune r)
  else if r =? 7 then backslash +:+ "a"
  else if r =? 8 then backslash +:+ "b"
  else if r =? 12 then backslash +:+ "f"
  else if r =? 10 then backslash +:+ "n"
  else if r =? 13 then backslash +:+ "r"
  else if r =? 9 then backslash +:+ "t"
  else if r =? 11 then backslash +:+ "v"
  else if (r <? 32) || (r =? 127) then backslash +:+ "x" +:+ hex2 r
  else if r <? 65536 then backslash +:+ "u" +:+ hex.EncodeToString [r / 256; r mod 256]
  else backslash +:+ "U" +:+ hex.EncodeToString [0; r / 65536; (r / 256) mod 256; r mod 256].

Fixpoint body `{unicode.Tables} (fuel : nat) (l : list Z) : string :=
  match fuel, l with
  | S f, b :: _ =>
      let '(r, w) := utf8.DecodeRune l in quote_rune r w b +:+ body f (drop w l)
  | _, _ => ""
  end.

Definition Quote `{unicode.Tables} (s : string) : string :=
  dquote +:+ body (String.length s) (bytes s) +:+ dquote.
End quote.

(** * [time] *)
Module time.
(** Instants and durations are nanosecond counts. *)
Definition Millisecond : Z := 1000000.
Definition Second : Z := 1000 * Millisecond.
Definition Minute : Z := 60 * Second.
Definition Hour : Z := 60 * Minute.

Definition Add (t d : Z) : Z := t + d.
(** [Time.Sub] saturates at the bounds of a [Duration]. *)
Definition Sub (t u : Z) : Z := Z.max int64.min (Z.min int64.max (t - u)).
Definition After (t u : Z) : bool := u <? t.
Definition Before (t u : Z) : bool := t <? u.
Definition Equal (t u : Z) : bool := t =? u.
(** [int(d.Seconds())]: truncation toward zero. *)
Definition whole_seconds (d : Z) : Z := Z.quot d Second.
End time.

(** * Maps and sorting

    A [range] over a map visits its entries in an order that may differ each
    time: the definitions that iterate take that order as an argument, a
    permutation of the map's entries.  [sort.Slice] orders elements its
    comparison does not separate in some order; since its input already has an
    arbitrary order, sorting stably reaches all of its outcomes. *)
Definition range_of {A} (m : gmap string A) (it : list (string * A)) : Prop :=
  it ≡ₚ map_to_list m.

(** [x] may stand before [y]. *)
Definition in_order {A} (less : A → A → bool) (x y : A) : Prop := less y x = false.
#[export] Instance in_order_dec {A} (less : A → A → bool) x y : Decision (in_order less x y).
Proof. unfold in_order. apply _. Defined.

Definition sort_slice {A} (less : A → A → bool) (l : list A) : list A :=
  merge_sort (in_order less) l.

Definition values {A} (it : list (string * A)) : list A := map snd it.

Lemma sort_slice_perm {A} (less : A → A → bool) l : sort_slice less l ≡ₚ l.
Proof. apply merge_sort_Permutation. Qed.

(** The comparison is a strict weak order. *)
Class StrictWeak {A} (less : A → A → bool) : Prop := {
  less_asymm : ∀ x y, less x y = false ∨ less y x = false;
  less_trans : Transitive (in_order less);
}.

Lemma sort_slice_sorted {A} (less : A → A → bool) `{!StrictWeak less} l :
  StronglySorted (in_order less) (sort_slice less l).
Proof.
  pose proof less_trans.
  assert (Total (in_order less)) by (intros x y; destruct (less_asymm x y); auto).
  apply (StronglySorted_merge_sort (in_order less)).
Qed.

(** Sorting two orders of one collection gives one result when the comparison
    separates its members. *)
Lemma sort_slice_unique {A} (less : A → A → bool) `{!StrictWeak less} l1 l2 :
  (∀ x y, x ∈ l1 → y ∈ l1 → in_order less x y → in_order less y x → x = y) →
  l1 ≡ₚ l2 → sort_slice less l1 = sort_slice less l2.
Proof.
  intros Hsep Hp.
  eapply (StronglySorted_unique_strong (in_order less)).
  - intros x y Hx Hy. rewrite sort_slice_perm in Hx, Hy. apply Hsep; [done|].
    by rewrite Hp.
  - by apply sort_slice_sorted.
  - by apply sort_slice_sorted.
  - by rewrite !sort_slice_perm.
Qed.

(** Ordering by time and then by name, as the stores do. *)
Lemma time_then_name_weak {A} (at_ : A → Z) (name : A → string) :
  StrictWeak (λ a b, if negb (time.Equal (at_ a) (at_ b)) then time.Before (at_ a) (at_ b)
                     else strings.less (name a) (name b)).
Proof.
  set (less := λ a b : A, _).
  assert (∀ a b, less a b = false ↔
    at_ b < at_ a ∨ (at_ a = at_ b ∧ String.le (name b) (name a))) as Hf.
  { intros a b. unfold less, time.Equal, time.Before. rewrite <-less_false.
    destruct (Z.eqb_spec (at_ a) (at_ b)); simpl; [|rewrite Z.ltb_ge]; intuition lia. }
  split.
  - intros a b. rewrite !Hf.
    destruct (total String.le (name a) (name b)),
      (Ztrichotomy (at_ a) (at_ b)) as [?|[?|?]]; intuition lia.
  - intros a b c. unfold in_order. rewrite !Hf. intros [?|[? H1]] [?|[? H2]]; try lia.
    right. split; [lia|]. by etransitivity.
Qed.

(** Iteration orders, one per use: the [n]-th order of a collection. *)
Class MapIteration := {
  shuffle : nat → ∀ {A : Type}, list A → list A;
  shuffle_perm : ∀ n {A} (l : list A), shuffle n l ≡ₚ l;
}.

Definition range_with `{MapIteration} (seed : nat) {A} (m : gmap string A)
    : list (string * A) := shuffle seed (map_to_list m).

Lemma range_with_of `{MapIteration} seed {A} (m : gmap string A) :
  range_of m (range_with seed m).
Proof. apply shuffle_perm. Qed.

Lemma elem_of_range {A} (m : gmap string A) it k v :
  range_of m it → (k, v) ∈ it ↔ m !! k = Some v.
Proof. intros Hit. by rewrite Hit, elem_of_map_to_list. Qed.

Lemma elem_of_values {A} (m : gmap string A) it v :
  range_of m it → v ∈ values it ↔ ∃ k, m !! k = Some v.
Proof.
  intros Hit. unfold values. rewrite list_elem_of_fmap. split.
  - intros ([k w] & -> & H). exists k. by apply (elem_of_range m it).
  - intros [k H]. exists (k, v). split; [done|]. by apply (elem_of_range m it).
Qed.

(** [for k, v := range m { if f k v { delete(m, k) } }]; the order does not
    matter. *)
Definition delete_where {A} (f : string → A → bool) (m : gmap string A) : gmap string A :=
  base.filter (λ kv, f kv.1 kv.2 = false) m.

Lemma lookup_delete_where {A} (f : string → A → bool) m k v :
  delete_where f m !! k = Some v ↔ m !! k = Some v ∧ f k v = false.
Proof. apply (map_lookup_filter_Some (λ kv : string * A, f kv.1 kv.2 = false)). Qed.

Lemma lookup_delete_where_None {A} (f : string → A → bool) m k :
  m !! k = None → delete_where f m !! k = None.
Proof.
  intros Hk. destruct (delete_where f m !! k) eqn:E; [|done].
  apply lookup_delete_where in E as [? _]. congruence.
Qed.

(** * Examples of the computations *)
Example Itoa_ex : map strconv.Itoa [0; 7; 10; 365; -42] = ["0"; "7"; "10"; "365"; "-42"].
Proof. reflexivity. Qed.
Example Atoi_ex :
  map strconv.Atoi ["12"; "-7"; "+3"; ""; "-"; "1x"; "9223372036854775808"]
  = [Some 12; Some (-7); Some 3; None; None; None; None].
Proof. reflexivity. Qed.
Example TrimSpace_ex :
  strings.TrimSpace (of_bytes [32; 194; 160; 97; 32; 98; 226; 128; 137; 10]) = "a b".
Proof. reflexivity. Qed.
Example runes_ex : utf8.runes (of_bytes [97; 195; 167; 255; 240; 159; 152; 128]) = [97; 231; 65533; 128512].
Proof. reflexivity. Qed.

(** [moat/sanitize], a library: its two functions are parameters. *)
Class Sanitize := {
  PlainText : string → string;
  StripControlChars : string → string;
}.

(** * [http.DetectContentType] (net/http/sniff.go) *)

Module http.
Definition sniffLen : nat := 512.

Definition isWS (b : Z) : bool := (b =? 9) || (b =? 10) || (b =? 12) || (b =? 13) || (b =? 32).
Definition isTT (b : Z) : bool := (b =? 32) || (b =? 62).

Fixpoint skipWS (data : list Z) : list Z :=
  match data with
  | b :: data' => if isWS b then skipWS data' else data
  | [] => []
  end.

Inductive sniffSig :=
| htmlSig (h : string)
| maskedSig (mask pat : list Z) (skip : bool) (ct : string)
| exactSig (sig : list Z) (ct : string)
| mp4Sig
| textSig.

(** A byte against a byte of a tag: letters match in either case. *)
Definition tag_byte (b db : Z) : bool :=
  if (65 <=? b) && (b <=? 90) then b =? Z.land db 223 else b =? db.

Fixpoint match_tag (h data : list Z) : bool :=
  match h, data with
  | [], b :: _ => isTT b
  | b :: h', db :: data' => tag_byte b db && match_tag h' data'
  | _, [] => false
  end.

Fixpoint match_masked (mask pat data : list Z) : bool :=
  match mask, pat, data with
  | m :: mask', p :: pat', b :: data' => (Z.land b m =? p) && match_masked mask' pat' data'
  | [], [], _ => true
  | _, _, _ => false
  end.

Definition has_prefix (p data : list Z) : bool := bool_decide (take (length p) data = p).

(** The brands of an ISO media file: any that starts with [mp4], not the minor
    version at offset 12. *)
Definition mp4_brand (data : list Z) (st : nat) : bool :=
  negb (st =? 12)%nat && has_prefix (bytes "mp4") (drop st data).
Definition match_mp4 (data : list Z) : bool :=
  let boxSize := foldl (λ acc b, acc * 256 + b) 0 (take 4 data) in
  if (length data <? 12)%nat then false
  else if (Z.of_nat (length data) <? boxSize) || negb (boxSize mod 4 =? 0) then false
  else if negb (has_prefix (bytes "ftyp") (drop 4 data)) then false
  else existsb (mp4_brand data) (map (λ i, 8 + 4 * i)%nat (seq 0 (Z.to_nat ((boxSize - 8) / 4)))).

(** Bytes that plain text does not have. *)
Definition binary_byte (b : Z) : bool :=
  (b <=? 8) || (b =? 11) || ((14 <=? b) && (b <=? 26)) || ((28 <=? b) && (b <=? 31)).

Definition match_sig (s : sniffSig) (data : list Z) : string :=
  match s with
  | htmlSig h => if match_tag (bytes h) (skipWS data) then "text/html; charset=utf-8" else ""
  | maskedSig mask pat skip ct =>
      if match_masked mask pat (if skip then skipWS data else data) then ct else ""
  | exactSig sig ct => if has_prefix sig data then ct else ""
  | mp4Sig => if match_mp4 data then "video/mp4" else ""
  | textSig => if existsb binary_byte (skipWS data) then "" else "text/plain; charset=utf-8"
  end.

Definition htmlTags : list string :=
  ["<!DOCTYPE HTML"; "<HTML"; "<HEAD"; "<SCRIPT"; "<IFRAME"; "<H1"; "<DIV"; "<FONT"; "<TABLE"; "<A";
   "<STYLE"; "<TITLE"; "<B"; "<BODY"; "<BR"; "<P"; "<!--"].

(** Mask bytes: compare, or ignore. *)
Definition care (n : nat) : list Z := replicate n 255.
Definition any (n : nat) : list Z := replicate n 0.

Definition sniffSignatures : list sniffSig :=
  map htmlSig htmlTags ++
  [maskedSig (care 5) (bytes "<?xml") true "text/xml; charset=utf-8";
   exactSig (bytes "%PDF-") "application/pdf";
   exactSig (bytes "%!PS-Adobe-") "application/postscript";
   maskedSig [255; 255; 0; 0] [254; 255; 0; 0] false "text/plain; charset=utf-16be";
   maskedSig [255; 255; 0; 0] [255; 254; 0; 0] false "text/plain; charset=utf-16le";
   maskedSig [255; 255; 255; 0] [239; 187; 191; 0] false "text/plain; charset=utf-8";
   exactSig [0; 0; 1; 0] "image/x-icon";
   exactSig [0; 0; 2; 0] "image/x-icon";
   exactSig (bytes "BM") "image/bmp";
   exactSig (bytes "GIF87a") "image/gif";
   exactSig (bytes "GIF89a") "image/gif";
   maskedSig (care 4 ++ any 4 ++ care 6) (bytes "RIFF" ++ any 4 ++ bytes "WEBPVP") false "image/webp";
   exactSig ([137] ++ bytes "PNG" ++ [13; 10; 26; 10]) "image/png";
   exactSig [255; 216; 255] "image/jpeg";
   maskedSig (care 4 ++ any 4 ++ care 4) (bytes "FORM" ++ any 4 ++ bytes "AIFF") false "audio/aiff";
   maskedSig (care 3) (bytes "ID3") false "audio/mpeg";
   maskedSig (care 5) (bytes "OggS" ++ [0]) false "application/ogg";
   maskedSig (care 8) (bytes "MThd" ++ [0; 0; 0; 6]) false "audio/midi";
   maskedSig (care 4 ++ any 4 ++ care 4) (bytes "RIFF" ++ any 4 ++ bytes "AVI ") false "video/avi";
   maskedSig (care 4 ++ any 4 ++ care 4) (bytes "RIFF" ++ any 4 ++ bytes "WAVE") false "audio/wave";
   mp4Sig;
   exactSig [26; 69; 223; 163] "video/webm";
   maskedSig (any 34 ++ care 2) (any 34 ++ bytes "LP") false "application/vnd.ms-fontobject";
   exactSig [0; 1; 0; 0] "font/ttf";
   exactSig (bytes "OTTO") "font/otf";
   exactSig (bytes "ttcf") "font/collection";
   exactSig (bytes "wOFF") "font/woff";
   exactSig (bytes "wOF2") "font/woff2";
   exactSig [31; 139; 8] "application/x-gzip";
   exactSig (bytes "PK" ++ [3; 4]) "application/zip";
   exactSig (bytes "Rar!" ++ [26; 7; 0]) "application/x-rar-compressed";
   exactSig (bytes "Rar!" ++ [26; 7; 1; 0]) "application/x-rar-compressed";
   exactSig [0; 97; 115; 109] "application/wasm";
   textSig].

Fixpoint first_match (sigs : list sniffSig) (data : list Z) : string :=
  match sigs with
  | [] => "application/octet-stream"
  | s :: sigs' => let ct := match_sig s data in
      if String.eqb ct "" then first_match sigs' data else ct
  end.
Definition DetectContentType (data : list Z) : string :=
  first_match sniffSignatures (take sniffLen data).

Example sniff_ex :
  map (λ s, DetectContentType (bytes s)) ["hello"; "  <scRipt >x"; "<b>"; "<svg>"; "%PDF-1.7"; "GIF89a"; ""]
  = ["text/plain; charset=utf-8"; "text/html; charset=utf-8"; "text/html; charset=utf-8";
     "text/plain; charset=utf-8"; "application/pdf"; "image/gif"; "text/plain; charset=utf-8"].
Proof. reflexivity. Qed.

(** Markup at the start is found before anything else. *)
Lemma html_first tag data : tag ∈ htmlTags → match_tag (bytes tag) (skipWS (take sniffLen data)) = true →
  DetectContentType data = "text/html; charset=utf-8".
Proof.
  unfold DetectContentType, sniffSignatures. generalize (take sniffLen data) as d. clear data. intros d.
  intros Hin Hm. revert Hin. generalize htmlTags as tags.
  match goal with |- context [map htmlSig _ ++ ?r] => generalize r as rest end.
  intros rest tags. induction tags as [|t tags IH]; [by intros ?%elem_of_nil|].
  intros [->|Hin]%elem_of_cons; simpl.
  - by rewrite Hm.
  - destruct (match_tag (bytes t) (skipWS d)); [done|]. simpl. by apply IH.
Qed.
End http.
#[global] Opaque http.DetectContentType.
