(* ===== verification/GoError.v ===== *)
(** Go's error values: the sentinels the packages declare, the wrapping that
    [fmt.Errorf] with [%w] does, and [errors.Is] / [errors.As] over the chain.
    A method that returns [(T, error)] returns a [result T]; one that returns
    only an [error] returns an [option error]. *)

From S2P Require Import Prelude GoStd.

(** The packages that declare their own [ErrUnavailable]. *)
Inductive pkg := task_pkg | user_pkg | attachment_pkg.

Inductive sentinel :=
| ErrNotFound (p : pkg)
| ErrAlreadyExists (p : pkg)
| ErrInvalidInput (p : pkg)
| ErrDependencyUnavailable (p : pkg)
| ErrUnavailable (p : pkg)
| ErrConflict
| ErrInvalidTransition
| ErrInvalidCredentials
| ErrTaskNotFound
| ErrTooLarge
| ErrNotOwner
| ErrNoMigrationsToRevert
(* sentinels of the libraries the code compares against *)
| context_Canceled
| context_DeadlineExceeded
| sql_ErrNoRows
| driver_ErrBadConn
| io_EOF
| io_ErrUnexpectedEOF
| os_ErrNotExist
| bastion_ErrOpenState
| bastion_ErrTooManyRequests
| http_ErrServerClosed
| cairn_ErrInvalidCode
| cairn_ErrCodeNotFound
| cairn_ErrLinkExpired
| cairn_ErrLinkRevoked
| cairn_ErrStoreUnavailable
| cairn_ErrDestinationRejected
| cairn_ErrCodeExists
| cairn_ErrVanityReserved
| cairn_ErrVanityLength
| cairn_ErrCodeSpaceExhausted.

#[export] Instance pkg_eq_dec : EqDecision pkg.
Proof. solve_decision. Defined.
#[export] Instance sentinel_eq_dec : EqDecision sentinel.
Proof. solve_decision. Defined.

Definition sentinel_text (s : sentinel) : string :=
  match s with
  | ErrNotFound task_pkg => "task not found"
  | ErrNotFound user_pkg => "user not found"
  | ErrNotFound attachment_pkg => "attachment not found"
  | ErrAlreadyExists task_pkg => "task already exists"
  | ErrAlreadyExists user_pkg => "user already exists"
  | ErrAlreadyExists attachment_pkg => "attachment already exists"
  | ErrInvalidInput _ => "invalid input"
  | ErrDependencyUnavailable _ => "dependency unavailable"
  | ErrUnavailable attachment_pkg => "attachment store unavailable"
  | ErrUnavailable _ => "database unavailable"
  | ErrConflict => "task was modified concurrently"
  | ErrInvalidTransition => "invalid status transition"
  | ErrInvalidCredentials => "invalid email or password"
  | ErrTaskNotFound => "task not found"
  | ErrTooLarge => "attachment exceeds the maximum size"
  | ErrNotOwner => "link: principal does not own this link"
  | ErrNoMigrationsToRevert => "no migrations to revert"
  | context_Canceled => "context canceled"
  | context_DeadlineExceeded => "context deadline exceeded"
  | sql_ErrNoRows => "sql: no rows in result set"
  | driver_ErrBadConn => "driver: bad connection"
  | io_EOF => "EOF"
  | io_ErrUnexpectedEOF => "unexpected EOF"
  | os_ErrNotExist => "file does not exist"
  | bastion_ErrOpenState => "circuit breaker is open"
  | bastion_ErrTooManyRequests => "too many requests"
  | http_ErrServerClosed => "http: Server closed"
  | cairn_ErrInvalidCode => "cairn: invalid code"
  | cairn_ErrCodeNotFound => "cairn: code not found"
  | cairn_ErrLinkExpired => "cairn: link expired"
  | cairn_ErrLinkRevoked => "cairn: link revoked"
  | cairn_ErrStoreUnavailable => "cairn: store unavailable"
  | cairn_ErrDestinationRejected => "cairn: destination rejected"
  | cairn_ErrCodeExists => "cairn: code already exists"
  | cairn_ErrVanityReserved => "cairn: vanity code reserved"
  | cairn_ErrVanityLength => "cairn: vanity code length"
  | cairn_ErrCodeSpaceExhausted => "cairn: code space exhausted"
  end.

Inductive error :=
| Sentinel (s : sentinel)
(** [fmt.Errorf("before%wafter", cause)] *)
| Wrapped (before : string) (cause : error) (after : string)
(** [fmt.Errorf("%w: %w", e1, e2)] *)
| Wrapped2 (e1 e2 : error)
(** [fmt.Errorf] without [%w], or an error of a library the code does not inspect *)
| Opaque (msg : string)
(** [*unavailableError] of the package's breaker file *)
| UnavailableError (p : pkg) (cause : error) (retryAfter : Z)
(** [*pgconn.PgError] *)
| PgError (Code : string) (Message : string)
(** a run-time panic unwinding the call *)
| Panic (msg : string).

Coercion Sentinel : sentinel >-> error.

#[export] Instance error_eq_dec : EqDecision error.
Proof. solve_decision. Defined.

(** [err.Error()]. *)
Fixpoint Error (e : error) : string :=
  match e with
  | Sentinel s => sentinel_text s
  | Wrapped b c a => b +:+ Error c +:+ a
  | Wrapped2 e1 e2 => Error e1 +:+ ": " +:+ Error e2
  | Opaque m | Panic m => m
  | UnavailableError p c _ => sentinel_text (ErrUnavailable p) +:+ ": " +:+ Error c
  | PgError c m => m +:+ " (SQLSTATE " +:+ c +:+ ")"
  end.

(** [errors.Is(e, target)]: [*unavailableError] has an [Is] method that matches
    only its package's [ErrUnavailable], and no [Unwrap]. *)
Fixpoint Is (e : error) (target : sentinel) : bool :=
  match e with
  | Sentinel s => bool_decide (s = target)
  | Wrapped _ c _ => Is c target
  | Wrapped2 e1 e2 => Is e1 target || Is e2 target
  | UnavailableError p _ _ => bool_decide (target = ErrUnavailable p)
  | Opaque _ | PgError _ _ | Panic _ => false
  end.

(** [errors.As] with a target that has a [RetryAfter] method. *)
Fixpoint AsRetryAfter (e : error) : option Z :=
  match e with
  | UnavailableError _ _ d => Some d
  | Wrapped _ c _ => AsRetryAfter c
  | Wrapped2 e1 e2 =>
      match AsRetryAfter e1 with Some d => Some d | None => AsRetryAfter e2 end
  | _ => None
  end.

(** [errors.As] with a [*pgconn.PgError] target: its [Code]. *)
Fixpoint AsPgError (e : error) : option string :=
  match e with
  | PgError c _ => Some c
  | Wrapped _ c _ => AsPgError c
  | Wrapped2 e1 e2 =>
      match AsPgError e1 with Some c => Some c | None => AsPgError e2 end
  | _ => None
  end.

(** [fmt.Errorf("ctx: %w", err)], the wrapping the services do. *)
Definition wrap (ctx : string) (e : error) : error := Wrapped (ctx +:+ ": ") e "".
(** [fmt.Errorf("%w: detail", sentinel)]. *)
Definition detail (s : sentinel) (msg : string) : error := Wrapped "" s (": " +:+ msg).

Lemma Is_wrap ctx e t : Is (wrap ctx e) t = Is e t.
Proof. reflexivity. Qed.
Lemma Is_detail s m t : Is (detail s m) t = bool_decide (s = t).
Proof. reflexivity. Qed.
Lemma Is_sentinel s t : Is (Sentinel s) t = bool_decide (s = t).
Proof. reflexivity. Qed.
#[export] Hint Rewrite Is_wrap Is_detail Is_sentinel : go_rw.

(** * Results *)
Inductive result (A : Type) :=
| Ok (a : A)
| Err (e : error).
Arguments Ok {A} a.
Arguments Err {A} e.

#[export] Instance result_eq_dec {A} `{EqDecision A} : EqDecision (result A).
Proof. solve_decision. Defined.

Definition is_ok {A} (r : result A) : bool := match r with Ok _ => true | Err _ => false end.

(** [x, err := p; if err != nil { return wrapped err }]. *)
Notation "'let?' x := p 'onerr' f 'in' k" :=
  (p ≫= λ r, match r with Ok x => k | Err e => mret (Err (f e)) end)
  (at level 10, x pattern, p at level 100, f at level 9, k at level 200,
   format "'[v' 'let?'  x  :=  p  'onerr'  f  'in' '/' k ']'") : prog_scope.

(** [if err := p; err != nil { return wrapped err }]. *)
Notation "'do?' p 'onerr' f 'in' k" :=
  (p ≫= λ r, match r with None => k | Some e => mret (Err (f e)) end)
  (at level 10, p at level 100, f at level 9, k at level 200,
   format "'[v' 'do?'  p  'onerr'  f  'in' '/' k ']'") : prog_scope.

(** The same for a call that is not an effect. *)
Notation "'let!' x := r 'onerr' f 'in' k" :=
  (match r with Ok x => k | Err e => mret (Err (f e)) end)
  (at level 10, x pattern, r at level 100, f at level 9, k at level 200,
   format "'[v' 'let!'  x  :=  r  'onerr'  f  'in' '/' k ']'") : prog_scope.

(** * The environment's calls: clock, randomness, request context, map order *)
Inductive envE : Type → Type :=
| Now : envE Z                          (* time.Now() *)
| RandRead (n : nat) : envE (result (list Z))   (* rand.Read of n bytes *)
| CtxErr : envE (option error)          (* ctx.Err() *)
| MapSeed : envE nat.                   (* the order of the next range over a map *)

(** A request's context, each time it is asked. *)
Inductive ctx_state := Live | Canceled | DeadlineExceeded.

Definition ctx_error (c : ctx_state) : option error :=
  match c with
  | Live => None
  | Canceled => Some (Sentinel context_Canceled)
  | DeadlineExceeded => Some (Sentinel context_DeadlineExceeded)
  end.

(** What the environment will answer, consumed as it is asked; [None] in
    [env_rand] is a failure of the source of randomness. *)
Record Env := {
  env_clock : list Z;
  env_rand : list (option (list Z));
  env_ctx : list ctx_state;
  env_seed : list nat;
}.

Definition pop {A} (d : A) (l : list A) : A * list A :=
  match l with [] => (d, []) | x :: l' => (x, l') end.

(** [n] bytes, whatever the source of randomness holds. *)
Definition fit_bytes (n : nat) (l : list Z) : list Z :=
  map (λ i, (nth i l 0 mod 256)%Z) (seq 0 n).

Definition handle_env : handler envE Env := λ X e s,
  match e in envE X return Env * X with
  | Now => let '(t, l) := pop 0%Z s.(env_clock) in
      ({| env_clock := l; env_rand := s.(env_rand); env_ctx := s.(env_ctx); env_seed := s.(env_seed) |}, t)
  | RandRead n => let '(r, l) := pop None s.(env_rand) in
      ({| env_clock := s.(env_clock); env_rand := l; env_ctx := s.(env_ctx); env_seed := s.(env_seed) |},
       match r with Some b => Ok (fit_bytes n b) | None => Err (Opaque "rand: no entropy") end)
  | CtxErr => let '(c, l) := pop Live s.(env_ctx) in
      ({| env_clock := s.(env_clock); env_rand := s.(env_rand); env_ctx := l; env_seed := s.(env_seed) |},
       ctx_error c)
  | MapSeed => let '(r, l) := pop 0 s.(env_seed) in
      ({| env_clock := s.(env_clock); env_rand := s.(env_rand); env_ctx := s.(env_ctx); env_seed := l |}, r)
  end.

Lemma length_fit_bytes n l : length (fit_bytes n l) = n.
Proof. unfold fit_bytes. by rewrite length_map, length_seq. Qed.

Lemma fit_bytes_range n l : Forall (λ z, 0 ≤ z < 256)%Z (fit_bytes n l).
Proof.
  apply Forall_forall. intros z Hz. apply list_elem_of_In, in_map_iff in Hz as (i & <- & _).
  apply Z.mod_pos_bound. lia.
Qed.

Lemma fit_bytes_id n l : length l = n → Forall (λ z, 0 ≤ z < 256)%Z l → fit_bytes n l = l.
Proof.
  intros <- Hl. unfold fit_bytes. apply nth_ext with (d := 0%Z) (d' := 0%Z).
  - by rewrite length_map, length_seq.
  - intros i Hi. rewrite length_map, length_seq in Hi.
    rewrite (nth_indep _ _ (nth 0 l 0 mod 256)%Z) by by rewrite length_map, length_seq.
    rewrite (map_nth (λ i, (nth i l 0 mod 256)%Z)), seq_nth by done. simpl. apply Z.mod_small.
    rewrite Forall_forall in Hl. apply Hl. apply list_elem_of_In. by apply nth_In.
Qed.

#[global] Opaque fit_bytes.
