(* ===== verification/Uuid.v ===== *)
(** Identifiers: the UUIDs that [newID] of the three packages generates and the
    shape check [isValidID] of [internal/task] and [internal/attachment]. *)

From S2P Require Import Prelude GoStd GoError.
Local Open Scope Z_scope.

(** [b[6] = b[6]&0x0f | 0x40] and [b[8] = b[8]&0x3f | 0x80]. *)
Definition set_version_variant (b : list Z) : list Z :=
  <[8%nat := Z.lor (Z.land (nth 8 b 0) 63) 128]>
    (<[6%nat := Z.lor (Z.land (nth 6 b 0) 15) 64]> b).

(** [b[i:j]]. *)
Definition slice (i j : nat) (b : list Z) : list Z := take (j - i) (drop i b).

(** [fmt.Sprintf("%08x-%04x-%04x-%04x-%012x", b[0:4], b[4:6], b[6:8], b[8:10], b[10:])]. *)
Definition format_uuid (b : list Z) : string :=
  hex.EncodeToString (slice 0 4 b) +:+ "-" +:+ hex.EncodeToString (slice 4 6 b) +:+ "-" +:+
  hex.EncodeToString (slice 6 8 b) +:+ "-" +:+ hex.EncodeToString (slice 8 10 b) +:+ "-" +:+
  hex.EncodeToString (drop 10 b).

#[global] Arguments set_version_variant : simpl never.
#[global] Arguments format_uuid : simpl never.

(** [newID] up to the text of its error. *)
Definition newID_with {E} `{!Subevent envE E} (msg : string) : prog E (result string) :=
  (let? b := trigger (RandRead 16) onerr (wrap msg) in
   mret (Ok (format_uuid (set_version_variant b))))%prog.

(** A run of exactly [n] hexadecimal digits; what follows it. *)
Fixpoint hex_run (n : nat) (s : string) : option string :=
  match n, s with
  | O, _ => Some s
  | S n', String c s' => if hex.is_hex c then hex_run n' s' else None
  | S _, "" => None
  end.

(** Groups of hexadecimal digits separated by hyphens, and nothing more. *)
Fixpoint match_groups (groups : list nat) (s : string) : bool :=
  match groups with
  | [] => false
  | [n] => match hex_run n s with Some "" => true | _ => false end
  | n :: groups' =>
      match hex_run n s with
      | Some (String "-" s') => match_groups groups' s'
      | _ => false
      end
  end.

(** [idPattern.MatchString]: 8-4-4-4-12 hexadecimal digits. *)
Definition idPattern : list nat := [8; 4; 4; 4; 12]%nat.
Definition isValidID (id : string) : bool := match_groups idPattern id.

(** * Generated identifiers are accepted *)
Lemma small_cases d n : 0 ≤ d < Z.of_nat n → ∃ i, (i < n)%nat ∧ d = Z.of_nat i.
Proof. intros H. exists (Z.to_nat d). lia. Qed.

Lemma hex_char_is_hex d : 0 ≤ d < 16 → hex.is_hex (hex_char d) = true.
Proof.
  intros H. destruct (small_cases d 16) as (i & Hi & ->); [lia|].
  do 16 (destruct i as [|i]; [reflexivity|]). lia.
Qed.

Lemma hex_char_inj d e : 0 ≤ d < 16 → 0 ≤ e < 16 → hex_char d = hex_char e → d = e.
Proof.
  intros Hd He H.
  assert (∀ x, 0 ≤ x < 16 → byte_val (hex_char x) = if x <? 10 then 48 + x else 87 + x) as Hv.
  { intros x Hx. unfold hex_char. destruct (x <? 10) eqn:E; apply byte_val_of;
      bool_to_prop; lia. }
  apply (f_equal byte_val) in H. rewrite !Hv in H by done.
  destruct (d <? 10) eqn:?, (e <? 10) eqn:?; bool_to_prop; lia.
Qed.

Lemma hex_run_encode l s :
  Forall (λ z, 0 ≤ z < 256) l →
  hex_run (2 * length l) (hex.EncodeToString l +:+ s) = Some s.
Proof.
  intros H; induction H as [|z l Hz H IH]; [done|].
  replace (2 * length (z :: l))%nat with (S (S (2 * length l))) by (simpl; lia).
  cbn [hex.EncodeToString hex_run]. rewrite !append_cons. cbn [hex_run].
  rewrite !hex_char_is_hex; [done| |].
  - apply Z.mod_pos_bound; lia.
  - split; [apply Z.div_pos; lia|apply Z.div_lt_upper_bound; lia].
Qed.

Lemma Forall_slice (P : Z → Prop) i j l : Forall P l → Forall P (slice i j l).
Proof. intros. unfold slice. by apply Forall_take, Forall_drop. Qed.

Lemma length_slice i j l : (i ≤ j ≤ length l)%nat → length (slice i j l) = (j - i)%nat.
Proof. intros. unfold slice. rewrite length_take, length_drop. lia. Qed.

Lemma format_uuid_valid b :
  length b = 16%nat → Forall (λ z, 0 ≤ z < 256) b → isValidID (format_uuid b) = true.
Proof.
  intros Hl Hb. unfold isValidID, idPattern, format_uuid.
  assert (∀ n i j s, i ≤ j ≤ 16 → n = 2 * (j - i) →
    hex_run n (hex.EncodeToString (slice i j b) +:+ s) = Some s)%nat as Hrun.
  { intros n i j s Hij ->. rewrite <-(length_slice i j b) by lia.
    by apply hex_run_encode, Forall_slice. }
  replace (drop 10 b) with (slice 10 16 b)
    by (unfold slice; rewrite take_ge; [done|rewrite length_drop; lia]).
  autorewrite with go_rw.
  cbn [match_groups]. rewrite (Hrun 8%nat) by lia.
  cbn [match_groups]. rewrite (Hrun 4%nat) by lia.
  cbn [match_groups]. rewrite (Hrun 4%nat) by lia.
  cbn [match_groups]. rewrite (Hrun 4%nat) by lia.
  cbn [match_groups]. rewrite <-(append_nil_r (hex.EncodeToString (slice 10 16 b))).
  by rewrite (Hrun 12%nat) by lia.
Qed.

Lemma length_set_version_variant b : length (set_version_variant b) = length b.
Proof. unfold set_version_variant. by rewrite !length_insert. Qed.

Lemma lor_land_range x m v :
  0 ≤ x → 0 ≤ m < 256 → 0 ≤ v < 256 → 0 ≤ Z.lor (Z.land x m) v < 256.
Proof.
  intros Hx Hm Hv.
  assert (0 ≤ Z.land x m) by (apply Z.land_nonneg; lia).
  split; [apply Z.lor_nonneg; lia|].
  destruct (Z.eq_dec (Z.lor (Z.land x m) v) 0) as [->|Hz]; [lia|].
  assert (0 ≤ Z.lor (Z.land x m) v) by (apply Z.lor_nonneg; lia).
  change 256 with (2 ^ 8). apply Z.log2_lt_pow2; [lia|].
  rewrite Z.log2_lor by lia.
  assert (∀ y, y ≤ 255 → Z.log2 y < 8) as Hlog.
  { intros y Hy. apply Z.log2_le_mono in Hy. change (Z.log2 255) with 7 in Hy. lia. }
  apply Z.max_lub_lt; [|apply Hlog; lia].
  eapply Z.le_lt_trans; [apply Z.log2_land; lia|].
  eapply Z.le_lt_trans; [apply Z.le_min_r|]. apply Hlog; lia.
Qed.

Lemma nth_range b i : Forall (λ z, 0 ≤ z < 256) b → 0 ≤ nth i b 0 < 256.
Proof.
  intros Hb. destruct (nth_in_or_default i b 0) as [Hin| ->]; [|lia].
  rewrite Forall_forall in Hb. by apply Hb, list_elem_of_In.
Qed.

Lemma set_version_variant_range b :
  Forall (λ z, 0 ≤ z < 256) b → Forall (λ z, 0 ≤ z < 256) (set_version_variant b).
Proof.
  intros Hb. unfold set_version_variant.
  pose proof (nth_range b 6 Hb). pose proof (nth_range b 8 Hb).
  apply Forall_insert; [apply Forall_insert; [done|]|]; apply lor_land_range; lia.
Qed.

(** Whatever the entropy, an identifier that is generated is one that the
    services accept. *)
Lemma generated_valid b :
  isValidID (format_uuid (set_version_variant (fit_bytes 16 b))) = true.
Proof.
  apply format_uuid_valid.
  - by rewrite length_set_version_variant, length_fit_bytes.
  - apply set_version_variant_range, fit_bytes_range.
Qed.

(** Accepted identifiers consist of hexadecimal digits and hyphens. *)
Definition id_char (c : ascii) : bool := hex.is_hex c || Ascii.eqb c "-".

Lemma hex_run_chars n s rest :
  hex_run n s = Some rest → ∃ p, s = p +:+ rest ∧ ∀ x, In x (String.list_ascii_of_string p) → id_char x = true.
Proof.
  revert s; induction n as [|n IH]; intros s H.
  { exists "". rewrite append_empty. split; [by injection H|done]. }
  destruct s as [|c s]; [done|]. cbn [hex_run] in H. destruct (hex.is_hex c) eqn:Hc; [|done].
  destruct (IH s H) as (p & -> & Hp). exists (String c p). split; [by rewrite append_cons|].
  intros x [<-|Hx]; [unfold id_char; by rewrite Hc|by apply Hp].
Qed.

Lemma list_ascii_append s t :
  String.list_ascii_of_string (s +:+ t) = String.list_ascii_of_string s ++ String.list_ascii_of_string t.
Proof. induction s as [|c s IH]; [done|]. rewrite append_cons. simpl. by rewrite IH. Qed.
Lemma bytes_append s t : bytes (s +:+ t) = bytes s ++ bytes t.
Proof. unfold bytes. by rewrite list_ascii_append, map_app. Qed.

Lemma match_groups_chars gs s x :
  match_groups gs s = true → In x (String.list_ascii_of_string s) → id_char x = true.
Proof.
  revert s; induction gs as [|n [|n' gs] IH]; intros s; [done| |].
  - cbn [match_groups]. destruct (hex_run n s) as [rest|] eqn:E; [|done]. destruct rest; [|done].
    intros _. destruct (hex_run_chars n s "" E) as (p & -> & Hp). rewrite append_nil_r. apply Hp.
  - cbn [match_groups]. destruct (hex_run n s) as [[|c rest]|] eqn:E; [done| |done].
    destruct (hex_run_chars n s _ E) as (p & -> & Hp). rewrite list_ascii_append.
    destruct (Ascii.eqb_spec c "-") as [->|Hne].
    + intros Hm [Hx|[<-|Hx]]%in_app_iff; [by apply Hp|done|]. by eapply IH.
    + intros Hm. exfalso. destruct c as [[] [] [] [] [] [] [] []]; done.
Qed.
