(* ===== verification/Text.v ===== *)
(** Facts about the texts that the code puts together: decimal numbers, separators,
    joined lists. *)

From S2P Require Import Prelude GoStd.
Local Open Scope Z_scope.

(** * Decimal text *)
Fixpoint val_of (acc : Z) (s : string) : Z :=
  match s with "" => acc | String c s' => val_of (acc * 10 + (byte_val c - 48)) s' end.

Lemma digit_val d : 0 ≤ d < 10 → byte_val (digit_char d) = 48 + d.
Proof. intros. unfold digit_char. apply byte_val_of. lia. Qed.

(** The digits of a number, read back on top of what is already there. *)
Lemma val_digits fuel n acc a :
  0 ≤ n < 10 ^ Z.of_nat fuel →
  val_of a (strconv.digits fuel n acc) =
  val_of (a * 10 ^ Z.of_nat (String.length (strconv.digits fuel n acc) - String.length acc) + n) acc.
Proof.
  revert n acc a; induction fuel as [|f IH]; intros n acc a Hn.
  { cbn [strconv.digits]. rewrite Nat.sub_diag. simpl in *. f_equal. lia. }
  cbn [strconv.digits]. destruct (Z.ltb_spec n 10).
  - cbn [String.length val_of]. rewrite digit_val by (apply Z.mod_pos_bound; lia).
    rewrite Z.mod_small by lia. replace (Datatypes.S (String.length acc) - String.length acc)%nat with 1%nat by lia.
    f_equal. simpl. lia.
  - rewrite IH.
    2:{ split; [apply Z.div_pos; lia|]. apply Z.div_lt_upper_bound; [lia|].
        rewrite <-Z.pow_succ_r by lia. rewrite <-Nat2Z.inj_succ. lia. }
    set (d := String (digit_char (n mod 10)) acc).
    assert (String.length d ≤ String.length (strconv.digits f (n / 10) d))%nat as Hle.
    { clear. generalize (n / 10) d. induction f as [|f IH]; intros m e; cbn [strconv.digits]; [lia|].
      destruct (m <? 10); [simpl; lia|]. specialize (IH (m / 10) (String (digit_char (m mod 10)) e)).
      simpl in IH. lia. }
    set (L := String.length (strconv.digits f (n / 10) d)) in *.
    cbn [val_of d]. unfold d in *. cbn [val_of]. rewrite digit_val by (apply Z.mod_pos_bound; lia).
    cbn [String.length] in *. f_equal.
    replace (L - String.length acc)%nat with (Datatypes.S (L - Datatypes.S (String.length acc)))%nat by lia.
    rewrite Nat2Z.inj_succ, Z.pow_succ_r by lia.
    pose proof (Z.div_mod n 10 ltac:(lia)). lia.
Qed.

Lemma log2_pow10 n : 0 ≤ n → n < 10 ^ Z.of_nat (Datatypes.S (Z.to_nat (Z.log2 n))).
Proof.
  intros Hn. destruct (Z.eq_dec n 0) as [->|]; [simpl; lia|].
  rewrite Nat2Z.inj_succ, Z2Nat.id by apply Z.log2_nonneg.
  eapply Z.lt_le_trans; [apply Z.log2_spec; lia|]. apply Z.pow_le_mono_l. lia.
Qed.

Lemma val_Itoa n : 0 ≤ n → val_of 0 (strconv.Itoa n) = n.
Proof.
  intros Hn. unfold strconv.Itoa. rewrite (proj2 (Z.ltb_ge _ _)) by done.
  rewrite val_digits by (split; [done|by apply log2_pow10]). simpl. lia.
Qed.

Definition is_digit (c : ascii) : bool := (48 <=? byte_val c) && (byte_val c <=? 57).
Fixpoint all_digits (s : string) : bool :=
  match s with "" => true | String c s' => is_digit c && all_digits s' end.

Lemma digits_all fuel n acc :
  0 ≤ n → all_digits acc = true → all_digits (strconv.digits fuel n acc) = true.
Proof.
  revert n acc; induction fuel as [|f IH]; intros n acc Hn Ha; [done|]. cbn [strconv.digits].
  assert (all_digits (String (digit_char (n mod 10)) acc) = true) as Hd.
  { cbn [all_digits]. pose proof (Z.mod_pos_bound n 10 ltac:(lia)).
    unfold is_digit. rewrite digit_val, Ha by done. apply andb_true_iff. split; [|done].
    apply andb_true_iff. rewrite !Z.leb_le. lia. }
  destruct (n <? 10); [done|]. apply IH; [apply Z.div_pos; lia|done].
Qed.

Lemma Itoa_digits n : 0 ≤ n → all_digits (strconv.Itoa n) = true.
Proof.
  intros. unfold strconv.Itoa. rewrite (proj2 (Z.ltb_ge _ _)) by done. by apply digits_all.
Qed.

Lemma Itoa_inj n m : 0 ≤ n → 0 ≤ m → strconv.Itoa n = strconv.Itoa m → n = m.
Proof. intros Hn Hm H. by rewrite <-(val_Itoa n), <-(val_Itoa m), H. Qed.

(** Text up to the first occurrence of a character is determined. *)
Lemma split_at (c : ascii) (P : ascii → bool) s s' t t' :
  P c = false →
  (∀ x, In x (String.list_ascii_of_string s) → P x = true) →
  (∀ x, In x (String.list_ascii_of_string s') → P x = true) →
  s +:+ String c t = s' +:+ String c t' → s = s' ∧ t = t'.
Proof.
  intros Hc. revert s'; induction s as [|x s IH]; intros [|x' s'] Hs Hs' H.
  - rewrite !append_empty in H. by simplify_eq.
  - rewrite append_empty, append_cons in H. simplify_eq. rewrite (Hs' x') in Hc; [done|by left].
  - rewrite append_empty, append_cons in H. simplify_eq. rewrite (Hs c) in Hc; [done|by left].
  - rewrite !append_cons in H. injection H as -> H.
    destruct (IH s') as [-> ->]; [intros; apply Hs; by right|intros; apply Hs'; by right|done|done].
Qed.

Lemma all_digits_In s x : all_digits s = true → In x (String.list_ascii_of_string s) → is_digit x = true.
Proof.
  induction s as [|c s IH]; [done|]. cbn [all_digits]. intros [Hc Hs]%andb_true_iff [<-|H]; [done|]. by apply IH.
Qed.

Lemma Itoa_inj_Z n m : strconv.Itoa n = strconv.Itoa m → n = m.
Proof.
  assert (Hneg : ∀ n m, n < 0 → 0 ≤ m → strconv.Itoa n ≠ strconv.Itoa m).
  { intros x y Hx Hy H. pose proof (Itoa_digits y Hy) as Hd. rewrite <-H in Hd. unfold strconv.Itoa in Hd.
    by rewrite (proj2 (Z.ltb_lt _ _) Hx) in Hd. }
  intros H. destruct (Z.lt_ge_cases n 0) as [Hn|Hn], (Z.lt_ge_cases m 0) as [Hm|Hm].
  - unfold strconv.Itoa in H. rewrite (proj2 (Z.ltb_lt _ _) Hn), (proj2 (Z.ltb_lt _ _) Hm) in H.
    injection H as H. assert (strconv.Itoa (- n) = strconv.Itoa (- m)) as He.
    { unfold strconv.Itoa. rewrite !(proj2 (Z.ltb_ge _ _)) by lia. exact H. }
    apply Itoa_inj in He; lia.
  - by destruct (Hneg n m Hn Hm).
  - by destruct (Hneg m n Hm Hn).
  - by apply Itoa_inj.
Qed.

(** The characters of a decimal number. *)
Definition num_char (c : ascii) : bool := is_digit c || Ascii.eqb c "-".
Lemma Itoa_chars n x : In x (String.list_ascii_of_string (strconv.Itoa n)) → num_char x = true.
Proof.
  unfold num_char. destruct (Z.lt_ge_cases n 0) as [Hn|Hn].
  - unfold strconv.Itoa. rewrite (proj2 (Z.ltb_lt _ _) Hn). intros [<-|Hx]; [by rewrite orb_true_r|].
    rewrite (all_digits_In _ x (digits_all _ (- n) "" ltac:(lia) eq_refl) Hx). done.
  - intros Hx. by rewrite (all_digits_In _ x (Itoa_digits n Hn) Hx).
Qed.

(** * Joined lists *)

(** Text without a separator. *)
Definition without (sep : ascii) (s : string) : Prop := ∀ x, In x (String.list_ascii_of_string s) → x ≠ sep.

Lemma Split_without sep s : without sep s → strings.Split s sep = [s].
Proof.
  induction s as [|c s IH]; intros Hs; [done|]. cbn [strings.Split].
  destruct (Ascii.eqb_spec c sep) as [->|]; [by destruct (Hs sep); [left|]|].
  rewrite IH; [done|]. intros x Hx. apply Hs. by right.
Qed.

Lemma Split_app sep s t : without sep s → strings.Split (s +:+ String sep t) sep = s :: strings.Split t sep.
Proof.
  induction s as [|c s IH]; intros Hs.
  - rewrite append_empty. cbn [strings.Split]. by rewrite Ascii.eqb_refl.
  - rewrite append_cons. cbn [strings.Split].
    destruct (Ascii.eqb_spec c sep) as [->|]; [by destruct (Hs sep); [left|]|].
    rewrite IH; [done|]. intros x Hx. apply Hs. by right.
Qed.

(** Splitting undoes joining. *)
Lemma Split_Join sep l : l ≠ [] → Forall (without sep) l → strings.Split (strings.Join l (String sep "")) sep = l.
Proof.
  intros Hne Hl. induction Hl as [|s l Hs Hl IH]; [done|]. destruct l as [|s' l'].
  - by apply Split_without.
  - cbn [strings.Join] in *. rewrite append_cons, append_empty, Split_app by done.
    by rewrite IH.
Qed.

Lemma Join_inj sep l l' :
  Forall (λ s, s ≠ "" ∧ without sep s) l → Forall (λ s, s ≠ "" ∧ without sep s) l' →
  strings.Join l (String sep "") = strings.Join l' (String sep "") → l = l'.
Proof.
  intros Hl Hl' H.
  assert (Hnil : ∀ l, Forall (λ s, s ≠ "" ∧ without sep s) l → strings.Join l (String sep "") = "" → l = []).
  { intros [|s [|s' m]] Hm He; [done| |].
    - apply Forall_cons in Hm as [[? _] _]. done.
    - apply Forall_cons in Hm as [[? _] _]. destruct s; done. }
  destruct l as [|s l]; [symmetry; apply Hnil; [done|by rewrite <-H]|].
  destruct l' as [|s' l']; [by apply Hnil|].
  rewrite <-(Split_Join sep (s :: l)), <-(Split_Join sep (s' :: l')), H; try done;
    (eapply Forall_impl; [eassumption|by intros ? []]).
Qed.

(** A prefix and what follows it. *)
Lemma prefix_append s t : String.prefix s (s +:+ t) = true.
Proof.
  induction s as [|c s IH]; [by destruct t|]. rewrite append_cons. simpl.
  by destruct (ascii_dec c c).
Qed.
Lemma drop_bytes_append p s : strings.drop_bytes (String.length p) (p +:+ s) = s.
Proof. induction p as [|c p IH]; [done|exact IH]. Qed.

(** ** Runes *)

(** A string of ASCII bytes has its bytes as runes. *)
Lemma runes_ascii_fuel fuel l :
  (length l ≤ fuel)%nat → Forall (λ b, 0 ≤ b < 128) l → utf8.runes_fuel fuel l = l.
Proof.
  revert l; induction fuel as [|f IH]; intros [|b l] Hlen Hall; try done; [simpl in Hlen; lia|].
  apply Forall_cons in Hall as [Hb Hall]. cbn [length] in Hlen.
  cbn [utf8.runes_fuel]. unfold utf8.DecodeRune, utf8.lead.
  rewrite (proj2 (Z.ltb_lt b 128)) by lia. cbn [drop]. rewrite drop_0, IH by (done || lia). done.
Qed.

Lemma runes_ascii s : Forall (λ b, 0 ≤ b < 128) (bytes s) → utf8.runes s = bytes s.
Proof.
  intros H. apply runes_ascii_fuel; [|done].
  pose proof (length_bytes s). unfold len in *. lia.
Qed.

Lemma bytes_cons c s : bytes (String c s) = byte_val c :: bytes s.
Proof. reflexivity. Qed.
(** A byte that is not ASCII belongs to a rune that is not. *)
Lemma DecodeRune_high b l : 128 ≤ b < 256 → 128 ≤ (utf8.DecodeRune (b :: l)).1.
Proof.
  intros Hb. unfold utf8.DecodeRune, utf8.lead, utf8.RuneError, utf8.is_cont.
  rewrite (proj2 (Z.ltb_ge b 128)) by lia.
  repeat case_match; simplify_eq; cbn [fst]; bool_to_prop;
    Z.to_euclidean_division_equations; lia.
Qed.
Lemma EncodeRune_bytes r : Forall (λ z, 0 ≤ z < 256) (utf8.EncodeRune r).
Proof.
  unfold utf8.EncodeRune. repeat case_match; bool_to_prop; repeat constructor;
    Z.to_euclidean_division_equations; lia.
Qed.
Lemma EncodeRune_high r : ¬ 0 ≤ r < 128 → Forall (λ z, 128 ≤ z < 256) (utf8.EncodeRune r).
Proof.
  intros Hr. unfold utf8.EncodeRune. repeat case_match; bool_to_prop; repeat constructor;
    Z.to_euclidean_division_equations; lia.
Qed.
