(* ===== verification/Task.v ===== *)
(** [internal/task]: the task entity, the [Repository] interface as a family
    of calls, and [Service] (task.go, repository.go, service.go), with the
    validation it does before any call reaches the store. *)

From S2P Require Import Prelude GoStd GoError Uuid.
Local Open Scope Z_scope.

(** * task.go *)
Definition Status := string.
Definition Priority := string.
Definition StatusPending : Status := "pending".
Definition StatusInProgress : Status := "in_progress".
Definition StatusDone : Status := "done".
Definition StatusCancelled : Status := "cancelled".
Definition PriorityLow : Priority := "low".
Definition PriorityMedium : Priority := "medium".
Definition PriorityHigh : Priority := "high".

Record Task := {
  task_ID : string;
  task_Title : string;
  task_Description : string;
  task_Status : Status;
  task_Priority : Priority;
  task_CreatedAt : Z;
  task_UpdatedAt : Z;
  task_UserID : string;
  task_Version : Z;
}.

#[export] Instance Task_eq_dec : EqDecision Task.
Proof. solve_decision. Defined.

(** * repository.go: the calls of [Repository] *)
Inductive repoE : Type → Type :=
| Create (task : Task) : repoE (option error)
| FindByID (id userID : string) : repoE (result Task)
| FindAll (userID : string) (limit offset : Z) (statuses : list Status)
    (priorities : list Priority) : repoE (result (list Task))
| Update (task : Task) : repoE (option error)
| Delete (id userID : string) : repoE (option error)
| CountAll (userID : string) (statuses : list Status) (priorities : list Priority)
    : repoE (result Z)
| CountByStatusAndPriority (userID : string) (statuses : list Status)
    (priorities : list Priority) : repoE (result (gmap string Z * gmap string Z)).

(** What the service calls: the environment and a repository. *)
Definition taskE : Type → Type := sumE envE repoE.

(** * service.go *)
Definition maxTitleLen : Z := 200.
Definition maxDescriptionLen : Z := 2000.
Definition maxFilterValues : Z := 50.
Definition maxExportRows : Z := 10000.

Definition legalTransitions : gmap string (gmap string bool) :=
  {[ StatusPending := {[ StatusInProgress := true; StatusDone := true; StatusCancelled := true ]};
     StatusInProgress := {[ StatusPending := true; StatusDone := true; StatusCancelled := true ]};
     StatusDone := {[ StatusPending := true; StatusInProgress := true ]};
     StatusCancelled := {[ StatusPending := true ]} ]}.

Definition validStatuses : gmap string bool :=
  {[ StatusPending := true; StatusInProgress := true; StatusDone := true; StatusCancelled := true ]}.

Definition validPriorities : gmap string bool :=
  {[ PriorityLow := true; PriorityMedium := true; PriorityHigh := true ]}.

(** Indexing a Go map of booleans: absent keys read [false]. *)
Definition mem (m : gmap string bool) (k : string) : bool := default false (m !! k).
Definition legal (from to : Status) : bool := mem (default ∅ (legalTransitions !! from)) to.

Definition newID {E} `{!Subevent envE E} : prog E (result string) :=
  newID_with "failed to generate task ID".

Definition validateTitleAndDescription `{Sanitize} (title description : string)
    : result (string * string) :=
  let title := PlainText title in
  let description := strings.TrimSpace (StripControlChars description) in
  if String.eqb title "" then Err (detail (ErrInvalidInput task_pkg) "title must not be empty")
  else if maxTitleLen <? utf8.RuneCountInString title then
    Err (detail (ErrInvalidInput task_pkg)
      ("title must be at most " +:+ strconv.Itoa maxTitleLen +:+ " characters"))
  else if maxDescriptionLen <? utf8.RuneCountInString description then
    Err (detail (ErrInvalidInput task_pkg)
      ("description must be at most " +:+ strconv.Itoa maxDescriptionLen +:+ " characters"))
  else Ok (title, description).

Definition validatePriority (priority : string) (fallback : Priority) : result Priority :=
  if String.eqb priority "" then Ok fallback
  else if negb (mem validPriorities priority) then
    Err (detail (ErrInvalidInput task_pkg) "priority must be one of low, medium, high")
  else Ok priority.

(** The loop both filter validations run: [seen] and [out] are its state. *)
Fixpoint filterLoop (valid : gmap string bool) (msg : string) (raws : list string)
    (seen : gmap string bool) (out : list string) : result (list string) :=
  match raws with
  | [] => Ok out
  | raw :: raws' =>
      if String.eqb raw "" then filterLoop valid msg raws' seen out
      else if negb (mem valid raw) then Err (detail (ErrInvalidInput task_pkg) msg)
      else if mem seen raw then filterLoop valid msg raws' seen out
      else filterLoop valid msg raws' (<[raw := true]> seen) (out ++ [raw])
  end.

Definition validateStatusFilters (statuses : list string) : result (list Status) :=
  if maxFilterValues <? Z.of_nat (length statuses) then
    Err (detail (ErrInvalidInput task_pkg) "too many status values")
  else filterLoop validStatuses
    "status must be one of pending, in_progress, done, cancelled" statuses ∅ [].

Definition validatePriorityFilters (priorities : list string) : result (list Priority) :=
  if maxFilterValues <? Z.of_nat (length priorities) then
    Err (detail (ErrInvalidInput task_pkg) "too many priority values")
  else filterLoop validPriorities
    "priority must be one of low, medium, high" priorities ∅ [].

Record TaskStatsResult := {
  stats_Total : Z;
  stats_ByStatus : gmap string Z;
  stats_ByPriority : gmap string Z;
}.

(** The sum of a map's values: [for _, count := range byStatus]. *)
Definition sum_counts (m : gmap string Z) : Z := map_fold (λ _ c total, total + c) 0 m.

Section Service.
Context `{Sanitize, unicode.Tables}.
Local Open Scope prog_scope.

Definition CreateTask (userID title description priority : string)
    : prog taskE (result Task) :=
  let! (title, description) := validateTitleAndDescription title description onerr id in
  let! p := validatePriority priority PriorityMedium onerr id in
  let? id := newID onerr (wrap "create task") in
  now ← trigger Now;
  let task := {| task_ID := id; task_UserID := userID; task_Title := title;
                 task_Description := description; task_Status := StatusPending;
                 task_Priority := p; task_CreatedAt := now; task_UpdatedAt := now;
                 task_Version := 0 |} in
  do? trigger (Create task) onerr (wrap "create task") in
  mret (Ok task).

Definition GetTask (userID id : string) : prog taskE (result Task) :=
  if negb (isValidID id) then mret (Err (ErrNotFound task_pkg))
  else
    let? task := trigger (FindByID id userID) onerr (wrap "get task") in
    mret (Ok task).

Definition ListTasks (userID : string) (limit offset : Z) (statuses priorities : list string)
    : prog taskE (result (list Task * Z)) :=
  let! st := validateStatusFilters statuses onerr id in
  let! p := validatePriorityFilters priorities onerr id in
  let? tasks := trigger (FindAll userID limit offset st p) onerr (wrap "list tasks") in
  let? total := trigger (CountAll userID st p) onerr (wrap "list tasks: count") in
  mret (Ok (tasks, total)).

Definition TaskStats (userID : string) (statuses priorities : list string)
    : prog taskE (result TaskStatsResult) :=
  let! st := validateStatusFilters statuses onerr id in
  let! p := validatePriorityFilters priorities onerr id in
  let? (byStatus, byPriority) := trigger (CountByStatusAndPriority userID st p)
    onerr (wrap "task stats") in
  mret (Ok {| stats_Total := sum_counts byStatus; stats_ByStatus := byStatus;
              stats_ByPriority := byPriority |}).

Definition ExportTasks (userID : string) (statuses priorities : list string)
    : prog taskE (result (list Task)) :=
  let! st := validateStatusFilters statuses onerr id in
  let! p := validatePriorityFilters priorities onerr id in
  let? total := trigger (CountAll userID st p) onerr (wrap "export tasks: count") in
  if maxExportRows <? total then
    mret (Err (detail (ErrInvalidInput task_pkg)
      (strconv.Itoa total +:+ " tasks match this filter, more than the "
       +:+ strconv.Itoa maxExportRows +:+ "-row export limit; narrow the filter")))
  else
    let? tasks := trigger (FindAll userID (-1) 0 st p) onerr (wrap "export tasks") in
    mret (Ok tasks).

Definition UpdateTask (userID id title description priority : string)
    : prog taskE (result Task) :=
  if negb (isValidID id) then mret (Err (ErrNotFound task_pkg))
  else
    let! (title, description) := validateTitleAndDescription title description onerr Datatypes.id in
    let? task := trigger (FindByID id userID) onerr (wrap "update task") in
    let! p := validatePriority priority task.(task_Priority) onerr Datatypes.id in
    now ← trigger Now;
    let task := {| task_ID := task.(task_ID); task_UserID := task.(task_UserID);
                   task_Title := title; task_Description := description;
                   task_Status := task.(task_Status); task_Priority := p;
                   task_CreatedAt := task.(task_CreatedAt); task_UpdatedAt := now;
                   task_Version := task.(task_Version) |} in
    do? trigger (Update task) onerr (wrap "update task") in
    mret (Ok task).

Definition DeleteTask (userID id : string) : prog taskE (option error) :=
  if negb (isValidID id) then mret (Some (Sentinel (ErrNotFound task_pkg)))
  else
    r ← trigger (Delete id userID);
    match r with
    | Some e => mret (Some (wrap "delete task" e))
    | None => mret None
    end.

Definition TransitionStatus (userID id : string) (target : Status)
    : prog taskE (result Task) :=
  if negb (isValidID id) then mret (Err (ErrNotFound task_pkg))
  else if negb (mem validStatuses target) then
    mret (Err (detail (ErrInvalidInput task_pkg) ("unknown status " +:+ quote.Quote target)))
  else
    let? task := trigger (FindByID id userID) onerr (wrap "transition status") in
    if String.eqb task.(task_Status) target then mret (Ok task)
    else if negb (legal task.(task_Status) target) then
      mret (Err (detail ErrInvalidTransition
        ("cannot move from " +:+ quote.Quote task.(task_Status) +:+ " to " +:+ quote.Quote target)))
    else
      now ← trigger Now;
      let task := {| task_ID := task.(task_ID); task_UserID := task.(task_UserID);
                     task_Title := task.(task_Title);
                     task_Description := task.(task_Description);
                     task_Status := target; task_Priority := task.(task_Priority);
                     task_CreatedAt := task.(task_CreatedAt); task_UpdatedAt := now;
                     task_Version := task.(task_Version) |} in
      do? trigger (Update task) onerr (wrap "transition status") in
      mret (Ok task).

Definition CompleteTask (userID id : string) : prog taskE (result Task) :=
  let? task := TransitionStatus userID id StatusDone onerr (wrap "complete task") in
  mret (Ok task).
End Service.
