(* ===== verification/TaskMemory.v ===== *)
(** [internal/task/memory_repository.go]: the in-memory [Repository].  Each
    operation takes what [ctx.Err()] answers and the state of the map, and is
    atomic, as it holds the mutex for its whole body.  Operations that range
    over the map also take the order in which they do. *)

From S2P Require Import Prelude GoStd GoError Task.
Local Open Scope Z_scope.

(** [r.store]. *)
Abbreviation store := (gmap string Task).

Definition NewMemoryRepository : store := ∅.

Definition mCreate (ctx : option error) (task : Task) (s : store) : store * option error :=
  match ctx with
  | Some e => (s, Some e)
  | None =>
      match s !! task.(task_ID) with
      | Some _ => (s, Some (Sentinel (ErrAlreadyExists task_pkg)))
      | None =>
          let task := {| task_ID := task.(task_ID); task_Title := task.(task_Title);
                         task_Description := task.(task_Description);
                         task_Status := task.(task_Status); task_Priority := task.(task_Priority);
                         task_CreatedAt := task.(task_CreatedAt);
                         task_UpdatedAt := task.(task_UpdatedAt);
                         task_UserID := task.(task_UserID); task_Version := 1 |} in
          (<[task.(task_ID) := task]> s, None)
      end
  end.

Definition mFindByID (ctx : option error) (id userID : string) (s : store) : result Task :=
  match ctx with
  | Some e => Err e
  | None =>
      match s !! id with
      | Some task =>
          if String.eqb task.(task_UserID) userID then Ok task
          else Err (ErrNotFound task_pkg)
      | None => Err (ErrNotFound task_pkg)
      end
  end.

(** No wanted value means any value. *)
Definition matchesAny (value : string) (wanted : list string) : bool :=
  match wanted with
  | [] => true
  | _ => existsb (String.eqb value) wanted
  end.

(** The conditions under which the loops do not [continue]. *)
Definition selects (userID : string) (statuses : list Status) (priorities : list Priority)
    (task : Task) : bool :=
  String.eqb task.(task_UserID) userID && matchesAny task.(task_Status) statuses
  && matchesAny task.(task_Priority) priorities.

(** The comparison of [sort.Slice]: creation time, then ID. *)
Definition task_less (a b : Task) : bool :=
  if negb (time.Equal a.(task_CreatedAt) b.(task_CreatedAt))
  then time.Before a.(task_CreatedAt) b.(task_CreatedAt)
  else strings.less a.(task_ID) b.(task_ID).

(** [None] is the panic of slicing at a negative offset. *)
Definition paginateTasks (tasks : list Task) (limit offset : Z) : option (list Task) :=
  if Z.of_nat (length tasks) <=? offset then Some []
  else if offset <? 0 then None
  else
    let tasks := drop (Z.to_nat offset) tasks in
    if (0 <=? limit) && (limit <? Z.of_nat (length tasks))
    then Some (take (Z.to_nat limit) tasks) else Some tasks.

Definition mFindAll (ctx : option error) (it : list (string * Task)) (userID : string)
    (limit offset : Z) (statuses : list Status) (priorities : list Priority)
    : result (list Task) :=
  match ctx with
  | Some e => Err e
  | None =>
      let tasks := base.filter (λ t, selects userID statuses priorities t = true) (values it) in
      match paginateTasks (sort_slice task_less tasks) limit offset with
      | Some page => Ok page
      | None => Err (Panic "slice bounds out of range")
      end
  end.

Definition mCountAll (ctx : option error) (it : list (string * Task)) (userID : string)
    (statuses : list Status) (priorities : list Priority) : result Z :=
  match ctx with
  | Some e => Err e
  | None =>
      Ok (fold_left (λ count t, if selects userID statuses priorities t then count + 1 else count)
            (values it) 0)
  end.

(** [m[k]++]. *)
Definition incr (k : string) (m : gmap string Z) : gmap string Z :=
  <[k := default 0 (m !! k) + 1]> m.

Definition zeroByStatus : gmap string Z :=
  {[ StatusPending := 0; StatusInProgress := 0; StatusDone := 0; StatusCancelled := 0 ]}.
Definition zeroByPriority : gmap string Z :=
  {[ PriorityLow := 0; PriorityMedium := 0; PriorityHigh := 0 ]}.

#[global] Arguments zeroByStatus : simpl never.
#[global] Arguments zeroByPriority : simpl never.

Definition mCountByStatusAndPriority (ctx : option error) (it : list (string * Task))
    (userID : string) (statuses : list Status) (priorities : list Priority)
    : result (gmap string Z * gmap string Z) :=
  match ctx with
  | Some e => Err e
  | None =>
      Ok (fold_left
            (λ '(byStatus, byPriority) t,
               if selects userID statuses priorities t
               then (incr t.(task_Status) byStatus, incr t.(task_Priority) byPriority)
               else (byStatus, byPriority))
            (values it) (zeroByStatus, zeroByPriority))
  end.

Definition mUpdate (ctx : option error) (task : Task) (s : store) : store * option error :=
  match ctx with
  | Some e => (s, Some e)
  | None =>
      match s !! task.(task_ID) with
      | None => (s, Some (Sentinel (ErrNotFound task_pkg)))
      | Some stored =>
          if negb (String.eqb stored.(task_UserID) task.(task_UserID))
          then (s, Some (Sentinel (ErrNotFound task_pkg)))
          else if negb (task.(task_Version) =? stored.(task_Version))
          then (s, Some (Sentinel ErrConflict))
          else
            let task := {| task_ID := task.(task_ID); task_Title := task.(task_Title);
                           task_Description := task.(task_Description);
                           task_Status := task.(task_Status);
                           task_Priority := task.(task_Priority);
                           task_CreatedAt := stored.(task_CreatedAt);
                           task_UpdatedAt := task.(task_UpdatedAt);
                           task_UserID := task.(task_UserID);
                           task_Version := stored.(task_Version) + 1 |} in
            (<[task.(task_ID) := task]> s, None)
      end
  end.

Definition mDelete (ctx : option error) (id userID : string) (s : store)
    : store * option error :=
  match ctx with
  | Some e => (s, Some e)
  | None =>
      match s !! id with
      | None => (s, Some (Sentinel (ErrNotFound task_pkg)))
      | Some stored =>
          if negb (String.eqb stored.(task_UserID) userID)
          then (s, Some (Sentinel (ErrNotFound task_pkg)))
          else (delete id s, None)
      end
  end.

(** The repository as an implementation of the interface's calls: every call
    first asks the context, then acts on the map. *)
Definition handle_mem `{MapIteration} : handler repoE (Env * store) := λ X e '(env, s),
  let '(env, ctx) := handle_env _ CtxErr env in
  let '(env, seed) := handle_env _ MapSeed env in
  let it := range_with seed s in
  match e in repoE X return (Env * store) * X with
  | Create t => let '(s, r) := mCreate ctx t s in ((env, s), r)
  | FindByID id u => ((env, s), mFindByID ctx id u s)
  | FindAll u l o st p => ((env, s), mFindAll ctx it u l o st p)
  | Update t => let '(s, r) := mUpdate ctx t s in ((env, s), r)
  | Delete id u => let '(s, r) := mDelete ctx id u s in ((env, s), r)
  | CountAll u st p => ((env, s), mCountAll ctx it u st p)
  | CountByStatusAndPriority u st p => ((env, s), mCountByStatusAndPriority ctx it u st p)
  end.
