(* ===== verification/TaskSpec.v ===== *)
(** What a task [Repository] promises, whichever store is behind it
    (repository.go): an abstract specification of its calls over a map from
    identifiers to tasks, the class of the implementations that meet it, and the
    proof that the in-memory repository does. *)

From S2P Require Import Prelude GoStd GoError Task TaskMemory.
Local Open Scope Z_scope.

(** The task [u] sees under [id]: its own. *)
Definition owned (m : store) (u id : string) : option Task :=
  match m !! id with
  | Some t => if String.eqb t.(task_UserID) u then Some t else None
  | None => None
  end.

(** Tasks are stored under their own identifier. *)
Definition wf_store (m : store) : Prop := ∀ k t, m !! k = Some t → t.(task_ID) = k.

(** The sentinels [Service] and [Handler] tell apart. *)
Definition task_sentinels : list sentinel :=
  [ErrNotFound task_pkg; ErrAlreadyExists task_pkg; ErrInvalidInput task_pkg; ErrConflict;
   ErrInvalidTransition].
(** A failure of the store or of the request, not an answer about a task. *)
Definition foreign (e : error) : bool := forallb (λ s, negb (Is e s)) task_sentinels.

Definition with_version (v : Z) (t : Task) : Task :=
  {| task_ID := t.(task_ID); task_Title := t.(task_Title);
     task_Description := t.(task_Description); task_Status := t.(task_Status);
     task_Priority := t.(task_Priority); task_CreatedAt := t.(task_CreatedAt);
     task_UpdatedAt := t.(task_UpdatedAt); task_UserID := t.(task_UserID);
     task_Version := v |}.

(** What an update of [stored] with [t] leaves in the store. *)
Definition saved (stored t : Task) : Task :=
  {| task_ID := t.(task_ID); task_Title := t.(task_Title);
     task_Description := t.(task_Description); task_Status := t.(task_Status);
     task_Priority := t.(task_Priority); task_CreatedAt := stored.(task_CreatedAt);
     task_UpdatedAt := t.(task_UpdatedAt); task_UserID := t.(task_UserID);
     task_Version := stored.(task_Version) + 1 |}.

(** The tasks of [u] that a filter selects, in no particular order. *)
Definition selected (m : store) (u : string) (st pr : list string) : list Task :=
  base.filter (λ t, selects u st pr t = true) (values (map_to_list m)).

(** The full listing: every selected task once, oldest first. *)
Definition is_listing (m : store) (u : string) (st pr : list string) (l : list Task) : Prop :=
  l ≡ₚ selected m u st pr ∧ StronglySorted (in_order task_less) l.

(** How often each key occurs, on top of [z]. *)
Definition tally (z : gmap string Z) (ks : list string) : gmap string Z :=
  fold_left (λ m k, incr k m) ks z.

Definition repo_spec {X} (e : repoE X) (m m' : store) : X → Prop :=
  match e in repoE X return X → Prop with
  | Create t => λ r,
      match r with
      | None => m !! t.(task_ID) = None ∧ m' = <[t.(task_ID) := with_version 1 t]> m
      | Some e => m' = m ∧
          (e = ErrAlreadyExists task_pkg ∧ is_Some (m !! t.(task_ID)) ∨ foreign e = true)
      end
  | FindByID id u => λ r, m' = m ∧
      match r with
      | Ok t => owned m u id = Some t
      | Err e => e = ErrNotFound task_pkg ∧ owned m u id = None ∨ foreign e = true
      end
  | FindAll u limit offset st pr => λ r, m' = m ∧
      match r with
      | Ok page => ∃ l, is_listing m u st pr l ∧ paginateTasks l limit offset = Some page
      | Err e => foreign e = true
      end
  | Update t => λ r,
      match r with
      | None => ∃ t0, owned m t.(task_UserID) t.(task_ID) = Some t0 ∧
          t0.(task_Version) = t.(task_Version) ∧ m' = <[t.(task_ID) := saved t0 t]> m
      | Some e => m' = m ∧
          (e = ErrNotFound task_pkg ∧ owned m t.(task_UserID) t.(task_ID) = None ∨
           e = ErrConflict ∧
             (∃ t0, owned m t.(task_UserID) t.(task_ID) = Some t0 ∧
                    t0.(task_Version) ≠ t.(task_Version)) ∨
           foreign e = true)
      end
  | Delete id u => λ r,
      match r with
      | None => is_Some (owned m u id) ∧ m' = delete id m
      | Some e => m' = m ∧
          (e = ErrNotFound task_pkg ∧ owned m u id = None ∨ foreign e = true)
      end
  | CountAll u st pr => λ r, m' = m ∧
      match r with
      | Ok n => n = Z.of_nat (length (selected m u st pr))
      | Err e => foreign e = true
      end
  | CountByStatusAndPriority u st pr => λ r, m' = m ∧
      match r with
      | Ok (bs, bp) => ∃ l, l ≡ₚ selected m u st pr ∧
          bs = tally zeroByStatus (map task_Status l) ∧
          bp = tally zeroByPriority (map task_Priority l)
      | Err e => foreign e = true
      end
  end.

(** An implementation of [Repository]: its state shows a map of tasks, and every
    call acts on that map as specified. *)
Class TaskRepository {S : Type} (h : handler repoE S) := {
  repo_view : S → store;
  repo_inv : S → Prop;
  repo_wf : ∀ s, repo_inv s → wf_store (repo_view s);
  repo_step_inv : ∀ X (e : repoE X) s, repo_inv s → repo_inv (h X e s).1;
  repo_sound : ∀ X (e : repoE X) s, repo_inv s →
    repo_spec e (repo_view s) (repo_view (h X e s).1) (h X e s).2;
}.

(** * The in-memory repository meets the specification *)

Lemma owned_Some m u id t :
  owned m u id = Some t ↔ m !! id = Some t ∧ t.(task_UserID) = u.
Proof.
  unfold owned. destruct (m !! id) as [t'|]; [|naive_solver].
  destruct (String.eqb_spec (task_UserID t') u); naive_solver.
Qed.

Lemma owned_None m u id :
  owned m u id = None ↔ ∀ t, m !! id = Some t → t.(task_UserID) ≠ u.
Proof.
  unfold owned. destruct (m !! id) as [t'|]; [|naive_solver].
  destruct (String.eqb_spec (task_UserID t') u); naive_solver.
Qed.

Lemma owned_insert_ne m u id k t : id ≠ k → owned (<[k := t]> m) u id = owned m u id.
Proof. intros. unfold owned. by rewrite lookup_insert_ne. Qed.

Lemma foreign_ctx c e : ctx_error c = Some e → foreign e = true.
Proof. destruct c; simpl; intros; simplify_eq; reflexivity. Qed.

Lemma foreign_Is e s : foreign e = true → s ∈ task_sentinels → Is e s = false.
Proof.
  unfold foreign. rewrite forallb_forall. intros H Hs.
  apply list_elem_of_In, H in Hs. by apply negb_true_iff.
Qed.

#[export] Instance task_less_weak : StrictWeak task_less.
Proof. exact (time_then_name_weak task_CreatedAt task_ID). Qed.

(** Tasks the comparison does not separate have the same identifier. *)
Lemma task_less_separates a b :
  in_order task_less a b → in_order task_less b a → a.(task_ID) = b.(task_ID).
Proof.
  unfold in_order, task_less, time.Equal, time.Before.
  destruct (Z.eqb_spec b.(task_CreatedAt) a.(task_CreatedAt)),
    (Z.eqb_spec a.(task_CreatedAt) b.(task_CreatedAt)); simpl;
    rewrite ?less_false, ?Z.ltb_ge; try lia.
  intros. by apply (anti_symm String.le).
Qed.

Lemma values_perm {A} (m : gmap string A) it :
  range_of m it → values it ≡ₚ values (map_to_list m).
Proof. intros H. unfold values. by rewrite H. Qed.

Lemma selected_perm m it u st pr :
  range_of m it → base.filter (λ t, selects u st pr t = true) (values it) ≡ₚ selected m u st pr.
Proof. intros H. unfold selected. by rewrite (values_perm m it H). Qed.

Lemma count_fold (f : Task → bool) l n :
  fold_left (λ count t, if f t then count + 1 else count) l n
  = n + Z.of_nat (length (base.filter (λ t, f t = true) l)).
Proof.
  revert n; induction l as [|t l IH]; intros n; simpl; [lia|].
  rewrite IH. destruct (f t) eqn:E.
  - rewrite filter_cons_True by done. simpl. lia.
  - rewrite filter_cons_False by by rewrite E. done.
Qed.

Lemma tally_fold (f : Task → bool) l bs bp :
  fold_left (λ '(bs, bp) t, if f t then (incr t.(task_Status) bs, incr t.(task_Priority) bp)
                            else (bs, bp)) l (bs, bp)
  = (tally bs (map task_Status (base.filter (λ t, f t = true) l)),
     tally bp (map task_Priority (base.filter (λ t, f t = true) l))).
Proof.
  revert bs bp; induction l as [|t l IH]; intros bs bp; simpl; [done|].
  destruct (f t) eqn:E.
  - rewrite filter_cons_True by done. by rewrite IH.
  - rewrite filter_cons_False by by rewrite E. by rewrite IH.
Qed.

Section memory.
Context `{MapIteration}.

Lemma mem_sound X (e : repoE X) w :
  wf_store w.2 → repo_spec e w.2 (handle_mem X e w).1.2 (handle_mem X e w).2.
Proof.
  destruct w as [env s]. intros Hwf. unfold handle_mem; simpl.
  destruct (pop Live (env_ctx env)) as [c l]; simpl.
  destruct (pop 0%nat (env_seed env)) as [seed l']; simpl.
  pose proof (range_with_of seed s) as Hit. set (it := range_with seed s) in *.
  destruct e; simpl; unfold mCreate, mFindByID, mFindAll, mUpdate, mDelete, mCountAll,
    mCountByStatusAndPriority; destruct (ctx_error c) as [err|] eqn:Hc; simpl;
    try (by eauto using foreign_ctx).
  - destruct (s !! task_ID task) eqn:E; simpl; [|done]. split; [done|]. left. by eauto.
  - split; [done|]. unfold owned. destruct (s !! id) as [t|]; [|by left].
    destruct (String.eqb (task_UserID t) userID); [done|by left].
  - pose proof (selected_perm s it userID statuses priorities Hit) as Hsel.
    destruct (paginateTasks _ limit offset) as [page|] eqn:E; [|done].
    split; [done|]. eexists. split; [|exact E]. split.
    + by rewrite sort_slice_perm.
    + apply sort_slice_sorted. apply _.
  - destruct (s !! task_ID task) as [t0|] eqn:E; simpl.
    2:{ split; [done|]. left. split; [done|]. unfold owned. by rewrite E. }
    destruct (String.eqb_spec (task_UserID t0) (task_UserID task)) as [Hu|Hu]; simpl.
    2:{ split; [done|]. left. split; [done|]. apply owned_None. naive_solver. }
    destruct (Z.eqb_spec (task_Version task) (task_Version t0)) as [Hv|Hv]; simpl.
    + exists t0. split; [by apply owned_Some|]. split; [done|]. done.
    + split; [done|]. right; left. split; [done|]. exists t0.
      split; [by apply owned_Some|]. congruence.
  - destruct (s !! id) as [t0|] eqn:E; simpl.
    2:{ split; [done|]. left. split; [done|]. unfold owned. by rewrite E. }
    destruct (String.eqb_spec (task_UserID t0) userID) as [Hu|Hu]; simpl.
    + split; [|done]. exists t0. by apply owned_Some.
    + split; [done|]. left. split; [done|]. apply owned_None. naive_solver.
  - split; [done|]. rewrite count_fold. by rewrite (selected_perm s it).
  - split; [done|]. rewrite tally_fold. eexists. split; [by apply selected_perm|]. done.
Qed.

Lemma mem_wf X (e : repoE X) w : wf_store w.2 → wf_store (handle_mem X e w).1.2.
Proof.
  intros Hwf. pose proof (mem_sound X e w Hwf) as Hs.
  destruct e; simpl in Hs;
    repeat match goal with
    | H : match ?r with _ => _ end |- _ => destruct r
    | H : _ ∧ _ |- _ => destruct H
    | H : ∃ _, _ |- _ => destruct H
    end;
    match goal with H : _ = _ |- wf_store _ => rewrite H end;
    intros k t; rewrite ?lookup_insert, ?lookup_delete;
    try case_decide; intros; simplify_eq; simpl; eauto.
Qed.

#[export] Instance memory_repository : TaskRepository handle_mem.
Proof.
  refine {| repo_view := snd; repo_inv := λ w, wf_store w.2 |}.
  - done.
  - intros. by apply mem_wf.
  - intros. by apply mem_sound.
Defined.
End memory.
