(* ===== verification/TaskService.v ===== *)
(** What [task.Service] does over any repository that meets the specification
    of [TaskSpec]: the sequential behaviour of its methods on every branch. *)

From S2P Require Import Prelude GoStd GoError Uuid Task TaskMemory TaskSpec.
Local Open Scope Z_scope.

(** The task after a legal move and after an edit. *)
Definition moved (t : Task) (target : Status) (now : Z) : Task :=
  {| task_ID := t.(task_ID); task_Title := t.(task_Title);
     task_Description := t.(task_Description); task_Status := target;
     task_Priority := t.(task_Priority); task_CreatedAt := t.(task_CreatedAt);
     task_UpdatedAt := now; task_UserID := t.(task_UserID);
     task_Version := t.(task_Version) |}.

Definition edited (t : Task) (title description : string) (p : Priority) (now : Z) : Task :=
  {| task_ID := t.(task_ID); task_Title := title; task_Description := description;
     task_Status := t.(task_Status); task_Priority := p;
     task_CreatedAt := t.(task_CreatedAt); task_UpdatedAt := now;
     task_UserID := t.(task_UserID); task_Version := t.(task_Version) |}.

Lemma foreign_wrap ctx e : foreign (wrap ctx e) = foreign e.
Proof. reflexivity. Qed.
#[export] Hint Rewrite foreign_wrap : go_rw.

(** * Filter validation *)

Definition nonempty (s : string) : bool := negb (String.eqb s "").

(** The values of [raws] that are not empty and not in [seen], first
    occurrences only, in order. *)
Fixpoint distinct (raws seen : list string) : list string :=
  match raws with
  | [] => []
  | r :: raws' =>
      if String.eqb r "" || bool_decide (r ∈ seen) then distinct raws' seen
      else r :: distinct raws' (r :: seen)
  end.

Definition seen_as (l : list string) (m : gmap string bool) : Prop :=
  ∀ k, mem m k = bool_decide (k ∈ l).

Lemma filterLoop_ok valid msg raws seen out l :
  seen_as l seen →
  filterLoop valid msg raws seen out =
  if forallb (λ r, String.eqb r "" || mem valid r) raws
  then Ok (out ++ distinct raws l) else Err (detail (ErrInvalidInput task_pkg) msg).
Proof.
  revert seen out l; induction raws as [|r raws IH]; intros seen out l Hs; simpl.
  { by rewrite app_nil_r. }
  destruct (String.eqb r "") eqn:He; simpl; [by apply IH|].
  destruct (mem valid r); simpl; [|done].
  rewrite (Hs r). case_bool_decide as Hin; [by apply IH|].
  rewrite (IH _ _ (r :: l)).
  - by rewrite <-app_assoc.
  - intros k. unfold mem. rewrite lookup_insert. case_decide as Hk; simpl.
    + subst. symmetry. apply bool_decide_eq_true. set_solver.
    + change (default false (seen !! k)) with (mem seen k). rewrite (Hs k).
      apply bool_decide_ext. set_solver.
Qed.

Lemma elem_of_distinct raws l k :
  k ∈ distinct raws l ↔ k ∈ raws ∧ k ≠ "" ∧ k ∉ l.
Proof.
  revert l; induction raws as [|r raws IH]; intros l; simpl; [set_solver|].
  destruct (String.eqb_spec r ""); simpl; [subst; rewrite IH; set_solver|].
  case_bool_decide; rewrite ?elem_of_cons, IH; [set_solver|].
  destruct (decide (k = r)); set_solver.
Qed.

Lemma NoDup_distinct raws l : NoDup (distinct raws l).
Proof.
  revert l; induction raws as [|r raws IH]; intros l; simpl; [constructor|].
  case_match; [done|]. constructor; [|done]. rewrite elem_of_distinct. set_solver.
Qed.

Lemma seen_empty : seen_as [] ∅.
Proof. intros k. unfold mem. rewrite lookup_empty. done. Qed.

(** A validated filter. *)
Lemma filterLoop_spec valid msg raws out :
  filterLoop valid msg raws ∅ [] = Ok out →
  NoDup out ∧ (∀ k, k ∈ out ↔ k ∈ raws ∧ k ≠ "") ∧ Forall (λ k, mem valid k = true) out.
Proof.
  rewrite (filterLoop_ok _ _ _ _ _ []) by apply seen_empty.
  destruct (forallb _ raws) eqn:Hall; [|done]. intros [= <-]. simpl.
  split; [apply NoDup_distinct|]. split.
  - intros k. rewrite elem_of_distinct. set_solver.
  - apply Forall_forall. intros k Hk. apply elem_of_distinct in Hk as (Hin & Hne & _).
    rewrite forallb_forall in Hall. apply list_elem_of_In, Hall in Hin.
    apply orb_true_iff in Hin as [H|H]; [|done]. by apply String.eqb_eq in H.
Qed.

(** A duplicate-free list drawn from a map's keys is no longer than the map. *)
Lemma filter_bound (valid : gmap string bool) out :
  NoDup out → Forall (λ k, mem valid k = true) out → (length out ≤ size valid)%nat.
Proof.
  intros Hnd Hv. rewrite <-size_dom.
  rewrite <-(size_list_to_set (C := gset string) out) by done.
  apply subseteq_size. intros k Hk. apply elem_of_list_to_set in Hk.
  rewrite Forall_forall in Hv. specialize (Hv k Hk). unfold mem in Hv.
  apply elem_of_dom. destruct (valid !! k); [eauto|done].
Qed.

(** * Methods *)
Section methods.
Context `{Sanitize, unicode.Tables} {S : Type} (h : handler repoE S) `{!TaskRepository h}.

Abbreviation svc := (handle_sum handle_env h).

Lemma call_sound X (e : repoE X) s s' r :
  repo_inv s → h X e s = (s', r) →
  repo_inv s' ∧ repo_spec e (repo_view s) (repo_view s') r.
Proof.
  intros Hi E. pose proof (repo_step_inv X e s Hi). pose proof (repo_sound X e s Hi).
  by rewrite E in *.
Qed.

Lemma owned_lookup s u id t :
  repo_inv s → owned (repo_view s) u id = Some t →
  t.(task_ID) = id ∧ t.(task_UserID) = u ∧ repo_view s !! id = Some t.
Proof.
  intros Hi Ho. apply owned_Some in Ho as [Hl Hu].
  by pose proof (repo_wf _ Hi _ _ Hl).
Qed.
End methods.

(** Run the next repository call of a method. *)
Ltac repo_call :=
  match goal with
  | |- context [?h ?X ?e ?s] =>
      match type of e with
      | repoE _ =>
          let s' := fresh "s" in let r := fresh "r" in let E := fresh "E" in
          let Hi := fresh "Hi" in let Hs := fresh "Hspec" in
          destruct (h X e s) as [s' r] eqn:E;
          match goal with
          | HI : repo_inv s |- _ => pose proof (call_sound h X e s s' r HI E) as [Hi Hs]; cbn in Hs
          end
      end
  end.

(** Split the specification of a call by its answer. *)
Ltac split_spec :=
  repeat match goal with
  | H : _ ∧ _ |- _ => destruct H
  | H : _ ∨ _ |- _ => destruct H
  | H : ∃ _, _ |- _ => destruct H
  end.

Section transition.
Context `{Sanitize, unicode.Tables} {S : Type} (h : handler repoE S) `{!TaskRepository h}.
Abbreviation svc := (handle_sum handle_env h).

Lemma TransitionStatus_spec env s u id target :
  repo_inv s →
  let '(w, r) := run svc (TransitionStatus u id target) (env, s) in
  let m := repo_view s in let m' := repo_view w.2 in
  repo_inv w.2 ∧
  match r with
  | Ok t => isValidID id = true ∧ ∃ t0, owned m u id = Some t0 ∧
      (t0.(task_Status) = target ∧ t = t0 ∧ m' = m ∨
       t0.(task_Status) ≠ target ∧ legal t0.(task_Status) target = true ∧
       ∃ now, t = moved t0 target now ∧
              m' = <[id := with_version (t0.(task_Version) + 1) t]> m)
  | Err e => m' = m ∧
      (foreign e = true ∨
       Is e (ErrNotFound task_pkg) = true ∧ (isValidID id = false ∨ owned m u id = None) ∨
       Is e (ErrInvalidInput task_pkg) = true ∧ mem validStatuses target = false ∨
       Is e ErrInvalidTransition = true ∧
         ∃ t0, owned m u id = Some t0 ∧ t0.(task_Status) ≠ target ∧
               legal t0.(task_Status) target = false)
  end.
Proof.
  intros Hinv. unfold TransitionStatus.
  destruct (isValidID id) eqn:Hid; simpl; [|by auto 10].
  destruct (mem validStatuses target) eqn:Hv; simpl; [|by auto 10].
  repo_call. destruct r as [t0|e]; simpl.
  2:{ split; [done|]. destruct Hspec as [Hm Hspec]. split; [done|].
      destruct Hspec as [[-> ?]|?]; [right; left; auto|left; done]. }
  destruct Hspec as [Hm Ho].
  destruct (owned_lookup h s u id t0 Hinv Ho) as (<- & <- & Htl).
  destruct (String.eqb_spec t0.(task_Status) target) as [Hst|Hst]; simpl.
  { split; [done|]. split; [done|]. exists t0. auto. }
  destruct (legal t0.(task_Status) target) eqn:Hleg; simpl.
  2:{ split; [done|]. split; [done|]. right; right; right. eauto. }
  destruct (pop 0 (env_clock env)) as [now clk]; simpl.
  repo_call. rewrite Hm in Hspec. destruct r as [e|]; simpl.
  - split; [done|]. destruct Hspec as [Hm' Hspec]. split; [done|].
    destruct Hspec as [[_ Hn]|[[_ (t1 & Ho1 & Hne)]|?]]; [congruence| |by left].
    congruence.
  - split; [done|]. split; [done|]. exists t0. split; [done|]. right.
    split; [done|]. split; [done|]. exists now. destruct Hspec as (t1 & Ho1 & _ & Hm').
    assert (t1 = t0) as -> by congruence.
    done.
Qed.
End transition.

(** * Counting *)

Lemma sum_counts_insert m k c :
  m !! k = None → sum_counts (<[k := c]> m) = sum_counts m + c.
Proof.
  intros Hk. unfold sum_counts. rewrite map_fold_insert_L; [done| |done]. intros; lia.
Qed.

Lemma sum_counts_delete m k c :
  m !! k = Some c → sum_counts m = sum_counts (delete k m) + c.
Proof.
  intros Hk. rewrite <-(insert_delete_id m k c) at 1 by done.
  apply sum_counts_insert, lookup_delete_eq.
Qed.

Lemma sum_counts_incr k m : sum_counts (incr k m) = sum_counts m + 1.
Proof.
  unfold incr. destruct (m !! k) as [c|] eqn:E; simpl.
  - rewrite (sum_counts_delete m k c E), <-insert_delete_eq.
    rewrite sum_counts_insert by apply lookup_delete_eq. lia.
  - by rewrite sum_counts_insert.
Qed.

Lemma sum_counts_tally ks m : sum_counts (tally m ks) = sum_counts m + Z.of_nat (length ks).
Proof.
  unfold tally. revert m; induction ks as [|k ks IH]; intros m; simpl; [lia|].
  rewrite IH, sum_counts_incr. lia.
Qed.

(** The counters start from zero. *)
Lemma sum_zeroByStatus : sum_counts zeroByStatus = 0.
Proof. reflexivity. Qed.
Lemma sum_zeroByPriority : sum_counts zeroByPriority = 0.
Proof. reflexivity. Qed.

(** * The other methods *)

Lemma validate_ok `{Sanitize} title description t d :
  validateTitleAndDescription title description = Ok (t, d) →
  t = PlainText title ∧ d = strings.TrimSpace (StripControlChars description) ∧
  t ≠ "" ∧ utf8.RuneCountInString t ≤ maxTitleLen ∧
  utf8.RuneCountInString d ≤ maxDescriptionLen.
Proof.
  unfold validateTitleAndDescription. intros Hv.
  destruct (String.eqb_spec (PlainText title) ""); [done|].
  repeat case_hyp Hv. bool_to_prop. done.
Qed.

Lemma validate_err `{Sanitize} title description e :
  validateTitleAndDescription title description = Err e → Is e (ErrInvalidInput task_pkg) = true.
Proof. unfold validateTitleAndDescription. intros Hv. by repeat case_hyp Hv. Qed.

Lemma validatePriority_ok p fallback q :
  validatePriority p fallback = Ok q →
  p = "" ∧ q = fallback ∨ q = p ∧ mem validPriorities q = true.
Proof.
  unfold validatePriority. intros Hv.
  destruct (String.eqb_spec p ""); [simplify_eq; by left|].
  destruct (mem validPriorities p) eqn:E; simplify_eq/=. by right.
Qed.

Lemma validatePriority_err p fallback e :
  validatePriority p fallback = Err e → Is e (ErrInvalidInput task_pkg) = true.
Proof. unfold validatePriority. intros Hv. by repeat case_hyp Hv. Qed.

Section edit.
Context `{Sanitize, unicode.Tables} {S : Type} (h : handler repoE S) `{!TaskRepository h}.
Abbreviation svc := (handle_sum handle_env h).

Lemma UpdateTask_spec env s u id title description priority :
  repo_inv s →
  let '(w, r) := run svc (UpdateTask u id title description priority) (env, s) in
  let m := repo_view s in let m' := repo_view w.2 in
  repo_inv w.2 ∧
  match r with
  | Ok t => isValidID id = true ∧ ∃ t0 p now, owned m u id = Some t0 ∧
      validateTitleAndDescription title description = Ok (t.(task_Title), t.(task_Description)) ∧
      validatePriority priority t0.(task_Priority) = Ok p ∧
      t = edited t0 t.(task_Title) t.(task_Description) p now ∧
      m' = <[id := with_version (t0.(task_Version) + 1) t]> m
  | Err e => m' = m ∧
      (foreign e = true ∨
       Is e (ErrNotFound task_pkg) = true ∧ (isValidID id = false ∨ owned m u id = None) ∨
       Is e (ErrInvalidInput task_pkg) = true)
  end.
Proof.
  intros Hinv. unfold UpdateTask.
  destruct (isValidID id) eqn:Hid; simpl; [|by auto 10].
  destruct (validateTitleAndDescription title description) as [[tt d]|e] eqn:Hv; simpl.
  2:{ apply validate_err in Hv. auto. }
  repo_call. destruct r as [t0|e]; simpl.
  2:{ split; [done|]. destruct Hspec as [Hm Hspec]. split; [done|].
      destruct Hspec as [[-> ?]|?]; [right; left; auto|left; done]. }
  destruct Hspec as [Hm Ho].
  destruct (owned_lookup h s u id t0 Hinv Ho) as (<- & <- & Htl).
  destruct (validatePriority priority (task_Priority t0)) as [p|e] eqn:Hp; simpl.
  2:{ apply validatePriority_err in Hp. auto. }
  destruct (pop 0 (env_clock env)) as [now clk]; simpl.
  repo_call. rewrite Hm in Hspec. destruct r as [e|]; simpl.
  - split; [done|]. destruct Hspec as [Hm' Hspec]. split; [done|].
    destruct Hspec as [[_ Hn]|[[_ (t1 & Ho1 & Hne)]|?]]; [congruence| |by left].
    congruence.
  - split; [done|]. split; [done|]. destruct Hspec as (t1 & Ho1 & _ & Hm').
    exists t0, p, now. assert (t1 = t0) as -> by congruence. done.
Qed.

Lemma CreateTask_spec env s u title description priority :
  repo_inv s →
  let '(w, r) := run svc (CreateTask u title description priority) (env, s) in
  let m := repo_view s in let m' := repo_view w.2 in
  repo_inv w.2 ∧
  match r with
  | Ok t =>
      validateTitleAndDescription title description = Ok (t.(task_Title), t.(task_Description)) ∧
      validatePriority priority PriorityMedium = Ok t.(task_Priority) ∧
      isValidID t.(task_ID) = true ∧ t.(task_UserID) = u ∧
      t.(task_Status) = StatusPending ∧ t.(task_CreatedAt) = t.(task_UpdatedAt) ∧
      m !! t.(task_ID) = None ∧ m' = <[t.(task_ID) := with_version 1 t]> m
  | Err e => m' = m ∧
      (foreign e = true ∨ Is e (ErrInvalidInput task_pkg) = true ∨
       Is e (ErrAlreadyExists task_pkg) = true)
  end.
Proof.
  intros Hinv. unfold CreateTask.
  destruct (validateTitleAndDescription title description) as [[tt d]|e] eqn:Hv; simpl.
  2:{ apply validate_err in Hv. auto. }
  destruct (validatePriority priority PriorityMedium) as [p|e] eqn:Hp; simpl.
  2:{ apply validatePriority_err in Hp. auto. }
  destruct (pop None (env_rand env)) as [[b|] l]; simpl; [|by auto].
  destruct (pop 0 (env_clock env)) as [now clk]; simpl.
  repo_call. destruct r as [e|]; simpl.
  - split; [done|]. destruct Hspec as [Hm' Hspec]. split; [done|].
    destruct Hspec as [[-> _]|?]; [right; right; done|left; done].
  - destruct Hspec as [Hn Hm']. do 3 (split; [done|]).
    split; [apply generated_valid|]. done.
Qed.

Lemma ListTasks_spec env s u limit offset statuses priorities :
  repo_inv s →
  let '(w, r) := run svc (ListTasks u limit offset statuses priorities) (env, s) in
  repo_inv w.2 ∧ repo_view w.2 = repo_view s ∧
  match r with
  | Ok (tasks, total) => ∃ st pr l,
      validateStatusFilters statuses = Ok st ∧ validatePriorityFilters priorities = Ok pr ∧
      is_listing (repo_view s) u st pr l ∧ total = Z.of_nat (length l) ∧
      paginateTasks l limit offset = Some tasks
  | Err e => True
  end.
Proof.
  intros Hinv. unfold ListTasks.
  destruct (validateStatusFilters statuses) as [st|] eqn:Hst; simpl; [|done].
  destruct (validatePriorityFilters priorities) as [pr|] eqn:Hpr; simpl; [|done].
  repo_call. destruct Hspec as [Hm Hspec]. destruct r as [page|]; simpl; [|done].
  destruct Hspec as (l & Hl & Hp). repo_call. destruct Hspec as [Hm' Hspec].
  destruct r as [n|]; simpl; (split; [done|]; split; [congruence|]); [|done].
  exists st, pr, l. do 3 (split; [done|]). split; [|done].
  destruct Hl as [Hl _]. by rewrite Hspec, Hm, Hl.
Qed.

Lemma TaskStats_spec env s u statuses priorities :
  repo_inv s →
  let '(w, r) := run svc (TaskStats u statuses priorities) (env, s) in
  repo_view w.2 = repo_view s ∧
  match r with
  | Ok st => ∃ fs fp,
      validateStatusFilters statuses = Ok fs ∧ validatePriorityFilters priorities = Ok fp ∧
      st.(stats_Total) = Z.of_nat (length (selected (repo_view s) u fs fp)) ∧
      st.(stats_Total) = sum_counts st.(stats_ByStatus) ∧
      st.(stats_Total) = sum_counts st.(stats_ByPriority)
  | Err e => True
  end.
Proof.
  intros Hinv. unfold TaskStats.
  destruct (validateStatusFilters statuses) as [st|] eqn:Hst; simpl; [|done].
  destruct (validatePriorityFilters priorities) as [pr|] eqn:Hpr; simpl; [|done].
  repo_call. destruct Hspec as [Hm Hspec]. destruct r as [[bs bp]|]; simpl; [|done].
  split; [done|]. destruct Hspec as (l & Hl & -> & ->). exists st, pr.
  rewrite !sum_counts_tally, !length_map, sum_zeroByStatus, sum_zeroByPriority, Hl. auto.
Qed.

Lemma ExportTasks_spec env s u statuses priorities :
  repo_inv s →
  let '(w, r) := run svc (ExportTasks u statuses priorities) (env, s) in
  repo_view w.2 = repo_view s ∧
  match r with
  | Ok tasks => ∃ fs fp,
      validateStatusFilters statuses = Ok fs ∧ validatePriorityFilters priorities = Ok fp ∧
      is_listing (repo_view s) u fs fp tasks ∧ Z.of_nat (length tasks) ≤ maxExportRows
  | Err e => True
  end.
Proof.
  intros Hinv. unfold ExportTasks.
  destruct (validateStatusFilters statuses) as [st|] eqn:Hst; simpl; [|done].
  destruct (validatePriorityFilters priorities) as [pr|] eqn:Hpr; simpl; [|done].
  repo_call. destruct Hspec as [Hm Hspec]. destruct r as [n|]; simpl; [|done].
  destruct (maxExportRows <? n) eqn:Hn; simpl; [done|].
  repo_call. destruct Hspec0 as [Hm' Hspec0].
  destruct r as [page|]; simpl; (split; [congruence|]); [|done].
  destruct Hspec0 as (l & Hl & Hp). rewrite Hm in Hl. exists st, pr. do 2 (split; [done|]).
  assert (page = l) as ->.
  { unfold paginateTasks in Hp. destruct l as [|t l]; [by simplify_eq/=|].
    destruct (Z.leb_spec (Z.of_nat (length (t :: l))) 0); [simpl in *; lia|].
    by simplify_eq/=. }
  split; [done|]. bool_to_prop. destruct Hl as [Hl _]. rewrite Hl. lia.
Qed.

Lemma GetTask_spec env s u id :
  repo_inv s →
  let '(w, r) := run svc (GetTask u id) (env, s) in
  repo_view w.2 = repo_view s ∧
  match r with
  | Ok t => isValidID id = true ∧ owned (repo_view s) u id = Some t
  | Err e => foreign e = true ∨
      Is e (ErrNotFound task_pkg) = true ∧
        (isValidID id = false ∨ owned (repo_view s) u id = None)
  end.
Proof.
  intros Hinv. unfold GetTask.
  destruct (isValidID id) eqn:Hid; simpl; [|by auto].
  repo_call. destruct Hspec as [Hm Hspec]. destruct r as [t|e]; simpl; (split; [done|]); [done|].
  destruct Hspec as [[-> ?]|?]; [right; auto|left; done].
Qed.

Lemma DeleteTask_spec env s u id :
  repo_inv s →
  let '(w, r) := run svc (DeleteTask u id) (env, s) in
  repo_inv w.2 ∧
  match r with
  | None => is_Some (owned (repo_view s) u id) ∧ repo_view w.2 = delete id (repo_view s)
  | Some e => repo_view w.2 = repo_view s ∧
      (foreign e = true ∨
       Is e (ErrNotFound task_pkg) = true ∧
         (isValidID id = false ∨ owned (repo_view s) u id = None))
  end.
Proof.
  intros Hinv. unfold DeleteTask.
  destruct (isValidID id) eqn:Hid; simpl; [|by auto 6].
  repo_call. destruct r as [e|]; simpl; (split; [done|]); [|done].
  destruct Hspec as [Hm Hspec]. split; [done|].
  destruct Hspec as [[-> ?]|?]; [right; auto|left; done].
Qed.
End edit.
