(* ===== verification/TaskConcurrent.v ===== *)
(** Requests of [task.Service] whose repository calls interleave.  Optimistic
    concurrency control (the [Version] that [Update] checks) makes every update
    apply to exactly the task it was computed from: statuses only move along
    [legalTransitions] and no edit is lost. *)

From S2P Require Import Prelude GoStd GoError Uuid Task TaskMemory TaskSpec TaskService.
Local Open Scope Z_scope.

(** Every content a task has ever had, by identifier and version. *)
Abbreviation hist := (gmap (string * Z) Task).

(** What an update may do to the task it was computed from: edit its text and
    priority, or move its status along a legal transition. *)
Definition edits (t t' : Task) : Prop := t'.(task_Status) = t.(task_Status).
Definition moves (t t' : Task) : Prop :=
  legal t.(task_Status) t'.(task_Status) = true ∧
  t'.(task_Title) = t.(task_Title) ∧ t'.(task_Description) = t.(task_Description) ∧
  t'.(task_Priority) = t.(task_Priority).

Definition update_ok (t0 t : Task) : Prop :=
  t.(task_ID) = t0.(task_ID) ∧ t.(task_UserID) = t0.(task_UserID) ∧
  t.(task_Version) = t0.(task_Version) ∧ (edits t0 t ∨ moves t0 t).

(** The protocol: an update is computed from a content that the task has had;
    a task that is read has the content recorded for its version. *)
Definition call_ok (H : hist) X (e : taskE X) : Prop :=
  match e with
  | inr (Update t) =>
      ∃ t0, H !! (t.(task_ID), t.(task_Version)) = Some t0 ∧ update_ok t0 t
  | _ => True
  end.

Definition answer_ok (H : hist) X (e : taskE X) : X → Prop :=
  match e with
  | inr e' =>
      match e' in repoE X return X → Prop with
      | FindByID id u => λ r,
          match r with
          | Ok t => H !! (t.(task_ID), t.(task_Version)) = Some t
          | Err _ => True
          end
      | _ => λ _, True
      end
  | inl _ => λ _, True
  end.

Abbreviation safe := (follows (⊆@{hist}) call_ok answer_ok any_outcome).

Lemma call_ok_mono (H H' : hist) X (e : taskE X) : H ⊆ H' → call_ok H X e → call_ok H' X e.
Proof.
  intros Hle. destruct e as [e|[]]; simpl; try done.
  intros (t0 & Ht & Hu). exists t0. split; [|done]. by eapply lookup_weaken.
Qed.

(** A request of user [u]: one service call, its response dropped. *)
Inductive request_of `{Sanitize, unicode.Tables} (u : string) : prog taskE unit → Prop :=
| RCreate t d p : request_of u (CreateTask u t d p ≫= λ _, mret ())
| RGet id : request_of u (GetTask u id ≫= λ _, mret ())
| RList l o st pr : request_of u (ListTasks u l o st pr ≫= λ _, mret ())
| RStats st pr : request_of u (TaskStats u st pr ≫= λ _, mret ())
| RExport st pr : request_of u (ExportTasks u st pr ≫= λ _, mret ())
| RUpdate id t d p : request_of u (UpdateTask u id t d p ≫= λ _, mret ())
| RDelete id : request_of u (DeleteTask u id ≫= λ _, mret ())
| RTransition id s : request_of u (TransitionStatus u id s ≫= λ _, mret ())
| RComplete id : request_of u (CompleteTask u id ≫= λ _, mret ()).

Lemma legal_neq s s' : legal s s' = true → s ≠ s'.
Proof.
  intros H <-. unfold legal in H.
  destruct (decide (s ∈ ["pending"; "in_progress"; "done"; "cancelled"])) as [Hin|Hout].
  - repeat (apply elem_of_cons in Hin as [->|Hin]; [by vm_compute in H|]). set_solver.
  - assert (legalTransitions !! s = None) as Hn.
    { unfold legalTransitions. rewrite !lookup_insert_ne, lookup_singleton_ne; set_solver. }
    by rewrite Hn in H.
Qed.

Section requests.
Context `{San : Sanitize, Uni : unicode.Tables}.

Lemma safe_transition H' u id target : safe H' (TransitionStatus u id target).
Proof.
  unfold TransitionStatus.
  destruct (negb (isValidID id)); simpl; [done|].
  destruct (negb (mem validStatuses target)); simpl; [done|].
  split; [done|]. intros H1 [t|e] Hle1 Ht; simpl; [|done].
  destruct (String.eqb (task_Status t) target); simpl; [done|].
  destruct (legal (task_Status t) target) eqn:Hleg; simpl; [|done].
  split; [done|]. intros H2 now Hle2 _. split.
  - exists t. split; [by eapply lookup_weaken|]. repeat split. right. done.
  - intros H3 [e|] _ _; done.
Qed.

Lemma safe_update H' u id title description priority :
  safe H' (UpdateTask u id title description priority).
Proof.
  unfold UpdateTask.
  destruct (negb (isValidID id)); simpl; [done|].
  destruct (validateTitleAndDescription title description) as [[tt d]|e]; simpl; [|done].
  split; [done|]. intros H1 [t|e] Hle1 Ht; simpl; [|done].
  destruct (validatePriority priority (task_Priority t)); simpl; [|done].
  split; [done|]. intros H2 now Hle2 _. split.
  - exists t. split; [by eapply lookup_weaken|]. repeat split. by left.
  - intros H3 [e|] _ _; done.
Qed.

Lemma safe_request H' u p : request_of u p → safe H' p.
Proof.
  intros Hp; destruct Hp; (apply (follows_bind _ _ _ any_outcome); [|done]).
  - unfold CreateTask, newID, newID_with. follow.
  - unfold GetTask. follow.
  - unfold ListTasks. follow.
  - unfold TaskStats. follow.
  - unfold ExportTasks. follow.
  - apply safe_update.
  - unfold DeleteTask. follow.
  - apply safe_transition.
  - unfold CompleteTask. apply (follows_bind _ _ _ any_outcome); [apply safe_transition|].
    follow.
Qed.
End requests.

(** * The system: a repository, requests in flight, identifiers ever used *)
Section system.
Context `{San : Sanitize, Uni : unicode.Tables} {S : Type} (h : handler repoE S) `{!TaskRepository h}.
Abbreviation svc := (handle_sum handle_env h).

Record conf := Conf {
  c_used : gset string;
  c_state : Env * S;
  c_threads : list (prog taskE unit);
}.
Definition c_tasks (c : conf) : store := repo_view c.(c_state).2.

(** The identifier a call creates a task under. *)
Definition creates {X} (e : taskE X) : gset string :=
  match e with inr (Create t) => {[ t.(task_ID) ]} | _ => ∅ end.

(** A request arrives, or one in flight makes its next call.  Generated
    identifiers do not repeat: [newID] draws 122 random bits. *)
Inductive step : conf → conf → Prop :=
| StepRequest used st ts u p :
    request_of u p → step (Conf used st ts) (Conf used st (ts ++ [p]))
| StepCall used st st' ts ts' X (e : taskE X) :
    pool_call svc st ts e st' ts' → creates e ## used →
    step (Conf used st ts) (Conf (used ∪ creates e) st' ts').

Definition initial (c : conf) : Prop :=
  repo_inv c.(c_state).2 ∧ c.(c_used) = dom (c_tasks c) ∧ c.(c_threads) = [].

(** What happens to a task between two calls. *)
Definition evolves (t t' : Task) : Prop :=
  t' = t ∨
  t'.(task_ID) = t.(task_ID) ∧ t'.(task_UserID) = t.(task_UserID) ∧
  t'.(task_CreatedAt) = t.(task_CreatedAt) ∧
  t'.(task_Version) = t.(task_Version) + 1 ∧ (edits t t' ∨ moves t t').

Definition hist_inv (H : hist) (used : gset string) (m : store) : Prop :=
  (∀ id t, m !! id = Some t → H !! (id, t.(task_Version)) = Some t ∧ id ∈ used) ∧
  (∀ id v t, H !! (id, v) = Some t →
     id ∈ used ∧ ∀ cur, m !! id = Some cur → v ≤ cur.(task_Version)).

Definition conf_inv_at (H : hist) (c : conf) : Prop :=
  repo_inv c.(c_state).2 ∧ hist_inv H c.(c_used) (c_tasks c) ∧ Forall (safe H) c.(c_threads).
Definition conf_inv (c : conf) : Prop := ∃ H, conf_inv_at H c.

Lemma initial_inv c : initial c → conf_inv c.
Proof.
  intros (Hi & Hu & Hts). set (m := c_tasks c) in *.
  exists (kmap (λ id, (id, default 0 (task_Version <$> m !! id))) m).
  split; [done|]. fold m. rewrite Hts. split; [|constructor].
  assert (Inj (=) (=) (λ id, (id, default 0 (task_Version <$> m !! id)))) as Hinj
    by (intros ?? [=]; done).
  split.
  - intros id t Hl. split; [|rewrite Hu; by apply elem_of_dom_2 in Hl].
    apply lookup_kmap_Some; [done|]. exists id. by rewrite Hl.
  - intros id v t Hl. apply lookup_kmap_Some in Hl as (id' & [= -> ->] & Hl); [|done].
    split; [rewrite Hu; by apply elem_of_dom_2 in Hl|]. intros cur Hc. rewrite Hc. simpl. lia.
Qed.

(** One call: the history grows to one that agrees with the answer, and every
    task evolves. *)
Definition grows (H : hist) (used : gset string) (m m' : store) X (e : taskE X) (x : X) : Prop :=
  (∃ H', H ⊆ H' ∧ hist_inv H' (used ∪ creates e) m' ∧ answer_ok H' X e x) ∧
  ∀ id t t', m !! id = Some t → m' !! id = Some t' → evolves t t'.

Lemma grows_same H used m X (e : taskE X) x :
  hist_inv H used m → answer_ok H X e x → grows H used m m X e x.
Proof.
  intros [Ha Hb] Hx. split; [|intros; simplify_eq; by left].
  exists H. split; [done|]. split; [|done]. split.
  - intros id t Hl. destruct (Ha id t Hl). set_solver.
  - intros id v t Hl. destruct (Hb id v t Hl). set_solver.
Qed.

Lemma grows_create H used m t :
  hist_inv H used m → t.(task_ID) ∉ used → m !! t.(task_ID) = None →
  grows H used m (<[t.(task_ID) := with_version 1 t]> m) _ (inr (Create t) : taskE _) None.
Proof.
  intros [Ha Hb] Hf Hn. split.
  2:{ intros id t1 t2 H1. rewrite lookup_insert. case_decide; intros; simplify_eq. by left. }
  exists (<[(t.(task_ID), 1) := with_version 1 t]> H). split; [|split; [split|done]].
  - apply insert_subseteq. destruct (H !! _) eqn:E; [|done]. by destruct (Hb _ _ _ E).
  - intros id t1. rewrite lookup_insert. case_decide; intros Hl; simplify_eq/=.
    + rewrite lookup_insert_eq. set_solver.
    + destruct (Ha id t1 Hl). rewrite lookup_insert_ne by congruence. set_solver.
  - intros id v t1. rewrite lookup_insert. case_decide as Hd; intros Hl; simplify_eq/=.
    + split; [set_solver|]. intros cur. rewrite lookup_insert_eq. intros [= <-]. simpl. lia.
    + destruct (Hb id v t1 Hl) as [Hin Hle]. split; [set_solver|]. intros cur.
      rewrite lookup_insert. case_decide; [by subst|]. apply Hle.
Qed.

Lemma grows_update H used m t t0 :
  hist_inv H used m → call_ok H _ (inr (Update t) : taskE _) →
  owned m t.(task_UserID) t.(task_ID) = Some t0 → t0.(task_Version) = t.(task_Version) →
  t0.(task_ID) = t.(task_ID) →
  grows H used m (<[t.(task_ID) := saved t0 t]> m) _ (inr (Update t) : taskE _) None.
Proof.
  intros [Ha Hb] (ts & Hts & Hu1 & Hu2 & Hu3 & Hu4) Ho Hv Hid.
  apply owned_Some in Ho as [Hl Ho]. destruct (Ha _ _ Hl) as [Hh Hin].
  assert (ts = t0) as -> by (rewrite <-Hv in Hts; congruence).
  split.
  2:{ intros id t1 t2 H1. rewrite lookup_insert. case_decide; intros; simplify_eq; [|by left].
      right. simpl. split; [done|]. split; [done|]. split; [done|]. split; [done|]. done. }
  exists (<[(t.(task_ID), t0.(task_Version) + 1) := saved t0 t]> H). split; [|split; [split|done]].
  - apply insert_subseteq. destruct (H !! (_, _ + 1)) eqn:E; [|done].
    destruct (Hb _ _ _ E) as [_ Hle]. specialize (Hle _ Hl). lia.
  - intros id t1. rewrite lookup_insert. case_decide; intros Hl1; simplify_eq/=.
    + rewrite lookup_insert_eq. set_solver.
    + destruct (Ha id t1 Hl1). rewrite lookup_insert_ne by congruence. set_solver.
  - intros id v t1. rewrite lookup_insert. case_decide as Hd; intros Hl1; simplify_eq/=.
    + split; [set_solver|]. intros cur. rewrite lookup_insert_eq. intros [= <-]. simpl. lia.
    + destruct (Hb id v t1 Hl1) as [Hin' Hle]. split; [set_solver|]. intros cur.
      rewrite lookup_insert. case_decide; [|apply Hle]. subst. intros [= <-]. simpl.
      specialize (Hle _ Hl). lia.
Qed.

Lemma grows_delete H used m id u :
  hist_inv H used m → grows H used m (delete id m) _ (inr (Delete id u) : taskE _) None.
Proof.
  intros [Ha Hb]. split.
  2:{ intros k t t' H1. rewrite lookup_delete. case_decide; [done|]. intros; simplify_eq. by left. }
  exists H. split; [done|]. split; [|done]. split.
  - intros k t. rewrite lookup_delete. case_decide; [done|]. intros Hl.
    destruct (Ha k t Hl). set_solver.
  - intros k v t Hl. destruct (Hb k v t Hl) as [? Hle]. split; [set_solver|].
    intros cur. rewrite lookup_delete. case_decide; [done|]. apply Hle.
Qed.

Lemma call_grows H used st X (e : taskE X) :
  repo_inv st.2 → hist_inv H used (repo_view st.2) → call_ok H X e → creates e ## used →
  repo_inv (svc X e st).1.2 ∧
  grows H used (repo_view st.2) (repo_view (svc X e st).1.2) X e (svc X e st).2.
Proof.
  destruct st as [env s]. intros Hi HI Hc Hf. destruct e as [e|e]; simpl in *.
  - destruct (handle_env X e env) as [env' x]; simpl. split; [done|]. by apply grows_same.
  - pose proof (repo_step_inv X e s Hi) as Hi'. pose proof (repo_sound X e s Hi) as Hs.
    destruct (h X e s) as [s' x]; simpl in *. split; [done|].
    destruct e; simpl in Hs.
    + destruct x as [e|]; destruct Hs as [Hm Hs]; [rewrite Hm; by apply grows_same|].
      rewrite Hs. apply grows_create; [done|set_solver|done].
    + destruct Hs as [-> Hs]. apply grows_same; [done|]. destruct x as [t|]; simpl; [|done].
      apply owned_Some in Hs as [Hl _]. destruct HI as [Ha _]. destruct (Ha _ _ Hl).
      by rewrite (repo_wf _ Hi _ _ Hl).
    + destruct Hs as [-> _]. by apply grows_same.
    + destruct x as [e|]; [destruct Hs as [-> _]; by apply grows_same|].
      destruct Hs as (t0 & Ho & Hv & ->). apply grows_update; try done.
      apply owned_Some in Ho as [Hl _]. apply (repo_wf _ Hi _ _ Hl).
    + destruct x as [e|]; [destruct Hs as [-> _]; by apply grows_same|].
      destruct Hs as [_ ->]. by apply grows_delete.
    + destruct Hs as [-> _]. by apply grows_same.
    + destruct Hs as [-> _]. by apply grows_same.
Qed.

Lemma step_inv_at H c c' :
  conf_inv_at H c → step c c' →
  (∃ H', H ⊆ H' ∧ conf_inv_at H' c') ∧
  ∀ id t t', c_tasks c !! id = Some t → c_tasks c' !! id = Some t' → evolves t t'.
Proof.
  intros (Hi & HI & Hts) Hstep. destruct Hstep as [used st ts u p Hp|used st st' ts ts' X e Hcall Hf].
  - split; [|unfold c_tasks; simpl; intros; simplify_eq; by left]. exists H. split; [done|].
    split; [done|]. split; [done|].
    apply Forall_app. split; [done|]. constructor; [by eapply safe_request|done].
  - unfold c_tasks in *; simpl in *. rewrite Forall_pool in Hts.
    destruct (follows_pool _ _ _ (λ _, any_outcome) svc st ts ts' e st' H call_ok_mono
      (λ _, any_growing _) Hcall Hts) as [Hc Hts'].
    destruct (call_grows H used st X e Hi HI Hc Hf) as [Hi' [(H' & Hle & HI' & Hx) Hev]].
    assert (∃ x, svc X e st = (st', x)) as [x E] by (destruct Hcall; eauto).
    rewrite E in Hi', HI', Hev, Hx; simpl in *. split; [|done].
    exists H'. split; [done|]. split; [done|]. split; [done|].
    apply Forall_pool, Hts'; [done|]. intros y Hy. rewrite E in Hy. by simplify_eq.
Qed.

Lemma step_inv c c' :
  conf_inv c → step c c' →
  conf_inv c' ∧
  ∀ id t t', c_tasks c !! id = Some t → c_tasks c' !! id = Some t' → evolves t t'.
Proof.
  intros [H Hc] Hs. destruct (step_inv_at H c c' Hc Hs) as [(H' & _ & Hc') Hev].
  split; [by exists H'|done].
Qed.

(** The history only grows, so a content read once is the content of its
    version for ever. *)
Lemma steps_inv_at H c c' :
  conf_inv_at H c → rtc step c c' → ∃ H', H ⊆ H' ∧ conf_inv_at H' c'.
Proof.
  intros Hc Hr. revert H Hc. induction Hr as [c|c0 c1 c2 Hs Hr IH]; intros H Hc; [by exists H|].
  destruct (step_inv_at H c0 c1 Hc Hs) as [(H1 & Hle & Hc1) _].
  destruct (IH H1 Hc1) as (H2 & Hle2 & Hc2). exists H2. split; [by etransitivity|done].
Qed.

Lemma version_determines c c' id id' t t' :
  conf_inv c → rtc step c c' → c_tasks c !! id = Some t → c_tasks c' !! id' = Some t' →
  id = id' → t.(task_Version) = t'.(task_Version) → t = t'.
Proof.
  intros [H Hc] Hr Ht Ht' <- Hv. destruct (steps_inv_at H c c' Hc Hr) as (H' & Hle & Hc').
  destruct Hc as (_ & [Ha _] & _), Hc' as (_ & [Ha' _] & _).
  destruct (Ha _ _ Ht) as [H1 _], (Ha' _ _ Ht') as [H2 _].
  assert (H' !! (id, t.(task_Version)) = Some t) as H3 by by eapply lookup_weaken.
  rewrite Hv in H3. congruence.
Qed.

Definition reachable (c : conf) : Prop := ∃ c0, initial c0 ∧ rtc step c0 c.

Lemma reachable_inv c : reachable c → conf_inv c.
Proof.
  intros (c0 & H0 & Hr). apply initial_inv in H0.
  induction Hr as [|c0 c1 c2 Hs Hr IH]; [done|]. apply IH. by apply (step_inv c0 c1).
Qed.
End system.

(** * Isolation of users

    The protocol of one user: every call is on its own behalf, and a task that
    was read is its own. *)
Definition acts_for (u : string) X (e : taskE X) : Prop :=
  match e with
  | inl _ => True
  | inr e =>
      match e with
      | Create t | Update t => t.(task_UserID) = u
      | FindByID _ u' | FindAll u' _ _ _ _ | Delete _ u' | CountAll u' _ _
      | CountByStatusAndPriority u' _ _ => u' = u
      end
  end.

Definition reads_own X (e : taskE X) : X → Prop :=
  match e with
  | inr e' =>
      match e' in repoE X return X → Prop with
      | FindByID id u => λ r, match r with Ok t => t.(task_UserID) = u | Err _ => True end
      | _ => λ _, True
      end
  | inl _ => λ _, True
  end.

Abbreviation own := (follows eq (λ u : string, acts_for u) (λ _ : string, reads_own) any_outcome).

(** Tasks of users other than [u] are the same in both stores. *)
Definition others_same (u : string) (m m' : store) : Prop :=
  ∀ id t, t.(task_UserID) ≠ u → m !! id = Some t ↔ m' !! id = Some t.

#[export] Instance others_same_preorder u : PreOrder (others_same u).
Proof. split; [done|]. intros m1 m2 m3 H12 H23 id t Ht. by rewrite (H12 id t Ht), (H23 id t Ht). Qed.

Section isolation.
Context `{San : Sanitize, Uni : unicode.Tables} {S : Type} (h : handler repoE S)
  `{!TaskRepository h}.

Lemma own_transition u id target : own u (TransitionStatus u id target).
Proof.
  unfold TransitionStatus. follow; congruence.
Qed.

Lemma own_request u p : request_of u p → own u p.
Proof.
  intros Hp; destruct Hp; (apply (follows_bind _ _ _ any_outcome); [|done]).
  - unfold CreateTask, newID, newID_with. follow; congruence.
  - unfold GetTask. follow; congruence.
  - unfold ListTasks. follow; congruence.
  - unfold TaskStats. follow; congruence.
  - unfold ExportTasks. follow; congruence.
  - unfold UpdateTask. follow; congruence.
  - unfold DeleteTask. follow; congruence.
  - apply own_transition.
  - unfold CompleteTask. apply (follows_bind _ _ _ any_outcome); [apply own_transition|]. follow; congruence.
Qed.

Lemma others_same_insert u m k t0 t :
  t.(task_UserID) = u → m !! k = Some t0 → t0.(task_UserID) = u → others_same u m (<[k := t]> m).
Proof.
  intros Ht Hk H0 id t1 H1. rewrite lookup_insert. case_decide; [|done]. subst.
  split; intros; by simplify_eq.
Qed.

Lemma call_isolated u X (e : taskE X) (st : Env * S) :
  repo_inv st.2 → acts_for u X e →
  repo_inv (handle_sum handle_env h X e st).1.2 ∧
  others_same u (repo_view st.2) (repo_view (handle_sum handle_env h X e st).1.2) ∧
  reads_own X e (handle_sum handle_env h X e st).2.
Proof.
  destruct st as [env s]. intros Hi Ha. destruct e as [e|e]; simpl in *.
  { by destruct (handle_env X e env). }
  pose proof (repo_step_inv X e s Hi) as Hi'. pose proof (repo_sound X e s Hi) as Hs.
  destruct (h X e s) as [s' x]; simpl in *. split; [done|].
  destruct e; simpl in Hs, Ha; subst; simpl.
  - destruct x as [e|]; [by destruct Hs as [-> _]|]. destruct Hs as [Hn ->]. split; [|done].
    intros id t Ht. rewrite lookup_insert. case_decide; [|done]. subst.
    split; intros; [congruence|by simplify_eq/=].
  - destruct Hs as [-> Hs]. split; [done|]. destruct x; [|done]. by apply owned_Some in Hs as [_ Hs].
  - by destruct Hs as [-> _].
  - destruct x as [e|]; [by destruct Hs as [-> _]|]. destruct Hs as (t0 & Ho & _ & ->).
    split; [|done]. apply owned_Some in Ho as [Hl Hu].
    by apply (others_same_insert _ _ _ t0).
  - destruct x as [e|]; [by destruct Hs as [-> _]|]. destruct Hs as [[t0 Ho] ->].
    split; [|done]. apply owned_Some in Ho as [Hl Hu]. intros k t Ht. rewrite lookup_delete.
    case_decide; [|done]. subst. split; intros; by simplify_eq.
  - by destruct Hs as [-> _].
  - by destruct Hs as [-> _].
Qed.

Lemma request_isolated u p st :
  request_of u p → repo_inv st.2 →
  others_same u (repo_view st.2) (repo_view (run (handle_sum handle_env h) p st).1.2).
Proof.
  intros Hp Hi.
  assert (PreOrder (λ st st' : Env * S, others_same u (repo_view st.2) (repo_view st'.2))).
  { split; [intros ?; done|]. intros x y z Hxy Hyz. by etransitivity. }
  eapply (proj1 (proj2 (follows_run eq (λ u, acts_for u) (λ _, reads_own) any_outcome (handle_sum handle_env h)
    (λ st, repo_inv st.2) (λ st st', others_same u (repo_view st.2) (repo_view st'.2)) u
    (λ X e s, call_isolated u X e s) p st (own_request u p Hp) Hi))).
Qed.
End isolation.
