(* ===== verification/Concrete.v ===== *)
(** Concrete instances of the parameters, on which the examples and witnesses
    of the other files evaluate. *)

From S2P Require Import Prelude GoStd GoError Task TaskMemory.
Local Open Scope Z_scope.

(** A sanitizer that drops ASCII control characters other than white space and
    trims; the Unicode tables of a language without letters outside ASCII; maps
    visited in key order. *)
Definition printable (c : ascii) : bool := (32 <=? byte_val c) || (9 <=? byte_val c) && (byte_val c <=? 13).
Definition strip (s : string) : string :=
  String.string_of_list_ascii (List.filter printable (String.list_ascii_of_string s)).

#[export] Instance plain_sanitize : Sanitize := {
  PlainText := λ s, strings.TrimSpace (strip s);
  StripControlChars := strip;
}.
#[export] Instance ascii_tables : unicode.Tables := {
  unicode.lower_table := id;
  unicode.print_table := λ _, true;
}.
#[export] Instance ordered_iteration : MapIteration.
Proof. refine {| shuffle := λ _ _ l, l |}. done. Defined.

(** An environment at rest: live contexts, a clock, some entropy. *)
Definition env_at (clock : list Z) (entropy : list (list Z)) : Env :=
  {| env_clock := clock; env_rand := map Some entropy; env_ctx := []; env_seed := [] |}.

Definition alice : string := "11111111-1111-4111-8111-111111111111".
Definition bob : string := "22222222-2222-4222-8222-222222222222".
Definition id1 : string := "aaaaaaaa-aaaa-4aaa-8aaa-aaaaaaaaaaaa".
Definition id2 : string := "bbbbbbbb-bbbb-4bbb-8bbb-bbbbbbbbbbbb".

Definition mk_task (id owner title : string) (st : Status) (created version : Z) : Task :=
  {| task_ID := id; task_Title := title; task_Description := ""; task_Status := st;
     task_Priority := PriorityMedium; task_CreatedAt := created; task_UpdatedAt := created;
     task_UserID := owner; task_Version := version |}.

Definition two_tasks : store :=
  {[ id1 := mk_task id1 alice "write" StatusPending 1 1;
     id2 := mk_task id2 bob "read" StatusDone 2 3 ]}.

Lemma two_tasks_wf k t : two_tasks !! k = Some t → t.(task_ID) = k.
Proof.
  unfold two_tasks. rewrite lookup_insert. case_decide; [by intros [= <-]|].
  rewrite lookup_singleton. case_decide; [by intros [= <-]|done].
Qed.
