(* ===== verification/TaskTheorems.v ===== *)
(** The properties of [internal/task] as theorems, with their instances at
    concrete inputs. *)

From S2P Require Import Prelude GoStd GoError Uuid Task TaskMemory TaskSpec TaskService TaskConcurrent Concrete.
Local Open Scope Z_scope.

(** * Lemmas about listings *)

Lemma paginate_skip (l : list Task) (n k : nat) page :
  0 < Z.of_nat n →
  paginateTasks l (Z.of_nat n) (Z.of_nat k) = Some page → page = take n (drop k l).
Proof.
  intros Hn. unfold paginateTasks.
  destruct (Z.leb_spec (Z.of_nat (length l)) (Z.of_nat k)) as [Hk|Hk].
  { intros [= <-]. rewrite drop_ge by lia. by rewrite take_nil. }
  destruct (Z.ltb_spec (Z.of_nat k) 0); [lia|]. rewrite !Nat2Z.id.
  destruct (Z.leb_spec 0 (Z.of_nat n)); [|lia]. simpl.
  destruct (Z.ltb_spec (Z.of_nat n) (Z.of_nat (length (drop k l)))); intros [= <-]; [done|].
  by rewrite take_ge by lia.
Qed.

Lemma concat_pages (l : list Task) (n pages start : nat) :
  (0 < n)%nat → (length l ≤ start + pages * n)%nat →
  concat (map (λ i, take n (drop (start + i * n) l)) (seq 0 pages)) = drop start l.
Proof.
  intros Hn. revert start; induction pages as [|p IH]; intros start Hl; simpl.
  { rewrite drop_ge; [done|lia]. }
  rewrite <-seq_shift, map_map.
  rewrite (map_ext _ (λ i, take n (drop (start + n + i * n) l)))
    by (intros i; do 2 f_equal; lia).
  rewrite IH by lia. rewrite Nat.add_0_r, <-drop_drop. by rewrite take_drop.
Qed.

(** A store has one listing per filter: its order is decided by creation time
    and identifier. *)
Lemma listing_unique m u st pr l l' :
  wf_store m → is_listing m u st pr l → is_listing m u st pr l' → l = l'.
Proof.
  intros Hwf [Hp Hs] [Hp' Hs'].
  eapply (StronglySorted_unique_strong (in_order task_less)); [|done|done|by rewrite Hp, Hp'].
  intros a b Ha Hb Hab Hba. rewrite Hp in Ha. rewrite Hp' in Hb.
  assert (∀ t, t ∈ selected m u st pr → m !! t.(task_ID) = Some t) as Hsel.
  { intros t Ht. unfold selected in Ht. apply list_elem_of_filter in Ht as [_ Ht].
    apply (elem_of_values m) in Ht as [k Hk]; [|by unfold range_of]. by rewrite (Hwf _ _ Hk). }
  apply Hsel in Ha, Hb. pose proof (task_less_separates _ _ Hab Hba). congruence.
Qed.

(** * Concurrency *)

(** C1: whatever the interleaving of any number of requests, one repository call
    changes a task only as an edit of its text and priority that keeps its status
    or as a move of its status along [legalTransitions] that keeps the rest, and
    then raises its version by one; its identity, owner and creation time never
    change.  So no update is lost and no illegal transition is ever stored. *)
Theorem concurrent_updates_sound `{Sanitize, unicode.Tables} {S : Type} (h : handler repoE S)
    `{!TaskRepository h} (c c' : conf) (id : string) (t t' : Task) :
  reachable h c → step h c c' →
  c_tasks h c !! id = Some t → c_tasks h c' !! id = Some t' → evolves t t'.
Proof.
  intros Hr Hs Ht Ht'. apply (reachable_inv h) in Hr.
  by apply (proj2 (step_inv h c c' Hr Hs) id).
Qed.

(** Two requests of alice in flight at once: both read the pending task, then
    the transition to done is stored. *)
Definition racing : conf :=
  Conf (dom two_tasks) (env_at [10; 11] [], (env_at [] [], two_tasks)) [].
Definition pending_task : Task := mk_task id1 alice "write" StatusPending 1 1.
Definition done_task : Task := with_version 2 (moved pending_task StatusDone 10).

Lemma two_tasks_inv : repo_inv (h := handle_mem) (env_at [] [], two_tasks).
Proof. exact two_tasks_wf. Qed.

Lemma racing_initial : initial handle_mem racing.
Proof. split; [exact two_tasks_wf|]. split; reflexivity. Qed.

(** The next call of thread [i]. *)
Ltac fire i := eapply StepCall; [eapply (PoolCall _ _ _ _ _ i); reflexivity|simpl; set_solver].

Lemma racing_run :
  ∃ c c', reachable handle_mem c ∧ step handle_mem c c' ∧
    c_tasks handle_mem c !! id1 = Some pending_task ∧
    c_tasks handle_mem c' !! id1 = Some done_task.
Proof.
  do 2 eexists. split; [|split; [|split]].
  - exists racing. split; [exact racing_initial|].
    eapply rtc_l; [apply (StepRequest handle_mem _ _ _ alice),
                     RTransition with (id := id1) (s := StatusDone)|].
    eapply rtc_l; [apply (StepRequest handle_mem _ _ _ alice),
                     RUpdate with (id := id1) (t := "x") (d := "") (p := "")|].
    eapply rtc_l; [fire 0%nat|]. eapply rtc_l; [fire 1%nat|]. eapply rtc_l; [fire 0%nat|].
    apply rtc_refl.
  - fire 0%nat.
  - reflexivity.
  - reflexivity.
Qed.

Example concurrent_updates_sound_witness :
  evolves pending_task done_task ∧ pending_task.(task_Status) = StatusPending ∧
  done_task.(task_Status) = StatusDone.
Proof.
  split; [|split; reflexivity]. destruct racing_run as (c & c' & Hr & Hs & Ht & Ht').
  apply (concurrent_updates_sound handle_mem c c' id1 _ _ Hr Hs Ht Ht').
Defined.

(** C2: a request of one user, whatever it does, leaves the tasks of every other
    user exactly as they were. *)
Theorem requests_isolated `{Sanitize, unicode.Tables} {S : Type} (h : handler repoE S)
    `{!TaskRepository h} (u : string) (p : prog taskE unit) (st : Env * S) :
  request_of u p → repo_inv st.2 →
  others_same u (repo_view st.2) (repo_view (exec (handle_sum handle_env h) p st).2).
Proof. intros Hp Hi. by apply request_isolated. Qed.

Example requests_isolated_witness :
  let st := (env_at [] [], (env_at [] [], two_tasks)) in
  others_same alice two_tasks
    (exec (handle_sum handle_env handle_mem) (DeleteTask alice id1 ≫= λ _, mret ()) st).2.2.
Proof.
  exact (requests_isolated handle_mem alice (DeleteTask alice id1 ≫= λ _, mret ())
           (env_at [] [], (env_at [] [], two_tasks)) (RDelete alice id1) two_tasks_wf).
Defined.

(** * The service's methods *)

(** C4: a status transition succeeds exactly as [legalTransitions] allows: the
    current status again is a no-op that stores nothing; a legal move stores the
    task with only its status, its update time and its version changed; anything
    else is refused with the error of its cause and stores nothing. *)
Theorem TransitionStatus_correct `{Sanitize, unicode.Tables} {S : Type} (h : handler repoE S)
    `{!TaskRepository h} env s u id target :
  repo_inv s →
  let '(w, r) := run (handle_sum handle_env h) (TransitionStatus u id target) (env, s) in
  let m := repo_view s in let m' := repo_view w.2 in
  match r with
  | Ok t => isValidID id = true ∧ ∃ t0, owned m u id = Some t0 ∧
      (t0.(task_Status) = target ∧ t = t0 ∧ m' = m ∨
       t0.(task_Status) ≠ target ∧ legal t0.(task_Status) target = true ∧
       ∃ now, t = moved t0 target now ∧
              m' = <[id := with_version (t0.(task_Version) + 1) t]> m)
  | Err e => m' = m ∧
      (foreign e = true ∨
       Is e (ErrNotFound task_pkg) = true ∧ (isValidID id = false ∨ owned m u id = None) ∨
       Is e (ErrInvalidInput task_pkg) = true ∧ mem validStatuses target = false ∨
       Is e ErrInvalidTransition = true ∧
         ∃ t0, owned m u id = Some t0 ∧ t0.(task_Status) ≠ target ∧
               legal t0.(task_Status) target = false)
  end.
Proof.
  intros Hi. pose proof (TransitionStatus_spec h env s u id target Hi) as Hs.
  destruct (run _ _ _) as [w r]. apply Hs.
Qed.

Example TransitionStatus_correct_witness :
  (run (handle_sum handle_env handle_mem) (TransitionStatus alice id1 StatusDone)
     (env_at [10] [], (env_at [] [], two_tasks))).2 = Ok (moved pending_task StatusDone 10) ∧
  ∃ t0, owned two_tasks alice id1 = Some t0 ∧ legal t0.(task_Status) StatusDone = true.
Proof.
  pose proof (TransitionStatus_correct handle_mem (env_at [10] []) (env_at [] [], two_tasks)
                alice id1 StatusDone two_tasks_wf) as Hs.
  destruct (run _ _ _) as [w r] eqn:E.
  rewrite (run_answer _ _ _ _ _ (Ok (moved pending_task StatusDone 10)) E) in *
    by (vm_compute; reflexivity).
  split; [done|]. destruct Hs as (_ & t0 & Ho & [(Hst & Ht & _)|(_ & Hleg & _)]); [|by exists t0].
  subst t0. vm_compute in Ho. discriminate Ho.
Defined.

(** C5: an update stores the normalized title and description and the priority
    asked for (the current one if none is), leaves identity, owner, status and
    creation time alone and raises the version by one; on every error the store
    is unchanged. *)
Theorem UpdateTask_correct `{Sanitize, unicode.Tables} {S : Type} (h : handler repoE S)
    `{!TaskRepository h} env s u id title description priority :
  repo_inv s →
  let '(w, r) := run (handle_sum handle_env h) (UpdateTask u id title description priority) (env, s) in
  let m := repo_view s in let m' := repo_view w.2 in
  match r with
  | Ok t => isValidID id = true ∧ ∃ t0 p now, owned m u id = Some t0 ∧
      validateTitleAndDescription title description = Ok (t.(task_Title), t.(task_Description)) ∧
      validatePriority priority t0.(task_Priority) = Ok p ∧
      t = edited t0 t.(task_Title) t.(task_Description) p now ∧
      m' = <[id := with_version (t0.(task_Version) + 1) t]> m
  | Err e => m' = m ∧
      (foreign e = true ∨
       Is e (ErrNotFound task_pkg) = true ∧ (isValidID id = false ∨ owned m u id = None) ∨
       Is e (ErrInvalidInput task_pkg) = true)
  end.
Proof.
  intros Hi. pose proof (UpdateTask_spec h env s u id title description priority Hi) as Hs.
  destruct (run _ _ _) as [w r]. apply Hs.
Qed.

Example UpdateTask_correct_witness :
  (run (handle_sum handle_env handle_mem) (UpdateTask alice id1 " new " "d" "high")
     (env_at [10] [], (env_at [] [], two_tasks))).2 = Ok (edited pending_task "new" "d" PriorityHigh 10) ∧
  ∃ t0, owned two_tasks alice id1 = Some t0.
Proof.
  pose proof (UpdateTask_correct handle_mem (env_at [10] []) (env_at [] [], two_tasks)
                alice id1 " new " "d" "high" two_tasks_wf) as Hs.
  destruct (run _ _ _) as [w r] eqn:E.
  rewrite (run_answer _ _ _ _ _ (Ok (edited pending_task "new" "d" PriorityHigh 10)) E) in *
    by (vm_compute; reflexivity).
  split; [done|]. destruct Hs as (_ & t0 & _ & _ & Ho & _). by exists t0.
Defined.

(** C6: a page of [n] tasks at each offset [0, n, 2n, ...] together give the
    whole filtered listing, each task once, oldest first, whatever order the
    map is visited in for each page. *)
Theorem pages_reassemble `{MapIteration} (m : store) u st pr (n pages : nat)
    (it : nat → list (string * Task)) (l : list Task) :
  wf_store m → (∀ i, range_of m (it i)) → is_listing m u st pr l →
  (0 < n)%nat → (length l ≤ pages * n)%nat →
  map (λ i, mFindAll None (it i) u (Z.of_nat n) (Z.of_nat (i * n)) st pr) (seq 0 pages)
    = map (λ i, Ok (take n (drop (i * n) l))) (seq 0 pages) ∧
  concat (map (λ i, take n (drop (i * n) l)) (seq 0 pages)) = l.
Proof.
  intros Hwf Hit Hl Hn Hlen. split.
  - apply map_ext. intros i. unfold mFindAll.
    set (tasks := sort_slice _ _).
    assert (is_listing m u st pr tasks) as Ht.
    { split; [unfold tasks; by rewrite sort_slice_perm, selected_perm|].
      apply sort_slice_sorted. apply _. }
    rewrite (listing_unique m u st pr _ l Hwf Ht Hl).
    destruct (paginateTasks l (Z.of_nat n) (Z.of_nat (i * n))) as [page|] eqn:E.
    + f_equal. apply paginate_skip; [lia|done].
    + unfold paginateTasks in E. repeat case_hyp E. bool_to_prop. lia.
  - pose proof (concat_pages l n pages 0 Hn ltac:(lia)) as Hc. by rewrite drop_0 in Hc.
Qed.

Example pages_reassemble_witness :
  let l := [pending_task] in
  map (λ i, mFindAll None (map_to_list two_tasks) alice 1 (Z.of_nat (i * 1)) [] []) (seq 0 2)
    = [Ok [pending_task]; Ok []].
Proof.
  assert (is_listing two_tasks alice [] [] [pending_task]) as Hl.
  { split; [reflexivity|]. repeat constructor. }
  apply (pages_reassemble two_tasks alice [] [] 1 2 (λ _, map_to_list two_tasks) [pending_task]
           two_tasks_wf (λ _, Permutation_refl _) Hl); simpl; lia.
Defined.

(** The statistics count each selected task once by status and once by
    priority: both tallies sum to the reported total, which is the number of
    tasks the same filter lists. *)
Theorem TaskStats_consistent `{Sanitize, unicode.Tables} {S : Type} (h : handler repoE S)
    `{!TaskRepository h} env s u statuses priorities st :
  repo_inv s →
  eval (handle_sum handle_env h) (TaskStats u statuses priorities) (env, s) = Ok st →
  ∃ fs fp, validateStatusFilters statuses = Ok fs ∧ validatePriorityFilters priorities = Ok fp ∧
    st.(stats_Total) = Z.of_nat (length (selected (repo_view s) u fs fp)) ∧
    st.(stats_Total) = sum_counts st.(stats_ByStatus) ∧
    st.(stats_Total) = sum_counts st.(stats_ByPriority).
Proof.
  unfold eval. intros Hi He. pose proof (TaskStats_spec h env s u statuses priorities Hi) as Hs.
  destruct (run _ _ _) as [w r]. simpl in He. subst. apply Hs.
Qed.

Example TaskStats_consistent_witness :
  match eval (handle_sum handle_env handle_mem) (TaskStats bob [""; "done"; "done"] [])
          (env_at [] [], (env_at [] [], two_tasks)) with
  | Ok st => st.(stats_Total) = 1 ∧ st.(stats_Total) = sum_counts st.(stats_ByStatus)
  | Err _ => False
  end.
Proof.
  destruct (eval _ _ _) as [st|] eqn:E; [|by vm_compute in E]. split.
  - vm_compute in E. by simplify_eq.
  - by destruct (TaskStats_consistent handle_mem _ _ _ _ _ st two_tasks_inv E)
      as (fs & fp & _ & _ & _ & Hs & _).
Defined.

(** A validated status filter holds each requested status once, nothing
    else and never more than the four that exist, which bounds the [IN] list it
    becomes; the empty string asks for nothing. *)
Theorem validateStatusFilters_normalizes (statuses : list string) (st : list Status) :
  validateStatusFilters statuses = Ok st →
  NoDup st ∧ (∀ k, k ∈ st ↔ k ∈ statuses ∧ k ≠ "") ∧
  Forall (λ k, mem validStatuses k = true) st ∧ (length st ≤ 4)%nat.
Proof.
  unfold validateStatusFilters. intros Hv. case_hyp Hv.
  destruct (filterLoop_spec _ _ _ _ Hv) as (Hnd & Hin & Hall). do 3 (split; [done|]).
  by apply (filter_bound validStatuses).
Qed.

Example validateStatusFilters_normalizes_witness :
  validateStatusFilters ["done"; ""; "pending"; "done"] = Ok ["done"; "pending"] ∧
  NoDup ["done"; "pending"].
Proof.
  split; [reflexivity|].
  apply (validateStatusFilters_normalizes ["done"; ""; "pending"; "done"]). reflexivity.
Defined.

(** An identifier that [newID] generates, whatever the entropy, is one that
    every method accepts. *)
Theorem newID_accepted (env : Env) (id : string) :
  eval handle_env newID env = Ok id → isValidID id = true.
Proof.
  unfold eval, newID, newID_with. simpl.
  destruct (pop None (env_rand env)) as [[b|] l]; simpl; [|done].
  intros [= <-]. apply generated_valid.
Qed.

Example newID_accepted_witness :
  match eval handle_env newID (env_at [] [[1; 2; 3]]) with Ok id => isValidID id = true | _ => False end.
Proof.
  destruct (eval handle_env newID _) eqn:E; [by apply (newID_accepted _ _ E)|by vm_compute in E].
Defined.
