(* ===== verification/Sha256.v ===== *)
(** [crypto/sha256] of the standard library, executable: the digests that name
    sessions, versions of tasks and cache entries. *)

From S2P Require Import Prelude GoStd.
Local Open Scope Z_scope.

Module sha256.
Definition mask32 : Z := 4294967295.
Definition add32 (a b : Z) : Z := Z.land (a + b) mask32.
Definition rotr (n x : Z) : Z := Z.lor (Z.shiftr x n) (Z.land (Z.shiftl x (32 - n)) mask32).
Definition not32 (x : Z) : Z := Z.lxor x mask32.

(** The round constants and the initial state. *)
Definition round_constants : list Z := [
  1116352408; 1899447441; 3049323471; 3921009573; 961987163; 1508970993; 2453635748; 2870763221;
  3624381080; 310598401; 607225278; 1426881987; 1925078388; 2162078206; 2614888103; 3248222580;
  3835390401; 4022224774; 264347078; 604807628; 770255983; 1249150122; 1555081692; 1996064986;
  2554220882; 2821834349; 2952996808; 3210313671; 3336571891; 3584528711; 113926993; 338241895;
  666307205; 773529912; 1294757372; 1396182291; 1695183700; 1986661051; 2177026350; 2456956037;
  2730485921; 2820302411; 3259730800; 3345764771; 3516065817; 3600352804; 4094571909; 275423344;
  430227734; 506948616; 659060556; 883997877; 958139571; 1322822218; 1537002063; 1747873779;
  1955562222; 2024104815; 2227730452; 2361852424; 2428436474; 2756734187; 3204031479; 3329325298].

Record state := { sa : Z; sb : Z; sc : Z; sd : Z; se : Z; sf : Z; sg : Z; sh : Z }.

Definition initial_state : state :=
  {| sa := 1779033703; sb := 3144134277; sc := 1013904242; sd := 2773480762;
     se := 1359893119; sf := 2600822924; sg := 528734635; sh := 1541459225 |}.

Definition round (s : state) (kw : Z) : state :=
  let s1 := Z.lxor (rotr 6 s.(se)) (Z.lxor (rotr 11 s.(se)) (rotr 25 s.(se))) in
  let ch := Z.lxor (Z.land s.(se) s.(sf)) (Z.land (not32 s.(se)) s.(sg)) in
  let t1 := Z.land (s.(sh) + s1 + ch + kw) mask32 in
  let s0 := Z.lxor (rotr 2 s.(sa)) (Z.lxor (rotr 13 s.(sa)) (rotr 22 s.(sa))) in
  let maj := Z.lxor (Z.land s.(sa) s.(sb))
               (Z.lxor (Z.land s.(sa) s.(sc)) (Z.land s.(sb) s.(sc))) in
  {| sa := Z.land (t1 + s0 + maj) mask32; sb := s.(sa); sc := s.(sb); sd := s.(sc);
     se := add32 s.(sd) t1; sf := s.(se); sg := s.(sf); sh := s.(sg) |}.

(** The message schedule, latest word first. *)
Fixpoint schedule (n : nat) (rev : list Z) : list Z :=
  match n with
  | O => rev
  | S n' =>
      let w15 := nth 14 rev 0 in
      let w2 := nth 1 rev 0 in
      let s0 := Z.lxor (rotr 7 w15) (Z.lxor (rotr 18 w15) (Z.shiftr w15 3)) in
      let s1 := Z.lxor (rotr 17 w2) (Z.lxor (rotr 19 w2) (Z.shiftr w2 10)) in
      schedule n' (Z.land (nth 15 rev 0 + s0 + nth 6 rev 0 + s1) mask32 :: rev)
  end.

Fixpoint words (n : nat) (l : list Z) : list Z :=
  match n, l with
  | S n', a :: b :: c :: d :: l' =>
      (a * 16777216 + b * 65536 + c * 256 + d) :: words n' l'
  | _, _ => []
  end.

Definition block (s : state) (l : list Z) : state :=
  let ws := rev (schedule 48 (rev (words 16 l))) in
  let s' := fold_left round (map (λ '(k, w), k + w) (combine round_constants ws)) s in
  {| sa := add32 s.(sa) s'.(sa); sb := add32 s.(sb) s'.(sb); sc := add32 s.(sc) s'.(sc);
     sd := add32 s.(sd) s'.(sd); se := add32 s.(se) s'.(se); sf := add32 s.(sf) s'.(sf);
     sg := add32 s.(sg) s'.(sg); sh := add32 s.(sh) s'.(sh) |}.

Fixpoint blocks (n : nat) (s : state) (l : list Z) : state :=
  match n with
  | O => s
  | S n' => blocks n' (block s (take 64 l)) (drop 64 l)
  end.

(** [n] bytes, most significant first. *)
Fixpoint big_endian (n : nat) (z : Z) : list Z :=
  match n with
  | O => []
  | S n' => Z.land (Z.shiftr z (8 * Z.of_nat n')) 255 :: big_endian n' z
  end.

Definition pad (l : list Z) : list Z :=
  let zeros := Z.to_nat ((55 - Z.of_nat (length l)) mod 64) in
  l ++ 128 :: replicate zeros 0 ++ big_endian 8 (8 * Z.of_nat (length l)).

(** [sha256.Sum256]: 32 bytes. *)
Definition Sum256 (l : list Z) : list Z :=
  let p := pad l in
  let s := blocks (length p / 64) initial_state p in
  concat (map (big_endian 4)
    [s.(sa); s.(sb); s.(sc); s.(sd); s.(se); s.(sf); s.(sg); s.(sh)]).

(** [hex.EncodeToString(sum[:])]. *)
Definition hex_digest (s : string) : string := hex.EncodeToString (Sum256 (bytes s)).

Example Sum256_empty :
  hex_digest "" = "e3b0c44298fc1c149afbf4c8996fb92427ae41e4649b934ca495991b7852b855".
Proof. vm_compute. reflexivity. Qed.
Example Sum256_abc :
  hex_digest "abc" = "ba7816bf8f01cfea414140de5dae2223b00361a396177a9cb410ff61f20015ad".
Proof. vm_compute. reflexivity. Qed.
Example Sum256_two_blocks :
  hex_digest "abcdbcdecdefdefgefghfghighijhijkijkljklmklmnlmnomnopnopq"
  = "248d6a61d20638b8e5c026930c3e6039a33ce45964ff2167f6ecedd419db06c1".
Proof. vm_compute. reflexivity. Qed.

Lemma length_big_endian n z : length (big_endian n z) = n.
Proof. revert z; induction n; intros z; simpl; auto. Qed.

Lemma length_Sum256 l : length (Sum256 l) = 32%nat.
Proof.
  unfold Sum256. cbv zeta. cbn [map concat].
  by rewrite !length_app, !length_big_endian.
Qed.

Lemma length_hex l : String.length (hex.EncodeToString l) = (2 * length l)%nat.
Proof. induction l as [|b l IH]; [done|]. cbn [hex.EncodeToString String.length length]. rewrite IH. lia. Qed.

(** A digest is 64 characters long, whatever was hashed. *)
Lemma length_hex_digest s : String.length (hex_digest s) = 64%nat.
Proof. unfold hex_digest. by rewrite length_hex, length_Sum256. Qed.
End sha256.

#[global] Arguments sha256.Sum256 : simpl never.
#[global] Arguments sha256.hex_digest : simpl never.
