(* ===== verification/User.v ===== *)
(** [internal/user]: users and sessions, the [Repository] interface, the two
    in-process maps of the service (token_cache.go, login_backoff.go) and
    [Service] (user.go, repository.go, service.go, password_strength.go). *)

From S2P Require Import Prelude GoStd GoError Uuid Sha256.
Local Open Scope Z_scope.

(** * user.go *)
Record User := {
  user_ID : string;
  user_Email : string;
  user_CreatedAt : Z;
  user_UpdatedAt : Z;
  user_PasswordHash : string;
}.
Record Session := {
  sess_TokenHash : string;
  sess_UserID : string;
  sess_ExpiresAt : Z;
  sess_CreatedAt : Z;
}.
#[export] Instance User_eq_dec : EqDecision User.
Proof. solve_decision. Defined.
#[export] Instance Session_eq_dec : EqDecision Session.
Proof. solve_decision. Defined.

(** The zero value, which indexing a map at an absent key yields. *)
Definition zero_User : User :=
  {| user_ID := ""; user_Email := ""; user_CreatedAt := 0; user_UpdatedAt := 0;
     user_PasswordHash := "" |}.

(** * repository.go *)
Inductive userRepoE : Type → Type :=
| CreateUser (u : User) : userRepoE (option error)
| FindUserByEmail (email : string) : userRepoE (result User)
| FindUserByID (id : string) : userRepoE (result User)
| UpdateUserPassword (id passwordHash : string) : userRepoE (option error)
| DeleteUser (id : string) : userRepoE (option error)
| CreateSession (s : Session) (maxSessions : Z) : userRepoE (option error)
| FindSessionByTokenHash (tokenHash : string) : userRepoE (result Session)
| DeleteSession (tokenHash : string) : userRepoE (option error)
| FindSessionsForUser (userID : string) : userRepoE (result (list Session))
| DeleteSessionsForUser (userID : string) : userRepoE (option error)
| DeleteSessionsForUserExcept (userID keepTokenHash : string) : userRepoE (option error)
| DeleteExpiredSessions (now : Z) : userRepoE (option error).

(** * token_cache.go *)
Module tokenCache.
Definition tokenCacheTTL : Z := 2 * time.Second.

Record tokenCacheEntry := { userID : string; expiresAt : Z }.
Record t := { entries : gmap string tokenCacheEntry; ttl : Z }.

Definition newTokenCache (ttl : Z) : t := {| entries := ∅; ttl := ttl |}.

(** Each method holds the mutex for its whole body and reads the clock at most
    once: [now]. *)
Definition get (now : Z) (tokenHash : string) (c : t) : option string :=
  match c.(entries) !! tokenHash with
  | Some entry =>
      if time.After now entry.(expiresAt) then None else Some entry.(userID)
  | None => None
  end.

Definition set (now : Z) (tokenHash userID : string) (c : t) : t :=
  {| entries := <[tokenHash := {| userID := userID; expiresAt := time.Add now c.(ttl) |}]> c.(entries);
     ttl := c.(ttl) |}.

Definition delete (tokenHash : string) (c : t) : t :=
  {| entries := base.delete tokenHash c.(entries); ttl := c.(ttl) |}.

Definition deleteAllForUser (uid : string) (c : t) : t :=
  {| entries := delete_where (λ _ e, String.eqb e.(userID) uid) c.(entries); ttl := c.(ttl) |}.

Definition deleteAllForUserExcept (uid keepTokenHash : string) (c : t) : t :=
  {| entries := delete_where
       (λ hash e, String.eqb e.(userID) uid && negb (String.eqb hash keepTokenHash)) c.(entries);
     ttl := c.(ttl) |}.

Definition sweep (now : Z) (c : t) : t :=
  {| entries := delete_where (λ _ e, time.After now e.(expiresAt)) c.(entries); ttl := c.(ttl) |}.
End tokenCache.

(** * login_backoff.go *)
Module loginBackoff.
Definition loginBackoffThreshold : Z := 3.
Definition loginBackoffBase : Z := 250 * time.Millisecond.
Definition loginBackoffCap : Z := 4 * time.Second.
Definition loginBackoffIdleReset : Z := 15 * time.Minute.

Record loginBackoffEntry := { failures : Z; lastAttempt : Z }.
Abbreviation t := (gmap string loginBackoffEntry).

Definition newLoginBackoff : t := ∅.

(** [loginBackoffBase << shift], with the cap. *)
Definition shifted (shift : Z) : Z :=
  let d := int64.shl loginBackoffBase shift in
  if (loginBackoffCap <? d) || (d <=? 0) then loginBackoffCap else d.

Definition delay (now : Z) (email : string) (b : t) : t * Z :=
  match b !! email with
  | None => (b, 0)
  | Some entry =>
      if loginBackoffIdleReset <? time.Sub now entry.(lastAttempt)
      then (base.delete email b, 0)
      else if entry.(failures) <? loginBackoffThreshold then (b, 0)
      else (b, shifted (entry.(failures) - loginBackoffThreshold))
  end.

Definition recordFailure (now : Z) (email : string) (b : t) : t :=
  let entry :=
    match b !! email with
    | Some entry =>
        if loginBackoffIdleReset <? time.Sub now entry.(lastAttempt)
        then {| failures := 0; lastAttempt := 0 |} else entry
    | None => {| failures := 0; lastAttempt := 0 |}
    end in
  <[email := {| failures := int64.add entry.(failures) 1; lastAttempt := now |}]> b.

Definition recordSuccess (email : string) (b : t) : t := base.delete email b.

Definition sweep (now : Z) (b : t) : t :=
  delete_where (λ _ e, loginBackoffIdleReset <? time.Sub now e.(lastAttempt)) b.
End loginBackoff.

(** * password_strength.go *)
Definition commonWeakPasswords : list string := [
  "123456"; "password"; "12345678"; "qwerty"; "123456789"; "12345";
  "1234"; "111111"; "1234567"; "dragon"; "123123"; "baseball";
  "iloveyou"; "trustno1"; "1234567890"; "sunshine"; "master"; "123321";
  "letmein"; "696969"; "shadow"; "michael"; "superman"; "1qaz2wsx";
  "7777777"; "121212"; "000000"; "qazwsx"; "123qwe"; "killer";
  "jordan"; "jennifer"; "hunter"; "buster"; "soccer"; "harley";
  "batman"; "andrew"; "tigger"; "charlie"; "robert"; "thomas";
  "hockey"; "ranger"; "daniel"; "starwars"; "112233"; "george";
  "computer"; "michelle"; "jessica"; "pepper"; "1111"; "zxcvbn";
  "555555"; "11111111"; "131313"; "freedom"; "777777"; "pass";
  "maggie"; "159753"; "aaaaaa"; "ginger"; "princess"; "joshua";
  "cheese"; "amanda"; "summer"; "ashley"; "6969"; "nicole";
  "chelsea"; "biteme"; "matthew"; "access"; "yankees"; "987654321";
  "dallas"; "austin"; "thunder"; "taylor"; "matrix"; "mustang";
  "ninja"; "welcome"; "welcome1"; "admin"; "administrator"; "admin123";
  "root"; "toor"; "changeme"; "letmein1"; "password1";
  "passw0rd"; "p@ssw0rd"; "passw0rd!"; "password1!"; "qwerty123";
  "qwertyuiop"; "1q2w3e4r"; "1q2w3e4r5t"; "zaq1zaq1"; "aa123456";
  "asdfghjkl"; "abc12345"; "abcd1234"; "1qaz2wsx3edc"; "iloveyou1";
  "whatever"; "trustme"; "letmein123"; "changeme123"; "temppass";
  "temp123"; "guest"; "guest123"; "test123"; "testing"; "default";
  "default123"; "incorrect"; "wordpass"; "mypassword"; "mypassword1";
  "hello123"; "hello1"; "welcome123"; "abc123"; "monkey"; "football";
  "jesus"; "flower"; "hottie"; "loveme"; "biteme1"; "sunshine1" ].

(** [buildCommonWeakPasswordSet]: a set, of which only membership is asked. *)
Definition buildCommonWeakPasswordSet (entries : list string) : gmap string unit :=
  fold_left (λ set e, <[e := tt]> set) entries ∅.
Definition isCommonWeakPassword `{unicode.Tables} (password : string) : bool :=
  bool_decide (is_Some (buildCommonWeakPasswordSet commonWeakPasswords !! strings.ToLower password)).

Definition isSingleRepeatedRune (password : string) : bool :=
  match utf8.runes password with
  | [] => true
  | r0 :: rs => forallb (λ r, r =? r0) rs
  end.

(** The loop over adjacent runes; [delta] is the difference of two [int32]
    runes, which cannot overflow. *)
Fixpoint runLoop (ascending descending : bool) (prev : Z) (rs : list Z) : bool :=
  match rs with
  | [] => ascending || descending
  | r :: rs' =>
      let delta := r - prev in
      runLoop (ascending && (delta =? 1)) (descending && (delta =? -1)) r rs'
  end.
Definition isSequentialRun (password : string) : bool :=
  match utf8.runes password with
  | [] | [_] => false
  | r0 :: rs => runLoop true true r0 rs
  end.

(** * service.go *)
Definition minPasswordLen : Z := 8.
Definition maxPasswordLen : Z := 72.
Definition maxEmailLen : Z := 320.
Definition sessionTokenBytes : nat := 32.

(** [moat/validate], a library: the rules the code asks for and the check. *)
Inductive rule := Required | Email | MaxLen (n : Z).
Class Validate := validate : string → string → list rule → option error.

Definition normalizeEmail `{unicode.Tables} (email : string) : string :=
  strings.ToLower (strings.TrimSpace email).

(** [fmt.Errorf("%w: %s", ErrInvalidInput, err)]: the cause only as text. *)
Definition validateEmail `{unicode.Tables, Validate} (email : string) : result string :=
  let email := normalizeEmail email in
  match validate "email" email [Required; Email; MaxLen maxEmailLen] with
  | Some err => Err (detail (ErrInvalidInput user_pkg) (Error err))
  | None => Ok email
  end.

Definition validatePassword `{unicode.Tables} (password : string) : option error :=
  let invalid msg := Some (detail (ErrInvalidInput user_pkg) msg) in
  if len password <? minPasswordLen then
    invalid ("password must be at least " +:+ strconv.Itoa minPasswordLen +:+ " characters")
  else if maxPasswordLen <? len password then
    invalid ("password must be at most " +:+ strconv.Itoa maxPasswordLen +:+ " characters")
  else if isCommonWeakPassword password then
    invalid ("password is too common " +:+ of_bytes [226; 128; 148]
      +:+ " choose one that isn't on a list of frequently used passwords")
  else if isSingleRepeatedRune password || isSequentialRun password then
    invalid "password is too predictable (repeated or sequential characters)"
  else None.

Definition hashToken (token : string) : string := sha256.hex_digest token.
Definition sessionIDPrefix : string := "session-id-v1:".
Definition deriveSessionID (tokenHash : string) : string :=
  sha256.hex_digest (sessionIDPrefix +:+ tokenHash).

(** What the service's process does besides calling the store: [bcrypt] (a
    library), waiting, and its two maps, each method atomic under its mutex. *)
Inductive procE : Type → Type :=
| GenerateFromPassword (password : string) : procE (result string)
| CompareHashAndPassword (hash password : string) : procE (option error)
| Sleep (d : Z) : procE unit
| CacheGet (tokenHash : string) : procE (option string)
| CacheSet (tokenHash userID : string) : procE unit
| CacheDelete (tokenHash : string) : procE unit
| CacheDeleteAllForUser (userID : string) : procE unit
| CacheDeleteAllForUserExcept (userID keepTokenHash : string) : procE unit
| CacheSweep : procE unit
| Delay (email : string) : procE Z
| RecordFailure (email : string) : procE unit
| RecordSuccess (email : string) : procE unit
| BackoffSweep : procE unit.

Definition userE : Type → Type := sumE envE (sumE procE userRepoE).

(** [bcrypt]: hashing under a random salt, and comparing. *)
Class Bcrypt := {
  bcrypt_hash : list Z → string → result string;
  bcrypt_compare : string → string → option error;
}.

(** [mustHashDummyPassword], at start-up; a failure panics there. *)
Definition dummy_password : string := "timing-attack-mitigation-dummy-password".
Definition mustHashDummyPassword `{Bcrypt} (salt : list Z) : option string :=
  match bcrypt_hash salt dummy_password with Ok h => Some h | Err _ => None end.

(** The state of the process, and what it waited. *)
Record Proc := {
  proc_env : Env;
  proc_cache : tokenCache.t;
  proc_backoff : loginBackoff.t;
  proc_slept : list Z;
}.

Definition set_cache (c : tokenCache.t) (p : Proc) : Proc :=
  {| proc_env := p.(proc_env); proc_cache := c; proc_backoff := p.(proc_backoff);
     proc_slept := p.(proc_slept) |}.
Definition set_backoff (b : loginBackoff.t) (p : Proc) : Proc :=
  {| proc_env := p.(proc_env); proc_cache := p.(proc_cache); proc_backoff := b;
     proc_slept := p.(proc_slept) |}.
Definition set_env (v : Env) (p : Proc) : Proc :=
  {| proc_env := v; proc_cache := p.(proc_cache); proc_backoff := p.(proc_backoff);
     proc_slept := p.(proc_slept) |}.

(** The clock read that a method of the two maps makes.  [get] and [delay] read
    it only when there is an entry to compare it with; drawing a value that is
    then not looked at changes nothing, the clock being arbitrary. *)
Definition tick (p : Proc) : Proc * Z :=
  let '(v, now) := handle_env _ Now p.(proc_env) in (set_env v p, now).

#[global] Opaque hashToken deriveSessionID.
#[global] Arguments tick : simpl never.

Definition handle_proc `{Bcrypt} : handler (sumE envE procE) Proc := λ X e p,
  match e with
  | inl e => let '(v, x) := handle_env X e p.(proc_env) in (set_env v p, x)
  | inr e =>
      match e in procE X return Proc * X with
      | GenerateFromPassword pw =>
          let '(v, r) := handle_env _ (RandRead 16) p.(proc_env) in
          (set_env v p, match r with Ok salt => bcrypt_hash salt pw | Err e => Err e end)
      | CompareHashAndPassword hash pw => (p, bcrypt_compare hash pw)
      | Sleep d =>
          (* [sleepUnlessDone] returns at once for d <= 0 *)
          if d <=? 0 then (p, tt)
          else ({| proc_env := p.(proc_env); proc_cache := p.(proc_cache);
                   proc_backoff := p.(proc_backoff); proc_slept := p.(proc_slept) ++ [d] |}, tt)
      | CacheGet h => let '(p, now) := tick p in (p, tokenCache.get now h p.(proc_cache))
      | CacheSet h u =>
          let '(p, now) := tick p in (set_cache (tokenCache.set now h u p.(proc_cache)) p, tt)
      | CacheDelete h => (set_cache (tokenCache.delete h p.(proc_cache)) p, tt)
      | CacheDeleteAllForUser u => (set_cache (tokenCache.deleteAllForUser u p.(proc_cache)) p, tt)
      | CacheDeleteAllForUserExcept u h =>
          (set_cache (tokenCache.deleteAllForUserExcept u h p.(proc_cache)) p, tt)
      | CacheSweep =>
          let '(p, now) := tick p in (set_cache (tokenCache.sweep now p.(proc_cache)) p, tt)
      | Delay email =>
          let '(p, now) := tick p in
          let '(b, d) := loginBackoff.delay now email p.(proc_backoff) in (set_backoff b p, d)
      | RecordFailure email =>
          let '(p, now) := tick p in
          (set_backoff (loginBackoff.recordFailure now email p.(proc_backoff)) p, tt)
      | RecordSuccess email =>
          (set_backoff (loginBackoff.recordSuccess email p.(proc_backoff)) p, tt)
      | BackoffSweep =>
          let '(p, now) := tick p in
          (set_backoff (loginBackoff.sweep now p.(proc_backoff)) p, tt)
      end
  end.

(** A process over a repository. *)
Definition handle_user `{Bcrypt} {R} (h : handler userRepoE R) : handler userE (Proc * R) :=
  λ X e '(p, s),
    match e with
    | inl e => let '(p, x) := handle_proc X (inl e) p in ((p, s), x)
    | inr (inl e) => let '(p, x) := handle_proc X (inr e) p in ((p, s), x)
    | inr (inr e) => let '(s, x) := h X e s in ((p, s), x)
    end.

Record SessionInfo := {
  info_ID : string;
  info_CreatedAt : Z;
  info_ExpiresAt : Z;
  info_IsCurrent : bool;
}.

(** [newID]. *)
Definition newID {E} `{!Subevent envE E} : prog E (result string) :=
  newID_with "failed to generate id".

(** The fields of [Service] that are set once; [repo], [tokenCache],
    [loginBackoff] and [sleep] are the calls of [userE]. *)
Record Service := {
  sessionTTL : Z;
  maxSessionsPerUser : Z;
  dummyPasswordHash : string;
}.

Section Service.
Context `{unicode.Tables, Validate} (s : Service).
Local Open Scope prog_scope.

Definition Register (email password : string) : prog userE (result User) :=
  let! email := validateEmail email onerr id in
  match validatePassword password with
  | Some e => mret (Err e)
  | None =>
      let? hash := trigger (GenerateFromPassword password)
        onerr (wrap "register: hash password") in
      let? id := newID onerr (wrap "register") in
      now ← trigger Now;
      let u := {| user_ID := id; user_Email := email; user_PasswordHash := hash;
                  user_CreatedAt := now; user_UpdatedAt := now |} in
      do? trigger (CreateUser u) onerr (wrap "register") in
      mret (Ok u)
  end.

Definition Authenticate (email password : string) : prog userE (result User) :=
  let normalized := normalizeEmail email in
  delay ← trigger (Delay normalized);
  r ← trigger (FindUserByEmail normalized);
  match r with
  | Err err =>
      if Is err (ErrNotFound user_pkg) then
        _ ← trigger (CompareHashAndPassword s.(dummyPasswordHash) password);
        _ ← trigger (RecordFailure normalized);
        _ ← trigger (Sleep delay);
        mret (Err ErrInvalidCredentials)
      else mret (Err (wrap "authenticate" err))
  | Ok u =>
      c ← trigger (CompareHashAndPassword u.(user_PasswordHash) password);
      match c with
      | Some _ =>
          _ ← trigger (RecordFailure normalized);
          _ ← trigger (Sleep delay);
          mret (Err ErrInvalidCredentials)
      | None =>
          _ ← trigger (RecordSuccess normalized);
          _ ← trigger (Sleep delay);
          mret (Ok u)
      end
  end.

Definition verifyPassword (userID password : string) : prog userE (option error) :=
  r ← trigger (FindUserByID userID);
  match r with
  | Err err =>
      if Is err (ErrNotFound user_pkg) then mret (Some (Sentinel ErrInvalidCredentials))
      else mret (Some (wrap "verify password" err))
  | Ok u =>
      c ← trigger (CompareHashAndPassword u.(user_PasswordHash) password);
      match c with
      | Some _ => mret (Some (Sentinel ErrInvalidCredentials))
      | None => mret None
      end
  end.

Definition VerifyPassword (userID password : string) : prog userE (option error) :=
  verifyPassword userID password.

(** [if err := p; err != nil { return wrapped err }] in a method that returns
    only an error. *)
Definition try_ {E} (p : prog E (option error)) (f : error → error)
    (k : prog E (option error)) : prog E (option error) :=
  r ← p; match r with Some e => mret (Some (f e)) | None => k end.

Definition ChangePassword (userID currentPassword newPassword currentSessionToken : string)
    : prog userE (option error) :=
  match validatePassword newPassword with
  | Some e => mret (Some e)
  | None =>
      try_ (verifyPassword userID currentPassword) id (
      r ← trigger (GenerateFromPassword newPassword);
      match r with
      | Err e => mret (Some (wrap "change password: hash password" e))
      | Ok hash =>
          try_ (trigger (UpdateUserPassword userID hash)) (wrap "change password") (
          try_ (trigger (DeleteSessionsForUserExcept userID (hashToken currentSessionToken)))
            (wrap "change password: revoke other sessions") (
          _ ← trigger (CacheDeleteAllForUserExcept userID (hashToken currentSessionToken));
          mret None))
      end)
  end.

Definition DeleteAccount (userID : string) : prog userE (option error) :=
  try_ (trigger (DeleteSessionsForUser userID)) (wrap "delete account: revoke sessions") (
  _ ← trigger (CacheDeleteAllForUser userID);
  try_ (trigger (DeleteUser userID)) (wrap "delete account") (mret None)).

Definition Service_CreateSession (userID : string) : prog userE (result (string * Z)) :=
  let? b := trigger (RandRead sessionTokenBytes) onerr (wrap "create session") in
  let token := hex.EncodeToString b in
  now ← trigger Now;
  let expiresAt := time.Add now s.(sessionTTL) in
  let session := {| sess_TokenHash := hashToken token; sess_UserID := userID;
                    sess_ExpiresAt := expiresAt; sess_CreatedAt := now |} in
  do? trigger (CreateSession session s.(maxSessionsPerUser)) onerr (wrap "create session") in
  mret (Ok (token, expiresAt)).

Definition LogoutAll (userID : string) : prog userE (option error) :=
  try_ (trigger (DeleteSessionsForUser userID)) (wrap "logout all") (
  _ ← trigger (CacheDeleteAllForUser userID);
  mret None).

Definition session_info (currentHash : string) (sess : Session) : SessionInfo :=
  {| info_ID := deriveSessionID sess.(sess_TokenHash); info_CreatedAt := sess.(sess_CreatedAt);
     info_ExpiresAt := sess.(sess_ExpiresAt);
     info_IsCurrent := String.eqb sess.(sess_TokenHash) currentHash |}.

Definition ListSessions (userID currentToken : string) : prog userE (result (list SessionInfo)) :=
  let? sessions := trigger (FindSessionsForUser userID) onerr (wrap "list sessions") in
  let currentHash := hashToken currentToken in
  mret (Ok (map (session_info currentHash) sessions)).

(** The loop of [RevokeSession]. *)
Fixpoint revokeLoop (sessionID : string) (sessions : list Session) : prog userE (option error) :=
  match sessions with
  | [] => mret (Some (Sentinel (ErrNotFound user_pkg)))
  | sess :: rest =>
      if negb (String.eqb (deriveSessionID sess.(sess_TokenHash)) sessionID)
      then revokeLoop sessionID rest
      else
        try_ (trigger (DeleteSession sess.(sess_TokenHash))) (wrap "revoke session") (
        _ ← trigger (CacheDelete sess.(sess_TokenHash));
        mret None)
  end.

Definition RevokeSession (userID sessionID : string) : prog userE (option error) :=
  r ← trigger (FindSessionsForUser userID);
  match r with
  | Err e => mret (Some (wrap "revoke session" e))
  | Ok sessions => revokeLoop sessionID sessions
  end.

Definition ValidateToken (token : string) : prog userE (result string) :=
  let hash := hashToken token in
  cached ← trigger (CacheGet hash);
  match cached with
  | Some cachedUserID => mret (Ok cachedUserID)
  | None =>
      let? session := trigger (FindSessionByTokenHash hash) onerr (wrap "validate token") in
      now ← trigger Now;
      if time.After now session.(sess_ExpiresAt) then
        _ ← trigger (DeleteSession session.(sess_TokenHash));
        mret (Err (ErrNotFound user_pkg))
      else
        _ ← trigger (CacheSet hash session.(sess_UserID));
        mret (Ok session.(sess_UserID))
  end.

Definition Logout (token : string) : prog userE (option error) :=
  let hash := hashToken token in
  try_ (trigger (DeleteSession hash)) (wrap "logout") (
  _ ← trigger (CacheDelete hash);
  mret None).

Definition PruneExpiredSessions : prog userE (option error) :=
  _ ← trigger CacheSweep;
  _ ← trigger BackoffSweep;
  now ← trigger Now;
  try_ (trigger (DeleteExpiredSessions now)) (wrap "prune expired sessions") (mret None).

Definition GetUser (id : string) : prog userE (result User) :=
  let? u := trigger (FindUserByID id) onerr (wrap "get user") in
  mret (Ok u).
End Service.
