(* ===== verification/UserMemory.v ===== *)
(** [internal/user/memory_repository.go]: the in-memory user repository, each
    operation atomic under its mutex, with what [ctx.Err()] answers, the order
    of a [range] over the sessions and the clock as inputs. *)

From S2P Require Import Prelude GoStd GoError Sha256 User.
Local Open Scope Z_scope.

Record memoryRepository := {
  usersByID : gmap string User;
  usersByEmail : gmap string string;
  sessions : gmap string Session;
}.

Definition NewMemoryRepository : memoryRepository :=
  {| usersByID := ∅; usersByEmail := ∅; sessions := ∅ |}.

Definition set_sessions (m : gmap string Session) (r : memoryRepository) : memoryRepository :=
  {| usersByID := r.(usersByID); usersByEmail := r.(usersByEmail); sessions := m |}.

(** [if err := ctx.Err(); err != nil { return err }]. *)
Definition guarded {A} (ctx : option error) (r : memoryRepository) (fail : error → A)
    (k : memoryRepository * A) : memoryRepository * A :=
  match ctx with Some e => (r, fail e) | None => k end.

Definition mCreateUser (ctx : option error) (u : User) (r : memoryRepository)
    : memoryRepository * option error :=
  guarded ctx r Some
    match r.(usersByEmail) !! u.(user_Email) with
    | Some _ => (r, Some (Sentinel (ErrAlreadyExists user_pkg)))
    | None =>
        ({| usersByID := <[u.(user_ID) := u]> r.(usersByID);
            usersByEmail := <[u.(user_Email) := u.(user_ID)]> r.(usersByEmail);
            sessions := r.(sessions) |}, None)
    end.

Definition mFindUserByEmail (ctx : option error) (email : string) (r : memoryRepository)
    : memoryRepository * result User :=
  guarded ctx r Err
    match r.(usersByEmail) !! email with
    | None => (r, Err (ErrNotFound user_pkg))
    | Some id => (r, Ok (default zero_User (r.(usersByID) !! id)))
    end.

Definition mFindUserByID (ctx : option error) (id : string) (r : memoryRepository)
    : memoryRepository * result User :=
  guarded ctx r Err
    match r.(usersByID) !! id with
    | None => (r, Err (ErrNotFound user_pkg))
    | Some u => (r, Ok u)
    end.

Definition with_password (passwordHash : string) (now : Z) (u : User) : User :=
  {| user_ID := u.(user_ID); user_Email := u.(user_Email);
     user_CreatedAt := u.(user_CreatedAt); user_UpdatedAt := now;
     user_PasswordHash := passwordHash |}.

Definition mUpdateUserPassword (ctx : option error) (now : Z) (id passwordHash : string)
    (r : memoryRepository) : memoryRepository * option error :=
  guarded ctx r Some
    match r.(usersByID) !! id with
    | None => (r, Some (Sentinel (ErrNotFound user_pkg)))
    | Some u =>
        ({| usersByID := <[id := with_password passwordHash now u]> r.(usersByID);
            usersByEmail := r.(usersByEmail); sessions := r.(sessions) |}, None)
    end.

Definition mDeleteUser (ctx : option error) (id : string) (r : memoryRepository)
    : memoryRepository * option error :=
  guarded ctx r Some
    match r.(usersByID) !! id with
    | None => (r, Some (Sentinel (ErrNotFound user_pkg)))
    | Some u =>
        ({| usersByID := delete id r.(usersByID);
            usersByEmail := delete u.(user_Email) r.(usersByEmail);
            sessions := r.(sessions) |}, None)
    end.

(** The comparison of the eviction: oldest first. *)
Definition older (a b : Session) : bool := time.Before a.(sess_CreatedAt) b.(sess_CreatedAt).
(** The comparison of the listing: newest first. *)
Definition newer (a b : Session) : bool := time.After a.(sess_CreatedAt) b.(sess_CreatedAt).

(** The sessions of one user, in the order the map was visited. *)
Definition mine (userID : string) (it : list (string * Session)) : list Session :=
  base.filter (λ s, String.eqb s.(sess_UserID) userID = true) (values it).

(** [it] is the order in which the map is visited after the insertion.  A
    negative cap, which the configuration does not allow, would slice past the
    end. *)
Definition mCreateSession (ctx : option error) (it : list (string * Session)) (s : Session)
    (maxSessions : Z) (r : memoryRepository) : memoryRepository * option error :=
  guarded ctx r Some
    (let stored := <[s.(sess_TokenHash) := s]> r.(sessions) in
     let mine := mine s.(sess_UserID) it in
     if Z.of_nat (length mine) <=? maxSessions then (set_sessions stored r, None)
     else if maxSessions <? 0
     then (set_sessions stored r, Some (Panic "slice bounds out of range"))
     else
       let victims := take (length mine - Z.to_nat maxSessions) (sort_slice older mine) in
       (set_sessions (fold_left (λ m v, delete v.(sess_TokenHash) m) victims stored) r, None)).

Definition mDeleteSessionsForUser (ctx : option error) (userID : string)
    (r : memoryRepository) : memoryRepository * option error :=
  guarded ctx r Some
    (set_sessions (delete_where (λ _ s, String.eqb s.(sess_UserID) userID) r.(sessions)) r, None).

Definition mDeleteSessionsForUserExcept (ctx : option error) (userID keepTokenHash : string)
    (r : memoryRepository) : memoryRepository * option error :=
  guarded ctx r Some
    (set_sessions (delete_where
       (λ hash s, String.eqb s.(sess_UserID) userID && negb (String.eqb hash keepTokenHash))
       r.(sessions)) r, None).

Definition mFindSessionByTokenHash (ctx : option error) (tokenHash : string)
    (r : memoryRepository) : memoryRepository * result Session :=
  guarded ctx r Err
    match r.(sessions) !! tokenHash with
    | None => (r, Err (ErrNotFound user_pkg))
    | Some s => (r, Ok s)
    end.

Definition mFindSessionsForUser (ctx : option error) (it : list (string * Session))
    (userID : string) (r : memoryRepository) : memoryRepository * result (list Session) :=
  guarded ctx r Err (r, Ok (sort_slice newer (mine userID it))).

Definition mDeleteSession (ctx : option error) (tokenHash : string) (r : memoryRepository)
    : memoryRepository * option error :=
  guarded ctx r Some (set_sessions (delete tokenHash r.(sessions)) r, None).

Definition mDeleteExpiredSessions (ctx : option error) (now : Z) (r : memoryRepository)
    : memoryRepository * option error :=
  guarded ctx r Some
    (set_sessions (delete_where (λ _ s, time.Before s.(sess_ExpiresAt) now) r.(sessions)) r, None).

(** The repository as an implementation of the interface. *)
Definition handle_umem `{MapIteration} : handler userRepoE (Env * memoryRepository) :=
  λ X e '(env, r),
  let '(env, ctx) := handle_env _ CtxErr env in
  let '(env, seed) := handle_env _ MapSeed env in
  let '(env, now) := handle_env _ Now env in
  let '(r, x) :=
    match e in userRepoE X return memoryRepository * X with
    | CreateUser u => mCreateUser ctx u r
    | FindUserByEmail email => mFindUserByEmail ctx email r
    | FindUserByID id => mFindUserByID ctx id r
    | UpdateUserPassword id hash => mUpdateUserPassword ctx now id hash r
    | DeleteUser id => mDeleteUser ctx id r
    | CreateSession s max =>
        mCreateSession ctx (range_with seed (<[s.(sess_TokenHash) := s]> r.(sessions))) s max r
    | FindSessionByTokenHash h => mFindSessionByTokenHash ctx h r
    | DeleteSession h => mDeleteSession ctx h r
    | FindSessionsForUser u => mFindSessionsForUser ctx (range_with seed r.(sessions)) u r
    | DeleteSessionsForUser u => mDeleteSessionsForUser ctx u r
    | DeleteSessionsForUserExcept u h => mDeleteSessionsForUserExcept ctx u h r
    | DeleteExpiredSessions t => mDeleteExpiredSessions ctx t r
    end in
  ((env, r), x).
