(* ===== verification/UserSpec.v ===== *)
(** What a user [Repository] promises, whichever store is behind it
    (repository.go): users under their identifier with unique addresses, and
    sessions under their token hash; and the proof that the in-memory repository
    with its index by address keeps that promise. *)

From S2P Require Import Prelude GoStd GoError Sha256 User UserMemory.
Local Open Scope Z_scope.

Record Accounts := {
  acc_users : gmap string User;
  acc_sessions : gmap string Session;
}.

Record wf_accounts (a : Accounts) : Prop := {
  wf_user_id : ∀ k u, a.(acc_users) !! k = Some u → u.(user_ID) = k;
  wf_email : ∀ k k' u u', a.(acc_users) !! k = Some u → a.(acc_users) !! k' = Some u' →
    u.(user_Email) = u'.(user_Email) → k = k';
  wf_session : ∀ k s, a.(acc_sessions) !! k = Some s → s.(sess_TokenHash) = k;
}.

Definition user_sentinels : list sentinel :=
  [ErrNotFound user_pkg; ErrAlreadyExists user_pkg; ErrInvalidInput user_pkg; ErrInvalidCredentials].
(** A failure of the store or of the request, not an answer about a user. *)
Definition uforeign (e : error) : bool := forallb (λ s, negb (Is e s)) user_sentinels.

Definition set_acc_sessions (m : gmap string Session) (a : Accounts) : Accounts :=
  {| acc_users := a.(acc_users); acc_sessions := m |}.

(** The user with an address, at most one. *)
Definition has_email (a : Accounts) (email : string) (u : User) : Prop :=
  a.(acc_users) !! u.(user_ID) = Some u ∧ u.(user_Email) = email.
Definition no_email (a : Accounts) (email : string) : Prop :=
  ∀ k u, a.(acc_users) !! k = Some u → u.(user_Email) ≠ email.

#[global] Arguments has_email : simpl never.
#[global] Arguments no_email : simpl never.

(** The sessions of one user, in no particular order. *)
Definition sessions_of (m : gmap string Session) (u : string) : list Session :=
  base.filter (λ s, String.eqb s.(sess_UserID) u = true) (values (map_to_list m)).

(** [m'] is [m] without the oldest sessions of [u] beyond [max]. *)
Definition evicted (m : gmap string Session) (u : string) (max : Z) (m' : gmap string Session)
    : Prop :=
  m' ⊆ m ∧
  (∀ k s, m !! k = Some s → s.(sess_UserID) ≠ u → m' !! k = Some s) ∧
  Z.of_nat (length (sessions_of m' u)) = Z.min (Z.of_nat (length (sessions_of m u))) max ∧
  (∀ k s k' s', m !! k = Some s → m' !! k = None → m' !! k' = Some s' →
     s'.(sess_UserID) = u → s.(sess_CreatedAt) ≤ s'.(sess_CreatedAt)).

(** Creating a user expects an identifier that is not taken: identifiers are
    random, and the stores differ in what they do on a collision. *)
Definition fresh_call {X} (e : userRepoE X) (a : Accounts) : Prop :=
  match e with
  | CreateUser u => a.(acc_users) !! u.(user_ID) = None
  | CreateSession _ max => 0 ≤ max
  | _ => True
  end.

Definition user_spec {X} (e : userRepoE X) (a a' : Accounts) : X → Prop :=
  match e in userRepoE X return X → Prop with
  | CreateUser u => λ r,
      match r with
      | None => no_email a u.(user_Email) ∧
          a' = {| acc_users := <[u.(user_ID) := u]> a.(acc_users);
                  acc_sessions := a.(acc_sessions) |}
      | Some e => a' = a ∧
          (e = ErrAlreadyExists user_pkg ∧ (∃ u', has_email a u.(user_Email) u') ∨
           uforeign e = true)
      end
  | FindUserByEmail email => λ r, a' = a ∧
      match r with
      | Ok u => has_email a email u
      | Err e => e = ErrNotFound user_pkg ∧ no_email a email ∨ uforeign e = true
      end
  | FindUserByID id => λ r, a' = a ∧
      match r with
      | Ok u => a.(acc_users) !! id = Some u
      | Err e => e = ErrNotFound user_pkg ∧ a.(acc_users) !! id = None ∨ uforeign e = true
      end
  | UpdateUserPassword id hash => λ r,
      match r with
      | None => ∃ u now, a.(acc_users) !! id = Some u ∧
          a' = {| acc_users := <[id := with_password hash now u]> a.(acc_users);
                  acc_sessions := a.(acc_sessions) |}
      | Some e => a' = a ∧
          (e = ErrNotFound user_pkg ∧ a.(acc_users) !! id = None ∨ uforeign e = true)
      end
  | DeleteUser id => λ r,
      match r with
      | None => is_Some (a.(acc_users) !! id) ∧
          a' = {| acc_users := delete id a.(acc_users); acc_sessions := a.(acc_sessions) |}
      | Some e => a' = a ∧
          (e = ErrNotFound user_pkg ∧ a.(acc_users) !! id = None ∨ uforeign e = true)
      end
  | CreateSession s max => λ r,
      match r with
      | None => acc_users a' = acc_users a ∧
          evicted (<[s.(sess_TokenHash) := s]> a.(acc_sessions)) s.(sess_UserID) max
            a'.(acc_sessions)
      | Some e => a' = a ∧ uforeign e = true
      end
  | FindSessionByTokenHash h => λ r, a' = a ∧
      match r with
      | Ok s => a.(acc_sessions) !! h = Some s
      | Err e => e = ErrNotFound user_pkg ∧ a.(acc_sessions) !! h = None ∨ uforeign e = true
      end
  | DeleteSession h => λ r,
      match r with
      | None => a' = set_acc_sessions (delete h a.(acc_sessions)) a
      | Some e => a' = a ∧ uforeign e = true
      end
  | FindSessionsForUser u => λ r, a' = a ∧
      match r with
      | Ok l => l ≡ₚ sessions_of a.(acc_sessions) u ∧ StronglySorted (in_order newer) l
      | Err e => uforeign e = true
      end
  | DeleteSessionsForUser u => λ r,
      match r with
      | None => a' = set_acc_sessions
          (delete_where (λ _ s, String.eqb s.(sess_UserID) u) a.(acc_sessions)) a
      | Some e => a' = a ∧ uforeign e = true
      end
  | DeleteSessionsForUserExcept u keep => λ r,
      match r with
      | None => a' = set_acc_sessions
          (delete_where (λ h s, String.eqb s.(sess_UserID) u && negb (String.eqb h keep))
             a.(acc_sessions)) a
      | Some e => a' = a ∧ uforeign e = true
      end
  | DeleteExpiredSessions now => λ r,
      match r with
      | None => a' = set_acc_sessions
          (delete_where (λ _ s, time.Before s.(sess_ExpiresAt) now) a.(acc_sessions)) a
      | Some e => a' = a ∧ uforeign e = true
      end
  end.

(** An implementation of [Repository]: its state shows accounts, and every call
    acts on them as specified. *)
Class UserRepository {R : Type} (h : handler userRepoE R) := {
  urepo_view : R → Accounts;
  urepo_inv : R → Prop;
  urepo_wf : ∀ r, urepo_inv r → wf_accounts (urepo_view r);
  urepo_step_inv : ∀ X (e : userRepoE X) r,
    urepo_inv r → fresh_call e (urepo_view r) → urepo_inv (h X e r).1;
  urepo_sound : ∀ X (e : userRepoE X) r,
    urepo_inv r → fresh_call e (urepo_view r) →
    user_spec e (urepo_view r) (urepo_view (h X e r).1) (h X e r).2;
}.

(** * The in-memory repository meets the specification *)
Definition view_mem (r : memoryRepository) : Accounts :=
  {| acc_users := r.(usersByID); acc_sessions := r.(sessions) |}.

(** The index by address holds exactly the addresses of the users. *)
Record mem_inv (r : memoryRepository) : Prop := {
  mem_ids : ∀ k u, r.(usersByID) !! k = Some u → u.(user_ID) = k;
  mem_index : ∀ email id, r.(usersByEmail) !! email = Some id ↔
    ∃ u, r.(usersByID) !! id = Some u ∧ u.(user_Email) = email;
  mem_hashes : ∀ k s, r.(sessions) !! k = Some s → s.(sess_TokenHash) = k;
}.

Lemma mem_inv_wf r : mem_inv r → wf_accounts (view_mem r).
Proof.
  intros [Hid Hix Hs]. split; simpl; [done| |done].
  intros k k' u u' Hk Hk' He.
  assert (r.(usersByEmail) !! u.(user_Email) = Some k) as H1 by (apply Hix; eauto).
  assert (r.(usersByEmail) !! u.(user_Email) = Some k') as H2 by (apply Hix; eauto).
  congruence.
Qed.

Lemma uforeign_ctx c e : ctx_error c = Some e → uforeign e = true.
Proof. destruct c; simpl; intros; simplify_eq; reflexivity. Qed.

#[export] Instance older_weak : StrictWeak older.
Proof. split; unfold in_order, older, time.Before; [intros|intros ???]; rewrite ?Z.ltb_ge; lia. Qed.
#[export] Instance newer_weak : StrictWeak newer.
Proof. split; unfold in_order, newer, time.After; [intros|intros ???]; rewrite ?Z.ltb_ge; lia. Qed.

Lemma mine_perm (m : gmap string Session) it u :
  range_of m it → mine u it ≡ₚ sessions_of m u.
Proof. intros H. unfold mine, sessions_of, values. by rewrite H. Qed.

Lemma elem_of_sessions_of m u s :
  (∀ k s, m !! k = Some s → s.(sess_TokenHash) = k) →
  s ∈ sessions_of m u ↔ m !! s.(sess_TokenHash) = Some s ∧ s.(sess_UserID) = u.
Proof.
  intros Hwf. unfold sessions_of. rewrite list_elem_of_filter, String.eqb_eq.
  rewrite (elem_of_values m) by by unfold range_of. split.
  - intros [Hu [k Hk]]. by rewrite (Hwf k s Hk).
  - intros [Hk Hu]. eauto.
Qed.

Lemma NoDup_sessions_of m u :
  (∀ k s, m !! k = Some s → s.(sess_TokenHash) = k) → NoDup (sessions_of m u).
Proof.
  intros Hwf. apply NoDup_filter. unfold values.
  apply NoDup_fmap_2_strong; [|apply NoDup_map_to_list].
  intros [k s] [k' s'] Hs Hs' Heq. simpl in Heq. subst s'.
  rewrite elem_of_map_to_list in Hs, Hs'. by rewrite <-(Hwf _ _ Hs), <-(Hwf _ _ Hs').
Qed.

(** Deleting a list of sessions. *)
Lemma lookup_delete_all (l : list Session) (m : gmap string Session) k s :
  fold_left (λ m v, delete v.(sess_TokenHash) m) l m !! k = Some s ↔
  m !! k = Some s ∧ k ∉ map sess_TokenHash l.
Proof.
  revert m; induction l as [|v l IH]; intros m; simpl; [set_solver|].
  rewrite IH, lookup_delete_Some, not_elem_of_cons. naive_solver.
Qed.

Lemma evict_all_kept (m : gmap string Session) u max :
  Z.of_nat (length (sessions_of m u)) ≤ max → evicted m u max m.
Proof.
  intros Hle. split_and!; [done|done|lia|]. intros k s k' s' Hk Hn. congruence.
Qed.

(** The oldest members, as [sort.Slice] leaves them first. *)
Lemma take_oldest n l s s' :
  s ∈ take n (sort_slice older l) → s' ∈ drop n (sort_slice older l) →
  s.(sess_CreatedAt) ≤ s'.(sess_CreatedAt).
Proof.
  intros Hs Hs'. pose proof (sort_slice_sorted older l) as Hsort.
  rewrite <-(take_drop n (sort_slice older l)) in Hsort.
  apply StronglySorted_app in Hsort as (Hcross & _ & _).
  specialize (Hcross s s' Hs Hs'). unfold in_order, older, time.Before in Hcross.
  by apply Z.ltb_ge.
Qed.

(** Deleting some of a user's sessions leaves the others of that user, and
    every other user's. *)
Section remove.
Context (m : gmap string Session) (u : string) (victims kept : list Session).
Hypothesis (Hwf : ∀ k s, m !! k = Some s → s.(sess_TokenHash) = k).
Hypothesis (Hall : victims ++ kept ≡ₚ sessions_of m u).
Abbreviation m' := (fold_left (λ m v, delete v.(sess_TokenHash) m) victims m).

Lemma remove_wf k s : m' !! k = Some s → s.(sess_TokenHash) = k.
Proof. intros Hk. apply lookup_delete_all in Hk as [Hk _]. eauto. Qed.

Lemma remove_sub : m' ⊆ m.
Proof. apply map_subseteq_spec. intros k s Hk. by apply lookup_delete_all in Hk as [? _]. Qed.

Lemma member s : s ∈ victims ++ kept ↔ m !! s.(sess_TokenHash) = Some s ∧ s.(sess_UserID) = u.
Proof. rewrite Hall. by apply elem_of_sessions_of. Qed.

(** Whoever holds the hash of a victim is that victim. *)
Lemma victim_hash k s : m !! k = Some s → k ∈ map sess_TokenHash victims ↔ s ∈ victims.
Proof.
  intros Hk. rewrite (list_elem_of_fmap sess_TokenHash). split.
  - intros (v & -> & Hv). assert (v ∈ victims ++ kept) as Hm by (apply elem_of_app; auto).
    apply member in Hm as [Hm _]. by assert (v = s) as <- by congruence.
  - intros Hs. exists s. by rewrite (Hwf k s Hk).
Qed.

Lemma remove_others k s : m !! k = Some s → s.(sess_UserID) ≠ u → m' !! k = Some s.
Proof.
  intros Hk Hu. apply lookup_delete_all. split; [done|]. rewrite (victim_hash k s Hk).
  intros Hs. apply Hu, member, elem_of_app. by left.
Qed.

Lemma remove_gone k s : m !! k = Some s → m' !! k = None → s ∈ victims.
Proof.
  intros Hk Hgone. destruct (decide (s ∈ victims)) as [|Hs]; [done|].
  rewrite <-(victim_hash k s Hk) in Hs.
  assert (m' !! k = Some s) by by apply lookup_delete_all. congruence.
Qed.

Lemma remove_kept : sessions_of m' u ≡ₚ kept.
Proof.
  pose proof (NoDup_sessions_of m u Hwf) as Hnd. rewrite <-Hall in Hnd.
  apply NoDup_app in Hnd as (_ & Hdisj & Hnd).
  apply NoDup_Permutation; [apply NoDup_sessions_of, remove_wf|done|].
  intros s. rewrite (elem_of_sessions_of _ _ _ remove_wf), lookup_delete_all. split.
  - intros [[Hk Hv] Hu]. rewrite (victim_hash _ s Hk) in Hv.
    assert (s ∈ victims ++ kept) as Hm by by apply member. by apply elem_of_app in Hm as [|].
  - intros Hs. assert (s ∈ victims ++ kept) as Hm by (apply elem_of_app; auto).
    apply member in Hm as [Hk Hu]. split; [split; [done|]|done].
    rewrite (victim_hash _ s Hk). intros Hv. by apply (Hdisj s).
Qed.
End remove.

(** The newest of a user's sessions stay. *)
Lemma evicted_rest (m : gmap string Session) u max victims kept :
  (∀ k s, m !! k = Some s → s.(sess_TokenHash) = k) → victims ++ kept ≡ₚ sessions_of m u →
  Z.of_nat (length kept) = Z.min (Z.of_nat (length (sessions_of m u))) max →
  (∀ v s, v ∈ victims → s ∈ kept → v.(sess_CreatedAt) ≤ s.(sess_CreatedAt)) →
  evicted m u max (fold_left (λ m v, delete v.(sess_TokenHash) m) victims m).
Proof.
  intros Hwf Hall Hlen Hold. split_and!.
  - apply remove_sub.
  - intros k s. by eapply remove_others.
  - by rewrite (remove_kept m u _ _ Hwf Hall).
  - intros k s k' s' Hk Hgone Hk' Hu'. apply Hold; [by eapply remove_gone|].
    rewrite <-(remove_kept m u _ _ Hwf Hall). pose proof (remove_wf m victims Hwf) as Hwf'.
    apply (elem_of_sessions_of _ _ _ Hwf'). by rewrite (Hwf' _ _ Hk').
Qed.
Lemma evict_oldest (m : gmap string Session) it u max :
  (∀ k s, m !! k = Some s → s.(sess_TokenHash) = k) → range_of m it →
  0 ≤ max < Z.of_nat (length (mine u it)) →
  evicted m u max
    (fold_left (λ m v, delete v.(sess_TokenHash) m)
       (take (length (mine u it) - Z.to_nat max) (sort_slice older (mine u it))) m).
Proof.
  intros Hwf Hit Hmax. pose proof (mine_perm m it u Hit) as Hmine.
  set (n := (length (mine u it) - Z.to_nat max)%nat).
  apply (evicted_rest m u max _ (drop n (sort_slice older (mine u it)))); [done| | |].
  - by rewrite take_drop, sort_slice_perm.
  - rewrite length_drop, <-Hmine, sort_slice_perm. unfold n. lia.
  - apply take_oldest.
Qed.

Section memory.
Context `{MapIteration}.

Lemma mem_no_email r email :
  mem_inv r → r.(usersByEmail) !! email = None → no_email (view_mem r) email.
Proof.
  intros Hi Hn k u Hk He. assert (r.(usersByEmail) !! email = Some k) by (apply Hi; eauto).
  congruence.
Qed.

Lemma mem_has_email r email id :
  mem_inv r → r.(usersByEmail) !! email = Some id →
  ∃ u, r.(usersByID) !! id = Some u ∧ has_email (view_mem r) email u.
Proof.
  intros Hi Hn. apply Hi in Hn as (u & Hu & He). exists u. split; [done|].
  split; simpl; [|done]. by rewrite (mem_ids r Hi id u Hu).
Qed.

Lemma umem_sound X (e : userRepoE X) w :
  mem_inv w.2 → fresh_call e (view_mem w.2) →
  user_spec e (view_mem w.2) (view_mem (handle_umem X e w).1.2) (handle_umem X e w).2.
Proof.
  destruct w as [env r]. intros Hi Hf. unfold handle_umem; simpl.
  destruct (pop Live (env_ctx env)) as [c l]; simpl.
  destruct (pop 0%nat (env_seed env)) as [seed l']; simpl.
  destruct (pop 0 (env_clock env)) as [now l'']; simpl. simpl in Hi, Hf.
  destruct e; simpl; unfold mCreateUser, mFindUserByEmail, mFindUserByID, mUpdateUserPassword,
    mDeleteUser, mCreateSession, mFindSessionByTokenHash, mDeleteSession, mFindSessionsForUser,
    mDeleteSessionsForUser, mDeleteSessionsForUserExcept, mDeleteExpiredSessions, guarded;
    destruct (ctx_error c) as [err|] eqn:Hc; simpl;
    try (by eauto using uforeign_ctx); try done.
  - destruct (usersByEmail r !! user_Email u) as [id|] eqn:E; simpl.
    + destruct (mem_has_email r _ _ Hi E) as (u' & _ & Hu'). eauto 6.
    + split; [by apply mem_no_email|done].
  - destruct (usersByEmail r !! email) as [id|] eqn:E; simpl; (split; [done|]).
    + destruct (mem_has_email r _ _ Hi E) as (u' & -> & Hu'). done.
    + left. split; [done|]. by apply mem_no_email.
  - destruct (usersByID r !! id) eqn:E; simpl; eauto 6.
  - destruct (usersByID r !! id) eqn:E; simpl; [|by eauto 6].
    by exists u, now.
  - destruct (usersByID r !! id) eqn:E; simpl; [|by eauto 6]. split; [eauto|done].
  - assert (Hwf : ∀ k x, <[sess_TokenHash s:=s]> (sessions r) !! k = Some x → sess_TokenHash x = k).
    { intros k x. rewrite lookup_insert. case_decide; intros; simplify_eq; [done|].
      by eapply (mem_hashes r Hi). }
    pose proof (range_with_of seed (<[sess_TokenHash s:=s]> (sessions r))) as Hit.
    set (it := range_with _ _) in *.
    assert (length (mine (sess_UserID s) it)
            = length (sessions_of (<[sess_TokenHash s:=s]> (sessions r)) (sess_UserID s))) as Hlen.
    { by rewrite mine_perm. }
    destruct (Z.leb_spec (Z.of_nat (length (mine (sess_UserID s) it))) maxSessions); simpl.
    { split; [done|]. apply evict_all_kept. lia. }
    destruct (Z.ltb_spec maxSessions 0); [simpl in Hf; lia|]. simpl.
    split; [done|]. apply evict_oldest; [done|done|lia].
  - destruct (sessions r !! tokenHash) eqn:E; simpl; eauto 6.
  - split; [done|]. split; [|apply sort_slice_sorted; apply _].
    rewrite sort_slice_perm. apply mine_perm, range_with_of.
Qed.

Lemma hashes_sub (m m' : gmap string Session) :
  (∀ k s, m !! k = Some s → m' !! k = Some s) →
  (∀ k s, m' !! k = Some s → s.(sess_TokenHash) = k) →
  ∀ k s, m !! k = Some s → s.(sess_TokenHash) = k.
Proof. eauto. Qed.

(** Fewer or the same sessions, the same users. *)
Lemma mem_inv_sessions r m :
  (∀ k s, m !! k = Some s → s.(sess_TokenHash) = k) → mem_inv r → mem_inv (set_sessions m r).
Proof. intros Hm [? ? ?]. by split. Qed.

Lemma mem_inv_CreateUser r u :
  mem_inv r → r.(usersByID) !! u.(user_ID) = None → r.(usersByEmail) !! u.(user_Email) = None →
  mem_inv {| usersByID := <[u.(user_ID) := u]> r.(usersByID);
             usersByEmail := <[u.(user_Email) := u.(user_ID)]> r.(usersByEmail);
             sessions := r.(sessions) |}.
Proof.
  intros Hi Hf He. split; simpl; [| |apply Hi].
  - intros k x. rewrite lookup_insert. case_decide; intros; simplify_eq; [done|].
    by apply (mem_ids r Hi).
  - intros email id. rewrite lookup_insert. case_decide as Hd.
    + subst email. split.
      * intros [= <-]. exists u. by rewrite lookup_insert_eq.
      * intros (x & Hx & Hxe). rewrite lookup_insert in Hx. case_decide; [by subst|].
        assert (usersByEmail r !! user_Email u = Some id) by (apply Hi; eauto). congruence.
    + rewrite (mem_index r Hi). split; intros (x & Hx & Hxe).
      * exists x. rewrite lookup_insert_ne by congruence. done.
      * exists x. rewrite lookup_insert in Hx. case_decide; simplify_eq; done.
Qed.

Lemma mem_inv_UpdateUserPassword r id u hash now :
  mem_inv r → r.(usersByID) !! id = Some u →
  mem_inv {| usersByID := <[id := with_password hash now u]> r.(usersByID);
             usersByEmail := r.(usersByEmail); sessions := r.(sessions) |}.
Proof.
  intros Hi Hu. split; simpl; [| |apply Hi].
  - intros k x. rewrite lookup_insert. case_decide; intros; simplify_eq; simpl;
      by apply (mem_ids r Hi).
  - intros email k. rewrite (mem_index r Hi). split; intros (x & Hx & Hxe).
    + destruct (decide (id = k)) as [->|]; [|exists x; by rewrite lookup_insert_ne].
      exists (with_password hash now u). rewrite lookup_insert_eq. split; [done|].
      simpl. congruence.
    + rewrite lookup_insert in Hx. case_decide; simplify_eq; eauto.
Qed.

Lemma mem_inv_DeleteUser r id u :
  mem_inv r → r.(usersByID) !! id = Some u →
  mem_inv {| usersByID := delete id r.(usersByID);
             usersByEmail := delete u.(user_Email) r.(usersByEmail); sessions := r.(sessions) |}.
Proof.
  intros Hi Hu. split; simpl; [| |apply Hi].
  - intros k x. rewrite lookup_delete_Some. intros [_ Hx]. by apply (mem_ids r Hi).
  - intros email k. rewrite lookup_delete_Some, (mem_index r Hi). split.
    + intros [Hne (x & Hx & Hxe)]. exists x. split; [|done].
      rewrite lookup_delete_ne; [done|]. intros <-. congruence.
    + intros (x & Hx & Hxe). apply lookup_delete_Some in Hx as [Hne Hx].
      split; [|eauto]. intros He. apply Hne.
      apply (wf_email _ (mem_inv_wf r Hi) id k u x Hu Hx). congruence.
Qed.

Lemma umem_inv X (e : userRepoE X) w :
  mem_inv w.2 → fresh_call e (view_mem w.2) → mem_inv (handle_umem X e w).1.2.
Proof.
  destruct w as [env r]. intros Hi Hf. unfold handle_umem; simpl.
  destruct (pop Live (env_ctx env)) as [c l]; simpl.
  destruct (pop 0%nat (env_seed env)) as [seed l']; simpl.
  destruct (pop 0 (env_clock env)) as [now l'']; simpl. simpl in Hi, Hf.
  assert (Hdel : ∀ f, mem_inv (set_sessions (delete_where f (sessions r)) r)).
  { intros f. apply mem_inv_sessions; [|done]. intros k s Hk.
    apply lookup_delete_where in Hk as [Hk _]. by eapply (mem_hashes r Hi). }
  destruct e; simpl; unfold mCreateUser, mFindUserByEmail, mFindUserByID, mUpdateUserPassword,
    mDeleteUser, mCreateSession, mFindSessionByTokenHash, mDeleteSession, mFindSessionsForUser,
    mDeleteSessionsForUser, mDeleteSessionsForUserExcept, mDeleteExpiredSessions, guarded;
    destruct (ctx_error c) as [err|] eqn:Hc; simpl; try done.
  - destruct (usersByEmail r !! user_Email u) as [id|] eqn:E; simpl; [done|].
    by apply mem_inv_CreateUser.
  - by destruct (usersByEmail r !! email).
  - by destruct (usersByID r !! id).
  - destruct (usersByID r !! id) eqn:E; simpl; [|done]. by apply mem_inv_UpdateUserPassword.
  - destruct (usersByID r !! id) eqn:E; simpl; [|done]. by apply mem_inv_DeleteUser.
  - assert (Hwf : ∀ k x, <[sess_TokenHash s:=s]> (sessions r) !! k = Some x → sess_TokenHash x = k).
    { intros k x. rewrite lookup_insert. case_decide; intros; simplify_eq; [done|].
      by eapply (mem_hashes r Hi). }
    repeat case_match; simplify_eq/=; apply mem_inv_sessions; try done.
    intros k x Hx. apply lookup_delete_all in Hx as [Hx _]. eauto.
  - by destruct (sessions r !! tokenHash).
  - apply mem_inv_sessions; [|done]. intros k s. rewrite lookup_delete_Some.
    intros [_ Hk]. by eapply (mem_hashes r Hi).
Qed.

#[export] Instance memory_user_repository : UserRepository handle_umem.
Proof.
  refine {| urepo_view := λ w, view_mem w.2; urepo_inv := λ w, mem_inv w.2 |}.
  - intros. by apply mem_inv_wf.
  - intros. by apply umem_inv.
  - intros. by apply umem_sound.
Defined.
End memory.
