(* ===== verification/UserService.v ===== *)
(** What [user.Service] does over any repository that meets the specification
    of [UserSpec], one process at a time; and the two in-process maps. *)

From S2P Require Import Prelude GoStd GoError Uuid Sha256 User UserMemory UserSpec.
Local Open Scope Z_scope.

Lemma uforeign_wrap ctx e : uforeign (wrap ctx e) = uforeign e.
Proof. reflexivity. Qed.
#[export] Hint Rewrite uforeign_wrap : go_rw.

Lemma uforeign_not_found e : uforeign e = true → Is e (ErrNotFound user_pkg) = false.
Proof. unfold uforeign. simpl. intros H. bool_to_prop. done. Qed.

(** * The login delay *)
Module backoff.
Import loginBackoff.

(** The curve as one would write it on paper. *)
Definition curve (n : Z) : Z :=
  if n <? loginBackoffThreshold then 0
  else Z.min loginBackoffCap (loginBackoffBase * 2 ^ (n - loginBackoffThreshold)).

Lemma shl_base_small k : 0 ≤ k ≤ 35 → int64.shl loginBackoffBase k = loginBackoffBase * 2 ^ k.
Proof.
  intros Hk. unfold int64.shl. rewrite Z.shiftl_mul_pow2 by lia. apply int64.wrap_small.
  assert (2 ^ 0 ≤ 2 ^ k ≤ 2 ^ 35) by (split; apply Z.pow_le_mono_r; lia).
  change (2 ^ 35) with 34359738368 in *.
  change loginBackoffBase with 250000000. unfold int64.min, int64.max. lia.
Qed.

(** Past the width of the integer the shifted value is a multiple of a power of
    two larger than the cap. *)
Lemma shl_base_large k : 35 < k → loginBackoffCap < int64.shl loginBackoffBase k ∨ int64.shl loginBackoffBase k ≤ 0.
Proof.
  intros Hk. unfold int64.shl. rewrite Z.shiftl_mul_pow2 by lia.
  set (z := loginBackoffBase * 2 ^ k).
  assert (Z.divide (2 ^ 36) (int64.wrap z)) as [q Hq].
  { unfold int64.wrap. rewrite Z.mod_eq by lia.
    replace (z + 2 ^ 63 - 2 ^ 64 * ((z + 2 ^ 63) / 2 ^ 64) - 2 ^ 63)
      with (z - 2 ^ 64 * ((z + 2 ^ 63) / 2 ^ 64)) by lia.
    apply Z.divide_sub_r.
    - unfold z. apply Z.divide_mul_r. exists (2 ^ (k - 36)). rewrite <-Z.pow_add_r by lia. f_equal. lia.
    - apply Z.divide_mul_l. by exists (2 ^ 28). }
  rewrite Hq. change loginBackoffCap with 4000000000. change (2 ^ 36) with 68719476736. lia.
Qed.

Lemma shifted_curve k : 0 ≤ k → shifted k = Z.min loginBackoffCap (loginBackoffBase * 2 ^ k).
Proof.
  intros Hk. unfold shifted.
  assert (0 < 2 ^ k) by (apply Z.pow_pos_nonneg; lia).
  destruct (Z.le_gt_cases k 35) as [Hs|Hl].
  - rewrite shl_base_small by lia.
    assert (0 < loginBackoffBase * 2 ^ k) by (change loginBackoffBase with 250000000; lia).
    destruct (Z.ltb_spec loginBackoffCap (loginBackoffBase * 2 ^ k));
      destruct (Z.leb_spec (loginBackoffBase * 2 ^ k) 0); simpl; lia.
  - assert (2 ^ 35 ≤ 2 ^ k) by (apply Z.pow_le_mono_r; lia).
    change (2 ^ 35) with 34359738368 in *.
    rewrite Z.min_l.
    2:{ change loginBackoffBase with 250000000. change loginBackoffCap with 4000000000. lia. }
    destruct (shl_base_large k Hl) as [Hc|Hc].
    + by rewrite (proj2 (Z.ltb_lt _ _) Hc).
    + by rewrite (proj2 (Z.leb_le _ _) Hc), orb_true_r.
Qed.

(** Attempts that follow each other within the idle window. *)
Fixpoint close (last : Z) (ts : list Z) : Prop :=
  match ts with
  | [] => True
  | t :: ts' => time.Sub t last ≤ loginBackoffIdleReset ∧ close t ts'
  end.

Lemma last_cons_default {A} (x d : A) l : List.last (x :: l) d = List.last l x.
Proof.
  revert x d; induction l as [|y l IH]; intros x d; [done|].
  change (List.last (y :: l) d = List.last (y :: l) x). by rewrite (IH y d), (IH y x).
Qed.

Lemma failures_count email ts last n b :
  b !! email = Some {| failures := n; lastAttempt := last |} →
  0 ≤ n → n + Z.of_nat (length ts) ≤ int64.max → close last ts →
  fold_left (λ b t, recordFailure t email b) ts b !! email =
  Some {| failures := n + Z.of_nat (length ts); lastAttempt := List.last ts last |}.
Proof.
  revert last n b; induction ts as [|t ts IH]; intros last n b Hb Hn Hmax Hc.
  { cbn [length fold_left List.last]. rewrite Hb. do 2 f_equal. lia. }
  destruct Hc as [Ht Hc]. cbn [length] in *.
  cbn [fold_left].
  assert (recordFailure t email b !! email = Some {| failures := n + 1; lastAttempt := t |}) as Hb'.
  { unfold recordFailure. rewrite lookup_insert_eq, Hb. simpl.
    rewrite (proj2 (Z.ltb_ge _ _)) by done. simpl. unfold int64.add.
    rewrite int64.wrap_small by (unfold int64.min; lia). done. }
  rewrite (IH t (n + 1) _ Hb') by (done || lia). f_equal. f_equal; [lia|].
  by rewrite last_cons_default.
Qed.

(** What the others do to their own entries does not show. *)
Lemma delay_other email email' now b :
  email ≠ email' → (delay now email' (recordFailure now email b)).2 = (delay now email' b).2.
Proof.
  intros Hne. unfold delay, recordFailure. rewrite lookup_insert_ne by done.
  destruct (b !! email') as [e|]; [|done]. by repeat case_match.
Qed.
End backoff.

(** * Passwords *)
Lemma elem_of_weak l s w :
  is_Some (fold_left (λ (set : gmap string unit) e, <[e := tt]> set) l s !! w) ↔
  w ∈ l ∨ is_Some (s !! w).
Proof.
  revert s; induction l as [|e l IH]; intros s; simpl; [set_solver|].
  rewrite IH, lookup_insert_is_Some', elem_of_cons. naive_solver.
Qed.

Lemma isCommonWeakPassword_spec `{unicode.Tables} pw :
  isCommonWeakPassword pw = true ↔ strings.ToLower pw ∈ commonWeakPasswords.
Proof.
  unfold isCommonWeakPassword. rewrite bool_decide_eq_true. unfold buildCommonWeakPasswordSet.
  rewrite elem_of_weak, lookup_empty. split; [|by left]. by intros [?|[? ?]].
Qed.

(** All runes the same. *)
Lemma isSingleRepeatedRune_spec pw :
  isSingleRepeatedRune pw = true ↔ ∀ i j r r', utf8.runes pw !! i = Some r → utf8.runes pw !! j = Some r' → r = r'.
Proof.
  unfold isSingleRepeatedRune. destruct (utf8.runes pw) as [|r0 rs]; [done|].
  rewrite forallb_forall. split.
  - intros Hall. assert (∀ i r, (r0 :: rs) !! i = Some r → r = r0) as Heq.
    { intros [|i] r; simpl; [congruence|]. intros Hi. apply Z.eqb_eq, Hall.
      apply list_elem_of_In. by eapply list_elem_of_lookup_2. }
    intros i j r r' Hi Hj. by rewrite (Heq i r Hi), (Heq j r' Hj).
  - intros Hall x Hx. apply list_elem_of_In, list_elem_of_lookup in Hx as [i Hi].
    apply Z.eqb_eq. by apply (Hall (S i) 0%nat).
Qed.

Lemma differing_runes pw :
  isSingleRepeatedRune pw = false →
  ∃ i j r r', utf8.runes pw !! i = Some r ∧ utf8.runes pw !! j = Some r' ∧ r ≠ r'.
Proof.
  unfold isSingleRepeatedRune. destruct (utf8.runes pw) as [|r0 rs]; [done|]. intros Hf.
  assert (Exists (λ r, r ≠ r0) rs) as (r & (i & Hi)%list_elem_of_lookup & Hne)%Exists_exists.
  { apply not_Forall_Exists; [intros; apply _|]. intros Hall.
    apply not_true_iff_false in Hf. apply Hf, forallb_forall. intros x Hx.
    apply Z.eqb_eq. rewrite Forall_forall in Hall. apply Hall. by apply list_elem_of_In. }
  exists (S i), 0%nat, r, r0. done.
Qed.

(** A run that goes up, or down, by one at every step. *)
Fixpoint steps_by (d : Z) (prev : Z) (rs : list Z) : bool :=
  match rs with
  | [] => true
  | r :: rs' => (r - prev =? d) && steps_by d r rs'
  end.

Lemma runLoop_spec a d prev rs :
  runLoop a d prev rs = (a && steps_by 1 prev rs) || (d && steps_by (-1) prev rs).
Proof.
  revert a d prev; induction rs as [|r rs IH]; intros a d prev; simpl.
  { by rewrite !andb_true_r. }
  rewrite IH. by rewrite !andb_assoc.
Qed.

(** * Methods *)
Section calls.
Context {R : Type} (h : handler userRepoE R) `{!UserRepository h}.

Lemma ucall_sound X (e : userRepoE X) s s' r :
  urepo_inv s → fresh_call e (urepo_view s) → h X e s = (s', r) →
  urepo_inv s' ∧ user_spec e (urepo_view s) (urepo_view s') r.
Proof.
  intros Hi Hf E. pose proof (urepo_step_inv X e s Hi Hf).
  pose proof (urepo_sound X e s Hi Hf). by rewrite E in *.
Qed.

(** The user an address has is determined by the address. *)
Lemma has_email_unique s email u u' :
  urepo_inv s → has_email (urepo_view s) email u → has_email (urepo_view s) email u' → u = u'.
Proof.
  intros Hi [Hu He] [Hu' He'].
  pose proof (wf_email _ (urepo_wf s Hi) _ _ _ _ Hu Hu' ltac:(congruence)). congruence.
Qed.
End calls.

(** Run the next repository call of a method. *)
Ltac urepo_call :=
  match goal with
  | |- context [?h ?X ?e ?s] =>
      match type of e with
      | userRepoE _ =>
          let s' := fresh "s" in let r := fresh "r" in let E := fresh "E" in
          let Hi := fresh "Hi" in let Hs := fresh "Hspec" in
          destruct (h X e s) as [s' r] eqn:E;
          match goal with
          | HI : urepo_inv s |- _ =>
              edestruct (ucall_sound h X e s s' r HI) as [Hi Hs]; [simpl; try done|exact E|]; cbn in Hs
          end
      end
  end.

(** The next clock read of the process. *)
Ltac read_clock :=
  match goal with
  | |- context [tick ?q] => let E := fresh "Htick" in destruct (tick q) as [? ?] eqn:E
  end.

Section methods.
Context `{unicode.Tables, Validate, Bcrypt} {R : Type} (h : handler userRepoE R)
  `{!UserRepository h} (sv : Service).
Abbreviation svc := (handle_user h).
Abbreviation view := (urepo_view (h := h)).

(** No answer of the cache or the store grants [u] for the hash. *)
Definition not_cached (p : Proc) (hash u : string) : Prop :=
  ∀ e, (proc_cache p).(tokenCache.entries) !! hash = Some e → e.(tokenCache.userID) ≠ u.
Definition not_stored (a : Accounts) (hash u : string) : Prop :=
  ∀ s, a.(acc_sessions) !! hash = Some s → s.(sess_UserID) ≠ u.

Lemma get_Some now hash c u :
  tokenCache.get now hash c = Some u →
  ∃ e, c.(tokenCache.entries) !! hash = Some e ∧ e.(tokenCache.userID) = u ∧
       now ≤ e.(tokenCache.expiresAt).
Proof.
  unfold tokenCache.get, time.After. intros Hg.
  destruct (tokenCache.entries c !! hash) as [e|]; [|done].
  destruct (Z.ltb_spec (tokenCache.expiresAt e) now); [done|].
  injection Hg as <-. exists e. split_and!; done || lia.
Qed.

(** Reading the clock leaves the rest of the process alone. *)
Lemma tick_frame p p' now :
  tick p = (p', now) → proc_cache p' = proc_cache p ∧ proc_backoff p' = proc_backoff p ∧
  proc_slept p' = proc_slept p.
Proof. unfold tick. destruct (handle_env _ Now _) as [v t]. by intros [= <- <-]. Qed.

(** [ValidateToken] answers from the cache or from the store. *)
Lemma ValidateToken_spec p s token :
  urepo_inv s →
  let hash := hashToken token in
  let '(w, r) := run svc (ValidateToken token) (p, s) in
  urepo_inv w.2 ∧
  match r with
  | Ok u =>
      (∃ e, (proc_cache p).(tokenCache.entries) !! hash = Some e ∧ e.(tokenCache.userID) = u) ∨
      (∃ x now, (view s).(acc_sessions) !! hash = Some x ∧ x.(sess_UserID) = u ∧
                now ≤ x.(sess_ExpiresAt))
  | Err e => Is e (ErrNotFound user_pkg) = true ∨ uforeign e = true
  end.
Proof.
  intros Hinv. unfold ValidateToken. simpl.
  destruct (tick p) as [p1 now1] eqn:Htick; simpl.
  destruct (tick_frame p p1 now1 Htick) as (Hpc & _ & _).
  destruct (tokenCache.get now1 (hashToken token) (proc_cache p1)) as [u|] eqn:Hg; simpl.
  { split; [done|]. left. rewrite Hpc in Hg. apply get_Some in Hg as (e & He & Hu & _). eauto. }
  urepo_call. destruct Hspec as [Hv Hspec]. destruct r as [x|e]; simpl.
  2:{ split; [done|]. destruct Hspec as [[-> _]|]; [by left|by right]. }
  destruct (pop 0 (env_clock (proc_env p1))) as [now clk]; simpl.
  unfold time.After. destruct (Z.ltb_spec (sess_ExpiresAt x) now); simpl.
  { urepo_call. split; [done|]. by left. }
  read_clock. simpl. split; [done|]. right. exists x, now. done.
Qed.

Lemma ValidateToken_rejects p s token u :
  urepo_inv s → not_cached p (hashToken token) u → not_stored (view s) (hashToken token) u →
  (run svc (ValidateToken token) (p, s)).2 ≠ Ok u.
Proof.
  intros Hinv Hc Hs. pose proof (ValidateToken_spec p s token Hinv) as Hv. cbv zeta in Hv.
  destruct (run svc (ValidateToken token) (p, s)) as [w r]; simpl. intros ->.
  destruct Hv as [_ [(e & He & Hu)|(x & now & Hx & Hu & _)]]; [by eapply Hc|by eapply Hs].
Qed.

Lemma Logout_spec p s token :
  urepo_inv s →
  let '(w, r) := run svc (Logout token) (p, s) in
  urepo_inv w.2 ∧
  match r with
  | None => (∀ u, not_cached w.1 (hashToken token) u) ∧ (∀ u, not_stored (view w.2) (hashToken token) u) ∧
      (∀ k, k ≠ hashToken token → acc_sessions (view w.2) !! k = acc_sessions (view s) !! k)
  | Some e => view w.2 = view s ∧ uforeign e = true
  end.
Proof.
  intros Hinv. unfold Logout, try_. simpl. urepo_call.
  destruct r as [e|]; simpl; [done|]. split; [done|]. rewrite Hspec. split_and!.
  - intros u x. unfold tokenCache.delete; simpl. by rewrite lookup_delete_eq.
  - intros u x. simpl. by rewrite lookup_delete_eq.
  - intros k Hk. simpl. by rewrite lookup_delete_ne.
Qed.

Lemma not_stored_delete_where f m a u hash :
  (∀ s, s.(sess_UserID) = u → f hash s = true) →
  not_stored (set_acc_sessions (delete_where f m) a) hash u.
Proof.
  intros Hf s Hs Hu. apply lookup_delete_where in Hs as [_ Hn]. rewrite Hf in Hn by done. done.
Qed.

Lemma LogoutAll_spec p s u :
  urepo_inv s →
  let '(w, r) := run svc (LogoutAll u) (p, s) in
  urepo_inv w.2 ∧
  match r with
  | None => (∀ hash, not_cached w.1 hash u) ∧ (∀ hash, not_stored (view w.2) hash u) ∧
      acc_users (view w.2) = acc_users (view s)
  | Some e => view w.2 = view s ∧ uforeign e = true
  end.
Proof.
  intros Hinv. unfold LogoutAll, try_. simpl. urepo_call.
  destruct r as [e|]; simpl; [done|]. split; [done|]. rewrite Hspec. split_and!; [| |done].
  - intros hash x. unfold tokenCache.deleteAllForUser; simpl. intros Hx Hu.
    apply lookup_delete_where in Hx as [_ Hx]. apply String.eqb_neq in Hx. congruence.
  - intros hash. apply not_stored_delete_where. intros x <-. apply String.eqb_refl.
Qed.

(** [Register] stores the account it returns. *)
Lemma Register_spec p s email pw w u :
  urepo_inv s → run svc (Register email pw) (p, s) = (w, Ok u) →
  acc_users (view s) !! u.(user_ID) = None →
  validatePassword pw = None ∧ user_Email u = normalizeEmail email ∧
  (∃ salt, bcrypt_hash salt pw = Ok u.(user_PasswordHash)) ∧
  isValidID u.(user_ID) = true ∧
  urepo_inv w.2 ∧ no_email (view s) (user_Email u) ∧
  view w.2 = {| acc_users := <[u.(user_ID) := u]> (acc_users (view s));
                acc_sessions := acc_sessions (view s) |}.
Proof.
  intros Hinv Hrun Hfresh. unfold Register, validateEmail in Hrun. cbn in Hrun.
  case_hyp Hrun. destruct (validatePassword pw) eqn:Hpw; [done|]. split; [done|].
  cbn in Hrun. destruct (pop None (env_rand (proc_env p))) as [salt rnd]; cbn in Hrun.
  destruct salt as [salt|]; cbn in Hrun; [|done].
  destruct (bcrypt_hash (fit_bytes 16 salt) pw) as [hash|] eqn:Hhash; cbn in Hrun; [|done].
  destruct (pop None rnd) as [b rnd']; cbn in Hrun. destruct b as [b|]; cbn in Hrun; [|done].
  destruct (pop 0 (env_clock (proc_env p))) as [now clk]; cbn in Hrun.
  match type of Hrun with context [h _ ?e s] =>
    destruct (h _ e s) as [s' r] eqn:E; pose proof (ucall_sound h _ e s s' r Hinv) as Hs end.
  destruct r as [e|]; cbn in Hrun; simplify_eq/=.
  destruct (Hs Hfresh E) as [Hi' [Hno Hv]]. split_and!; eauto using generated_valid.
Qed.

(** [Authenticate] with the password of the account at that address. *)
Lemma Authenticate_ok p s email pw u :
  urepo_inv s → has_email (view s) (normalizeEmail email) u →
  bcrypt_compare u.(user_PasswordHash) pw = None →
  let '(w, r) := run svc (Authenticate sv email pw) (p, s) in
  view w.2 = view s ∧ (r = Ok u ∨ ∃ e, r = Err e ∧ uforeign e = true).
Proof.
  intros Hinv Hhas Hcmp. unfold Authenticate. simpl. read_clock. simpl.
  destruct (loginBackoff.delay _ _ _) as [b d]; simpl.
  urepo_call. destruct Hspec as [Hv Hspec]. destruct r as [u1|e]; simpl.
  - assert (u1 = u) as -> by by apply (has_email_unique h s (normalizeEmail email)). rewrite Hcmp. simpl.
    destruct (d <=? 0); simpl; (split; [done|]); by left.
  - destruct Hspec as [[_ Hn]|Hf].
    { destruct Hhas as [Hu He]. by destruct (Hn _ _ Hu). }
    rewrite (uforeign_not_found e Hf). simpl. split; [done|]. right. eauto.
Qed.

Lemma verifyPassword_spec p s u pw :
  urepo_inv s →
  let '(w, r) := run svc (verifyPassword u pw) (p, s) in
  w.1 = p ∧ urepo_inv w.2 ∧ view w.2 = view s ∧
  match r with
  | None => ∃ x, acc_users (view s) !! u = Some x ∧ bcrypt_compare x.(user_PasswordHash) pw = None
  | Some e =>
      e = ErrInvalidCredentials ∧
        (acc_users (view s) !! u = None ∨
         ∃ x, acc_users (view s) !! u = Some x ∧ is_Some (bcrypt_compare x.(user_PasswordHash) pw))
      ∨ uforeign e = true
  end.
Proof.
  intros Hinv. unfold verifyPassword. simpl. urepo_call. destruct Hspec as [Hv Hspec].
  destruct r as [x|e]; simpl.
  - destruct (bcrypt_compare (user_PasswordHash x) pw) eqn:Hc; simpl;
      (split_and!; [done|done|done|]); [|by eauto].
    left. split; [done|]. right. exists x. by rewrite Hc.
  - destruct Hspec as [[-> Hn]|Hf]; simpl.
    { split_and!; [done|done|done|]. left. split; [done|by left]. }
    rewrite (uforeign_not_found e Hf). simpl. auto.
Qed.

(** The sessions of [u] other than the one kept are refused from then on. *)
Lemma revoked_except_spec (c : tokenCache.t) p s a u keep hash :
  hash ≠ keep →
  not_cached (set_cache (tokenCache.deleteAllForUserExcept u keep c) p) hash u ∧
  not_stored (set_acc_sessions (delete_where
    (λ h s, String.eqb s.(sess_UserID) u && negb (String.eqb h keep)) s) a) hash u.
Proof.
  intros Hne. split.
  - intros x. unfold tokenCache.deleteAllForUserExcept; simpl. intros Hx Hu.
    apply lookup_delete_where in Hx as [_ Hx]. apply andb_false_iff in Hx as [Hx|Hx].
    + apply String.eqb_neq in Hx. congruence.
    + apply negb_false_iff, String.eqb_eq in Hx. congruence.
  - apply not_stored_delete_where. intros x <-. rewrite String.eqb_refl. simpl.
    by apply negb_true_iff, String.eqb_neq.
Qed.

Lemma ChangePassword_spec p s u cur new tok :
  urepo_inv s →
  let '(w, r) := run svc (ChangePassword u cur new tok) (p, s) in
  urepo_inv w.2 ∧
  match r with
  | None => validatePassword new = None ∧
      (∃ x hash salt now, acc_users (view s) !! u = Some x ∧
        bcrypt_compare x.(user_PasswordHash) cur = None ∧ bcrypt_hash salt new = Ok hash ∧
        acc_users (view w.2) = <[u := with_password hash now x]> (acc_users (view s))) ∧
      (∀ hash, hash ≠ hashToken tok → not_cached w.1 hash u ∧ not_stored (view w.2) hash u) ∧
      acc_sessions (view w.2) !! hashToken tok = acc_sessions (view s) !! hashToken tok
  | Some e => acc_sessions (view w.2) = acc_sessions (view s) ∧ w.1.(proc_cache) = p.(proc_cache)
  end.
Proof.
  intros Hinv. unfold ChangePassword, try_.
  destruct (validatePassword new) as [e|]; [done|]. rewrite run_bind.
  pose proof (verifyPassword_spec p s u cur Hinv) as Hv.
  destruct (run svc (verifyPassword u cur) (p, s)) as [[p1 s1] r]; simpl in Hv.
  destruct Hv as (-> & Hi1 & Hv1 & Hr). destruct r as [e|]; simpl; [by rewrite Hv1|].
  destruct Hr as (x & Hx & Hcmp).
  destruct (pop None (env_rand (proc_env p))) as [salt rnd]; simpl.
  destruct salt as [salt|]; simpl; [|by rewrite Hv1].
  destruct (bcrypt_hash (fit_bytes 16 salt) new) as [hash|e] eqn:Hh; simpl; [|by rewrite Hv1].
  urepo_call. destruct r as [e|]; simpl.
  { destruct Hspec as [-> _]. by rewrite Hv1. }
  destruct Hspec as (x' & now & Hx' & Hv2). rewrite Hv1 in Hx', Hv2.
  assert (x' = x) as -> by congruence.
  urepo_call. destruct r as [e|]; simpl.
  { destruct Hspec as [-> _]. by rewrite Hv2. }
  rewrite Hspec. split_and!; try done.
  - exists x, hash, (fit_bytes 16 salt), now. split_and!; try done. simpl. by rewrite Hv2.
  - intros k Hk. by apply revoked_except_spec.
  - simpl. rewrite Hv2. simpl. destruct (acc_sessions (view s) !! hashToken tok) as [y|] eqn:Hy.
    + apply lookup_delete_where. by rewrite Hy, String.eqb_refl, andb_false_r.
    + by apply lookup_delete_where_None.
Qed.

(** A session of [u] whose public identifier is [sid], if there is one, is
    deleted and forgotten; nothing else is. *)
Lemma revokeLoop_spec p s u sid l :
  urepo_inv s → (∀ x, x ∈ l → acc_sessions (view s) !! x.(sess_TokenHash) = Some x ∧ x.(sess_UserID) = u) →
  let '(w, r) := run svc (revokeLoop sid l) (p, s) in
  urepo_inv w.2 ∧
  match r with
  | None => ∃ x, x ∈ l ∧ deriveSessionID x.(sess_TokenHash) = sid ∧
      view w.2 = set_acc_sessions (delete x.(sess_TokenHash) (acc_sessions (view s))) (view s) ∧
      ∀ v, not_cached w.1 x.(sess_TokenHash) v
  | Some e => view w.2 = view s ∧ w.1 = p ∧
      (e = ErrNotFound user_pkg ∧ Forall (λ x, deriveSessionID x.(sess_TokenHash) ≠ sid) l ∨
       uforeign e = true)
  end.
Proof.
  intros Hinv. induction l as [|x l IH]; intros Hl; cbn [revokeLoop].
  { rewrite run_ret. split; [exact Hinv|]. split; [reflexivity|]. split; [reflexivity|].
    left. split; [reflexivity|constructor]. }
  destruct (String.eqb_spec (deriveSessionID (sess_TokenHash x)) sid) as [He|Hne]; cbn [negb].
  - unfold try_. simpl. urepo_call. destruct r as [e|]; simpl.
    { destruct Hspec. auto. }
    split; [done|]. exists x. split_and!; [by left|done|done|].
    intros v y. unfold tokenCache.delete; simpl. by rewrite lookup_delete_eq.
  - specialize (IH (λ y Hy, Hl y (list_elem_of_further y x l Hy))).
    destruct (run svc (revokeLoop sid l) (p, s)) as [w r]. destruct IH as [Hi IH].
    split; [done|]. destruct r as [e|].
    + destruct IH as (Hv & Hp & He). split_and!; [done|done|].
      destruct He as [[-> Hall]|]; [left|by right]. split; [done|]. by constructor.
    + destruct IH as (y & Hy & Hrest). exists y. split; [by right|done].
Qed.

Lemma RevokeSession_spec p s u sid :
  urepo_inv s →
  let '(w, r) := run svc (RevokeSession u sid) (p, s) in
  urepo_inv w.2 ∧
  match r with
  | None => ∃ x, x ∈ sessions_of (acc_sessions (view s)) u ∧
      deriveSessionID x.(sess_TokenHash) = sid ∧
      view w.2 = set_acc_sessions (delete x.(sess_TokenHash) (acc_sessions (view s))) (view s) ∧
      ∀ v, not_cached w.1 x.(sess_TokenHash) v
  | Some e => view w.2 = view s ∧ w.1 = p ∧
      (e = ErrNotFound user_pkg ∧
         Forall (λ x, deriveSessionID x.(sess_TokenHash) ≠ sid) (sessions_of (acc_sessions (view s)) u) ∨
       uforeign e = true)
  end.
Proof.
  intros Hinv. unfold RevokeSession. simpl. urepo_call. destruct Hspec as [Hv Hspec].
  destruct r as [l|e]; simpl; [|by auto]. destruct Hspec as [Hl _].
  pose proof (revokeLoop_spec p s0 u sid l Hi) as Hr. rewrite Hv in Hr.
  assert (∀ x, x ∈ l → acc_sessions (view s) !! x.(sess_TokenHash) = Some x ∧ x.(sess_UserID) = u) as Hx.
  { intros x. rewrite Hl. apply elem_of_sessions_of, (urepo_wf s Hinv). }
  specialize (Hr Hx). destruct (run svc (revokeLoop sid l) (p, s0)) as [w r].
  destruct Hr as [Hi' Hr]. split; [done|]. destruct r as [e|].
  - destruct Hr as (Hvw & Hp & He). split_and!; [done|done|]. destruct He as [[-> Hall]|]; [|by right].
    left. split; [done|]. by rewrite <-Hl.
  - destruct Hr as (x & Hxl & Hrest). exists x. rewrite <-Hl. done.
Qed.

(** The session that is stored, and what is evicted for it. *)
Lemma CreateSession_spec p s u w tok exp :
  urepo_inv s → 0 ≤ sv.(maxSessionsPerUser) →
  run svc (Service_CreateSession sv u) (p, s) = (w, Ok (tok, exp)) →
  let x := {| sess_TokenHash := hashToken tok; sess_UserID := u; sess_ExpiresAt := exp;
              sess_CreatedAt := exp - sv.(sessionTTL) |} in
  urepo_inv w.2 ∧ String.length tok = 64%nat ∧ acc_users (view w.2) = acc_users (view s) ∧
  evicted (<[hashToken tok := x]> (acc_sessions (view s))) u sv.(maxSessionsPerUser)
    (acc_sessions (view w.2)).
Proof.
  intros Hinv Hmax Hrun. unfold Service_CreateSession in Hrun. cbn in Hrun.
  destruct (pop None (env_rand (proc_env p))) as [b rnd]; cbn in Hrun.
  destruct b as [b|]; cbn in Hrun; [|done].
  destruct (pop 0 (env_clock (proc_env p))) as [now clk]; cbn in Hrun.
  match type of Hrun with context [h _ ?e s] =>
    destruct (h _ e s) as [s' r] eqn:E; destruct (ucall_sound h _ e s s' r Hinv Hmax E) as [Hi' Hs] end.
  destruct r as [e|]; cbn in Hrun; simplify_eq/=. destruct Hs as [Hu Hev].
  split_and!; [done| |done|].
  - by rewrite sha256.length_hex, length_fit_bytes.
  - unfold time.Add in *. by replace (now + sessionTTL sv - sessionTTL sv) with now by lia.
Qed.

(** A login is not evicted for older ones. *)
Lemma evicted_keeps_newest m (x : Session) u max m' :
  (∀ k s, m !! k = Some s → s.(sess_TokenHash) = k) → 1 ≤ max →
  m !! x.(sess_TokenHash) = Some x → x.(sess_UserID) = u →
  (∀ k s, m !! k = Some s → s.(sess_UserID) = u → s = x ∨ s.(sess_CreatedAt) < x.(sess_CreatedAt)) →
  evicted m u max m' → m' !! x.(sess_TokenHash) = Some x.
Proof.
  intros Hwf Hmax Hx Hu Hold (Hsub & _ & Hlen & Hmin).
  destruct (m' !! x.(sess_TokenHash)) as [y|] eqn:E.
  { pose proof (lookup_weaken _ _ _ _ E Hsub). congruence. }
  exfalso. assert (Hwf' : ∀ k s, m' !! k = Some s → s.(sess_TokenHash) = k).
  { intros k y Hk. eapply Hwf, lookup_weaken; [exact Hk|done]. }
  assert (x ∈ sessions_of m u) as Hin by by apply elem_of_sessions_of.
  destruct (sessions_of m' u) as [|y l] eqn:Hl.
  { simpl in Hlen. destruct (sessions_of m u); [set_solver|]. simpl in Hlen. lia. }
  assert (y ∈ sessions_of m' u) as Hy by (rewrite Hl; by left).
  apply (elem_of_sessions_of m' u y Hwf') in Hy as [Hy Hyu].
  specialize (Hmin _ _ _ _ Hx E Hy Hyu).
  destruct (Hold _ _ (lookup_weaken _ _ _ _ Hy Hsub) Hyu) as [->|]; [congruence|lia].
Qed.

(** The account goes last, after its sessions. *)
Lemma DeleteAccount_spec p s u :
  urepo_inv s →
  let '(w, r) := run svc (DeleteAccount u) (p, s) in
  urepo_inv w.2 ∧
  match r with
  | None => acc_users (view w.2) = delete u (acc_users (view s)) ∧
      acc_sessions (view w.2) =
        delete_where (λ _ x, String.eqb x.(sess_UserID) u) (acc_sessions (view s)) ∧
      ∀ hash, not_cached w.1 hash u ∧ not_stored (view w.2) hash u
  | Some e => acc_users (view w.2) = acc_users (view s)
  end.
Proof.
  intros Hinv. unfold DeleteAccount, try_. simpl. urepo_call.
  destruct r as [e|]; simpl; [by destruct Hspec as [-> _]|].
  urepo_call. destruct r as [e|]; simpl.
  { destruct Hspec0 as [-> _]. by rewrite Hspec. }
  destruct Hspec0 as [_ Hv]. rewrite Hv, Hspec. split; [done|]. split_and!; [done|done|].
  intros hash. split.
  - intros x. unfold tokenCache.deleteAllForUser; simpl. intros Hx Hu.
    apply lookup_delete_where in Hx as [_ Hx]. apply String.eqb_neq in Hx. congruence.
  - apply (not_stored_delete_where _ _ {| acc_users := delete u (acc_users (view s));
      acc_sessions := acc_sessions (view s) |}). intros x <-. apply String.eqb_refl.
Qed.
End methods.
