(* ===== verification/UserConcurrent.v ===== *)
(** Requests of [user.Service] whose calls interleave, several of them inside
    the same process and so sharing its token cache.  What the cache can get
    wrong is bounded: it never grants a token to a user who never held it; but a
    validation that overlaps a logout can put a revoked token back. *)

From S2P Require Import Prelude GoStd GoError Uuid Sha256 User UserMemory UserSpec UserService.
Local Open Scope Z_scope.

(** The session that a call may add. *)
Definition adds {X} (e : userRepoE X) (k : string) (x : Session) : Prop :=
  match e with CreateSession s _ => k = s.(sess_TokenHash) ∧ x = s | _ => False end.

(** A store whose sessions only come from [CreateSession], and which answers a
    token hash with the session stored under it. *)
Class SessionStore {R : Type} (h : handler userRepoE R) (view : R → gmap string Session) := {
  store_step : ∀ X (e : userRepoE X) r k x,
    view (h X e r).1 !! k = Some x → view r !! k = Some x ∨ adds e k x;
  store_find : ∀ r k,
    match (h _ (FindSessionByTokenHash k) r).2 with
    | Ok s => view r !! k = Some s
    | Err _ => True
    end;
}.

#[export] Instance memory_session_store `{MapIteration} :
  SessionStore handle_umem (λ w, sessions w.2).
Proof.
  split.
  - intros X e [env r] k x. unfold handle_umem; simpl.
    destruct (pop Live (env_ctx env)) as [c l]; simpl.
    destruct (pop 0%nat (env_seed env)) as [seed l']; simpl.
    destruct (pop 0 (env_clock env)) as [now l'']; simpl.
    destruct e; simpl; unfold mCreateUser, mFindUserByEmail, mFindUserByID, mUpdateUserPassword,
      mDeleteUser, mCreateSession, mFindSessionByTokenHash, mDeleteSession, mFindSessionsForUser,
      mDeleteSessionsForUser, mDeleteSessionsForUserExcept, mDeleteExpiredSessions, guarded;
      destruct (ctx_error c) as [err|]; simpl; repeat case_match; simplify_eq/=; auto;
      rewrite ?lookup_delete_where, ?lookup_delete_all, ?lookup_delete_Some, ?lookup_insert_Some;
      naive_solver.
  - intros [env r] k. unfold handle_umem; simpl.
    destruct (pop Live (env_ctx env)) as [c l]; simpl.
    destruct (pop 0%nat (env_seed env)) as [seed l']; simpl.
    destruct (pop 0 (env_clock env)) as [now l'']; simpl.
    unfold mFindSessionByTokenHash, guarded. by repeat case_match; simplify_eq/=.
Qed.

(** The requests of the service, and what each of them may be trusted to say:
    a token that is validated as a user. *)
Inductive user_request :=
| QRegister (email password : string)
| QAuthenticate (email password : string)
| QChangePassword (userID cur new tok : string)
| QVerifyPassword (userID password : string)
| QDeleteAccount (userID : string)
| QCreateSession (userID : string)
| QLogoutAll (userID : string)
| QListSessions (userID tok : string)
| QRevokeSession (userID sessionID : string)
| QValidate (token : string)
| QLogout (token : string)
| QPrune
| QGetUser (id : string).

Section requests.
Context `{Uni : unicode.Tables, Val : Validate} (sv : Service).

(** The outcome that matters here: whom a validation let in. *)
Definition serve_user (q : user_request) : prog userE (option string) :=
  match q with
  | QRegister e pw => Register e pw ≫= λ _, mret None
  | QAuthenticate e pw => Authenticate sv e pw ≫= λ _, mret None
  | QChangePassword u c n t => ChangePassword u c n t ≫= λ _, mret None
  | QVerifyPassword u pw => VerifyPassword u pw ≫= λ _, mret None
  | QDeleteAccount u => DeleteAccount u ≫= λ _, mret None
  | QCreateSession u => Service_CreateSession sv u ≫= λ _, mret None
  | QLogoutAll u => LogoutAll u ≫= λ _, mret None
  | QListSessions u t => ListSessions u t ≫= λ _, mret None
  | QRevokeSession u i => RevokeSession u i ≫= λ _, mret None
  | QValidate t => ValidateToken t ≫= λ r, mret (match r with Ok u => Some u | Err _ => None end)
  | QLogout t => Logout t ≫= λ _, mret None
  | QPrune => PruneExpiredSessions ≫= λ _, mret None
  | QGetUser i => GetUser i ≫= λ _, mret None
  end.

(** * The protocol

    The world: which user each token hash has ever been a session of. *)
Definition held : Type := string → string → Prop.
Definition held_le (H H' : held) : Prop := ∀ k u, H k u → H' k u.
#[export] Instance held_le_preorder : PreOrder held_le.
Proof. unfold held_le. split; [intros ???; auto|intros ?????; auto]. Qed.

Definition ucall_ok (H : held) X (e : userE X) : Prop :=
  match e with inr (inl (CacheSet k u)) => H k u | _ => True end.

Definition uanswer_ok (H : held) X (e : userE X) : X → Prop :=
  match e with
  | inl _ => λ _, True
  | inr (inl e') =>
      match e' in procE X return X → Prop with
      | CacheGet k => λ r, match r with Some u => H k u | None => True end
      | _ => λ _, True
      end
  | inr (inr e') =>
      match e' in userRepoE X return X → Prop with
      | FindSessionByTokenHash k => λ r, match r with Ok s => H k s.(sess_UserID) | Err _ => True end
      | _ => λ _, True
      end
  end.

Abbreviation ufollows := (follows held_le ucall_ok uanswer_ok).

(** What each request may end with. *)
Definition granted (q : user_request) (H : held) (r : option string) : Prop :=
  match q, r with QValidate t, Some u => H (hashToken t) u | _, _ => True end.

Lemma granted_growing q : growing held_le (granted q).
Proof. intros H' H'' r Hle. destruct q, r; simpl; auto. Qed.

Lemma ucall_ok_mono (H' H'' : held) X (e : userE X) :
  held_le H' H'' → ucall_ok H' X e → ucall_ok H'' X e.
Proof. intros Hle. destruct e as [|[[]|]]; simpl; auto. Qed.

Lemma follows_revokeLoop H' sid l : ufollows any_outcome H' (revokeLoop sid l).
Proof.
  revert H'; induction l as [|x l IH]; intros H'; cbn [revokeLoop]; [done|].
  destruct (negb _); [apply IH|]. unfold try_. follow.
Qed.

Lemma serve_user_follows H' q : ufollows (granted q) H' (serve_user q).
Proof.
  destruct q; cbn [serve_user]; try (apply (follows_bind _ _ _ any_outcome); [|by intros]).
  - unfold Register, newID, newID_with. follow.
  - unfold Authenticate. follow.
  - unfold ChangePassword, verifyPassword, try_. follow.
  - unfold VerifyPassword, verifyPassword. follow.
  - unfold DeleteAccount, try_. follow.
  - unfold Service_CreateSession. follow.
  - unfold LogoutAll, try_. follow.
  - unfold ListSessions. follow.
  - unfold RevokeSession. simpl. split; [done|]. intros K1 [l|e] _ _; [apply follows_revokeLoop|done].
  - unfold ValidateToken. simpl. split; [done|]. intros K1 [u|] Hle Hu; simpl; [done|].
    split; [done|]. intros K2 [x|e] Hle2 Hx; simpl; [|done]. split; [done|].
    intros K3 now Hle3 _. case_match; simpl; [by split|]. split; [by apply Hle3|].
    intros K4 _ Hle4 _. by apply Hle4, Hle3.
  - unfold Logout, try_. follow.
  - unfold PruneExpiredSessions, try_. follow.
  - unfold GetUser. follow.
Qed.
End requests.

(** * The system *)
Section system.
Context `{Uni : unicode.Tables, Val : Validate, Bc : Bcrypt} (sv : Service).
Context {R : Type} (h : handler userRepoE R) (view : R → gmap string Session) `{!SessionStore h view}.
Abbreviation svc := (handle_user h).

(** The requests being served, the process and the store, and every content the
    sessions have had. *)
Record uconf := {
  uc_pool : list (prog userE (option string));
  uc_world : Proc * R;
  uc_history : list (gmap string Session);
}.

Definition held_in (l : list (gmap string Session)) : held :=
  λ k u, ∃ m x, m ∈ l ∧ m !! k = Some x ∧ x.(sess_UserID) = u.

Inductive ustep : uconf → uconf → Prop :=
| UStep ts w l ts' w' X (e : userE X) :
    pool_call svc w ts e w' ts' →
    ustep {| uc_pool := ts; uc_world := w; uc_history := l |}
          {| uc_pool := ts'; uc_world := w'; uc_history := view w'.2 :: l |}.

(** All requests are there from the start; when each one begins is up to the
    interleaving.  The cache is as a process leaves it. *)
Definition uinitial (qs : list user_request) (c : uconf) : Prop :=
  uc_pool c = map (serve_user sv) qs ∧ uc_history c = [view (uc_world c).2] ∧
  (proc_cache (uc_world c).1).(tokenCache.entries) = ∅.

Definition caches (H : held) (c : tokenCache.t) : Prop :=
  ∀ k e, c.(tokenCache.entries) !! k = Some e → H k e.(tokenCache.userID).

Definition aim (qs : list user_request) (i : nat) : held → option string → Prop :=
  match qs !! i with Some q => granted q | None => any_outcome end.

Lemma aim_growing qs i : growing held_le (aim qs i).
Proof. unfold aim. destruct (qs !! i); [apply granted_growing|done]. Qed.

Definition uinv (qs : list user_request) (c : uconf) : Prop :=
  let H := held_in (uc_history c) in
  view (uc_world c).2 ∈ uc_history c ∧ caches H (proc_cache (uc_world c).1) ∧
  ∀ i p, uc_pool c !! i = Some p →
    follows held_le ucall_ok uanswer_ok (aim qs i) H p.

Lemma uinitial_inv qs c : uinitial qs c → uinv qs c.
Proof.
  intros (Hp & Hh & Hc). split_and!.
  - rewrite Hh. by left.
  - intros k e. by rewrite Hc, lookup_empty.
  - intros i p. rewrite Hp. change (map (serve_user sv) qs) with (serve_user sv <$> qs).
    rewrite list_lookup_fmap. unfold aim. destruct (qs !! i) as [q|]; [|done].
    intros [= <-]. apply serve_user_follows.
Qed.

Lemma caches_sub H c c' :
  (∀ k e, c'.(tokenCache.entries) !! k = Some e → c.(tokenCache.entries) !! k = Some e) →
  caches H c → caches H c'.
Proof. intros Hs Hc k e He. auto. Qed.

(** What a call does to the cache, and what its answer tells. *)
Lemma proc_keeps H X (e : sumE envE procE X) (p : Proc) :
  caches H (proc_cache p) →
  match e with inr (CacheSet k u) => H k u | _ => True end →
  caches H (proc_cache (handle_proc X e p).1) ∧
  uanswer_ok H X match e with inl e => inl e | inr e => inr (inl e) end (handle_proc X e p).2.
Proof.
  intros Hc Hok. destruct e as [e|e]; simpl.
  { destruct (handle_env X e (proc_env p)); simpl. by split. }
  destruct e; simpl in *; try (read_clock; destruct (tick_frame _ _ _ Htick) as (Ep & _ & _); simpl);
    try rewrite Ep; try done.
  - destruct (pop None _); simpl. done.
  - by destruct (d <=? 0).
  - split; [done|]. destruct (tokenCache.get _ _ _) eqn:Hg; [|done].
    apply get_Some in Hg as (e & He & <- & _). by apply Hc.
  - split; [|done]. intros k e. unfold tokenCache.set; simpl. rewrite lookup_insert.
    case_decide; [subst; by intros [= <-]|apply Hc].
  - split; [|done]. eapply caches_sub, Hc. intros k e. simpl. by intros [_ ?]%lookup_delete_Some.
  - split; [|done]. eapply caches_sub, Hc. intros k e. simpl. by intros [? _]%lookup_delete_where.
  - split; [|done]. eapply caches_sub, Hc. intros k e. simpl. by intros [? _]%lookup_delete_where.
  - split; [|done]. eapply caches_sub, Hc. intros k e. simpl. by intros [? _]%lookup_delete_where.
  - destruct (loginBackoff.delay _ _ _); simpl. by rewrite Ep.
Qed.

Lemma held_le_cons l m : held_le (held_in l) (held_in (m :: l)).
Proof. intros k u (m' & x & Hm & Hx). exists m', x. split; [by right|done]. Qed.

(** One call: the sessions it leaves are recorded, the cache only holds what
    was recorded, and the answer is one the protocol allows. *)
Lemma call_keeps l X (e : userE X) w :
  view w.2 ∈ l → caches (held_in l) (proc_cache w.1) → ucall_ok (held_in l) X e →
  let w' := (svc X e w).1 in let l' := view w'.2 :: l in
  caches (held_in l') (proc_cache w'.1) ∧ uanswer_ok (held_in l') X e (svc X e w).2.
Proof.
  destruct w as [p s]. cbn [fst snd]. intros Hv Hc Hok. cbv zeta.
  assert (Hweak : ∀ m p', caches (held_in l) (proc_cache p') → caches (held_in (m :: l)) (proc_cache p')).
  { intros m p' Hp' k x Hx. by apply held_le_cons, Hp'. }
  assert (Hans : ∀ m r, uanswer_ok (held_in l) X e r → uanswer_ok (held_in (m :: l)) X e r).
  { intros m r. destruct e as [e|[e|e]]; [done|destruct e|destruct e]; simpl; try done;
      destruct r; try done; apply held_le_cons. }
  destruct e as [e|[e|e]]; cbn [handle_user].
  - pose proof (proc_keeps (held_in l) X (inl e) p Hc I) as [H1 H2].
    destruct (handle_proc X (inl e) p) as [p' x]. split; [by apply Hweak|done].
  - assert (match e with CacheSet k u => held_in l k u | _ => True end) as Hok'.
    { by destruct e. }
    pose proof (proc_keeps (held_in l) X (inr e) p Hc Hok') as [H1 H2].
    destruct (handle_proc X (inr e) p) as [p' x]. split; [by apply Hweak|by apply Hans].
  - destruct (h X e s) as [s' x] eqn:E. cbn [fst snd]. split; [by apply Hweak|].
    destruct e; simpl; try done. pose proof (store_find s tokenHash) as Hf. rewrite E in Hf.
    destruct x as [x|]; [|done]. exists (view s), x. split; [by right|done].
Qed.

Lemma ustep_inv qs c c' : uinv qs c → ustep c c' → uinv qs c'.
Proof.
  intros (Hv & Hc & Hts) Hstep. destruct Hstep as [ts w l ts' w' X e Hcall].
  unfold uinv in *. cbn [uc_pool uc_world uc_history] in *.
  destruct (follows_pool _ _ _ (aim qs) svc w ts ts' e w' (held_in l) ucall_ok_mono
    (aim_growing qs) Hcall Hts) as [Hok Hts'].
  assert (∃ x, svc X e w = (w', x)) as [x E] by (destruct Hcall; eauto).
  pose proof (call_keeps l X e w Hv Hc Hok) as [Hc' Ha]. rewrite E in Hc', Ha. cbn [fst snd] in *.
  split_and!; [by left|done|]. apply Hts'; [apply held_le_cons|].
  intros y Hy. rewrite E in Hy. by simplify_eq.
Qed.

Definition ureachable (qs : list user_request) (c : uconf) : Prop :=
  ∃ c0, uinitial qs c0 ∧ rtc ustep c0 c.

Lemma ureachable_inv qs c : ureachable qs c → uinv qs c.
Proof.
  intros (c0 & H0 & Hr). apply uinitial_inv in H0.
  induction Hr as [|c0 c1 c2 Hs Hr IH]; [done|]. by apply IH, (ustep_inv qs c0).
Qed.
End system.

(** * Running a given interleaving *)
Section schedule.
Context `{Bcrypt} {R : Type} (h : handler userRepoE R) (view : R → gmap string Session).

(** Thread [i] makes its next call. *)
Definition advance (i : nat) (c : uconf) : uconf :=
  match uc_pool c !! i with
  | Some (Vis e k) =>
      let '(w', x) := handle_user h _ e (uc_world c) in
      {| uc_pool := <[i := k x]> (uc_pool c); uc_world := w';
         uc_history := view w'.2 :: uc_history c |}
  | _ => c
  end.

Lemma advance_rtc i c : rtc (ustep h view) c (advance i c).
Proof.
  destruct c as [ts w l]. unfold advance. cbn [uc_pool uc_world uc_history].
  destruct (ts !! i) as [[|X e k]|] eqn:E; try done.
  destruct (handle_user h X e w) as [w' x] eqn:Ew.
  apply rtc_once. apply (UStep h view ts w l _ w' X e). by eapply PoolCall.
Qed.

Lemma schedule_rtc l c : rtc (ustep h view) c (fold_left (λ c i, advance i c) l c).
Proof.
  revert c; induction l as [|i l IH]; intros c; simpl; [done|].
  etransitivity; [apply advance_rtc|apply IH].
Qed.
End schedule.
