(* ===== verification/ConcreteUser.v ===== *)
(** Concrete instances of the parameters of [internal/user], and small stores
    on which the witnesses evaluate. *)

From S2P Require Import Prelude GoStd GoError Uuid Text Sha256 User UserMemory UserSpec UserService Concrete.
Local Open Scope Z_scope.

(** A stand-in for bcrypt with its interface: salted, at most 72 bytes. *)
#[export] Instance toy_bcrypt : Bcrypt := {
  bcrypt_hash := λ salt pw,
    if 72 <? len pw then Err (Opaque "bcrypt: password length exceeds 72 bytes")
    else Ok (sha256.hex_digest pw +:+ hex.EncodeToString salt);
  bcrypt_compare := λ hash pw,
    if String.prefix (sha256.hex_digest pw) hash then None
    else Some (Opaque "crypto/bcrypt: hashedPassword is not the hash of the given password");
}.

Lemma toy_bcrypt_correct salt pw h : bcrypt_hash salt pw = Ok h → bcrypt_compare h pw = None.
Proof. simpl. destruct (72 <? len pw); [done|]. intros [= <-]. by rewrite prefix_append. Qed.

(** The rules of the library on the shapes used here. *)
#[export] Instance toy_validate : Validate := λ field value rules,
  if String.eqb value "" then Some (Opaque (field +:+ ": is required"))
  else if negb (strings.ContainsByte value "@") then Some (Opaque (field +:+ ": must be an email"))
  else if maxEmailLen <? len value then Some (Opaque (field +:+ ": is too long"))
  else None.

Definition service : Service :=
  {| sessionTTL := 24 * time.Hour; maxSessionsPerUser := 2; dummyPasswordHash := "dummy" |}.

Definition proc_at (v : Env) : Proc :=
  {| proc_env := v; proc_cache := tokenCache.newTokenCache tokenCache.tokenCacheTTL;
     proc_backoff := loginBackoff.newLoginBackoff; proc_slept := [] |}.

(** [n] bytes of entropy. *)
Definition seq_bytes (n : nat) (from : Z) : list Z := map (λ i, from + Z.of_nat i) (seq 0 n).

Definition calm : Env := env_at [] [].

Definition mk_session (token uid : string) (created : Z) : Session :=
  {| sess_TokenHash := hashToken token; sess_UserID := uid; sess_ExpiresAt := created + 1000;
     sess_CreatedAt := created |}.

Definition alice_user : User :=
  {| user_ID := alice; user_Email := "alice@example.com"; user_CreatedAt := 1;
     user_UpdatedAt := 1;
     user_PasswordHash := sha256.hex_digest "correct horse" +:+ "00" |}.

(** Alice, logged in twice. *)
Definition alice_store : memoryRepository :=
  {| usersByID := {[ alice := alice_user ]};
     usersByEmail := {[ "alice@example.com" := alice ]};
     sessions := {[ hashToken "t1" := mk_session "t1" alice 10;
                    hashToken "t2" := mk_session "t2" alice 20 ]} |}.

Lemma empty_store_inv : mem_inv NewMemoryRepository.
Proof.
  split; simpl; [set_solver| |set_solver]. intros email id. rewrite lookup_empty.
  split; [done|]. by intros (u & Hu & _).
Qed.

Lemma alice_store_inv : mem_inv alice_store.
Proof.
  split; simpl.
  - intros k u. rewrite lookup_singleton. case_decide; [|done]. by intros [= <-].
  - intros email id. rewrite lookup_singleton. case_decide as He.
    + subst email. split.
      * intros [= <-]. exists alice_user. by rewrite lookup_singleton_eq.
      * intros (u & Hu & _). rewrite lookup_singleton in Hu. case_decide; [by subst|done].
    + split; [done|]. intros (u & Hu & Heq). rewrite lookup_singleton in Hu.
      case_decide; [|done]. by simplify_eq.
  - intros k s. rewrite lookup_insert. case_decide as H1; [by intros [= <-]|].
    rewrite lookup_singleton. case_decide; [by intros [= <-]|done].
Qed.
