(* ===== verification/UserTheorems.v ===== *)
(** The properties of [internal/user] as theorems, with their instances at
    concrete inputs. *)

From S2P Require Import Prelude GoStd GoError Uuid Sha256 User UserMemory UserSpec UserService UserConcurrent Concrete ConcreteUser.
Local Open Scope Z_scope.

(** C10: the login delay follows the documented curve for any number of failures:
    none for the first two, then 250ms doubling up to 4s, although the shift that
    computes it overflows an [int64] after 36 doublings. *)
Theorem login_delay_curve (email : string) (first : Z) (rest : list Z) (now : Z)
    (b : loginBackoff.t) :
  b !! email = None → Z.of_nat (S (length rest)) ≤ int64.max →
  backoff.close first (rest ++ [now]) →
  (loginBackoff.delay now email
     (fold_left (λ b t, loginBackoff.recordFailure t email b) (first :: rest) b)).2
  = backoff.curve (Z.of_nat (S (length rest))).
Proof.
  intros Hb Hmax Hclose. cbn [fold_left].
  assert (Hrest : backoff.close first rest ∧
    time.Sub now (List.last rest first) ≤ loginBackoff.loginBackoffIdleReset).
  { clear Hb Hmax b. revert first Hclose. induction rest as [|t rest IH]; intros first.
    - simpl. by intros [? _].
    - rewrite backoff.last_cons_default. intros [H1 H2]. destruct (IH t H2). by repeat split. }
  destruct Hrest as [Hc Hnow].
  assert (loginBackoff.recordFailure first email b !! email =
    Some {| loginBackoff.failures := 1; loginBackoff.lastAttempt := first |}) as H1.
  { unfold loginBackoff.recordFailure. by rewrite Hb, lookup_insert_eq. }
  unfold loginBackoff.delay.
  rewrite (backoff.failures_count email rest first 1 _ H1) by (done || lia). cbn.
  rewrite (proj2 (Z.ltb_ge _ _)) by done.
  replace (Z.of_nat (S (length rest))) with (1 + Z.of_nat (length rest)) by lia.
  unfold backoff.curve. destruct (Z.ltb_spec (1 + Z.of_nat (length rest)) loginBackoff.loginBackoffThreshold);
    [done|]. apply backoff.shifted_curve. lia.
Qed.

Example login_delay_curve_witness :
  (loginBackoff.delay 5 "a@b"
     (fold_left (λ b t, loginBackoff.recordFailure t "a@b" b) (1 :: [2; 3; 4]) ∅)).2
  = backoff.curve 4.
Proof.
  apply (login_delay_curve "a@b" 1 [2; 3; 4] 5 ∅).
  - apply lookup_empty.
  - vm_compute. congruence.
  - vm_compute. repeat split; congruence.
Defined.

(** C11: what [Register] accepts can log in, with a bcrypt that accepts a password against
    its own hashes of it.  If the identifier that was drawn for the account is not in use, the account is stored under it, it is a valid one, with the normalized
    address, which no account had, and nothing else changes.  And in that state as in any
    other, however much later, that still has the account under its address and with its
    password hash, [Authenticate] with that password and any spelling of the address that
    normalizes alike answers the account as it is then, unless the store fails; it
    changes nothing in the store. *)
Theorem Register_then_Authenticate `{unicode.Tables, Validate, Bcrypt} {R}
    (h : handler userRepoE R) `{!UserRepository h} (sv : Service) (p p' : Proc) (s s' : R)
    (email email' pw : string) (w : Proc * R) (u x : User) :
  (∀ salt hash, bcrypt_hash salt pw = Ok hash → bcrypt_compare hash pw = None) →
  urepo_inv s →
  run (handle_user h) (Register email pw) (p, s) = (w, Ok u) →
  acc_users (urepo_view s) !! u.(user_ID) = None →
  normalizeEmail email' = normalizeEmail email →
  (isValidID u.(user_ID) = true ∧ user_Email u = normalizeEmail email ∧
   no_email (urepo_view s) (user_Email u) ∧
   urepo_view w.2 = {| acc_users := <[u.(user_ID) := u]> (acc_users (urepo_view s));
                       acc_sessions := acc_sessions (urepo_view s) |} ∧
   let '(w', r) := run (handle_user h) (Authenticate sv email' pw) (p', w.2) in
   urepo_view w'.2 = urepo_view w.2 ∧ (r = Ok u ∨ ∃ e, r = Err e ∧ uforeign e = true)) ∧
  (urepo_inv s' → acc_users (urepo_view s') !! u.(user_ID) = Some x →
   user_Email x = user_Email u → x.(user_PasswordHash) = u.(user_PasswordHash) →
   let '(w', r) := run (handle_user h) (Authenticate sv email' pw) (p', s') in
   urepo_view w'.2 = urepo_view s' ∧ (r = Ok x ∨ ∃ e, r = Err e ∧ uforeign e = true)).
Proof.
  intros Hbc Hinv Hrun Hfresh Hnorm.
  destruct (Register_spec h p s email pw w u Hinv Hrun Hfresh)
    as (_ & He & [salt Hsalt] & Hid & Hi' & Hno & Hv). apply Hbc in Hsalt.
  assert (Hlater : ∀ s' x, urepo_inv s' → acc_users (urepo_view s') !! u.(user_ID) = Some x →
    user_Email x = user_Email u → x.(user_PasswordHash) = u.(user_PasswordHash) →
    let '(w', r) := run (handle_user h) (Authenticate sv email' pw) (p', s') in
    urepo_view w'.2 = urepo_view s' ∧ (r = Ok x ∨ ∃ e, r = Err e ∧ uforeign e = true)).
  { intros s0 y Hi Hy Hye Hyp. apply Authenticate_ok; [done| |by rewrite Hyp]. rewrite Hnorm, <-He, <-Hye.
    split; [|done]. by rewrite (wf_user_id _ (urepo_wf s0 Hi) _ _ Hy). }
  split; [|by apply Hlater]. split_and!; try done. apply Hlater; try done. rewrite Hv. simpl. apply lookup_insert_eq.
Qed.

Definition entropy16 : list (list Z) := [seq_bytes 16 1; seq_bytes 16 7].

Definition registered : Proc * (Env * memoryRepository) * result User :=
  run (handle_user handle_umem) (Register " Bob@Example.com" "battery staple 9")
    (proc_at (env_at [50] entropy16), (calm, NewMemoryRepository)).
(** Somebody else registers after that. *)
Definition registered_next : Proc * (Env * memoryRepository) * result User :=
  run (handle_user handle_umem) (Register "carol@example.com" "battery staple 8")
    (proc_at (env_at [60] [seq_bytes 16 3; seq_bytes 16 9]), registered.1.2).
Definition ids_differ : bool :=
  match registered.2, registered_next.2 with
  | Ok u, Ok v => negb (String.eqb v.(user_ID) u.(user_ID))
  | _, _ => false
  end.
Lemma ids_do_differ : ids_differ = true.
Proof. vm_compute. reflexivity. Qed.
(** The first account is still there. *)
Lemma registered_later u : registered.2 = Ok u →
  mem_inv registered_next.1.2.2 ∧ registered_next.1.2.2.(usersByID) !! u.(user_ID) = Some u.
Proof.
  intros Hu. pose proof ids_do_differ as Hd. unfold ids_differ in Hd. rewrite Hu in Hd.
  destruct registered as [w r] eqn:E. cbn in Hu. subst r.
  assert (H0 : urepo_inv (h := handle_umem) (calm, NewMemoryRepository)) by exact empty_store_inv.
  destruct (Register_spec handle_umem _ _ _ _ w u H0 E ltac:(simpl; apply lookup_empty)) as (_ & _ & _ & _ & Hi & _ & Hv).
  destruct registered_next as [w2 r2] eqn:E2. unfold registered_next in E2. rewrite E in E2. cbn [snd fst] in *.
  destruct r2 as [v|e]; [|done]. apply negb_true_iff, String.eqb_neq in Hd.
  assert (Hn : acc_users (urepo_view (h := handle_umem) w.2) !! v.(user_ID) = None).
  { rewrite Hv. cbn. rewrite lookup_insert_ne by congruence. apply lookup_empty. }
  destruct (Register_spec handle_umem _ w.2 _ _ w2 v Hi E2 Hn) as (_ & _ & _ & _ & Hi2 & _ & Hv2).
  split; [exact Hi2|]. change (acc_users (urepo_view (h := handle_umem) w2.2) !! u.(user_ID) = Some u).
  rewrite Hv2. cbn. rewrite lookup_insert_ne by congruence. change (acc_users (urepo_view (h := handle_umem) w.2) !! u.(user_ID) = Some u).
  rewrite Hv. cbn. apply lookup_insert_eq.
Qed.

Example Register_then_Authenticate_witness :
  ∃ u, registered.2 = Ok u ∧
  let '(w', r) := run (handle_user handle_umem)
    (Authenticate service "bob@example.com" "battery staple 9") (proc_at calm, registered_next.1.2) in
  r = Ok u ∨ ∃ e, r = Err e ∧ uforeign e = true.
Proof.
  destruct registered as [w [u|e]] eqn:E; [|vm_compute in E; discriminate].
  exists u. split; [reflexivity|].
  destruct (registered_later u ltac:(by rewrite E)) as [Hi Hx].
  destruct (Register_then_Authenticate handle_umem service (proc_at (env_at [50] entropy16))
    (proc_at calm) (calm, NewMemoryRepository) registered_next.1.2 " Bob@Example.com" "bob@example.com"
    "battery staple 9" w u u) as [_ H].
  - intros salt hash. apply toy_bcrypt_correct.
  - exact empty_store_inv.
  - exact E.
  - simpl. apply lookup_empty.
  - vm_compute. reflexivity.
  - specialize (H Hi Hx eq_refl eq_refl). destruct (run _ _ _) as [w' r]. apply H.
Defined.

(** C12: a password change verifies the current password and the policy of the
    new one, replaces exactly the hash of that account by a hash of the new
    password, and revokes every other session of the account at once, in the
    store and in the process's cache, while the caller's own session stays; when
    it fails no session is revoked. *)
Theorem ChangePassword_correct `{unicode.Tables, Bcrypt} {R} (h : handler userRepoE R)
    `{!UserRepository h} (p : Proc) (s : R) (u cur new tok : string) :
  urepo_inv s →
  let '(w, r) := run (handle_user h) (ChangePassword u cur new tok) (p, s) in
  match r with
  | None =>
      validatePassword new = None ∧
      (∃ x hash salt now, acc_users (urepo_view s) !! u = Some x ∧
        bcrypt_compare x.(user_PasswordHash) cur = None ∧ bcrypt_hash salt new = Ok hash ∧
        acc_users (urepo_view w.2) = <[u := with_password hash now x]> (acc_users (urepo_view s))) ∧
      (∀ token, hashToken token ≠ hashToken tok →
        (run (handle_user h) (ValidateToken token) w).2 ≠ Ok u) ∧
      acc_sessions (urepo_view w.2) !! hashToken tok = acc_sessions (urepo_view s) !! hashToken tok
  | Some _ => acc_sessions (urepo_view w.2) = acc_sessions (urepo_view s)
  end.
Proof.
  intros Hinv. pose proof (ChangePassword_spec h p s u cur new tok Hinv) as Hs.
  destruct (run _ (ChangePassword u cur new tok) (p, s)) as [[p' s'] [e|]];
    destruct Hs as [Hi' Hs]; [by destruct Hs|].
  destruct Hs as (Hpw & Hx & Hrev & Hkeep). split_and!; [done|done| |done].
  intros token Hne. destruct (Hrev _ Hne). by apply (ValidateToken_rejects h).
Qed.

Definition changed : Proc * (Env * memoryRepository) * option error :=
  run (handle_user handle_umem) (ChangePassword alice "correct horse" "battery staple 9" "t2")
    (proc_at (env_at [] entropy16), (calm, alice_store)).

Example ChangePassword_correct_witness :
  changed.2 = None ∧
  (run (handle_user handle_umem) (ValidateToken "t1") changed.1).2 ≠ Ok alice.
Proof.
  pose proof (ChangePassword_correct handle_umem (proc_at (env_at [] entropy16))
    (calm, alice_store) alice "correct horse" "battery staple 9" "t2" alice_store_inv) as Hc.
  fold changed in Hc. destruct changed as [w r] eqn:E.
  assert (r = None) as -> by (transitivity changed.2; [by rewrite E|vm_compute; reflexivity]).
  split; [reflexivity|]. destruct Hc as (_ & _ & Hrev & _). apply Hrev.
  vm_compute. discriminate.
Defined.

(** C13: once [Logout], [LogoutAll] or [RevokeSession] has returned without
    error, and before anything else happens, this process no longer accepts
    what was revoked: not the token, not any token of the user, not any token
    with the identifier that was named; and [RevokeSession] reaches only
    sessions of the caller. *)
Theorem revocation_is_immediate `{Bcrypt} {R} (h : handler userRepoE R) `{!UserRepository h}
    (p : Proc) (s : R) (u token sid : string) :
  urepo_inv s →
  (let '(w, r) := run (handle_user h) (Logout token) (p, s) in
   r = None → ∀ v, (run (handle_user h) (ValidateToken token) w).2 ≠ Ok v) ∧
  (let '(w, r) := run (handle_user h) (LogoutAll u) (p, s) in
   r = None → ∀ t, (run (handle_user h) (ValidateToken t) w).2 ≠ Ok u) ∧
  (let '(w, r) := run (handle_user h) (RevokeSession u sid) (p, s) in
   match r with
   | None => ∃ x, acc_sessions (urepo_view s) !! x.(sess_TokenHash) = Some x ∧
       x.(sess_UserID) = u ∧ deriveSessionID x.(sess_TokenHash) = sid ∧
       (∀ k, k ≠ x.(sess_TokenHash) →
          acc_sessions (urepo_view w.2) !! k = acc_sessions (urepo_view s) !! k) ∧
       ∀ t v, hashToken t = x.(sess_TokenHash) →
          (run (handle_user h) (ValidateToken t) w).2 ≠ Ok v
   | Some _ => urepo_view w.2 = urepo_view s
   end).
Proof.
  intros Hinv. split_and!.
  - pose proof (Logout_spec h p s token Hinv) as Hs.
    destruct (run _ (Logout token) (p, s)) as [[p' s'] r]. intros -> v.
    destruct Hs as (Hi' & Hc & Hst & _). by apply (ValidateToken_rejects h).
  - pose proof (LogoutAll_spec h p s u Hinv) as Hs.
    destruct (run _ (LogoutAll u) (p, s)) as [[p' s'] r]. intros -> t.
    destruct Hs as (Hi' & Hc & Hst & _). by apply (ValidateToken_rejects h).
  - pose proof (RevokeSession_spec h p s u sid Hinv) as Hs.
    destruct (run _ (RevokeSession u sid) (p, s)) as [[p' s'] [e|]];
      destruct Hs as [Hi' Hs]; [by destruct Hs|].
    destruct Hs as (x & Hx & Hsid & Hv & Hc). exists x.
    apply elem_of_sessions_of in Hx as [Hx Hu]; [|apply (urepo_wf s Hinv)].
    cbn [fst snd] in *. split_and!; [done|done|done| |].
    + intros k Hk. rewrite Hv. by apply lookup_delete_ne.
    + intros t v Ht. apply (ValidateToken_rejects h); [done| |]; rewrite Ht; [apply Hc|].
      rewrite Hv. intros y. cbn. by rewrite lookup_delete_eq.
Qed.

Definition revoked : Proc * (Env * memoryRepository) * option error :=
  run (handle_user handle_umem) (RevokeSession alice (deriveSessionID (hashToken "t1")))
    (proc_at calm, (calm, alice_store)).

Example revocation_is_immediate_witness :
  revoked.2 = None ∧ ∃ x, x.(sess_UserID) = alice ∧
    deriveSessionID x.(sess_TokenHash) = deriveSessionID (hashToken "t1") ∧
    ∀ t v, hashToken t = x.(sess_TokenHash) →
      (run (handle_user handle_umem) (ValidateToken t) revoked.1).2 ≠ Ok v.
Proof.
  pose proof (revocation_is_immediate handle_umem (proc_at calm) (calm, alice_store) alice "t1"
    (deriveSessionID (hashToken "t1")) alice_store_inv) as (_ & _ & Hr).
  fold revoked in Hr.
  assert (revoked.2 = None) as Hn by (vm_compute; reflexivity).
  destruct revoked as [w r]. cbn [snd] in Hn. subst r.
  split; [reflexivity|]. destruct Hr as (x & _ & Hu & Hd & _ & Hv). exists x. split; [exact Hu|]. split; [exact Hd|exact Hv].
Defined.

(** A login creates a session for its user under the hash of a 64-character
    token, keeps at most the configured number of the user's sessions by dropping
    the oldest, never drops itself for older ones, touches no other user's
    sessions, and its token is accepted as that user until it expires, unless the
    store fails. *)
Theorem CreateSession_correct `{Bcrypt} {R} (h : handler userRepoE R) `{!UserRepository h}
    (sv : Service) (p p' : Proc) (s : R) (u tok : string) (exp : Z) (w : Proc * R) :
  urepo_inv s → 1 ≤ sv.(maxSessionsPerUser) →
  run (handle_user h) (Service_CreateSession sv u) (p, s) = (w, Ok (tok, exp)) →
  (∀ k x, acc_sessions (urepo_view s) !! k = Some x → x.(sess_UserID) = u →
     x.(sess_CreatedAt) < exp - sv.(sessionTTL)) →
  proc_cache p' = tokenCache.newTokenCache tokenCache.tokenCacheTTL →
  0 ≤ exp → Forall (λ t, t ≤ exp) (env_clock (proc_env p')) →
  String.length tok = 64%nat ∧
  Z.of_nat (length (sessions_of (acc_sessions (urepo_view w.2)) u)) ≤ sv.(maxSessionsPerUser) ∧
  (∀ k x, k ≠ hashToken tok → acc_sessions (urepo_view s) !! k = Some x → x.(sess_UserID) ≠ u →
     acc_sessions (urepo_view w.2) !! k = Some x) ∧
  match (run (handle_user h) (ValidateToken tok) (p', w.2)).2 with
  | Ok v => v = u
  | Err e => uforeign e = true
  end.
Proof.
  intros Hinv Hmax Hrun Hold Hcache Hexp Hclock.
  destruct (CreateSession_spec h sv p s u w tok exp Hinv ltac:(lia) Hrun) as (Hi' & Htok & _ & Hev).
  set (x := {| sess_TokenHash := hashToken tok |}) in Hev.
  assert (Hwf : ∀ k y, <[hashToken tok := x]> (acc_sessions (urepo_view s)) !! k = Some y →
    sess_TokenHash y = k).
  { intros k y. rewrite lookup_insert. case_decide; [by intros [= <-]|apply (urepo_wf s Hinv)]. }
  assert (Hin : acc_sessions (urepo_view w.2) !! hashToken tok = Some x).
  { apply (evicted_keeps_newest _ x u _ _ Hwf Hmax); [apply lookup_insert_eq|done| |done].
    intros k y. rewrite lookup_insert. case_decide; [intros [= <-]; by left|].
    intros Hy Hu. right. by apply (Hold k y). }
  split_and!; [done| | |].
  - destruct Hev as (_ & _ & Hlen & _). lia.
  - intros k y Hk Hy Hu. destruct Hev as (_ & Hoth & _). apply Hoth; [|done].
    by rewrite lookup_insert_ne.
  - destruct w as [pw sw]. cbn [fst snd] in *. unfold ValidateToken. simpl.
    read_clock. destruct (tick_frame p' p0 z Htick) as (Hpc & _). rewrite Hpc, Hcache.
    unfold tokenCache.get. cbn [tokenCache.entries tokenCache.newTokenCache]. rewrite lookup_empty. simpl.
    assert (Hclk : Forall (λ t, t ≤ exp) (env_clock (proc_env p0))).
    { unfold tick in Htick. simpl in Htick. destruct (env_clock (proc_env p')) as [|t l]; simpl in Htick;
        simplify_eq/=; [done|]. by inversion Hclock. }
    urepo_call. destruct Hspec as [Hv Hspec]. destruct r as [y|e]; simpl.
    2:{ destruct Hspec as [[_ Hn]|Hf]; [congruence|done]. }
    assert (y = x) as -> by congruence.
    destruct (env_clock (proc_env p0)) as [|t l] eqn:El; simpl; unfold time.After; simpl.
    + rewrite (proj2 (Z.ltb_ge _ _)) by done. done.
    + apply Forall_cons in Hclk as [Ht _]. rewrite (proj2 (Z.ltb_ge _ _) Ht). simpl. by read_clock.
Qed.

Definition logged_in : Proc * (Env * memoryRepository) * result (string * Z) :=
  run (handle_user handle_umem) (Service_CreateSession service alice)
    (proc_at (env_at [30] [seq_bytes 32 1]), (calm, alice_store)).

Example CreateSession_correct_witness :
  ∃ tok exp, logged_in.2 = Ok (tok, exp) ∧
  match (run (handle_user handle_umem) (ValidateToken tok) (proc_at calm, logged_in.1.2)).2 with
  | Ok v => v = alice
  | Err e => uforeign e = true
  end.
Proof.
  destruct logged_in as [w [[tok exp]|e]] eqn:E; [|vm_compute in E; discriminate].
  exists tok, exp. split; [reflexivity|].
  assert (exp = 30 + sessionTTL service) as Hexp.
  { transitivity (match logged_in.2 with Ok (_, x) => x | Err _ => 0 end); [by rewrite E|].
    vm_compute. reflexivity. }
  apply (CreateSession_correct handle_umem service (proc_at (env_at [30] [seq_bytes 32 1]))
    (proc_at calm) (calm, alice_store) alice tok exp w).
  - exact alice_store_inv.
  - vm_compute. discriminate.
  - exact E.
  - rewrite Hexp. replace (30 + sessionTTL service - sessionTTL service) with 30 by lia.
    simpl. intros k x. rewrite lookup_insert. case_decide; [by intros [= <-]|].
    rewrite lookup_singleton. case_decide; [by intros [= <-]|done].
  - reflexivity.
  - rewrite Hexp. vm_compute. discriminate.
  - apply Forall_nil. exact I.
Defined.

(** C14: however the requests of a process interleave, and whatever each of them
    is in the middle of, a token is only ever accepted as a user who held a
    session under that token at some moment since the start: the token cache
    never turns one user's token into another's, nor accepts an unknown one. *)
Theorem tokens_never_cross_users `{unicode.Tables, Validate, Bcrypt} (sv : Service) {R}
    (h : handler userRepoE R) (view : R → gmap string Session) `{!SessionStore h view}
    (qs : list user_request) (c : uconf) (i : nat) (token u : string) :
  ureachable sv h view qs c → qs !! i = Some (QValidate token) →
  uc_pool c !! i = Some (Ret (Some u)) →
  ∃ m x, m ∈ uc_history c ∧ m !! hashToken token = Some x ∧ x.(sess_UserID) = u.
Proof.
  intros Hr Hq Hp. apply ureachable_inv in Hr as (_ & _ & Hts); [|done].
  specialize (Hts i _ Hp). unfold aim in Hts. rewrite Hq in Hts. exact Hts.
Qed.

(** A validation that has read the store when a logout of the same token runs
    to its end, and a second validation after that. *)
Definition overlap : list user_request := [QValidate "t1"; QLogout "t1"; QValidate "t1"].
Definition overlap_start : uconf (R := Env * memoryRepository) :=
  {| uc_pool := map (serve_user service) overlap;
     uc_world := (proc_at calm, (calm, alice_store)); uc_history := [sessions alice_store] |}.
Definition overlap_run (l : list nat) : uconf :=
  fold_left (λ c i, advance handle_umem (λ w, sessions w.2) i c) l overlap_start.

Lemma overlap_reachable l :
  ureachable service handle_umem (λ w, sessions w.2) overlap (overlap_run l).
Proof. exists overlap_start. split; [by split_and!|]. apply schedule_rtc. Qed.

Example tokens_never_cross_users_witness :
  uc_pool (overlap_run [0; 0; 0; 0]%nat) !! 0%nat = Some (Ret (Some alice)) ∧
  ∃ m x, m ∈ uc_history (overlap_run [0; 0; 0; 0]%nat) ∧
    m !! hashToken "t1" = Some x ∧ x.(sess_UserID) = alice.
Proof.
  assert (uc_pool (overlap_run [0; 0; 0; 0]%nat) !! 0%nat = Some (Ret (Some alice))) as Hp
    by (vm_compute; reflexivity).
  split; [exact Hp|].
  apply (tokens_never_cross_users service handle_umem (λ w, sessions w.2) overlap
    (overlap_run [0; 0; 0; 0]%nat) 0%nat "t1" alice (overlap_reachable _) eq_refl Hp).
Defined.

(** The comments say that a logout takes effect at once in the process that
    serves it. A validation of the same token that overlaps the logout can put
    the token back into the cache after the logout has returned: there is an
    interleaving in which [Logout] has returned without error, the session is
    gone from the store, and a validation that starts only then accepts the
    token all the same. *)
Theorem logout_can_be_undone_by_overlap :
  let before := overlap_run [0; 0; 0; 1; 1]%nat in
  let after := overlap_run [0; 0; 0; 1; 1; 0; 2]%nat in
  ureachable service handle_umem (λ w, sessions w.2) overlap before ∧
  rtc (ustep handle_umem (λ w, sessions w.2)) before after ∧
  uc_pool before !! 1%nat = Some (Ret None) ∧
  sessions (uc_world before).2.2 !! hashToken "t1" = None ∧
  uc_pool before !! 2%nat = Some (serve_user service (QValidate "t1")) ∧
  uc_pool after !! 2%nat = Some (Ret (Some alice)).
Proof.
  cbv zeta. split; [apply overlap_reachable|]. split.
  - unfold overlap_run. change [0; 0; 0; 1; 1; 0; 2]%nat with ([0; 0; 0; 1; 1] ++ [0; 2])%nat.
    rewrite fold_left_app. apply schedule_rtc.
  - split; [vm_compute; reflexivity|]. split; [vm_compute; reflexivity|].
    split; vm_compute; reflexivity.
Qed.

(** An accepted password has between 8 and 72 bytes, so bcrypt takes it
    whole; lower-cased it is on no list of common passwords; it has two different
    characters; and it is not a run of consecutive characters, up or down.  A
    password with all of these is accepted. *)
Theorem validatePassword_correct `{unicode.Tables} (pw : string) :
  validatePassword pw = None ↔
  (8 ≤ len pw ≤ 72) ∧ (strings.ToLower pw ∉ commonWeakPasswords) ∧
  (∃ i j r r', utf8.runes pw !! i = Some r ∧ utf8.runes pw !! j = Some r' ∧ r ≠ r') ∧
  (match utf8.runes pw with
  | r0 :: r1 :: rs =>
      steps_by 1 r0 (r1 :: rs) = false ∧ steps_by (-1) r0 (r1 :: rs) = false
  | _ => True
  end).
Proof.
  unfold validatePassword. change minPasswordLen with 8. change maxPasswordLen with 72.
  destruct (Z.ltb_spec (len pw) 8); [split; [done|lia]|].
  destruct (Z.ltb_spec 72 (len pw)); [split; [done|lia]|].
  destruct (isCommonWeakPassword pw) eqn:Hc.
  { apply isCommonWeakPassword_spec in Hc. split; [done|]. by intros (_ & Hn & _). }
  assert (strings.ToLower pw ∉ commonWeakPasswords) as Hn.
  { rewrite <-isCommonWeakPassword_spec. by rewrite Hc. }
  destruct (isSingleRepeatedRune pw) eqn:Hs; simpl.
  { split; [done|]. intros (_ & _ & (i & j & r & r' & Hi & Hj & Hne) & _).
    destruct Hne. by apply (proj1 (isSingleRepeatedRune_spec pw) Hs i j). }
  assert (∃ i j r r', utf8.runes pw !! i = Some r ∧ utf8.runes pw !! j = Some r' ∧ r ≠ r') as Hd.
  { by apply differing_runes. }
  unfold isSequentialRun. destruct (utf8.runes pw) as [|r0 [|r1 rs]] eqn:Er.
  - destruct Hd as (i & _ & ? & _ & Hi & _). by rewrite lookup_nil in Hi.
  - split; [intros _|done]. by split_and!.
  - rewrite runLoop_spec. cbn [andb].
    destruct (steps_by 1 r0 (r1 :: rs)) eqn:E1; cbn [orb].
    { split; [by intros|]. intros (_ & _ & _ & Hst & _). cbn [steps_by] in E1; congruence. }
    destruct (steps_by (-1) r0 (r1 :: rs)) eqn:E2.
    { split; [by intros|]. intros (_ & _ & _ & _ & Hst). cbn [steps_by] in E2; congruence. }
    split; [intros _|done]. split; [lia|]. by split_and!.
Qed.

Definition third_login : userRepoE (option error) := CreateSession (mk_session "t3" alice 30) 2.
Definition after_third : memoryRepository := (handle_umem _ third_login (calm, alice_store)).1.2.

