(* ===== verification/Http.v ===== *)
(** The parts of [net/http] and [encoding/json] that the handlers and the
    middlewares use: requests as the server presents them, the response writer
    as a state that is threaded through, and bodies as JSON values. *)

From S2P Require Import Prelude GoStd GoError.
Local Open Scope Z_scope.

(** * JSON *)
Inductive json :=
| JNull
| JBool (b : bool)
| JNum (text : string)
| JStr (s : string)
| JTime (t : Z)                (* a [time.Time], written as an RFC 3339 string *)
| JArr (l : list json)
| JObj (fields : list (string * json)).

(** Names of struct fields match up to ASCII case, with the two letters outside
    ASCII that fold to ASCII ones. *)
Definition fold_rune (r : Z) : Z :=
  if (97 <=? r) && (r <=? 122) then r - 32
  else if r =? 383 then 83        (* long s *)
  else if r =? 8490 then 75       (* the Kelvin sign *)
  else r.
Definition EqualFold (a b : string) : bool :=
  bool_decide (map fold_rune (utf8.runes a) = map fold_rune (utf8.runes b)).

(** What the decoder finds in a request body: the first JSON value, if the bytes
    start with one, and how many bytes it takes to have read it. *)
Record Body := { body_value : option json; body_end : Z }.

(** Decoding an object into a struct whose fields are strings or 64-bit integers:
    the field that equals the name, or else one that equals it up to case; later
    occurrences win; [null] changes nothing; another type is an error. *)
Inductive kind := KString | KInt64.
Inductive fval := FString (s : string) | FInt64 (n : Z).

Definition decode_value (k : kind) (v : json) : option (option fval) :=
  match k, v with
  | _, JNull => Some None
  | KString, JStr s => Some (Some (FString s))
  | KInt64, JNum t =>
      match strconv.ParseInt t with Some n => Some (Some (FInt64 n)) | None => None end
  | _, _ => None
  end.

Definition find_field (struct : list (string * kind)) (name : string) : option (string * kind) :=
  match List.find (λ f, String.eqb f.1 name) struct with
  | Some f => Some f
  | None => List.find (λ f, EqualFold f.1 name) struct
  end.

Fixpoint decode_fields (struct : list (string * kind)) (fields : list (string * json))
    (acc : gmap string fval) : option (gmap string fval) :=
  match fields with
  | [] => Some acc
  | (name, v) :: rest =>
      match find_field struct name with
      | None => decode_fields struct rest acc
      | Some (f, k) =>
          match decode_value k v with
          | None => None
          | Some None => decode_fields struct rest acc
          | Some (Some x) => decode_fields struct rest (<[f := x]> acc)
          end
      end
  end.

(** [json.NewDecoder(http.MaxBytesReader(w, r.Body, max)).Decode(&req)]: the
    fields that were set, or an error. *)
Definition Decode (max : Z) (struct : list (string * kind)) (b : Body)
    : option (gmap string fval) :=
  if max <? b.(body_end) then None
  else match b.(body_value) with
       | Some (JObj fields) => decode_fields struct fields ∅
       | Some JNull => Some ∅
       | _ => None
       end.

Definition get_string (m : gmap string fval) (f : string) : string :=
  match m !! f with Some (FString s) => s | _ => "" end.
Definition get_int64 (m : gmap string fval) (f : string) : Z :=
  match m !! f with Some (FInt64 n) => n | _ => 0 end.

(** * Headers *)
Definition upper (c : ascii) : ascii :=
  let v := byte_val c in if (97 <=? v) && (v <=? 122) then byte_of (v - 32) else c.
Definition lower (c : ascii) : ascii :=
  let v := byte_val c in if (65 <=? v) && (v <=? 90) then byte_of (v + 32) else c.
Fixpoint canonical (up : bool) (s : string) : string :=
  match s with
  | "" => ""
  | String c s' => String (if up then upper c else lower c) (canonical (Ascii.eqb c "-") s')
  end.
(** [http.CanonicalHeaderKey] on the field names of the code, which are tokens. *)
Definition CanonicalHeaderKey (s : string) : string := canonical true s.

Abbreviation Headers := (gmap string (list string)).
Definition Header_Get (h : Headers) (k : string) : string :=
  match h !! CanonicalHeaderKey k with Some (v :: _) => v | _ => "" end.
Definition Header_Set (k v : string) (h : Headers) : Headers := <[CanonicalHeaderKey k := [v]]> h.
Definition Header_Add (k v : string) (h : Headers) : Headers :=
  let k := CanonicalHeaderKey k in <[k := default [] (h !! k) ++ [v]]> h.

(** * Requests *)
Definition MethodGet := "GET".
Definition MethodHead := "HEAD".
Definition MethodOptions := "OPTIONS".
Definition MethodTrace := "TRACE".

(** The values that the code puts into a request's context; [ctx_log_cell]: the
    log middleware has put its cell there. *)
Record Context := {
  ctx_userID : option string;
  ctx_sessionToken : option string;
  ctx_requestID : option string;
  ctx_realIP : option string;
  ctx_log_cell : bool;
}.
Definition background : Context :=
  {| ctx_userID := None; ctx_sessionToken := None; ctx_requestID := None; ctx_realIP := None;
     ctx_log_cell := false |}.

(** A request as the server hands it over: cookies and query already parsed. *)
Record Request := {
  req_Method : string;
  req_Path : string;
  req_Query : gmap string (list string);
  req_Header : Headers;
  req_Cookies : list (string * string);
  req_PathValue : gmap string string;
  req_Body : Body;
  req_Context : Context;
}.

Definition WithContext (c : Context) (r : Request) : Request :=
  {| req_Method := r.(req_Method); req_Path := r.(req_Path); req_Query := r.(req_Query);
     req_Header := r.(req_Header); req_Cookies := r.(req_Cookies);
     req_PathValue := r.(req_PathValue); req_Body := r.(req_Body); req_Context := c |}.

Definition Query_Get (q : gmap string (list string)) (k : string) : string :=
  match q !! k with Some (v :: _) => v | _ => "" end.
Definition Query_All (q : gmap string (list string)) (k : string) : list string :=
  default [] (q !! k).
Definition PathValue (r : Request) (k : string) : string := default "" (r.(req_PathValue) !! k).
(** [r.Cookie(name)]: the first with the name. *)
Definition Cookie (r : Request) (name : string) : option string :=
  match List.find (λ c, String.eqb c.1 name) r.(req_Cookies) with
  | Some c => Some c.2
  | None => None
  end.

(** * The response *)
Inductive Level := LevelDebug | LevelInfo | LevelWarn | LevelError.
(** The values that are logged: text, numbers, durations, errors. *)
Inductive attr := AStr (s : string) | AInt (n : Z) | ADur (d : Z) | AErr (e : error) | ABool (b : bool).
Record LogEntry := { log_level : Level; log_msg : string; log_attrs : list (string * attr) }.

Inductive chunk := CText (s : string) | CJson (j : json).

(** The connection as a handler sees it: the header that can still be changed,
    what has been sent, the body so far, the cell of the log middleware and the
    log itself. *)
Record wire := {
  w_header : Headers;
  w_sent : option (Z * Headers);
  w_body : list chunk;
  w_cell : string;
  w_log : list LogEntry;
}.
Definition fresh_wire : wire :=
  {| w_header := ∅; w_sent := None; w_body := []; w_cell := ""; w_log := [] |}.

Definition with_header (f : Headers → Headers) (w : wire) : wire :=
  {| w_header := f w.(w_header); w_sent := w.(w_sent); w_body := w.(w_body);
     w_cell := w.(w_cell); w_log := w.(w_log) |}.
Definition set_header (k v : string) (w : wire) : wire := with_header (Header_Set k v) w.
Definition add_header (k v : string) (w : wire) : wire := with_header (Header_Add k v) w.

(** [w.WriteHeader]: the first call sends the header as it is; later ones do
    nothing. *)
Definition WriteHeader (code : Z) (w : wire) : wire :=
  match w.(w_sent) with
  | Some _ => w
  | None => {| w_header := w.(w_header); w_sent := Some (code, w.(w_header));
               w_body := w.(w_body); w_cell := w.(w_cell); w_log := w.(w_log) |}
  end.
(** [w.Write]: sends a 200 first if nothing was sent. *)
Definition Write (c : chunk) (w : wire) : wire :=
  let w := WriteHeader 200 w in
  {| w_header := w.(w_header); w_sent := w.(w_sent); w_body := w.(w_body) ++ [c];
     w_cell := w.(w_cell); w_log := w.(w_log) |}.
Definition set_cell (u : string) (w : wire) : wire :=
  {| w_header := w.(w_header); w_sent := w.(w_sent); w_body := w.(w_body); w_cell := u;
     w_log := w.(w_log) |}.
Definition log (l : Level) (msg : string) (attrs : list (string * attr)) (w : wire) : wire :=
  {| w_header := w.(w_header); w_sent := w.(w_sent); w_body := w.(w_body);
     w_cell := w.(w_cell);
     w_log := w.(w_log) ++ [{| log_level := l; log_msg := msg; log_attrs := attrs |}] |}.

Definition status (w : wire) : option Z := option_map fst w.(w_sent).
Definition sent_header (w : wire) (k : string) : string :=
  match w.(w_sent) with Some (_, h) => Header_Get h k | None => "" end.

(** [http.StatusText] for the error statuses. *)
Definition StatusText (code : Z) : string :=
  match code with
  | 400 => "Bad Request" | 401 => "Unauthorized" | 402 => "Payment Required"
  | 403 => "Forbidden" | 404 => "Not Found" | 405 => "Method Not Allowed"
  | 406 => "Not Acceptable" | 407 => "Proxy Authentication Required" | 408 => "Request Timeout"
  | 409 => "Conflict" | 410 => "Gone" | 411 => "Length Required" | 412 => "Precondition Failed"
  | 413 => "Request Entity Too Large" | 414 => "Request URI Too Long"
  | 415 => "Unsupported Media Type" | 416 => "Requested Range Not Satisfiable"
  | 417 => "Expectation Failed" | 418 => "I'm a teapot" | 421 => "Misdirected Request"
  | 422 => "Unprocessable Entity" | 423 => "Locked" | 424 => "Failed Dependency"
  | 425 => "Too Early" | 426 => "Upgrade Required" | 428 => "Precondition Required"
  | 429 => "Too Many Requests" | 431 => "Request Header Fields Too Large"
  | 451 => "Unavailable For Legal Reasons" | 500 => "Internal Server Error"
  | 501 => "Not Implemented" | 502 => "Bad Gateway" | 503 => "Service Unavailable"
  | 504 => "Gateway Timeout" | 505 => "HTTP Version Not Supported"
  | 506 => "Variant Also Negotiates" | 507 => "Insufficient Storage" | 508 => "Loop Detected"
  | 510 => "Not Extended" | 511 => "Network Authentication Required"
  | _ => ""
  end.

(** * Handlers and middlewares *)
Inductive panic_value := ErrAbortHandler | OtherPanic (v : string).
Inductive outcome := Returned | Panicked (v : panic_value).

Definition Handler (E : Type → Type) : Type := Request → wire → prog E (wire * outcome).
Definition Middleware (E : Type → Type) : Type := Handler E → Handler E.

(** The end of a handler that did not panic. *)
Definition finish {E} (w : wire) : prog E (wire * outcome) := mret (w, Returned).

(** * Cookies *)
Record SetCookie := {
  ck_Name : string; ck_Value : string; ck_MaxAge : Z; ck_HttpOnly : bool; ck_Secure : bool }.

Definition cookie_byte (c : ascii) : bool :=
  let v := byte_val c in
  (32 <=? v) && (v <? 127) && negb (v =? 34) && negb (v =? 59) && negb (v =? 92).
Definition sanitizeCookieValue (s : string) : string :=
  let s := String.string_of_list_ascii (List.filter cookie_byte (String.list_ascii_of_string s)) in
  if strings.ContainsByte s " " || strings.ContainsByte s "," then quote.dquote +:+ s +:+ quote.dquote
  else s.

(** [Cookie.String] for a cookie with path [/] and [SameSite=Lax]. *)
Definition cookie_string (c : SetCookie) : string :=
  c.(ck_Name) +:+ "=" +:+ sanitizeCookieValue c.(ck_Value) +:+ "; Path=/" +:+
  (if 0 <? c.(ck_MaxAge) then "; Max-Age=" +:+ strconv.Itoa c.(ck_MaxAge)
   else if c.(ck_MaxAge) <? 0 then "; Max-Age=0" else "") +:+
  (if c.(ck_HttpOnly) then "; HttpOnly" else "") +:+
  (if c.(ck_Secure) then "; Secure" else "") +:+ "; SameSite=Lax".
Definition set_cookie (c : SetCookie) (w : wire) : wire := add_header "Set-Cookie" (cookie_string c) w.

(** * Lemmas *)
Lemma sent_WriteHeader code w :
  w_sent (WriteHeader code w) = Some (default (code, w_header w) (w_sent w)).
Proof. unfold WriteHeader. by destruct (w_sent w) eqn:E; simpl; rewrite ?E. Qed.

(** The response that the handlers write: a header, the status, one value. *)
Lemma respond_fresh code k v c w :
  w_sent w = None →
  let w' := Write c (WriteHeader code (set_header k v w)) in
  w_sent w' = Some (code, Header_Set k v (w_header w)) ∧ w_body w' = w_body w ++ [c] ∧
  w_log w' = w_log w.
Proof. intros H. unfold Write, WriteHeader, set_header, with_header. simpl. by rewrite H. Qed.

Lemma Header_Get_Set k v h : Header_Get (Header_Set k v h) k = v.
Proof. unfold Header_Get, Header_Set. by rewrite lookup_insert_eq. Qed.

Lemma Header_Get_Set_ne k k' v h :
  CanonicalHeaderKey k ≠ CanonicalHeaderKey k' → Header_Get (Header_Set k v h) k' = Header_Get h k'.
Proof. intros. unfold Header_Get, Header_Set. by rewrite lookup_insert_ne. Qed.

Lemma Header_Get_Add_ne k k' v h :
  CanonicalHeaderKey k ≠ CanonicalHeaderKey k' → Header_Get (Header_Add k v h) k' = Header_Get h k'.
Proof. intros. unfold Header_Get, Header_Add. by rewrite lookup_insert_ne. Qed.

Example canonical_ex :
  map CanonicalHeaderKey ["X-Request-ID"; "etag"; "If-None-Match"; "Access-Control-Max-Age"]
  = ["X-Request-Id"; "Etag"; "If-None-Match"; "Access-Control-Max-Age"].
Proof. reflexivity. Qed.
Example Decode_ex :
  get_string (default ∅ (Decode 100 [("title", KString); ("n", KInt64)]
    {| body_value := Some (JObj [("TITLE", JStr "a"); ("x", JNull); ("title", JStr "b"); ("n", JNull)]);
       body_end := 50 |})) "title" = "b".
Proof. vm_compute. reflexivity. Qed.
