(* ===== verification/Middleware.v ===== *)
(** [internal/middleware] and the authentication middleware of
    [internal/user/middleware.go]. *)

From S2P Require Import Prelude GoStd GoError Http.
Local Open Scope Z_scope.

(** * middleware.go *)
Definition Chain {E} (middlewares : list (Middleware E)) : Middleware E :=
  λ final, fold_right (λ m h, m h) final middlewares.

(** * auth_context.go *)
Definition ContextWithUserID (c : Context) (userID : string) : Context :=
  {| ctx_userID := Some userID; ctx_sessionToken := c.(ctx_sessionToken);
     ctx_requestID := c.(ctx_requestID); ctx_realIP := c.(ctx_realIP);
     ctx_log_cell := c.(ctx_log_cell) |}.
Definition UserIDFromContext (c : Context) : option string := c.(ctx_userID).
Definition ContextWithSessionToken (c : Context) (token : string) : Context :=
  {| ctx_userID := c.(ctx_userID); ctx_sessionToken := Some token;
     ctx_requestID := c.(ctx_requestID); ctx_realIP := c.(ctx_realIP);
     ctx_log_cell := c.(ctx_log_cell) |}.
Definition SessionTokenFromContext (c : Context) : option string := c.(ctx_sessionToken).
Definition RecordUserIDForLog (c : Context) (userID : string) (w : wire) : wire :=
  if c.(ctx_log_cell) then set_cell userID w else w.

(** * request_id.go *)
Definition HeaderRequestID : string := "X-Request-ID".
Definition maxRequestIDLen : Z := 128.

Definition id_rune (r : Z) : bool :=
  ((97 <=? r) && (r <=? 122)) || ((65 <=? r) && (r <=? 90)) || ((48 <=? r) && (r <=? 57))
  || (r =? 45) || (r =? 95).
Definition isValidRequestID (id : string) : bool :=
  if String.eqb id "" || (maxRequestIDLen <? len id) then false
  else forallb id_rune (utf8.runes id).

Definition newRequestID {E} `{!Subevent envE E} : prog E string :=
  r ← trigger (RandRead 16);
  match r with
  | Err _ => now ← trigger Now; mret ("fallback-" +:+ strconv.Itoa now)
  | Ok b => mret (hex.EncodeToString b)
  end.

Definition with_requestID (id : string) (c : Context) : Context :=
  {| ctx_userID := c.(ctx_userID); ctx_sessionToken := c.(ctx_sessionToken);
     ctx_requestID := Some id; ctx_realIP := c.(ctx_realIP); ctx_log_cell := c.(ctx_log_cell) |}.
Definition RequestIDFromContext (c : Context) : option string := c.(ctx_requestID).

Definition RequestID {E} `{!Subevent envE E} : Middleware E := λ next r w,
  let id := Header_Get r.(req_Header) HeaderRequestID in
  id ← (if negb (isValidRequestID id) then newRequestID else mret id);
  next (WithContext (with_requestID id r.(req_Context)) r) (set_header HeaderRequestID id w).

(** * real_ip.go *)
Definition with_realIP (addr : string) (c : Context) : Context :=
  {| ctx_userID := c.(ctx_userID); ctx_sessionToken := c.(ctx_sessionToken);
     ctx_requestID := c.(ctx_requestID); ctx_realIP := Some addr;
     ctx_log_cell := c.(ctx_log_cell) |}.
Definition RealIPFromContext (c : Context) : string := default "" c.(ctx_realIP).
(** [addressOf]: the rate limiter's key function, of a library. *)
Definition RealIP {E} (addressOf : Request → result string) : Middleware E := λ next r w,
  let addr := match addressOf r with Ok a => a | Err _ => "" end in
  next (WithContext (with_realIP addr r.(req_Context)) r) w.

(** * cache_control.go *)
Definition CacheControl {E} (authPrefix : string) : Middleware E := λ next r w,
  next r (if strings.HasPrefix r.(req_Path) authPrefix
          then set_header "Cache-Control" "private, no-store" w
          else set_header "Cache-Control" "private, no-cache" w).

(** * cors.go; [csrf.DefaultHeaderName] is a constant of a library *)
Definition corsAllowedHeaders (csrfHeader : string) : string :=
  "Authorization, Content-Type, X-Request-Id, " +:+ csrfHeader.
Definition corsExposedHeaders : string := "X-Total-Count, ETag".
Definition corsAllowedMethods : string := "GET, POST, PUT, PATCH, DELETE, OPTIONS".
Definition corsMaxAge : string := "600".

Definition CORS {E} (csrfHeader : string) (allowedOrigins : list string) : Middleware E :=
  let allowed : gmap string bool :=
    fold_left (λ m origin, <[origin := true]> m) allowedOrigins ∅ in
  λ next r w,
    if Nat.eqb (size allowed) 0 then next r w
    else
      let w := add_header "Vary" "Origin" w in
      let origin := Header_Get r.(req_Header) "Origin" in
      if String.eqb origin "" || negb (default false (allowed !! origin)) then next r w
      else
        let w := set_header "Access-Control-Allow-Origin" origin w in
        let w := set_header "Access-Control-Allow-Credentials" "true" w in
        let w := set_header "Access-Control-Expose-Headers" corsExposedHeaders w in
        if String.eqb r.(req_Method) MethodOptions then
          let w := set_header "Access-Control-Allow-Methods" corsAllowedMethods w in
          let w := set_header "Access-Control-Allow-Headers" (corsAllowedHeaders csrfHeader) w in
          let w := set_header "Access-Control-Max-Age" corsMaxAge w in
          finish (WriteHeader 204 w)
        else next r w.

(** * csrf.go; [protected] is the library's [Protector.Middleware] *)
Definition isSafeMethod (method : string) : bool :=
  existsb (String.eqb method) [MethodGet; MethodHead; MethodOptions; MethodTrace].

Definition CSRF {E} (protected : Middleware E) : Middleware E := λ next r w,
  if negb (isSafeMethod r.(req_Method))
     && negb (String.eqb (Header_Get r.(req_Header) "Authorization") "")
  then next r w
  else protected next r w.

(** * logging.go

    The recorder passes everything on; what it remembers (the first status, and
    whether there was one) is what has been sent.  [Flush], [Hijack] and [Push]
    hand over to the server. *)
Definition with_cell (c : Context) : Context :=
  {| ctx_userID := c.(ctx_userID); ctx_sessionToken := c.(ctx_sessionToken);
     ctx_requestID := c.(ctx_requestID); ctx_realIP := c.(ctx_realIP); ctx_log_cell := true |}.
Definition recorded_status (w : wire) : Z := default 200 (status w).
Definition HeaderWritten (w : wire) : bool := bool_decide (is_Some w.(w_sent)).

Definition log_level_of (quiet : bool) (status : Z) : Level :=
  let level :=
    if 500 <=? status then LevelError
    else if (status =? 429) || (status =? 401) then LevelInfo
    else if 400 <=? status then LevelWarn
    else LevelInfo in
  if (status <? 400) && quiet then LevelDebug else level.

(** Nothing is logged for a handler that panics: the panic unwinds through. *)
Definition Logging {E} `{!Subevent envE E} (quietPaths : gmap string bool) : Middleware E :=
  λ next r w,
    start ← trigger Now;
    let r' := WithContext (with_cell r.(req_Context)) r in
    res ← next r' (set_cell "" w);
    let '(w, o) := (res : wire * outcome) in
    match o with
    | Panicked _ => mret (w, o)
    | Returned =>
        now ← trigger Now;
        let status := recorded_status w in
        let requestID := default "" (RequestIDFromContext r'.(req_Context)) in
        let attrs := [("method", AStr r.(req_Method)); ("path", AStr r.(req_Path));
                      ("status", AInt status); ("duration", ADur (time.Sub now start));
                      ("request_id", AStr requestID)] in
        let attrs := if String.eqb w.(w_cell) "" then attrs
                     else attrs ++ [("user_id", AStr w.(w_cell))] in
        let attrs := if 400 <=? status then attrs ++ [("error", AStr (StatusText status))]
                     else attrs in
        let quiet := default false (quietPaths !! r.(req_Path)) in
        finish (log (log_level_of quiet status) "http request" attrs w)
    end.

(** * recovery.go

    [recorded]: the writer is (or wraps in the same interface) the recorder of
    [Logging], so that it knows whether the response has started.  The stack
    trace among the logged attributes is left out. *)
Definition responseStarted (recorded : bool) (w : wire) : bool := recorded && HeaderWritten w.

Definition Recovery {E} (recorded : bool) : Middleware E := λ next r w,
  res ← next r w;
  let '(w, o) := (res : wire * outcome) in
  match o with
  | Returned => mret (w, Returned)
  | Panicked ErrAbortHandler => mret (w, Panicked ErrAbortHandler)
  | Panicked (OtherPanic v) =>
      let started := responseStarted recorded w in
      let requestID := default "" (RequestIDFromContext r.(req_Context)) in
      let w := log LevelError "panic recovered"
        [("panic", AStr v); ("method", AStr r.(req_Method)); ("path", AStr r.(req_Path));
         ("request_id", AStr requestID); ("response_already_started", ABool started)] w in
      if started then mret (w, Returned)
      else
        let w := set_header "Content-Type" "application/json" w in
        let w := WriteHeader 500 w in
        finish (Write (CJson (JObj [("error", JStr "internal server error")])) w)
  end.

(** * user/middleware.go *)
Definition sessionCookieName : string := "session_token".

Definition bearerToken (r : Request) : option string :=
  let prefix := "Bearer " in
  let auth := Header_Get r.(req_Header) "Authorization" in
  if negb (strings.HasPrefix auth prefix) then None
  else
    let token := strings.TrimPrefix auth prefix in
    if String.eqb token "" then None else Some token.

Definition credentialSource (r : Request) : string * string :=
  match bearerToken r with
  | Some t => ("bearer", t)
  | None =>
      match Cookie r sessionCookieName with
      | Some v => if negb (String.eqb v "") then ("cookie", v) else ("", "")
      | None => ("", "")
      end
  end.

Definition writeAuthError (w : wire) (status : Z) (message : string) : wire :=
  Write (CJson (JObj [("error", JStr message)]))
    (WriteHeader status (set_header "Content-Type" "application/json" w)).

(** [ValidateToken]: the one method of [sessionValidator]. *)
Definition RequireAuth {E} (ValidateToken : string → prog E (result string)) : Middleware E :=
  λ next r w,
    let '(_, token) := credentialSource r in
    if String.eqb token "" then
      finish (writeAuthError w 401 "missing or invalid session credential")
    else
      res ← ValidateToken token;
      match res with
      | Err err =>
          if Is err (ErrNotFound user_pkg) then
            finish (writeAuthError w 401 "invalid or expired session token")
          else
            let requestID := default "" (RequestIDFromContext r.(req_Context)) in
            let w := log LevelError "session lookup failed"
              [("error", AErr err); ("request_id", AStr requestID);
               ("method", AStr r.(req_Method)); ("path", AStr r.(req_Path))] w in
            finish (writeAuthError w 503 "service temporarily unavailable, please retry")
      | Ok userID =>
          let w := RecordUserIDForLog r.(req_Context) userID w in
          let ctx := ContextWithUserID r.(req_Context) userID in
          let ctx := ContextWithSessionToken ctx token in
          next (WithContext ctx r) w
      end.
