(* ===== verification/MiddlewareTheorems.v ===== *)
(** The properties of the middlewares as theorems, with their instances at
    concrete inputs. *)

From S2P Require Import Prelude GoStd GoError Uuid Text Sha256 Http Middleware Concrete.
Local Open Scope Z_scope.

(** * Authentication *)

(** A protected handler runs exactly when the credential of the request is
    validated, and then with the user that [ValidateToken] named and with that
    token in its context; otherwise it does not run, and the answer is 401 when
    there is no credential or the token is unknown, 503 when the lookup failed.
    A bearer token wins over the cookie. *)
Theorem RequireAuth_gate {E S} (h : handler E S) (V : string → prog E (result string))
    (next : Handler E) (r : Request) (w : wire) (s : S) :
  w_sent w = None →
  let token := match bearerToken r with
               | Some t => t
               | None => default "" (Cookie r sessionCookieName)
               end in
  let refused code s' := ∃ w', run h (RequireAuth V next r w) s = (s', (w', Returned)) ∧
                               status w' = Some code in
  if String.eqb token "" then refused 401 s
  else
    match run h (V token) s with
    | (s', Ok u) =>
        ∃ r' w', run h (RequireAuth V next r w) s = run h (next r' w') s' ∧
          ctx_userID (req_Context r') = Some u ∧ ctx_sessionToken (req_Context r') = Some token ∧
          req_Body r' = req_Body r ∧ req_PathValue r' = req_PathValue r ∧ w_sent w' = None
    | (s', Err e) => refused (if Is e (ErrNotFound user_pkg) then 401 else 503) s'
    end.
Proof.
  intros Hw. cbv zeta. unfold RequireAuth.
  assert (Hcred : (credentialSource r).2 = match bearerToken r with
    | Some t => t | None => default "" (Cookie r sessionCookieName) end).
  { unfold credentialSource. destruct (bearerToken r); [done|].
    destruct (Cookie r sessionCookieName) as [v|]; [|done]. simpl.
    by destruct (String.eqb_spec v ""). }
  destruct (credentialSource r) as [src token]. cbn [snd] in Hcred. rewrite <-Hcred.
  assert (Hst : ∀ code msg w0, w_sent w0 = None → status (writeAuthError w0 code msg) = Some code).
  { intros code msg w0 Hn. unfold writeAuthError, status. by rewrite (proj1 (respond_fresh _ _ _ _ _ Hn)). }
  destruct (String.eqb token "").
  { eexists. split; [reflexivity|]. by apply Hst. }
  rewrite run_bind. destruct (run h (V token) s) as [s' [u|e]].
  - eexists _, _. split; [reflexivity|]. split_and!; try done.
    unfold RecordUserIDForLog. by destruct (ctx_log_cell _).
  - destruct (Is e (ErrNotFound user_pkg)); (eexists; split; [reflexivity|]; by apply Hst).
Qed.

Definition get_request (method : string) (headers : Headers) (cookies : list (string * string))
    : Request :=
  {| req_Method := method; req_Path := "/v1/tasks"; req_Query := ∅; req_Header := headers;
     req_Cookies := cookies; req_PathValue := ∅;
     req_Body := {| body_value := None; body_end := 0 |}; req_Context := background |}.

Definition accept_t1 {E} (token : string) : prog E (result string) :=
  mret (if String.eqb token "t1" then Ok alice else Err (ErrNotFound user_pkg)).
Definition echo_user {E} : Handler E := λ r w,
  finish (Write (CText (default "" (ctx_userID (req_Context r)))) w).

Example RequireAuth_gate_witness :
  ∃ r' w', run handle_env (RequireAuth accept_t1 echo_user
      (get_request "GET" {[ "Authorization" := ["Bearer t1"] ]} [("session_token", "t2")])
      fresh_wire) (env_at [] [])
    = run handle_env (echo_user r' w') (env_at [] []) ∧
    ctx_userID (req_Context r') = Some alice.
Proof.
  destruct (RequireAuth_gate handle_env accept_t1 echo_user
    (get_request "GET" {[ "Authorization" := ["Bearer t1"] ]} [("session_token", "t2")])
    fresh_wire (env_at [] []) eq_refl) as (r' & w' & Hrun & Hu & _).
  exists r', w'. split; [exact Hrun|exact Hu].
Defined.

(** * CSRF *)

Definition basic_and_cookie : Request :=
  get_request "POST" {[ "Authorization" := ["Basic abc"] ]} [("session_token", "t1")].

(** The comments of [CSRF] and of [credentialSource] say that the two agree
    that a request with an [Authorization] header is on the bearer path.  They
    do not: a state-changing request whose [Authorization] is of another scheme
    skips the CSRF check, and is then authenticated by its session cookie,
    whatever the CSRF protector, the validator and the handler are. *)
Theorem csrf_and_auth_disagree {E} (protected : Middleware E)
    (V : string → prog E (result string)) (next : Handler E) (w : wire) :
  isSafeMethod (req_Method basic_and_cookie) = false ∧
  CSRF protected (RequireAuth V next) basic_and_cookie w = RequireAuth V next basic_and_cookie w ∧
  credentialSource basic_and_cookie = ("cookie", "t1").
Proof. split_and!; reflexivity. Qed.

(** * Request identifiers *)
Lemma id_rune_ascii r : id_rune r = true → 0 ≤ r < 128.
Proof.
  unfold id_rune. rewrite !orb_true_iff, !andb_true_iff, !Z.leb_le, !Z.eqb_eq. lia.
Qed.

Lemma valid_id_bytes s :
  s ≠ "" → len s ≤ maxRequestIDLen → Forall (λ b, id_rune b = true) (bytes s) →
  isValidRequestID s = true.
Proof.
  intros Hne Hlen Hall. unfold isValidRequestID.
  destruct (String.eqb_spec s ""); [done|]. rewrite (proj2 (Z.ltb_ge _ _)) by done. simpl.
  rewrite runes_ascii.
  - apply forallb_forall. intros x Hx. rewrite Forall_forall in Hall. by apply Hall, list_elem_of_In.
  - eapply Forall_impl; [exact Hall|]. apply id_rune_ascii.
Qed.

Lemma hex_char_id d : 0 ≤ d < 16 → id_rune (byte_val (hex_char d)) = true.
Proof.
  intros H. destruct (small_cases d 16) as (i & Hi & ->); [lia|].
  do 16 (destruct i as [|i]; [reflexivity|]). lia.
Qed.

Lemma hex_id l :
  Forall (λ z, 0 ≤ z < 256) l → Forall (λ b, id_rune b = true) (bytes (hex.EncodeToString l)).
Proof.
  induction 1 as [|z l Hz Hl IH]; [constructor|]. cbn [hex.EncodeToString]. rewrite !bytes_cons.
  constructor; [|constructor; [|done]]; apply hex_char_id.
  - split; [apply Z.div_pos; lia|apply Z.div_lt_upper_bound; lia].
  - apply Z.mod_pos_bound; lia.
Qed.

Lemma digit_id d : 0 ≤ d < 10 → id_rune (byte_val (digit_char d)) = true.
Proof.
  intros H. destruct (small_cases d 10) as (i & Hi & ->); [lia|].
  do 10 (destruct i as [|i]; [reflexivity|]). lia.
Qed.

Lemma digits_id fuel n acc :
  0 ≤ n → Forall (λ b, id_rune b = true) (bytes acc) →
  Forall (λ b, id_rune b = true) (bytes (strconv.digits fuel n acc)).
Proof.
  revert n acc; induction fuel as [|f IH]; intros n acc Hn Hacc; [done|]. cbn [strconv.digits].
  assert (Forall (λ b, id_rune b = true) (bytes (String (digit_char (n mod 10)) acc))).
  { rewrite bytes_cons. constructor; [|done]. apply digit_id, Z.mod_pos_bound. lia. }
  destruct (n <? 10); [done|]. apply IH; [|done]. apply Z.div_pos; lia.
Qed.

Lemma digits_length fuel n acc :
  (String.length (strconv.digits fuel n acc) ≤ fuel + String.length acc)%nat.
Proof.
  revert n acc; induction fuel as [|f IH]; intros n acc; cbn [strconv.digits]; [lia|].
  destruct (n <? 10); [simpl; lia|].
  specialize (IH (n / 10) (String (digit_char (n mod 10)) acc)). simpl in IH. lia.
Qed.

Lemma Itoa_id n : Forall (λ b, id_rune b = true) (bytes (strconv.Itoa n)).
Proof.
  unfold strconv.Itoa. destruct (Z.ltb_spec n 0).
  - rewrite bytes_cons. constructor; [done|]. apply digits_id; [lia|constructor].
  - apply digits_id; [done|constructor].
Qed.

Lemma Itoa_length n : Z.abs n < 2 ^ 64 → (String.length (strconv.Itoa n) ≤ 66)%nat.
Proof.
  intros Hn. assert (∀ m, 0 ≤ m → m < 2 ^ 64 → (S (Z.to_nat (Z.log2 m)) ≤ 65)%nat) as Hlog.
  { intros m Hm Hlt. destruct (Z.eq_dec m 0) as [->|]; [simpl; lia|].
    assert (Z.log2 m < 64) by (apply Z.log2_lt_pow2; lia).
    pose proof (Z.log2_nonneg m). lia. }
  unfold strconv.Itoa. destruct (Z.ltb_spec n 0).
  - cbn [String.length].
    pose proof (digits_length (S (Z.to_nat (Z.log2 (- n)))) (- n) "") as Hd.
    specialize (Hlog (- n) ltac:(lia) ltac:(lia)). cbn [String.length] in Hd. lia.
  - pose proof (digits_length (S (Z.to_nat (Z.log2 n))) n "") as Hd.
    specialize (Hlog n ltac:(lia) ltac:(lia)). cbn [String.length] in Hd. lia.
Qed.

Lemma newRequestID_valid env :
  Forall (λ t, int64.in_range t = true) (env_clock env) →
  isValidRequestID (run handle_env newRequestID env).2 = true.
Proof.
  intros Hclk. unfold newRequestID. simpl.
  destruct (pop None (env_rand env)) as [[b|] rnd]; simpl.
  - apply valid_id_bytes; [| |apply hex_id, fit_bytes_range].
    + intros He. apply (f_equal String.length) in He. by rewrite sha256.length_hex, length_fit_bytes in He.
    + unfold len. rewrite sha256.length_hex, length_fit_bytes. by vm_compute.
  - assert (∃ t l, pop 0 (env_clock env) = (l, t) ∧ int64.in_range l = true) as (t & l & -> & Ht).
    { destruct (env_clock env) as [|t l]; simpl; [by eexists _, _|].
      apply Forall_cons in Hclk as [? _]. by eexists _, _. }
    simpl. apply int64.in_range_spec in Ht. unfold int64.min, int64.max in Ht.
    apply valid_id_bytes.
    + done.
    + unfold len. rewrite length_append. pose proof (Itoa_length l ltac:(lia)).
      cbn [String.length]. change maxRequestIDLen with 128. lia.
    + rewrite bytes_append. apply Forall_app. split; [by repeat constructor|apply Itoa_id].
Qed.

(** The request identifier that reaches the handlers, the logs and the
    response header is always between 1 and 128 letters, digits, hyphens and
    underscores, whatever the client sent and also when the source of randomness
    fails: it can break neither a header nor a log line. *)
Theorem RequestID_is_safe {E S} `{!Subevent envE E} (h : handler E (Env * S))
    (next : Handler E) (r : Request) (w : wire) (env : Env) (s : S) :
  (∀ X (e : envE X) env s, h X (inject e) (env, s) =
     (let '(env', x) := handle_env X e env in ((env', s), x))) →
  Forall (λ t, int64.in_range t = true) (env_clock env) →
  ∃ id env', isValidRequestID id = true ∧
    run h (RequestID next r w) (env, s) =
    run h (next (WithContext (with_requestID id (req_Context r)) r) (set_header HeaderRequestID id w))
      (env', s) ∧
    (isValidRequestID (Header_Get (req_Header r) HeaderRequestID) = true →
     id = Header_Get (req_Header r) HeaderRequestID).
Proof.
  intros Hh Hclk. unfold RequestID.
  destruct (isValidRequestID (Header_Get (req_Header r) HeaderRequestID)) eqn:Hv; cbn [negb].
  { eexists _, env. split; [exact Hv|]. by rewrite run_bind. }
  rewrite run_bind. pose proof (newRequestID_valid env Hclk) as Hn.
  assert (run h newRequestID (env, s) =
    (let '(env', x) := run handle_env newRequestID env in ((env', s), x))) as ->.
  { unfold newRequestID. rewrite !run_bind, !run_trigger. cbn [inject].
    rewrite Hh. unfold subevent_refl. destruct (handle_env _ (RandRead 16) env) as [env1 [b|e]]; [done|].
    rewrite (run_bind h), (run_bind handle_env), (run_trigger h), (run_trigger handle_env), Hh.
    cbn [inject]. unfold subevent_refl. by destruct (handle_env Z Now env1). }
  destruct (run handle_env newRequestID env) as [env' id]. cbn [snd] in Hn.
  exists id, env'. done.
Qed.

Definition attack : string := of_bytes [105; 100; 13; 10; 83; 101; 116].
Example RequestID_is_safe_witness :
  ∃ id env', isValidRequestID id = true ∧
    run (handle_sum handle_env handle_env) (RequestID echo_user
      (get_request "GET" {[ "X-Request-Id" := [attack] ]} []) fresh_wire)
      (env_at [7] [], env_at [] [])
    = run (handle_sum handle_env handle_env) (echo_user
        (WithContext (with_requestID id background)
           (get_request "GET" {[ "X-Request-Id" := [attack] ]} []))
        (set_header HeaderRequestID id fresh_wire)) (env', env_at [] []).
Proof.
  destruct (RequestID_is_safe (handle_sum handle_env handle_env) echo_user
    (get_request "GET" {[ "X-Request-Id" := [attack] ]} []) fresh_wire (env_at [7] []) (env_at [] []))
    as (id & env' & Hv & Hrun & _).
  - intros X e env s. reflexivity.
  - repeat constructor.
  - exists id, env'. split; [exact Hv|exact Hrun].
Defined.

Lemma run_if {E S A} (h : handler E S) (b : bool) (p q : prog E A) s :
  run h (if b then p else q) s = if b then run h p s else run h q s.
Proof. by destruct b. Qed.

(** * Panics *)

(** C15: behind [Recovery] a panic of the handler never escapes, except the one
    that asks the server to abort: it is logged, the client gets a 500 when the
    response has not started, and a response that has started is left exactly as
    it was. A handler that returns is not touched. *)
Theorem Recovery_contains_panics {E S} (h : handler E S) (next : Handler E) (r : Request)
    (w : wire) (s : S) :
  let '(s1, (w1, o1)) := run h (next r w) s in
  let '(s2, (w2, o2)) := run h (Recovery true next r w) s in
  s2 = s1 ∧
  match o1 with
  | Returned => w2 = w1 ∧ o2 = Returned
  | Panicked ErrAbortHandler => w2 = w1 ∧ o2 = Panicked ErrAbortHandler
  | Panicked (OtherPanic v) =>
      o2 = Returned ∧
      (∃ entry, w_log w2 = w_log w1 ++ [entry] ∧ log_level entry = LevelError) ∧
      match w_sent w1 with
      | Some hd => w_sent w2 = Some hd ∧ w_body w2 = w_body w1
      | None => status w2 = Some 500 ∧ sent_header w2 "Content-Type" = "application/json" ∧
          w_body w2 = w_body w1 ++ [CJson (JObj [("error", JStr "internal server error")])]
      end
  end.
Proof.
  unfold Recovery. rewrite run_bind. destruct (run h (next r w) s) as [s1 [w1 [|[|v]]]]; [done|done|].
  unfold responseStarted, HeaderWritten. cbn [andb]. unfold finish. rewrite !run_if, !run_ret.
  destruct (w_sent w1) as [hd|] eqn:Hsent.
  - split; [done|]. split; [done|]. split; [by eexists|]. simpl. by rewrite Hsent.
  - split; [done|]. split; [done|]. set (w0 := log _ _ _ w1).
    destruct (respond_fresh 500 "Content-Type" "application/json"
      (CJson (JObj [("error", JStr "internal server error")])) w0 Hsent) as (Hst & Hb & Hl).
    rewrite Hl. split; [by eexists|]. unfold status, sent_header. rewrite Hst. split_and!; [done| |done].
    apply Header_Get_Set.
Qed.

(** * CORS *)
Lemma allowed_spec (l : list string) (m : gmap string bool) o :
  default false (fold_left (λ m origin, <[origin := true]> m) l m !! o) = true ↔
  o ∈ l ∨ default false (m !! o) = true.
Proof.
  revert m; induction l as [|x l IH]; intros m; simpl; [set_solver|].
  rewrite IH, elem_of_cons, lookup_insert. case_decide; simpl; naive_solver.
Qed.

Lemma allowed_size (l : list string) (m : gmap string bool) :
  size (fold_left (λ m origin, <[origin := true]> m) l m) = 0%nat → l = [] ∧ m = ∅.
Proof.
  revert m; induction l as [|x l IH]; intros m; simpl.
  - intros H%map_size_empty_inv. done.
  - intros H%IH. destruct H as [_ H]. by apply insert_non_empty in H.
Qed.

(** An origin is granted access, with credentials, only if it is one of the
    configured ones, and then by its own name and never a wildcard; a preflight
    of such an origin is answered here and never reaches the handler; every other
    request reaches it, with no grant added. *)
Theorem CORS_grants {E} (csrfHeader : string) (allowed : list string) (next : Handler E)
    (r : Request) (w : wire) :
  let origin := Header_Get (req_Header r) "Origin" in
  Header_Get (w_header w) "Access-Control-Allow-Origin" = "" → w_sent w = None →
  (origin ∈ allowed ∧ origin ≠ "" ∧ req_Method r = MethodOptions ∧
   ∃ w', CORS csrfHeader allowed next r w = finish w' ∧ status w' = Some 204 ∧
     sent_header w' "Access-Control-Allow-Origin" = origin ∧
     sent_header w' "Access-Control-Allow-Credentials" = "true") ∨
  (origin ∈ allowed ∧ origin ≠ "" ∧ req_Method r ≠ MethodOptions ∧
   ∃ w', CORS csrfHeader allowed next r w = next r w' ∧
     Header_Get (w_header w') "Access-Control-Allow-Origin" = origin) ∨
  ((origin ∉ allowed ∨ origin = "") ∧
   ∃ w', CORS csrfHeader allowed next r w = next r w' ∧
     Header_Get (w_header w') "Access-Control-Allow-Origin" = "").
Proof.
  cbv zeta. intros Hw Hs. unfold CORS.
  set (m := fold_left (λ m origin, <[origin := true]> m) allowed ∅).
  destruct (Nat.eqb_spec (size m) 0) as [Hz|Hz].
  { right; right. apply allowed_size in Hz as [-> _]. split; [left; set_solver|]. by exists w. }
  set (w1 := add_header "Vary" "Origin" w).
  assert (Hw1 : Header_Get (w_header w1) "Access-Control-Allow-Origin" = "").
  { unfold w1, add_header. simpl. by rewrite Header_Get_Add_ne. }
  set (origin := Header_Get (req_Header r) "Origin").
  destruct (String.eqb_spec origin "") as [He|He]; simpl.
  { right; right. split; [by right|]. by exists w1. }
  pose proof (allowed_spec allowed ∅ origin) as Ha. fold m in Ha.
  destruct (default false (m !! origin)); simpl.
  2:{ right; right. split; [|by exists w1]. left. intros Hin.
      by assert (false = true) by (apply Ha; by left). }
  assert (origin ∈ allowed) as Hin.
  { destruct (proj1 Ha eq_refl) as [|Hd]; [done|]. by rewrite lookup_empty in Hd. }
  destruct (String.eqb_spec (req_Method r) MethodOptions) as [Hm|Hm].
  - left. split_and!; try done. eexists. split; [reflexivity|].
    unfold status, sent_header. rewrite sent_WriteHeader. simpl. rewrite Hs. simpl.
    rewrite !Header_Get_Set_ne by done. split_and!; [done| |].
    + by rewrite ?Header_Get_Set_ne, Header_Get_Set by done.
    + by rewrite ?Header_Get_Set_ne, Header_Get_Set by done.
  - right; left. split_and!; try done. eexists. split; [reflexivity|]. simpl.
    rewrite !Header_Get_Set_ne by done. by rewrite Header_Get_Set.
Qed.

Definition preflight : Request :=
  get_request "OPTIONS" {[ "Origin" := ["https://app.example"] ]} [].

Example CORS_grants_witness :
  ∃ w', CORS (E := envE) "X-CSRF-Token" ["https://app.example"] echo_user preflight fresh_wire = finish w' ∧
    sent_header w' "Access-Control-Allow-Origin" = "https://app.example".
Proof.
  destruct (CORS_grants (E := envE) "X-CSRF-Token" ["https://app.example"] echo_user preflight fresh_wire
    eq_refl eq_refl) as [(_ & _ & _ & w' & Hrun & _ & Ho & _)|[(_ & _ & Hm & _)|([Hn|Hn] & _)]].
  - exists w'. split; [exact Hrun|exact Ho].
  - exfalso. apply Hm. reflexivity.
  - exfalso. apply Hn. by left.
  - discriminate Hn.
Defined.
