(* ===== verification/TaskHandler.v ===== *)
(** [internal/task/handler.go] and [internal/task/csv_export.go]: the HTTP
    handlers of the task routes, over [Service]. *)

From S2P Require Import Prelude GoStd GoError Uuid Sha256 Http Middleware Task.
Local Open Scope Z_scope.

Definition maxRequestBodyBytes : Z := 1048576.
Definition maxTaskListLimit : Z := 100.

(** The text of a validation failure that a handler makes up itself. *)
Definition invalid_input (msg : string) : error := detail (ErrInvalidInput task_pkg) msg.

(** * Responses *)

(** [json:"id"] and so on; [UserID] and [Version] are not part of it. *)
Definition task_json (t : Task) : json :=
  JObj [("id", JStr t.(task_ID)); ("title", JStr t.(task_Title));
        ("description", JStr t.(task_Description)); ("status", JStr t.(task_Status));
        ("priority", JStr t.(task_Priority)); ("created_at", JTime t.(task_CreatedAt));
        ("updated_at", JTime t.(task_UpdatedAt))].

(** Encoding a map writes its keys in order, as [map_to_list] of an ordered
    enumeration would; the keys here are compared by the client, not their order. *)
Definition counts_json (m : gmap string Z) : json :=
  JObj (map (λ '(k, n), (k, JNum (strconv.Itoa n)))
          (merge_sort (λ a b : string * Z, String.le a.1 b.1) (map_to_list m))).
Definition taskStatsResponse (st : TaskStatsResult) : json :=
  JObj [("total", JNum (strconv.Itoa st.(stats_Total)));
        ("by_status", counts_json st.(stats_ByStatus));
        ("by_priority", counts_json st.(stats_ByPriority))].

(** Encoding such values does not fail, so the log line for that is not here. *)
Definition writeJSON (w : wire) (status : Z) (data : json) : wire :=
  Write (CJson data) (WriteHeader status (set_header "Content-Type" "application/json" w)).

Definition errorResponse (message reason : string) : json :=
  JObj (("error", JStr message) :: if String.eqb reason "" then [] else [("reason", JStr reason)]).
Definition writeError (w : wire) (status : Z) (message : string) : wire :=
  writeJSON w status (errorResponse message "").
Definition writeErrorWithReason (w : wire) (status : Z) (message reason : string) : wire :=
  writeJSON w status (errorResponse message reason).

(** The attributes of the error logs. *)
Definition error_attrs (r : Request) (err : error) : list (string * attr) :=
  [("error", AErr err); ("request_id", AStr (default "" (RequestIDFromContext r.(req_Context))));
   ("method", AStr r.(req_Method)); ("path", AStr r.(req_Path))].

Definition set_retry_after (err : error) (w : wire) : wire :=
  match AsRetryAfter err with
  | Some d => set_header "Retry-After" (strconv.Itoa (time.whole_seconds d)) w
  | None => w
  end.

Definition unavailable_message : string := "service temporarily unavailable, please retry".

Definition handleServiceError (r : Request) (w : wire) (err : error) : wire :=
  if Is err (ErrNotFound task_pkg) then writeError w 404 "task not found"
  else if Is err (ErrInvalidInput task_pkg) then writeError w 400 (Error err)
  else if Is err (ErrAlreadyExists task_pkg) then writeError w 409 "task already exists"
  else if Is err ErrConflict then writeError w 409 "task was modified concurrently, please retry"
  else if Is err ErrInvalidTransition then writeError w 409 (Error err)
  else if Is err (ErrDependencyUnavailable task_pkg) then
    writeError (log LevelError "dependency unavailable" (error_attrs r err) w) 503 unavailable_message
  else if Is err (ErrUnavailable task_pkg) then
    let w := log LevelWarn "database circuit open, call rejected" (error_attrs r err) w in
    writeError (set_retry_after err w) 503 unavailable_message
  else
    writeError (log LevelError "unexpected service error" (error_attrs r err) w) 500
      "internal server error".

Definition handleTransitionStatusError (r : Request) (w : wire) (err : error) : wire :=
  if Is err ErrConflict then
    writeErrorWithReason w 409 "task was modified concurrently, please retry" "concurrency"
  else if Is err ErrInvalidTransition then
    writeErrorWithReason w 409 (Error err) "invalid_transition"
  else handleServiceError r w err.

(** * Requests *)
Definition parsePagination (query : gmap string (list string)) : result (Z * Z) :=
  let limit :=
    let raw := Query_Get query "limit" in
    if String.eqb raw "" then Ok (-1)
    else match strconv.Atoi raw with
         | Some n =>
             if n <? 0 then Err (invalid_input "limit must be a non-negative integer")
             else if maxTaskListLimit <? n then
               Err (invalid_input ("limit must be at most " +:+ strconv.Itoa maxTaskListLimit))
             else Ok n
         | None => Err (invalid_input "limit must be a non-negative integer")
         end in
  match limit with
  | Err e => Err e
  | Ok limit =>
      let raw := Query_Get query "offset" in
      if String.eqb raw "" then Ok (limit, 0)
      else match strconv.Atoi raw with
           | Some n =>
               if n <? 0 then Err (invalid_input "offset must be a non-negative integer")
               else Ok (limit, n)
           | None => Err (invalid_input "offset must be a non-negative integer")
           end
  end.

(** [fmt.Sprintf] of the version between quotes. *)
Definition taskETag (t : Task) : string :=
  quote.dquote +:+ t.(task_ID) +:+ ":" +:+ strconv.Itoa t.(task_Version) +:+ quote.dquote.

(** What is hashed for a page: identifier and version of every row, in order. *)
Definition page_preimage (tasks : list Task) : string :=
  fold_right (λ t acc, t.(task_ID) +:+ ":" +:+ strconv.Itoa t.(task_Version) +:+ ";" +:+ acc) "" tasks.
Definition pageETag (tasks : list Task) : string :=
  quote.dquote +:+ sha256.hex_digest (page_preimage tasks) +:+ quote.dquote.

Definition ifNoneMatchHits (r : Request) (etag : string) : bool :=
  let header := Header_Get r.(req_Header) "If-None-Match" in
  if String.eqb header "" then false
  else if String.eqb header "*" then true
  else existsb (λ candidate, String.eqb (strings.TrimSpace candidate) etag) (strings.Split header ",").

Definition taskRequest : list (string * kind) :=
  [("title", KString); ("description", KString); ("priority", KString)].
Definition statusRequest : list (string * kind) := [("status", KString)].

(** [userID, _ := middleware.UserIDFromContext(r.Context())]. *)
Definition user_of (r : Request) : string := default "" (UserIDFromContext r.(req_Context)).

Section handlers.
Context `{Sanitize, unicode.Tables}.

(** The common end of the handlers: an error is mapped, a value continues. *)
Definition respond {A} (r : Request) (w : wire) (res : result A) (k : A → wire)
    : prog taskE (wire * outcome) :=
  match res with Err e => finish (handleServiceError r w e) | Ok x => finish (k x) end.

Definition createTask : Handler taskE := λ r w,
  match Decode maxRequestBodyBytes taskRequest r.(req_Body) with
  | None => finish (writeError w 400 "invalid request body")
  | Some req =>
      res ← CreateTask (user_of r) (get_string req "title") (get_string req "description")
              (get_string req "priority");
      respond r w res (λ task, writeJSON w 201 (task_json task))
  end.

Definition listTasks : Handler taskE := λ r w,
  match parsePagination r.(req_Query) with
  | Err e => finish (writeError w 400 (Error e))
  | Ok (limit, offset) =>
      res ← ListTasks (user_of r) limit offset (Query_All r.(req_Query) "status")
              (Query_All r.(req_Query) "priority");
      respond r w res (λ '(tasks, total),
        let w := set_header "X-Total-Count" (strconv.Itoa total) w in
        let etag := pageETag tasks in
        let w := set_header "ETag" etag w in
        if ifNoneMatchHits r etag then WriteHeader 304 w
        else writeJSON w 200 (JArr (map task_json tasks)))
  end.

Definition taskStats : Handler taskE := λ r w,
  res ← TaskStats (user_of r) (Query_All r.(req_Query) "status") (Query_All r.(req_Query) "priority");
  respond r w res (λ st, writeJSON w 200 (taskStatsResponse st)).

Definition getTask : Handler taskE := λ r w,
  res ← GetTask (user_of r) (PathValue r "id");
  respond r w res (λ task,
    let etag := taskETag task in
    let w := set_header "ETag" etag w in
    if ifNoneMatchHits r etag then WriteHeader 304 w else writeJSON w 200 (task_json task)).

Definition updateTask : Handler taskE := λ r w,
  match Decode maxRequestBodyBytes taskRequest r.(req_Body) with
  | None => finish (writeError w 400 "invalid request body")
  | Some req =>
      res ← UpdateTask (user_of r) (PathValue r "id") (get_string req "title")
              (get_string req "description") (get_string req "priority");
      respond r w res (λ task, writeJSON w 200 (task_json task))
  end.

Definition completeTask : Handler taskE := λ r w,
  res ← CompleteTask (user_of r) (PathValue r "id");
  respond r w res (λ task, writeJSON w 200 (task_json task)).

Definition transitionStatus : Handler taskE := λ r w,
  match Decode maxRequestBodyBytes statusRequest r.(req_Body) with
  | None => finish (writeError w 400 "invalid request body")
  | Some req =>
      res ← TransitionStatus (user_of r) (PathValue r "id") (get_string req "status");
      match res with
      | Err e => finish (handleTransitionStatusError r w e)
      | Ok task => finish (writeJSON w 200 (task_json task))
      end
  end.

Definition deleteTask : Handler taskE := λ r w,
  e ← DeleteTask (user_of r) (PathValue r "id");
  match e with
  | Some err => finish (handleServiceError r w err)
  | None => finish (WriteHeader 204 w)
  end.
End handlers.

(** * csv_export.go *)

(** Calendar dates in UTC: days since 1970-01-01 to year, month and day, in the
    proleptic Gregorian calendar. *)
Module date.
Definition civil (days : Z) : Z * Z * Z :=
  let z := days + 719468 in
  let era := z / 146097 in
  let doe := z mod 146097 in
  let yoe := (doe - doe / 1460 + doe / 36524 - doe / 146096) / 365 in
  let doy := doe - (365 * yoe + yoe / 4 - yoe / 100) in
  let mp := (5 * doy + 2) / 153 in
  let d := doy - (153 * mp + 2) / 5 + 1 in
  let m := if mp <? 10 then mp + 3 else mp - 9 in
  let y := yoe + era * 400 in
  (if m <=? 2 then y + 1 else y, m, d).

(** [n] decimal digits with leading zeros. *)
Fixpoint pad (n : nat) (z : Z) : string :=
  match n with
  | O => ""
  | S n' => pad n' (z / 10) +:+ String (digit_char (z mod 10)) ""
  end.

Definition seconds (t : Z) : Z := t / time.Second.
(** [t.UTC().Format("2006-01-02")], for years of four digits. *)
Definition day_text (t : Z) : string :=
  let '(y, m, d) := civil (seconds t / 86400) in
  pad 4 y +:+ "-" +:+ pad 2 m +:+ "-" +:+ pad 2 d.
(** [t.UTC().Format(time.RFC3339)]. *)
Definition rfc3339 (t : Z) : string :=
  let s := seconds t mod 86400 in
  day_text t +:+ "T" +:+ pad 2 (s / 3600) +:+ ":" +:+ pad 2 (s / 60 mod 60) +:+ ":" +:+
  pad 2 (s mod 60) +:+ "Z".
End date.

Definition utf8BOM : string := of_bytes [239; 187; 191].
Definition csvExportHeader : list string :=
  ["id"; "title"; "description"; "status"; "priority"; "created_at"; "updated_at"].

Definition exportFilename (now : Z) (statuses priorities : list string) : string :=
  let name := "tasks-" +:+ date.day_text now in
  let name := match statuses with [] => name | _ => name +:+ "-status-" +:+ strings.Join statuses "-" end in
  let name := match priorities with [] => name | _ => name +:+ "-priority-" +:+ strings.Join priorities "-" end in
  name +:+ ".csv".

(** The bytes [=], [+], [-], [@], tab and carriage return. *)
Definition csvFormulaTriggers : list Z := [61; 43; 45; 64; 9; 13].
Definition sanitizeCSVCell (field : string) : string :=
  match field with
  | "" => field
  | String c _ => if bool_decide (byte_val c ∈ csvFormulaTriggers) then String "'" field else field
  end.

(** [encoding/csv.Writer] with [UseCRLF]: a field is quoted if it holds the
    comma, a quote or a line break, is the end-of-data mark, or starts with a
    space; inside quotes a quote is doubled, a carriage return is dropped and a
    line feed becomes the line terminator. *)
Module csv.
Definition crlf : string := of_bytes [13; 10].
Definition special (c : ascii) : bool :=
  let v := byte_val c in (v =? 10) || (v =? 13) || (v =? 34) || (v =? 44).
Definition fieldNeedsQuotes (field : string) : bool :=
  if String.eqb field "" then false
  else if String.eqb field (quote.backslash +:+ ".") then true
  else existsb special (String.list_ascii_of_string field)
       || unicode.IsSpace (utf8.DecodeRune (bytes field)).1.
Fixpoint quoted_body (s : string) : string :=
  match s with
  | "" => ""
  | String c s' =>
      let v := byte_val c in
      (if v =? 34 then quote.dquote +:+ quote.dquote
       else if v =? 13 then ""
       else if v =? 10 then crlf
       else String c "") +:+ quoted_body s'
  end.
Definition write_field (field : string) : string :=
  if fieldNeedsQuotes field then quote.dquote +:+ quoted_body field +:+ quote.dquote else field.
Definition write_row (fields : list string) : string :=
  strings.Join (map write_field fields) "," +:+ crlf.
End csv.

Definition csv_row (t : Task) : list string :=
  [t.(task_ID); sanitizeCSVCell t.(task_Title); sanitizeCSVCell t.(task_Description);
   t.(task_Status); t.(task_Priority); date.rfc3339 t.(task_CreatedAt); date.rfc3339 t.(task_UpdatedAt)].

(** [mime.FormatMediaType("attachment", {"filename": name})]. *)
Module mime.
Definition token_byte (c : ascii) : bool :=
  let v := byte_val c in
  (33 <=? v) && (v <? 127) && negb (strings.ContainsByte (of_bytes [40; 41; 60; 62; 64; 44; 59; 58; 92; 34; 47; 91; 93; 63; 61]) c).
Definition isToken (s : string) : bool :=
  negb (String.eqb s "") && forallb token_byte (String.list_ascii_of_string s).
Definition needsEncoding (s : string) : bool :=
  existsb (λ c, let v := byte_val c in ((v <? 32) || (126 <? v)) && negb (v =? 9)) (String.list_ascii_of_string s).
Definition attr_byte (c : ascii) : bool :=
  let v := byte_val c in
  (32 <? v) && token_byte c && negb (v =? 42) && negb (v =? 39) && negb (v =? 37).
Definition upper_hex (b : Z) : string :=
  let d x := byte_of (if x <? 10 then 48 + x else 55 + x) in String (d (b / 16)) (String (d (b mod 16)) "").
Definition percent (s : string) : string :=
  String.concat "" (map (λ c, if attr_byte c then String c "" else "%" +:+ upper_hex (byte_val c))
    (String.list_ascii_of_string s)).
Definition escape (s : string) : string :=
  String.concat "" (map (λ c, if (byte_val c =? 34) || (byte_val c =? 92)
    then quote.backslash +:+ String c "" else String c "") (String.list_ascii_of_string s)).
Definition FormatMediaType (name : string) : string :=
  if needsEncoding name then "attachment; filename*=utf-8''" +:+ percent name
  else if isToken name then "attachment; filename=" +:+ name
  else "attachment; filename=" +:+ quote.dquote +:+ escape name +:+ quote.dquote.
End mime.

(** [connected]: how many of the writes go through before the client is gone. *)
Fixpoint write_rows (connected : nat) (r : Request) (rows : list (list string)) (w : wire) : wire :=
  match rows, connected with
  | [], _ => w
  | row :: rows', S n => write_rows n r rows' (Write (CText (csv.write_row row)) w)
  | _ :: _, O =>
      log LevelWarn "csv export write failed mid-stream"
        [("request_id", AStr (default "" (RequestIDFromContext r.(req_Context))))] w
  end.

Section export.
Context `{Sanitize, unicode.Tables} (connected : nat).

Definition exportTasks : Handler taskE := λ r w,
  let statuses := Query_All r.(req_Query) "status" in
  let priorities := Query_All r.(req_Query) "priority" in
  res ← ExportTasks (user_of r) statuses priorities;
  match res with
  | Err e => finish (handleServiceError r w e)
  | Ok tasks =>
      now ← trigger Now;
      let disposition := mime.FormatMediaType (exportFilename now statuses priorities) in
      let disposition := if String.eqb disposition "" then "attachment" else disposition in
      let w := set_header "Content-Type" "text/csv; charset=utf-8" w in
      let w := set_header "Content-Disposition" disposition w in
      let w := WriteHeader 200 w in
      match connected with
      | O => finish w
      | S n =>
          let w := Write (CText utf8BOM) w in
          match n with
          | O => finish w
          | S n => finish (write_rows n r (map csv_row tasks)
                     (Write (CText (csv.write_row csvExportHeader)) w))
          end
      end
  end.
End export.

(** * The routes: which handler serves which method and path *)
Inductive taskRoute :=
| POST_tasks | GET_tasks | GET_tasks_stats | GET_tasks_export | GET_task | PUT_task
| PATCH_task_done | PATCH_task_status | DELETE_task.

Definition serveTasks `{Sanitize, unicode.Tables} (connected : nat) (route : taskRoute) : Handler taskE :=
  match route with
  | POST_tasks => createTask
  | GET_tasks => listTasks
  | GET_tasks_stats => taskStats
  | GET_tasks_export => (exportTasks connected)
  | GET_task => getTask
  | PUT_task => updateTask
  | PATCH_task_done => completeTask
  | PATCH_task_status => transitionStatus
  | DELETE_task => deleteTask
  end.
Definition RegisterRoutes `{Sanitize, unicode.Tables} {E} (up : ∀ X, taskE X → E X) (connected : nat) (requireAuth : Middleware E)
    (route : taskRoute) : Handler E :=
  requireAuth (λ r w, lift up (serveTasks connected route r w)).

Example day_text_ex : map date.day_text [0; 951782400 * time.Second; 1700000000 * time.Second; -1]
  = ["1970-01-01"; "2000-02-29"; "2023-11-14"; "1969-12-31"].
Proof. reflexivity. Qed.
Example rfc3339_ex : date.rfc3339 (1700000000 * time.Second) = "2023-11-14T22:13:20Z".
Proof. reflexivity. Qed.
