(* ===== verification/TaskHandlerTheorems.v ===== *)
(** The properties of the task routes as theorems, with their instances at
    concrete inputs. *)

From S2P Require Import Prelude GoStd GoError Uuid Text Sha256 Http Middleware MiddlewareTheorems.
From S2P Require Import Task TaskMemory TaskSpec TaskService TaskConcurrent TaskTheorems TaskHandler Concrete.
Local Open Scope Z_scope.

(** * Entity tags *)

Lemma taskETag_inj t t' :
  isValidID t.(task_ID) = true → isValidID t'.(task_ID) = true →
  0 ≤ t.(task_Version) → 0 ≤ t'.(task_Version) →
  taskETag t = taskETag t' → t.(task_ID) = t'.(task_ID) ∧ t.(task_Version) = t'.(task_Version).
Proof.
  intros Hi Hi' Hv Hv' H. unfold taskETag in H. apply append_inj_l in H.
  destruct (split_at ":" id_char _ _ _ _ eq_refl
    (λ x, match_groups_chars _ _ x Hi) (λ x, match_groups_chars _ _ x Hi') H) as [Hid H2].
  split; [done|]. apply Itoa_inj; [done|done|].
  apply (split_at (byte_of 34) is_digit _ _ "" "" eq_refl); [| |exact H2];
    intros x; apply all_digits_In, Itoa_digits; done.
Qed.

Lemma page_preimage_inj l l' :
  Forall (λ t, isValidID t.(task_ID) = true ∧ 0 ≤ t.(task_Version)) l →
  Forall (λ t, isValidID t.(task_ID) = true ∧ 0 ≤ t.(task_Version)) l' →
  page_preimage l = page_preimage l' →
  map (λ t, (t.(task_ID), t.(task_Version))) l = map (λ t, (t.(task_ID), t.(task_Version))) l'.
Proof.
  intros Hl. revert l'; induction Hl as [|t l [Hi Hv] Hl IH]; intros l' Hl' H.
  - destruct l' as [|t' l']; [done|]. cbn in H. apply Forall_cons in Hl' as [[Hi' _] _].
    by destruct (task_ID t').
  - destruct Hl' as [|t' l' [Hi' Hv'] Hl'].
    { cbn in H. by destruct (task_ID t). }
    cbn [page_preimage fold_right] in H.
    destruct (split_at ":" id_char _ _ _ _ eq_refl
      (λ x, match_groups_chars _ _ x Hi) (λ x, match_groups_chars _ _ x Hi') H) as [Hid H2].
    destruct (split_at ";" is_digit _ _ _ _ eq_refl
      (λ x Hx, all_digits_In _ x (Itoa_digits _ Hv) Hx)
      (λ x Hx, all_digits_In _ x (Itoa_digits _ Hv') Hx) H2) as [Hn H3].
    simpl. f_equal; [|by apply IH]. f_equal; [done|]. by apply Itoa_inj.
Qed.

Lemma hits_spec r etag :
  Header_Get (req_Header r) "If-None-Match" ≠ "*" → ifNoneMatchHits r etag = true →
  ∃ cand, cand ∈ strings.Split (Header_Get (req_Header r) "If-None-Match") "," ∧
          strings.TrimSpace cand = etag.
Proof.
  unfold ifNoneMatchHits. intros Hstar.
  destruct (String.eqb_spec (Header_Get (req_Header r) "If-None-Match") ""); [done|].
  destruct (String.eqb_spec (Header_Get (req_Header r) "If-None-Match") "*"); [done|].
  intros (cand & Hin & Heq)%existsb_exists. exists cand. rewrite list_elem_of_In.
  split; [done|]. by apply String.eqb_eq.
Qed.

Lemma status_writeJSON w code j : w_sent w = None → status (writeJSON w code j) = Some code.
Proof. intros H. unfold status, writeJSON. by rewrite (proj1 (respond_fresh _ _ _ _ _ H)). Qed.

Lemma handleServiceError_status r w err :
  w_sent w = None → status (handleServiceError r w err) ≠ Some 304.
Proof.
  intros H. unfold handleServiceError, writeError, set_retry_after.
  repeat case_match; rewrite status_writeJSON; done.
Qed.

(** C16: a conditional [GET /tasks/{id}] is answered 304 only when the task the
    client has is still the current one: if every tag it sends is the tag of a
    representation [t] it read at some earlier point, then, whatever other
    requests did in between, a 304 means that the stored task is exactly [t].  No
    edit, however quickly it follows, can hide behind a tag. *)
Theorem not_modified_is_current `{Sanitize, unicode.Tables} {S : Type} (h : handler repoE S)
    `{!TaskRepository h} (c c' : conf) (id : string) (t : Task) (r : Request) (w : wire) :
  reachable h c → rtc (step h) c c' → c_tasks h c !! id = Some t →
  (∀ k x, c_tasks h c !! k = Some x → 0 ≤ x.(task_Version)) →
  (∀ k x, c_tasks h c' !! k = Some x → 0 ≤ x.(task_Version)) →
  PathValue r "id" = id → w_sent w = None →
  Header_Get (req_Header r) "If-None-Match" ≠ "*" →
  (∀ cand, cand ∈ strings.Split (Header_Get (req_Header r) "If-None-Match") "," →
     strings.TrimSpace cand = taskETag t) →
  let '(_, (w', _)) := run (handle_sum handle_env h) (getTask r w) (c_state c') in
  status w' = Some 304 → c_tasks h c' !! id = Some t ∧ t.(task_UserID) = user_of r.
Proof.
  intros Hr Hsteps Ht Hpos Hpos' Hid Hw Hstar Htags. unfold getTask. rewrite run_bind.
  pose proof (reachable_inv h c Hr) as Hinv. pose proof Hinv as [H' Hat].
  destruct (steps_inv_at h H' c c' Hat Hsteps) as (H'' & _ & (Hi' & _ & _)).
  destruct (c_state c') as [env s] eqn:Ec.
  pose proof (GetTask_spec h env s (user_of r) (PathValue r "id") Hi') as Hg.
  destruct (run (handle_sum handle_env h) (GetTask _ _) (env, s)) as [[env' s'] [t'|e]]; cbn [respond].
  2:{ intros Hst. by destruct (handleServiceError_status r w e Hw). }
  destruct Hg as (_ & Hval & Ho). rewrite Hid in Hval, Ho.
  destruct (owned_lookup h s _ _ _ Hi' Ho) as (Hid' & Hu & Hl).
  assert (c_tasks h c' !! id = Some t') as Hl' by (unfold c_tasks; by rewrite Ec).
  unfold finish. rewrite run_ret. destruct (ifNoneMatchHits r (taskETag t')) eqn:Hhit.
  2:{ rewrite status_writeJSON by exact Hw. done. }
  intros _. destruct (hits_spec r _ Hstar Hhit) as (cand & Hcand & Heq).
  rewrite (Htags cand Hcand) in Heq.
  assert (task_ID t = id) as Hidt.
  { destruct Hat as (Hi & _ & _). apply (repo_wf _ Hi _ _ Ht). }
  destruct (taskETag_inj t t') as [_ Hv].
  - by rewrite Hidt.
  - by rewrite Hid'.
  - by eapply Hpos.
  - by eapply Hpos'.
  - done.
  - assert (t = t') as -> by by eapply (version_determines h c c' id id). split; [done|exact Hu].
Qed.

Definition conditional_get : Request :=
  {| req_Method := "GET"; req_Path := "/tasks/" +:+ id1; req_Query := ∅;
     req_Header := {[ "If-None-Match" := [taskETag pending_task] ]}; req_Cookies := [];
     req_PathValue := {[ "id" := id1 ]}; req_Body := {| body_value := None; body_end := 0 |};
     req_Context := ContextWithUserID background alice |}.

Example not_modified_is_current_witness :
  let '(_, (w', _)) := run (handle_sum handle_env handle_mem) (getTask conditional_get fresh_wire)
    (c_state racing) in
  status w' = Some 304 ∧ c_tasks handle_mem racing !! id1 = Some pending_task.
Proof.
  pose proof (not_modified_is_current handle_mem racing racing id1 pending_task conditional_get
    fresh_wire) as Hn.
  assert (status (run (handle_sum handle_env handle_mem) (getTask conditional_get fresh_wire)
    (c_state racing)).2.1 = Some 304) as Hst by (vm_compute; reflexivity).
  destruct (run (handle_sum handle_env handle_mem) (getTask _ _) _) as [st' [w' o]]. cbn [fst snd] in Hst. split; [exact Hst|].
  apply Hn; [| | | | | | | | |exact Hst].
  - exists racing. split; [exact racing_initial|apply rtc_refl].
  - apply rtc_refl.
  - reflexivity.
  - intros k x. unfold c_tasks. simpl. unfold two_tasks. rewrite lookup_insert.
    case_decide; [intros [= <-]; vm_compute; discriminate|].
    rewrite lookup_singleton. case_decide; [intros [= <-]; vm_compute; discriminate|discriminate].
  - intros k x. unfold c_tasks. simpl. unfold two_tasks. rewrite lookup_insert.
    case_decide; [intros [= <-]; vm_compute; discriminate|].
    rewrite lookup_singleton. case_decide; [intros [= <-]; vm_compute; discriminate|discriminate].
  - reflexivity.
  - reflexivity.
  - vm_compute. discriminate.
  - intros cand Hc. assert (cand = taskETag pending_task) as ->.
    { vm_compute in Hc. vm_compute. set_solver. }
    vm_compute. reflexivity.
Defined.

(** The tag of a page is the digest of a text that determines, row by row and
    in order, the identifier and version of everything on the page: two pages
    whose digests are taken of the same text list the same versions of the same
    tasks, and a single task's tag determines its identifier and version. *)
Theorem entity_tags_determine_versions (l l' : list Task) :
  Forall (λ t, isValidID t.(task_ID) = true ∧ 0 ≤ t.(task_Version)) (l ++ l') →
  (page_preimage l = page_preimage l' →
   map (λ t, (t.(task_ID), t.(task_Version))) l = map (λ t, (t.(task_ID), t.(task_Version))) l') ∧
  ∀ t t', t ∈ l → t' ∈ l' → taskETag t = taskETag t' →
    t.(task_ID) = t'.(task_ID) ∧ t.(task_Version) = t'.(task_Version).
Proof.
  intros [Hl Hl']%Forall_app. split; [by apply page_preimage_inj|].
  intros t t' Ht Ht' He. rewrite Forall_forall in Hl, Hl'.
  destruct (Hl t Ht), (Hl' t' Ht'). by apply taskETag_inj.
Qed.

Example entity_tags_determine_versions_witness :
  taskETag pending_task ≠ taskETag done_task.
Proof.
  intros He. destruct (entity_tags_determine_versions [pending_task] [done_task]) as [_ Hd].
  - repeat constructor; vm_compute; congruence.
  - destruct (Hd pending_task done_task ltac:(by left) ltac:(by left) He) as [_ Hv].
    vm_compute in Hv. discriminate Hv.
Defined.

(** * Parameters *)

(** Whatever the query string holds, the window that [parsePagination] lets
    through is at most 100 rows (or unlimited exactly when no limit was given) at
    a non-negative offset that fits the machine, so that no listing can be sliced
    out of range; anything else is refused as invalid input. *)
Theorem parsePagination_bounds (query : gmap string (list string)) :
  match parsePagination query with
  | Ok (limit, offset) =>
      (-1 ≤ limit ≤ 100) ∧ (0 ≤ offset ≤ int64.max) ∧
      (limit = -1 ↔ Query_Get query "limit" = "") ∧
      ∀ l, is_Some (paginateTasks l limit offset)
  | Err e => Is e (ErrInvalidInput task_pkg) = true
  end.
Proof.
  assert (Hatoi : ∀ s n, strconv.Atoi s = Some n → n ≤ int64.max).
  { intros s n. unfold strconv.Atoi, strconv.ParseInt. repeat case_match; try done; intros; simplify_eq;
      match goal with H : int64.in_range _ = true |- _ => apply int64.in_range_spec in H; lia end. }
  assert (Hpag : ∀ l limit offset, 0 ≤ offset → is_Some (paginateTasks l limit offset)).
  { intros l limit offset Ho. unfold paginateTasks. rewrite (proj2 (Z.ltb_ge offset 0)) by done.
    repeat case_match; eauto. }
  assert (Hlim : match (let raw := Query_Get query "limit" in
      if String.eqb raw "" then Ok (-1)
      else match strconv.Atoi raw with
           | Some n =>
               if n <? 0 then Err (invalid_input "limit must be a non-negative integer")
               else if maxTaskListLimit <? n then
                 Err (invalid_input ("limit must be at most " +:+ strconv.Itoa maxTaskListLimit))
               else Ok n
           | None => Err (invalid_input "limit must be a non-negative integer")
           end) with
    | Ok limit => (-1 ≤ limit ≤ 100) ∧ (limit = -1 ↔ Query_Get query "limit" = "")
    | Err e => Is e (ErrInvalidInput task_pkg) = true
    end).
  { cbv zeta. destruct (String.eqb_spec (Query_Get query "limit") "") as [He|He]; [by split|].
    destruct (strconv.Atoi _) as [n|]; [|done].
    destruct (Z.ltb_spec n 0); [done|]. destruct (Z.ltb_spec maxTaskListLimit n) as [|Hn]; [done|].
    change maxTaskListLimit with 100 in Hn. split; [lia|]. split; [lia|done]. }
  unfold parsePagination. revert Hlim. cbv zeta.
  match goal with |- match ?l with _ => _ end → _ => destruct l as [limit|e]; [|done] end.
  intros [Hb Hi]. destruct (String.eqb_spec (Query_Get query "offset") "") as [He|He].
  { split; [exact Hb|]. split; [by split|]. split; [exact Hi|]. intros l. by apply Hpag. }
  destruct (strconv.Atoi (Query_Get query "offset")) as [n|] eqn:Hn; [|done].
  destruct (Z.ltb_spec n 0); [done|]. apply Hatoi in Hn.
  split; [exact Hb|]. split; [lia|]. split; [exact Hi|]. intros l. by apply Hpag.
Qed.

(** * Errors *)

(** C17: a failure that is not about the caller's input (the store, the context, a
    driver) never shows its text to the client: the answer is 503 with a fixed
    message for an unavailable dependency or database, with the breaker's delay in
    [Retry-After] when it names one, and 500 with a fixed message otherwise; the
    error itself goes to the log, once. *)
Theorem foreign_errors_stay_inside (r : Request) (w : wire) (err : error) :
  foreign err = true → w_sent w = None →
  let w' := handleServiceError r w err in
  let down := Is err (ErrDependencyUnavailable task_pkg) || Is err (ErrUnavailable task_pkg) in
  status w' = Some (if down then 503 else 500) ∧
  w_body w' = w_body w ++ [CJson (JObj [("error",
    JStr (if down then unavailable_message else "internal server error"))])] ∧
  (∃ entry, w_log w' = w_log w ++ [entry] ∧ ("error", AErr err) ∈ log_attrs entry) ∧
  (Is err (ErrDependencyUnavailable task_pkg) = false → Is err (ErrUnavailable task_pkg) = true →
   ∀ d, AsRetryAfter err = Some d →
     sent_header w' "Retry-After" = strconv.Itoa (time.whole_seconds d)).
Proof.
  intros Hf Hw. cbv zeta. unfold handleServiceError, writeError, writeJSON, errorResponse.
  rewrite !(foreign_Is err) by (done || set_solver). cbn [String.eqb].
  assert (Hin : ("error", AErr err) ∈ error_attrs r err) by (unfold error_attrs; left).
  destruct (Is err (ErrDependencyUnavailable task_pkg)); cbn [orb].
  { set (w0 := log _ _ _ w).
    destruct (respond_fresh 503 "Content-Type" "application/json"
      (CJson (JObj [("error", JStr unavailable_message)])) w0 Hw) as (Hs & Hb & Hl).
    unfold status. rewrite Hs, Hb, Hl. split_and!; [done|done| |done]. by eexists. }
  destruct (Is err (ErrUnavailable task_pkg)); cbn [orb].
  - set (w0 := set_retry_after err (log _ _ _ w)).
    assert (w_sent w0 = None ∧ w_body w0 = w_body w ∧ (∃ entry, w_log w0 = w_log w ++ [entry] ∧
      ("error", AErr err) ∈ log_attrs entry)) as (Hw0 & Hb0 & Hl0).
    { unfold w0, set_retry_after. destruct (AsRetryAfter err); simpl; (split_and!; [done|done|]); by eexists. }
    destruct (respond_fresh 503 "Content-Type" "application/json"
      (CJson (JObj [("error", JStr unavailable_message)])) w0 Hw0) as (Hs & Hb & Hl).
    unfold status, sent_header. rewrite Hs, Hb, Hl, Hb0. split_and!; [done|done|done|].
    intros _ _ d Hd. rewrite Header_Get_Set_ne by done. unfold w0, set_retry_after. rewrite Hd.
    cbn [w_header set_header with_header]. by rewrite Header_Get_Set.
  - set (w0 := log _ _ _ w).
    destruct (respond_fresh 500 "Content-Type" "application/json"
      (CJson (JObj [("error", JStr "internal server error")])) w0 Hw) as (Hs & Hb & Hl).
    unfold status. rewrite Hs, Hb, Hl. split_and!; [done|done| |done]. by eexists.
Qed.

Definition secret_failure : error :=
  wrap "get task" (UnavailableError task_pkg (Opaque "dial tcp 10.0.0.5:5432: connection refused") (5 * time.Second)).

Example foreign_errors_stay_inside_witness :
  let w' := handleServiceError conditional_get fresh_wire secret_failure in
  status w' = Some 503 ∧ sent_header w' "Retry-After" = "5" ∧
  w_body w' = [CJson (JObj [("error", JStr unavailable_message)])].
Proof.
  destruct (foreign_errors_stay_inside conditional_get fresh_wire secret_failure eq_refl eq_refl)
    as (Hs & Hb & _ & Hr).
  split; [exact Hs|]. split; [exact (Hr eq_refl eq_refl _ eq_refl)|exact Hb].
Defined.
