(* ===== verification/CsvTheorems.v ===== *)
(** The exported CSV, read back by an RFC 4180 reader: the file holds exactly the
    header and one record per task, and no cell can be taken for a formula. *)

From S2P Require Import Prelude GoStd GoError Sha256 Http Middleware Task TaskMemory TaskHandler Concrete.
Local Open Scope Z_scope.

(** * A reader

    Records end in CRLF; a field is bare (without quotes, commas and line breaks)
    or quoted, with doubled quotes inside. *)
Inductive rstate := RowStart | FieldStart | Bare | Quoted | QuoteSeen | CrSeen.

Definition is_byte (n : Z) (c : ascii) : bool := byte_val c =? n.

(** [cur]: the field so far; [row]: the fields before it. *)
Fixpoint read (st : rstate) (cur : string) (row : list string) (s : string)
    : option (list (list string)) :=
  match s with
  | "" => match st with RowStart => Some [] | _ => None end
  | String c s' =>
      let start :=
        if is_byte 34 c then read Quoted "" row s'
        else if is_byte 44 c then read FieldStart "" (row ++ [""]) s'
        else if is_byte 13 c then read CrSeen "" (row ++ [""]) s'
        else if is_byte 10 c then None
        else read Bare (String c "") row s' in
      match st with
      | RowStart | FieldStart => start
      | Bare =>
          if is_byte 44 c then read FieldStart "" (row ++ [cur]) s'
          else if is_byte 13 c then read CrSeen "" (row ++ [cur]) s'
          else if is_byte 34 c || is_byte 10 c then None
          else read Bare (cur +:+ String c "") row s'
      | Quoted =>
          if is_byte 34 c then read QuoteSeen cur row s'
          else read Quoted (cur +:+ String c "") row s'
      | QuoteSeen =>
          if is_byte 34 c then read Quoted (cur +:+ String c "") row s'
          else if is_byte 44 c then read FieldStart "" (row ++ [cur]) s'
          else if is_byte 13 c then read CrSeen "" (row ++ [cur]) s'
          else None
      | CrSeen =>
          if is_byte 10 c then
            match read RowStart "" [] s' with Some rows => Some (row :: rows) | None => None end
          else None
      end
  end.

(** What quoting does to line breaks: a carriage return is dropped, a line feed
    becomes CRLF. *)
Fixpoint crlf_text (s : string) : string :=
  match s with
  | "" => ""
  | String c s' =>
      (if byte_val c =? 13 then "" else if byte_val c =? 10 then csv.crlf else String c "") +:+ crlf_text s'
  end.
Definition written (f : string) : string := if csv.fieldNeedsQuotes f then crlf_text f else f.

Lemma byte_eq c n : byte_val c = n → 0 ≤ n < 256 → c = byte_of n.
Proof. intros <- _. by rewrite byte_of_val. Qed.

(** ** Quoted fields *)
Lemma read_quoted f cur row rest :
  read Quoted cur row (csv.quoted_body f +:+ rest) = read Quoted (cur +:+ crlf_text f) row rest.
Proof.
  revert cur; induction f as [|c f IH]; intros cur.
  { cbn [csv.quoted_body crlf_text]. by rewrite append_empty, append_nil_r. }
  cbn [csv.quoted_body crlf_text]. destruct (Z.eqb_spec (byte_val c) 34) as [H34|H34].
  { rewrite (proj2 (Z.eqb_neq (byte_val c) 13)), (proj2 (Z.eqb_neq (byte_val c) 10)) by lia.
    apply byte_eq in H34 as ->; [|lia]. unfold quote.dquote. autorewrite with go_rw.
    cbn [read]. change (is_byte 34 (byte_of 34)) with true. cbv iota. rewrite IH.
    by rewrite append_assoc, append_cons, append_empty. }
  destruct (Z.eqb_spec (byte_val c) 13) as [H13|H13]; [by autorewrite with go_rw|].
  destruct (Z.eqb_spec (byte_val c) 10) as [H10|H10].
  - unfold csv.crlf. change (of_bytes [13; 10]) with (String (byte_of 13) (String (byte_of 10) "")).
    autorewrite with go_rw. cbn [read].
    change (is_byte 34 (byte_of 13)) with false. change (is_byte 34 (byte_of 10)) with false. cbv iota.
    rewrite IH. f_equal. by autorewrite with go_rw.
  - autorewrite with go_rw. cbn [read]. unfold is_byte at 1.
    rewrite (proj2 (Z.eqb_neq (byte_val c) 34)) by done. rewrite IH. f_equal. by autorewrite with go_rw.
Qed.

(** ** Bare fields *)
Lemma special_false c :
  csv.special c = false → is_byte 34 c = false ∧ is_byte 44 c = false ∧ is_byte 13 c = false ∧ is_byte 10 c = false.
Proof. unfold csv.special, is_byte. rewrite !orb_false_iff. tauto. Qed.

Lemma read_bare f cur row rest :
  existsb csv.special (String.list_ascii_of_string f) = false →
  read Bare cur row (f +:+ rest) = read Bare (cur +:+ f) row rest.
Proof.
  revert cur; induction f as [|c f IH]; intros cur Hf.
  { by rewrite append_empty, append_nil_r. }
  cbn in Hf. apply orb_false_iff in Hf as [Hc Hf]. destruct (special_false c Hc) as (H1 & H2 & H3 & H4).
  rewrite append_cons. cbn [read]. rewrite H1, H2, H3, H4. cbn [orb]. rewrite IH by done.
  f_equal. by autorewrite with go_rw.
Qed.

(** What may follow a field, and where it leads. *)
Definition after (sep : ascii) (row : list string) (rest : string) : option (list (list string)) :=
  if is_byte 44 sep then read FieldStart "" row rest else read CrSeen "" row rest.

Lemma read_field st f sep row rest :
  (st = RowStart ∨ st = FieldStart) → (sep = byte_of 44 ∨ sep = byte_of 13) →
  read st "" row (csv.write_field f +:+ String sep rest) = after sep (row ++ [written f]) rest.
Proof.
  intros Hst Hsep.
  assert (Hstart : ∀ s, read st "" row s = read FieldStart "" row s ∨ s = "").
  { intros [|c s]; [by right|]. left. destruct Hst as [-> | ->]; reflexivity. }
  unfold csv.write_field, written.
  assert (He : ∀ s, s ≠ "" → read st "" row s = read FieldStart "" row s) by (intros s Hs; by destruct (Hstart s)).
  destruct (csv.fieldNeedsQuotes f) eqn:Hq.
  - rewrite He by done. unfold quote.dquote. autorewrite with go_rw. cbn [read].
    change (is_byte 34 (byte_of 34)) with true. cbv iota. rewrite read_quoted, append_empty.
    destruct Hsep as [-> | ->]; reflexivity.
  - unfold csv.fieldNeedsQuotes in Hq. destruct (String.eqb_spec f "") as [->|Hne].
    { rewrite append_empty. rewrite He by done. destruct Hsep as [-> | ->]; reflexivity. }
    destruct (String.eqb f _); [done|]. apply orb_false_iff in Hq as [Hq _].
    destruct f as [|c f]; [done|]. cbn in Hq. apply orb_false_iff in Hq as [Hc Hf].
    destruct (special_false c Hc) as (H1 & H2 & H3 & H4).
    rewrite append_cons, He by done. cbn [read]. rewrite H1, H2, H3, H4. rewrite read_bare by done.
    rewrite append_cons, append_empty. destruct Hsep as [-> | ->]; reflexivity.
Qed.

(** ** Records *)
Lemma read_fields f fs st row rest :
  (st = RowStart ∨ st = FieldStart) →
  read st "" row (strings.Join (map csv.write_field (f :: fs)) "," +:+ String (byte_of 13) rest)
  = read CrSeen "" (row ++ map written (f :: fs)) rest.
Proof.
  revert f st row; induction fs as [|g fs IH]; intros f st row Hst.
  - cbn [map strings.Join]. rewrite read_field by auto. reflexivity.
  - cbn [map strings.Join] in *. rewrite !append_assoc.
    change ("," +:+ ?x) with (String (byte_of 44) x).
    rewrite append_cons. rewrite append_empty. rewrite read_field by auto.
    change (after (byte_of 44) ?r ?s) with (read FieldStart "" r s).
    rewrite IH by auto. f_equal. by rewrite <-app_assoc.
Qed.

Lemma read_row row rest :
  row ≠ [] →
  read RowStart "" [] (csv.write_row row +:+ rest) =
  match read RowStart "" [] rest with Some rows => Some (map written row :: rows) | None => None end.
Proof.
  intros Hne. destruct row as [|f fs]; [done|]. unfold csv.write_row. rewrite append_assoc.
  change (csv.crlf +:+ rest) with (String (byte_of 13) (String (byte_of 10) "" +:+ rest)).
  rewrite read_fields by auto. rewrite append_cons, append_empty. cbn [read].
  reflexivity.
Qed.

(** Everything that was written is read back, record by record. *)
Lemma read_rows rows :
  Forall (λ row, row ≠ []) rows →
  read RowStart "" [] (fold_right (λ row acc, csv.write_row row +:+ acc) "" rows)
  = Some (map (map written) rows).
Proof.
  induction 1 as [|row rows Hne Hrows IH]; [done|]. cbn [fold_right map].
  by rewrite read_row, IH.
Qed.

(** * Cells *)
Definition safe_cell (s : string) : Prop :=
  match s with "" => True | String c _ => byte_val c ∉ csvFormulaTriggers end.
Definition starts_with_lf (s : string) : bool :=
  match s with "" => false | String c _ => byte_val c =? 10 end.

Lemma written_safe f : starts_with_lf f = false → safe_cell (written (sanitizeCSVCell f)).
Proof.
  assert (Hkeep : ∀ c s, byte_val c ∉ csvFormulaTriggers → byte_val c ≠ 10 →
    safe_cell (written (String c s))).
  { intros c s Hc Hlf. unfold written. destruct (csv.fieldNeedsQuotes _); [|exact Hc].
    cbn [crlf_text]. rewrite (proj2 (Z.eqb_neq (byte_val c) 13)), (proj2 (Z.eqb_neq (byte_val c) 10)).
    - autorewrite with go_rw. exact Hc.
    - done.
    - intros H13. apply Hc. rewrite H13. unfold csvFormulaTriggers. set_solver. }
  destruct f as [|c f]; [done|]. cbn [starts_with_lf sanitizeCSVCell]. intros Hlf%Z.eqb_neq.
  case_bool_decide as Ht; apply Hkeep; try done. vm_compute. set_solver.
Qed.

(** * The export *)
Fixpoint body_text (l : list chunk) : string :=
  match l with
  | [] => ""
  | CText s :: l' => s +:+ body_text l'
  | CJson _ :: l' => body_text l'
  end.

Lemma body_text_app l l' : body_text (l ++ l') = body_text l +:+ body_text l'.
Proof.
  induction l as [|[s|j] l IH]; [by rewrite append_empty| |done].
  cbn [body_text app]. by rewrite IH, append_assoc.
Qed.

Lemma Write_sent c w code hd :
  w_sent w = Some (code, hd) →
  w_sent (Write c w) = Some (code, hd) ∧ w_body (Write c w) = w_body w ++ [c].
Proof. intros H. unfold Write, WriteHeader. by rewrite H. Qed.

Lemma write_rows_text n r rows w code hd :
  (length rows ≤ n)%nat → w_sent w = Some (code, hd) →
  w_sent (write_rows n r rows w) = Some (code, hd) ∧
  body_text (w_body (write_rows n r rows w)) =
    body_text (w_body w) +:+ fold_right (λ row acc, csv.write_row row +:+ acc) "" rows.
Proof.
  revert n w; induction rows as [|row rows IH]; intros n w Hn Hs.
  { destruct n; cbn; by rewrite append_nil_r. }
  destruct n as [|n]; [cbn in Hn; lia|]. cbn [write_rows fold_right].
  destruct (Write_sent (CText (csv.write_row row)) w code hd Hs) as [Hs' Hb].
  destruct (IH n (Write (CText (csv.write_row row)) w)) as [H1 H2]; [cbn in Hn; lia|done|].
  split; [done|]. rewrite H2, Hb, body_text_app. cbn [body_text]. by rewrite append_nil_r, append_assoc.
Qed.

(** C18: the CSV export answers 200 with a byte-order mark and a text that an
    RFC 4180 reader reads back as the header and then one record per exported
    task, in order, each field the one written up to line breaks; and no title or
    description can be taken for a formula by a spreadsheet: its cell never starts
    with [=], [+], [-], [@], a tab or a carriage return (of texts that do not
    start with a line feed, which the validation trims). *)
Theorem export_reads_back `{Sanitize, unicode.Tables} {S} (h : handler repoE S) (n : nat)
    (r : Request) (w : wire) (st st1 st2 : Env * S) (tasks : list Task) (w' : wire) (o : outcome) :
  run (handle_sum handle_env h) (ExportTasks (user_of r) (Query_All (req_Query r) "status")
    (Query_All (req_Query r) "priority")) st = (st1, Ok tasks) →
  (2 + length tasks ≤ n)%nat → w_sent w = None → w_body w = [] →
  run (handle_sum handle_env h) (exportTasks n r w) st = (st2, (w', o)) →
  status w' = Some 200 ∧
  (∃ text, body_text (w_body w') = utf8BOM +:+ text ∧
    read RowStart "" [] text = Some (map (map written) (csvExportHeader :: map csv_row tasks))) ∧
  ∀ t, t ∈ tasks →
    (starts_with_lf t.(task_Title) = false → safe_cell (written (sanitizeCSVCell t.(task_Title)))) ∧
    (starts_with_lf t.(task_Description) = false →
       safe_cell (written (sanitizeCSVCell t.(task_Description)))).
Proof.
  intros Hrun Hn Hw Hb Hexp. unfold exportTasks in Hexp. rewrite run_bind, Hrun in Hexp.
  rewrite run_bind in Hexp. destruct (run _ (trigger Now) st1) as [st3 now].
  set (disp := if String.eqb _ "" then "attachment" else _) in Hexp.
  destruct n as [|[|n]]; [cbn in Hn; lia|cbn in Hn; lia|].
  unfold finish in Hexp. rewrite run_ret in Hexp. injection Hexp as _ Hw' _. 
  set (w0 := WriteHeader 200 _) in Hw'.
  assert (∃ hd, w_sent w0 = Some (200, hd) ∧ w_body w0 = []) as (hd & Hs0 & Hb0).
  { unfold w0. rewrite sent_WriteHeader. cbn. unfold WriteHeader; cbn. rewrite Hw. cbn. eexists. by split. }
  destruct (Write_sent (CText utf8BOM) w0 200 hd Hs0) as [Hs1 Hb1].
  destruct (Write_sent (CText (csv.write_row csvExportHeader)) _ 200 hd Hs1) as [Hs2 Hb2].
  destruct (write_rows_text n r (map csv_row tasks) _ 200 hd ltac:(rewrite length_map; cbn in Hn; lia) Hs2)
    as [Hs3 Hb3].
  rewrite Hw' in Hs3, Hb3. split; [unfold status; by rewrite Hs3|]. split.
  - exists (fold_right (λ row acc, csv.write_row row +:+ acc) "" (csvExportHeader :: map csv_row tasks)).
    split.
    + rewrite Hb3, Hb2, body_text_app, Hb1, body_text_app, Hb0. cbn [body_text fold_right].
      autorewrite with go_rw. reflexivity.
    + apply read_rows. constructor; [done|]. apply Forall_map, Forall_forall. by intros t _.
  - intros t _. split; apply written_safe.
Qed.

Definition formula_task : Task :=
  {| task_ID := id1; task_Title := "=HYPERLINK(1,2)";
     task_Description := "a, " +:+ of_bytes [34; 10] +:+ "b"; task_Status := StatusPending;
     task_Priority := PriorityLow; task_CreatedAt := 0; task_UpdatedAt := 0; task_UserID := alice;
     task_Version := 1 |}.
Definition export_request : Request :=
  {| req_Method := "GET"; req_Path := "/tasks/export"; req_Query := ∅; req_Header := ∅;
     req_Cookies := []; req_PathValue := ∅; req_Body := {| body_value := None; body_end := 0 |};
     req_Context := ContextWithUserID background alice |}.
Definition exported : Env * (Env * store) * (wire * outcome) :=
  run (handle_sum handle_env handle_mem) (exportTasks 10 export_request fresh_wire)
    (env_at [] [], (env_at [] [], {[ id1 := formula_task ]})).

Example export_reads_back_witness :
  status exported.2.1 = Some 200 ∧ safe_cell (written (sanitizeCSVCell "=HYPERLINK(1,2)")) ∧
  ∃ text, body_text (w_body exported.2.1) = utf8BOM +:+ text ∧
    read RowStart "" [] text = Some (map (map written) [csvExportHeader; csv_row formula_task]).
Proof.
  destruct exported as [st2 [w' o]] eqn:E.
  destruct (export_reads_back handle_mem 10 export_request fresh_wire
    (env_at [] [], (env_at [] [], {[ id1 := formula_task ]}))
    (env_at [] [], (env_at [] [], {[ id1 := formula_task ]})) st2 [formula_task] w' o)
    as (Hs & Ht & Hc).
  - vm_compute. reflexivity.
  - cbn. lia.
  - reflexivity.
  - reflexivity.
  - exact E.
  - split; [exact Hs|]. split; [|exact Ht].
    apply (proj1 (Hc formula_task ltac:(by left))). reflexivity.
Defined.
