(* ===== verification/UserHandler.v ===== *)
(** [internal/user/handler.go]: the HTTP handlers of the authentication routes,
    over [Service]. *)

From S2P Require Import Prelude GoStd GoError Uuid Sha256 Http Middleware User.
Local Open Scope Z_scope.

Definition maxRequestBodyBytes : Z := 1048576.

Definition auditEventLoginSuccess : string := "login_success".
Definition auditEventLoginFailure : string := "login_failure".
Definition auditEventLogoutAll : string := "logout_all".
Definition auditEventPasswordChanged : string := "password_changed".
Definition auditEventAccountDeleted : string := "account_deleted".

(** * Responses *)
Definition user_fields (u : User) : list (string * json) :=
  [("id", JStr u.(user_ID)); ("email", JStr u.(user_Email));
   ("created_at", JTime u.(user_CreatedAt)); ("updated_at", JTime u.(user_UpdatedAt))].
Definition user_json (u : User) : json := JObj (user_fields u).
Definition loginResponse (token : string) (expiresAt : Z) (u : User) : json :=
  JObj [("token", JStr token); ("expires_at", JTime expiresAt); ("user", user_json u)].
Definition csrfTokenResponse (token : string) : json := JObj [("csrf_token", JStr token)].
Definition meResponse (u : User) (attachmentsEnabled : bool) : json :=
  JObj (user_fields u ++ [("attachments_enabled", JBool attachmentsEnabled)]).
Definition sessionResponse (s : SessionInfo) : json :=
  JObj [("id", JStr s.(info_ID)); ("created_at", JTime s.(info_CreatedAt));
        ("expires_at", JTime s.(info_ExpiresAt)); ("is_current", JBool s.(info_IsCurrent))].

(** Encoding such values does not fail, so the log line for that is not here. *)
Definition writeJSON (w : wire) (status : Z) (data : json) : wire :=
  Write (CJson data) (WriteHeader status (set_header "Content-Type" "application/json" w)).
Definition writeError (w : wire) (status : Z) (message : string) : wire :=
  writeJSON w status (JObj [("error", JStr message)]).

Definition request_id (r : Request) : string := default "" (RequestIDFromContext r.(req_Context)).
Definition error_attrs (r : Request) (err : error) : list (string * attr) :=
  [("error", AErr err); ("request_id", AStr (request_id r)); ("method", AStr r.(req_Method));
   ("path", AStr r.(req_Path))].
Definition set_retry_after (err : error) (w : wire) : wire :=
  match AsRetryAfter err with
  | Some d => set_header "Retry-After" (strconv.Itoa (time.whole_seconds d)) w
  | None => w
  end.
Definition unavailable_message : string := "service temporarily unavailable, please retry".

Definition handleServiceError (r : Request) (w : wire) (err : error) : wire :=
  if Is err (ErrNotFound user_pkg) then writeError w 404 "user not found"
  else if Is err (ErrInvalidInput user_pkg) then writeError w 400 (Error err)
  else if Is err (ErrAlreadyExists user_pkg) then writeError w 409 "email already registered"
  else if Is err ErrInvalidCredentials then writeError w 401 "invalid email or password"
  else if Is err (ErrDependencyUnavailable user_pkg) then
    writeError (log LevelError "dependency unavailable" (error_attrs r err) w) 503 unavailable_message
  else if Is err (ErrUnavailable user_pkg) then
    let w := log LevelWarn "database circuit open, call rejected" (error_attrs r err) w in
    writeError (set_retry_after err w) 503 unavailable_message
  else
    writeError (log LevelError "unexpected service error" (error_attrs r err) w) 500
      "internal server error".

Definition logAuditEvent (r : Request) (eventType account : string) (w : wire) : wire :=
  log LevelInfo "audit event"
    [("event_type", AStr eventType); ("account", AStr account);
     ("source_ip", AStr (RealIPFromContext r.(req_Context))); ("request_id", AStr (request_id r))] w.

(** * The session cookie *)

(** [time.Until(expiresAt)] at [now], in whole seconds. *)
Definition sessionCookieMaxAgeSeconds (now expiresAt : Z) : Z :=
  time.whole_seconds (time.Sub expiresAt now).

Definition session_cookie (value : string) (maxAge : Z) (insecure : bool) : SetCookie :=
  {| ck_Name := sessionCookieName; ck_Value := value; ck_MaxAge := maxAge; ck_HttpOnly := true;
     ck_Secure := negb insecure |}.
Definition setSessionCookie {E} `{!Subevent envE E} (w : wire) (token : string) (expiresAt : Z)
    (insecure : bool) : prog E wire :=
  now ← trigger Now;
  mret (set_cookie (session_cookie token (sessionCookieMaxAgeSeconds now expiresAt) insecure) w).
Definition clearSessionCookie (w : wire) (insecure : bool) : wire :=
  set_cookie (session_cookie "" (-1) insecure) w.

(** * Requests *)
Definition credentialsRequest : list (string * kind) := [("email", KString); ("password", KString)].
Definition changePasswordRequest : list (string * kind) :=
  [("current_password", KString); ("new_password", KString)].
Definition deleteAccountRequest : list (string * kind) := [("current_password", KString)].

(** [csrf.Protector], a library: rotating its cookie, and the token that its
    middleware left with the request. *)
Class CsrfProtector := {
  csrf_Rotate : Request → wire → wire * option error;
  csrf_Token : Request → option string;
}.

Definition user_of (r : Request) : string := default "" (UserIDFromContext r.(req_Context)).
Definition token_of (r : Request) : string := default "" (SessionTokenFromContext r.(req_Context)).

Section handlers.
Context `{unicode.Tables, Validate, CsrfProtector} (svc : Service).
(** The fields of [Handler]. *)
Context (cookieInsecure attachmentsEnabled : bool).

Definition with_body {E} (struct : list (string * kind)) (r : Request) (w : wire)
    (k : gmap string fval → prog E (wire * outcome)) : prog E (wire * outcome) :=
  match Decode maxRequestBodyBytes struct r.(req_Body) with
  | None => finish (writeError w 400 "invalid request body")
  | Some req => k req
  end.

Definition register : Handler userE := λ r w,
  with_body credentialsRequest r w (λ req,
    res ← Register (get_string req "email") (get_string req "password");
    match res with
    | Err err => finish (handleServiceError r w err)
    | Ok u => finish (writeJSON w 201 (user_json u))
    end).

Definition login : Handler userE := λ r w,
  with_body credentialsRequest r w (λ req,
    let normalizedEmail := normalizeEmail (get_string req "email") in
    res ← Authenticate svc (get_string req "email") (get_string req "password");
    match res with
    | Err err =>
        let w := if Is err ErrInvalidCredentials
                 then logAuditEvent r auditEventLoginFailure normalizedEmail w else w in
        finish (handleServiceError r w err)
    | Ok u =>
        let w := logAuditEvent r auditEventLoginSuccess normalizedEmail w in
        let '(w, rotated) := csrf_Rotate r w in
        let w := match rotated with
                 | Some err => log LevelError "csrf cookie rotation failed on login"
                     [("error", AErr err); ("request_id", AStr (request_id r))] w
                 | None => w
                 end in
        res ← Service_CreateSession svc u.(user_ID);
        match res with
        | Err err => finish (handleServiceError r w err)
        | Ok (token, expiresAt) =>
            w ← setSessionCookie w token expiresAt cookieInsecure;
            finish (writeJSON w 200 (loginResponse token expiresAt u))
        end
    end).

Definition changePassword : Handler userE := λ r w,
  with_body changePasswordRequest r w (λ req,
    res ← ChangePassword (user_of r) (get_string req "current_password")
            (get_string req "new_password") (token_of r);
    match res with
    | Some err => finish (handleServiceError r w err)
    | None =>
        finish (writeJSON (logAuditEvent r auditEventPasswordChanged (user_of r) w) 200 (JObj []))
    end).

Definition logout : Handler userE := λ r w,
  res ← Logout (token_of r);
  match res with
  | Some err => finish (handleServiceError r w err)
  | None => finish (WriteHeader 204 (clearSessionCookie w cookieInsecure))
  end.

Definition logoutAll : Handler userE := λ r w,
  res ← LogoutAll (user_of r);
  match res with
  | Some err => finish (handleServiceError r w err)
  | None =>
      let w := logAuditEvent r auditEventLogoutAll (user_of r) w in
      finish (WriteHeader 204 (clearSessionCookie w cookieInsecure))
  end.

Definition csrfToken : Handler userE := λ r w,
  match csrf_Token r with
  | None =>
      let w := log LevelError
        "csrf token requested but csrf.Protector.Middleware never ran for this request"
        [("request_id", AStr (request_id r)); ("method", AStr r.(req_Method));
         ("path", AStr r.(req_Path))] w in
      finish (writeError w 500 "internal server error")
  | Some token => finish (writeJSON w 200 (csrfTokenResponse token))
  end.

Definition me : Handler userE := λ r w,
  res ← GetUser (user_of r);
  match res with
  | Err err => finish (handleServiceError r w err)
  | Ok u => finish (writeJSON w 200 (meResponse u attachmentsEnabled))
  end.

Definition listSessions : Handler userE := λ r w,
  res ← ListSessions (user_of r) (token_of r);
  match res with
  | Err err => finish (handleServiceError r w err)
  | Ok sessions => finish (writeJSON w 200 (JArr (map sessionResponse sessions)))
  end.

Definition revokeSession : Handler userE := λ r w,
  res ← RevokeSession (user_of r) (PathValue r "id");
  match res with
  | Some err => finish (handleServiceError r w err)
  | None => finish (WriteHeader 204 w)
  end.

(** ** The routes

    The callback that deletes what a user owns elsewhere makes calls of its own:
    [E], which [up] says has the calls of this package. *)
Inductive authRoute :=
| POST_register | POST_login | GET_csrf_token | POST_password | POST_logout | POST_logout_all
| GET_me | DELETE_me | GET_sessions | DELETE_session.

Context {E : Type → Type} (up : ∀ X, userE X → E X) (cascade : string → prog E (option error)).

Definition deleteAccount : Handler E := λ r w,
  with_body deleteAccountRequest r w (λ req,
    let userID := user_of r in
    res ← lift up (VerifyPassword userID (get_string req "current_password"));
    match res with
    | Some err => finish (handleServiceError r w err)
    | None =>
        res ← cascade userID;
        match res with
        | Some err =>
            let w := log LevelError "account deletion cascade failed"
              [("error", AErr err); ("request_id", AStr (request_id r)); ("user_id", AStr userID)] w in
            finish (writeError w 500 "internal server error")
        | None =>
            res ← lift up (DeleteAccount userID);
            match res with
            | Some err => finish (handleServiceError r w err)
            | None =>
                let w := logAuditEvent r auditEventAccountDeleted userID w in
                finish (WriteHeader 204 (clearSessionCookie w cookieInsecure))
            end
        end
    end).

Definition RegisterRoutes (requireAuth rateLimit : Middleware E) (route : authRoute) : Handler E :=
  let do_ h : Handler E := λ r w, lift up (h r w) in
  match route with
  | POST_register => rateLimit (do_ register)
  | POST_login => rateLimit (do_ login)
  | GET_csrf_token => do_ csrfToken
  | POST_password => requireAuth (do_ changePassword)
  | POST_logout => requireAuth (do_ logout)
  | POST_logout_all => requireAuth (do_ logoutAll)
  | GET_me => requireAuth (do_ me)
  | DELETE_me => requireAuth deleteAccount
  | GET_sessions => requireAuth (do_ listSessions)
  | DELETE_session => requireAuth (do_ revokeSession)
  end.
End handlers.
