(* ===== verification/UserHandlerTheorems.v ===== *)
(** The properties of the authentication routes as theorems, with their
    instances at concrete inputs. *)

From S2P Require Import Prelude GoStd GoError Uuid Sha256 Http Middleware.
From S2P Require Import User UserMemory UserSpec UserService UserHandler Concrete ConcreteUser.
Local Open Scope Z_scope.

(** A call up to the stored hash a password is compared with. *)
Definition shape (c : sigT userE) : sigT userE :=
  match c with
  | existT _ (inr (inl (CompareHashAndPassword _ pw))) =>
      existT _ (inr (inl (CompareHashAndPassword "" pw)) : userE _)
  | _ => c
  end.

(** A store that is up: its answer about an address is about that address. *)
Definition answers {R} (h : handler userRepoE R) (email : string) (s : R) : Prop :=
  match (h _ (FindUserByEmail email) s).2 with Ok _ => True | Err e => uforeign e = false end.

(** [Authenticate] does not tell an address that is not registered from a
    wrong password: with two stores, one without the address and one where it
    has another password, and the same process state, the error is the same, the
    sequence of calls is the same up to the hash that is compared (one bcrypt
    comparison of the password in both), and the process is left in the same
    state, the same delay waited. *)
Lemma Authenticate_indistinguishable `{unicode.Tables, Bcrypt} {R} (h : handler userRepoE R)
    `{!UserRepository h} (sv : Service) (p : Proc) (s1 s2 : R) (email pw : string) (u : User) :
  urepo_inv s1 → urepo_inv s2 →
  no_email (urepo_view s1) (normalizeEmail email) →
  has_email (urepo_view s2) (normalizeEmail email) u →
  is_Some (bcrypt_compare u.(user_PasswordHash) pw) →
  answers h (normalizeEmail email) s1 → answers h (normalizeEmail email) s2 →
  let svc := handle_user h in
  let '(w1, r1) := run svc (Authenticate sv email pw) (p, s1) in
  let '(w2, r2) := run svc (Authenticate sv email pw) (p, s2) in
  r1 = Err ErrInvalidCredentials ∧ r2 = r1 ∧ w1.1 = w2.1 ∧
  map shape (calls svc (Authenticate sv email pw) (p, s1)) =
  map shape (calls svc (Authenticate sv email pw) (p, s2)).
Proof.
  intros Hi1 Hi2 Hno Hhas [ce Hce] Ha1 Ha2. unfold answers in *. cbv zeta. unfold Authenticate. simpl.
  destruct (tick p) as [p1 now]; simpl.
  destruct (loginBackoff.delay now _ _) as [b d]; simpl.
  destruct (h (result User) (FindUserByEmail (normalizeEmail email)) s1) as [s1' r1] eqn:E1.
  destruct (h (result User) (FindUserByEmail (normalizeEmail email)) s2) as [s2' r2] eqn:E2.
  destruct (ucall_sound h _ (FindUserByEmail _) s1 s1' r1 Hi1 I E1) as [_ [_ Hs1]].
  destruct (ucall_sound h _ (FindUserByEmail _) s2 s2' r2 Hi2 I E2) as [_ [_ Hs2]].
  simpl in Ha1, Ha2. destruct r1 as [u1|e1].
  { destruct Hs1 as [Hu1 He1]. by destruct (Hno _ _ Hu1). }
  destruct r2 as [u2|e2].
  2:{ destruct Hs2 as [[_ Hn2]|Hf]; [|congruence]. destruct Hhas as [Hu He].
      by destruct (Hn2 _ _ Hu). }
  destruct Hs1 as [[-> _]|Hf]; [|congruence].
  assert (u2 = u) as -> by by eapply has_email_unique. simpl. rewrite Hce. simpl.
  read_clock. simpl. by destruct (d <=? 0).
Qed.

Section login.
Context `{Uni : unicode.Tables, Val : Validate, Bc : Bcrypt, Cs : CsrfProtector}.

Definition login_request (email pw : string) : Body :=
  {| body_value := Some (JObj [("email", JStr email); ("password", JStr pw)]); body_end := 100 |}.

(** C8: a login with an address that is not registered and one with a wrong
    password get the same response, byte for byte and header for header, leave the
    same log, take the same calls up to the hash that is compared (so one bcrypt
    comparison of the same password and the same wait), and leave the process in
    the same state: the login route does not tell which addresses exist. *)
Theorem login_does_not_enumerate {R} (h : handler userRepoE R) `{!UserRepository h}
    (sv : Service) (insecure : bool) (p : Proc) (s1 s2 : R) (r : Request) (w : wire)
    (email pw : string) (u : User) :
  r.(req_Body) = login_request email pw →
  urepo_inv s1 → urepo_inv s2 →
  no_email (urepo_view s1) (normalizeEmail email) →
  has_email (urepo_view s2) (normalizeEmail email) u →
  is_Some (bcrypt_compare u.(user_PasswordHash) pw) →
  answers h (normalizeEmail email) s1 → answers h (normalizeEmail email) s2 →
  let svc := handle_user h in
  let '(st1, o1) := run svc (login sv insecure r w) (p, s1) in
  let '(st2, o2) := run svc (login sv insecure r w) (p, s2) in
  o1 = o2 ∧ (w_sent w = None → status o1.1 = Some 401) ∧ st1.1 = st2.1 ∧
  map shape (calls svc (login sv insecure r w) (p, s1)) =
  map shape (calls svc (login sv insecure r w) (p, s2)).
Proof.
  intros Hb Hi1 Hi2 Hno Hhas Hcmp Ha1 Ha2. cbv zeta.
  pose proof (Authenticate_indistinguishable h sv p s1 s2 email pw u Hi1 Hi2 Hno Hhas Hcmp Ha1 Ha2) as Hau.
  cbv zeta in Hau. unfold login, with_body. rewrite Hb.
  assert (Hdec : Decode maxRequestBodyBytes credentialsRequest (login_request email pw)
    = Some (<["password" := FString pw]> (<["email" := FString email]> ∅))) by reflexivity.
  rewrite Hdec. unfold get_string. rewrite lookup_insert_eq, lookup_insert_ne, lookup_insert_eq by done.
  rewrite !run_bind, !calls_bind.
  destruct (run (handle_user h) (Authenticate sv email pw) (p, s1)) as [[p1 s1'] r1] eqn:E1.
  destruct (run (handle_user h) (Authenticate sv email pw) (p, s2)) as [[p2 s2'] r2] eqn:E2.
  destruct Hau as (-> & -> & Hp & Hcalls). cbn [fst] in Hp. subst p2.
  change (Is (Sentinel ErrInvalidCredentials) ErrInvalidCredentials) with true. cbv iota.
  unfold finish. rewrite !run_ret. cbn [fst snd]. split; [done|]. split; [|split; [done|]].
  - intros Hw. unfold status.
    set (w0 := logAuditEvent r auditEventLoginFailure (normalizeEmail email) w).
    change (handleServiceError r w0 ErrInvalidCredentials)
      with (writeError w0 401 "invalid email or password").
    unfold writeError, writeJSON. by rewrite (proj1 (respond_fresh _ _ _ _ w0 Hw)).
  - rewrite !map_app, Hcalls. done.
Qed.
End login.

(** A CSRF protector that rotates without setting anything. *)
#[export] Instance idle_csrf : CsrfProtector := {
  csrf_Rotate := λ _ w, (w, None);
  csrf_Token := λ _, None;
}.

Definition post (path : string) (b : Body) (ctx : Context) : Request :=
  {| req_Method := "POST"; req_Path := path; req_Query := ∅; req_Header := ∅; req_Cookies := [];
     req_PathValue := ∅; req_Body := b; req_Context := ctx |}.
Definition bad_login : Request :=
  post "/auth/login" (login_request "Alice@Example.com" "wrong horse") background.

Example login_does_not_enumerate_witness :
  let svc := handle_user handle_umem in
  let '(st1, o1) := run svc (login service false bad_login fresh_wire)
    (proc_at calm, (calm, NewMemoryRepository)) in
  let '(st2, o2) := run svc (login service false bad_login fresh_wire)
    (proc_at calm, (calm, alice_store)) in
  o1 = o2 ∧ st1.1 = st2.1.
Proof.
  pose proof (login_does_not_enumerate handle_umem service false (proc_at calm)
    (calm, NewMemoryRepository) (calm, alice_store) bad_login fresh_wire "Alice@Example.com"
    "wrong horse" alice_user eq_refl empty_store_inv alice_store_inv) as Hl.
  cbv zeta in *.
  destruct (run (handle_user handle_umem) (login service false bad_login fresh_wire)
    (proc_at calm, (calm, NewMemoryRepository))) as [st1 o1].
  destruct (run (handle_user handle_umem) (login service false bad_login fresh_wire)
    (proc_at calm, (calm, alice_store))) as [st2 o2].
  destruct Hl as (H1 & _ & H2 & _).
  - intros k u. simpl. by rewrite lookup_empty.
  - split; vm_compute; reflexivity.
  - vm_compute. eauto.
  - vm_compute. exact I || reflexivity.
  - vm_compute. exact I || reflexivity.
  - split; [exact H1|exact H2].
Defined.

Section account.
Context `{Uni : unicode.Tables, Val : Validate, Bc : Bcrypt, Cs : CsrfProtector}.

Lemma writeJSON_status w code j : w_sent w = None → status (writeJSON w code j) = Some code.
Proof. intros H. unfold status, writeJSON. by rewrite (proj1 (respond_fresh _ _ _ _ _ H)). Qed.

Lemma error_status r w err : w_sent w = None → status (handleServiceError r w err) ≠ Some 204.
Proof.
  intros Hw. unfold handleServiceError, writeError, set_retry_after.
  repeat case_match; rewrite writeJSON_status; done.
Qed.

(** C9: [DELETE /auth/me] answers 204 only after the current password was
    verified, and then the account is gone, with all its sessions, no token is
    accepted as that user any more, and nothing of any other user has changed; on
    every other answer the accounts are as they were. [cascade] is any deletion
    that works on the other stores. *)
Theorem deleteAccount_is_complete {R} (h : handler userRepoE R) `{!UserRepository h}
    (insecure : bool) (cascade : string → prog userE (option error)) (p : Proc) (s : R)
    (r : Request) (w : wire) :
  (∀ u st, (run (handle_user h) (cascade u) st).1.2 = st.2) →
  urepo_inv s → w_sent w = None →
  let u := user_of r in
  let cur := get_string (default ∅ (Decode maxRequestBodyBytes deleteAccountRequest r.(req_Body)))
               "current_password" in
  let '(st, (w', _)) := run (handle_user h) (deleteAccount insecure (λ X e, e) cascade r w) (p, s) in
  if bool_decide (status w' = Some 204) then
    (∃ x, acc_users (urepo_view s) !! u = Some x ∧ bcrypt_compare x.(user_PasswordHash) cur = None) ∧
    acc_users (urepo_view st.2) = delete u (acc_users (urepo_view s)) ∧
    (∀ k x, acc_sessions (urepo_view st.2) !! k = Some x ↔
       acc_sessions (urepo_view s) !! k = Some x ∧ x.(sess_UserID) ≠ u) ∧
    ∀ token, (run (handle_user h) (ValidateToken token) st).2 ≠ Ok u
  else acc_users (urepo_view st.2) = acc_users (urepo_view s).
Proof.
  intros Hcas Hinv Hw. cbv zeta. unfold deleteAccount, with_body.
  assert (Hjson : ∀ code j, code ≠ 204 → bool_decide (status (writeJSON w code j) = Some 204) = false).
  { intros code j Hc. apply bool_decide_eq_false. rewrite writeJSON_status by done. congruence. }
  assert (Herr : ∀ err, bool_decide (status (handleServiceError r w err) = Some 204) = false).
  { intros err. apply bool_decide_eq_false. by apply error_status. }
  destruct (Decode _ _ _) as [req|]; cbn [default].
  2:{ unfold finish, writeError. rewrite run_ret, Hjson by done. done. }
  rewrite run_bind. pose proof (verifyPassword_spec h p s (user_of r) (get_string req "current_password") Hinv) as Hv.
  unfold VerifyPassword. change (id req) with req.
  rewrite run_lift_self.
  destruct (run (handle_user h) (verifyPassword _ _) (p, s)) as [[p1 s1] [e|]]; cbn [fst snd] in Hv.
  { destruct Hv as (_ & _ & Hv & _). unfold finish. rewrite run_ret, Herr. cbn [snd]. by rewrite Hv. }
  destruct Hv as (-> & Hi1 & Hv & x & Hx & Hcmp). rewrite run_bind.
  specialize (Hcas (user_of r) (p, s1)). cbn [snd] in Hcas.
  destruct (run (handle_user h) (cascade _) (p, s1)) as [[p2 s2] [e|]]; cbn [fst snd] in Hcas; subst s2.
  { set (w0 := log _ _ _ w). unfold finish, writeError. rewrite run_ret.
    rewrite bool_decide_eq_false_2; [cbn [snd]; by rewrite Hv|]. by rewrite writeJSON_status. }
  rewrite run_bind, run_lift_self. pose proof (DeleteAccount_spec h p2 s1 (user_of r) Hi1) as Hd.
  destruct (run (handle_user h) (DeleteAccount _) (p2, s1)) as [[p3 s3] [e|]]; cbn [fst snd] in Hd.
  { destruct Hd as [_ Hd]. unfold finish. rewrite run_ret, Herr. cbn [snd]. by rewrite Hd, Hv. }
  destruct Hd as (Hi3 & Hus & Hse & Hno). unfold finish. rewrite run_ret. cbn [snd].
  rewrite bool_decide_eq_true_2.
  2:{ unfold status. rewrite sent_WriteHeader. cbn. by rewrite Hw. }
  rewrite Hus, Hse, Hv. split_and!; [by exists x|done| |].
  - intros k y. rewrite lookup_delete_where, String.eqb_neq. done.
  - intros token. destruct (Hno (hashToken token)). by apply (ValidateToken_rejects h).
Qed.
End account.

Definition delete_request : Request :=
  {| req_Method := "DELETE"; req_Path := "/auth/me"; req_Query := ∅; req_Header := ∅;
     req_Cookies := []; req_PathValue := ∅;
     req_Body := {| body_value := Some (JObj [("current_password", JStr "correct horse")]); body_end := 40 |};
     req_Context := ContextWithUserID background alice |}.
Definition no_cascade (u : string) : prog userE (option error) := mret None.
Definition deleted : Proc * (Env * memoryRepository) * (wire * outcome) :=
  run (handle_user handle_umem) (deleteAccount false (λ X e, e) no_cascade delete_request fresh_wire)
    (proc_at calm, (calm, alice_store)).

Example deleteAccount_is_complete_witness :
  status deleted.2.1 = Some 204 ∧
  ∀ token, (run (handle_user handle_umem) (ValidateToken token) deleted.1).2 ≠ Ok alice.
Proof.
  pose proof (deleteAccount_is_complete handle_umem false no_cascade (proc_at calm)
    (calm, alice_store) delete_request fresh_wire (λ u st, eq_refl) alice_store_inv eq_refl) as Hd.
  cbv zeta in Hd. fold deleted in Hd.
  assert (status deleted.2.1 = Some 204) as Hst by (vm_compute; reflexivity).
  destruct deleted as [st [w' o]]. cbn [fst snd] in *. rewrite Hst in Hd.
  split; [exact Hst|]. rewrite bool_decide_eq_true_2 in Hd by reflexivity.
  destruct Hd as (_ & _ & _ & Hv). exact Hv.
Defined.
