(* ===== verification/Breaker.v ===== *)
(** The circuit breaker in front of PostgreSQL ([task/postgres_breaker.go],
    [user/postgres_breaker.go]) and the classification of database errors it is
    configured with ([platform/pgerr/pgerr.go]).  The breaker itself is the
    library bastion: here the calls [Admit] (before a guarded call) and [Settle]
    (after it), implemented by any handler that rejects only as documented. *)

From S2P Require Import Prelude GoStd GoError Task TaskMemory TaskSpec User UserMemory UserSpec.
Local Open Scope Z_scope.

(** * platform/pgerr *)

(** [None] is the run-time panic of slicing a code shorter than two bytes. *)
Definition IsInfrastructureFailure (err : error) : option bool :=
  match AsPgError err with
  | Some Code =>
      if (String.length Code <? 2)%nat then None
      else let class := String.substring 0 2 Code in
           Some (String.eqb class "08" || String.eqb class "53" || String.eqb class "57")
  | None => Some (Is err driver_ErrBadConn || Is err context_DeadlineExceeded)
  end.

(** [wrapDBError] of the package [p], on an error. *)
Definition wrapDBError (p : pkg) (err : error) : option error :=
  match IsInfrastructureFailure err with
  | Some true => Some (Wrapped2 (ErrDependencyUnavailable p) err)
  | Some false => Some err
  | None => None
  end.

Definition isUniqueViolation (err : error) : bool :=
  match AsPgError err with Some Code => String.eqb Code "23505" | None => false end.

(** * bastion *)
Inductive bastionE : Type → Type :=
| Admit : bastionE (option error)
| Settle (err : option error) : bastionE unit.

Class Bastion {B : Type} (h : handler bastionE B) :=
  bastion_rejects : ∀ b err, (h _ Admit b).2 = Some err →
    Is err bastion_ErrOpenState = true ∨ Is err bastion_ErrTooManyRequests = true.

Section calls.
Context {F : Type → Type} `{!Subevent bastionE F}.

(** [bastion.Do]: the call, or the error of the rejection. *)
Definition Do (f : prog F (option error)) : prog F (option error) :=
  rejected ← trigger Admit;
  match rejected with
  | Some err => mret (Some err)
  | None => err ← f; _ ← trigger (Settle err); mret err
  end.

Definition result_error {A} (r : result A) : option error :=
  match r with Ok _ => None | Err e => Some e end.

(** [bastion.Execute], the same with a value. *)
Definition Execute {A} (f : prog F (result A)) : prog F (result A) :=
  rejected ← trigger Admit;
  match rejected with
  | Some err => mret (Err err)
  | None => r ← f; _ ← trigger (Settle (result_error r)); mret r
  end.
End calls.

(** * The decorators *)
Definition translateBreakerError (p : pkg) (err : error) (retryAfter : Z) : error :=
  if Is err bastion_ErrOpenState || Is err bastion_ErrTooManyRequests
  then UnavailableError p err retryAfter else err.

Definition guardedDo {F} `{!Subevent bastionE F} (p : pkg) (retryAfter : Z)
    (f : prog F (option error)) : prog F (option error) :=
  err ← Do f;
  mret match err with Some e => Some (translateBreakerError p e retryAfter) | None => None end.
Definition guardedExecute {F} `{!Subevent bastionE F} {A} (p : pkg) (retryAfter : Z)
    (f : prog F (result A)) : prog F (result A) :=
  r ← Execute f;
  mret match r with Err e => Err (translateBreakerError p e retryAfter) | Ok a => Ok a end.

Definition breakerRepository (retryAfter : Z) X (e : repoE X)
    : prog (sumE bastionE repoE) X :=
  let do := guardedDo task_pkg retryAfter in
  match e in repoE X return prog (sumE bastionE repoE) X with
  | Create task => do (trigger (Create task))
  | FindByID id userID => guardedExecute task_pkg retryAfter (trigger (FindByID id userID))
  | FindAll userID limit offset statuses priorities =>
      guardedExecute task_pkg retryAfter (trigger (FindAll userID limit offset statuses priorities))
  | Update task => do (trigger (Update task))
  | Delete id userID => do (trigger (Delete id userID))
  | CountAll userID statuses priorities =>
      guardedExecute task_pkg retryAfter (trigger (CountAll userID statuses priorities))
  | CountByStatusAndPriority userID statuses priorities =>
      guardedExecute task_pkg retryAfter
        (trigger (CountByStatusAndPriority userID statuses priorities))
  end.

Definition userBreakerRepository (retryAfter : Z) X (e : userRepoE X)
    : prog (sumE bastionE userRepoE) X :=
  let do := guardedDo user_pkg retryAfter in
  match e in userRepoE X return prog (sumE bastionE userRepoE) X with
  | CreateUser u => do (trigger (CreateUser u))
  | FindUserByEmail email => guardedExecute user_pkg retryAfter (trigger (FindUserByEmail email))
  | FindUserByID id => guardedExecute user_pkg retryAfter (trigger (FindUserByID id))
  | UpdateUserPassword id passwordHash => do (trigger (UpdateUserPassword id passwordHash))
  | DeleteUser id => do (trigger (DeleteUser id))
  | CreateSession s maxSessions => do (trigger (CreateSession s maxSessions))
  | FindSessionByTokenHash tokenHash =>
      guardedExecute user_pkg retryAfter (trigger (FindSessionByTokenHash tokenHash))
  | DeleteSession tokenHash => do (trigger (DeleteSession tokenHash))
  | FindSessionsForUser userID =>
      guardedExecute user_pkg retryAfter (trigger (FindSessionsForUser userID))
  | DeleteSessionsForUser userID => do (trigger (DeleteSessionsForUser userID))
  | DeleteSessionsForUserExcept userID keepTokenHash =>
      do (trigger (DeleteSessionsForUserExcept userID keepTokenHash))
  | DeleteExpiredSessions now => do (trigger (DeleteExpiredSessions now))
  end.

(** A repository behind a breaker is a repository. *)
Definition handle_breaker {B S} (hb : handler bastionE B) (h : handler repoE S) (retryAfter : Z)
    : handler repoE (B * S) :=
  λ X e, run (handle_sum hb h) (breakerRepository retryAfter X e).
Definition handle_ubreaker {B S} (hb : handler bastionE B) (h : handler userRepoE S)
    (retryAfter : Z) : handler userRepoE (B * S) :=
  λ X e, run (handle_sum hb h) (userBreakerRepository retryAfter X e).

(** * Calls that can fail *)

(** The error of an answer, the answer that is an error, and the answer with its
    error replaced. *)
Class Fallible (E : Type → Type) := {
  failure : ∀ X, E X → X → option error;
  fail_with : ∀ X, E X → error → X;
  on_error : ∀ X, E X → (error → error) → X → X;
}.
Arguments failure {E _ X} e x.
Arguments fail_with {E _ X} e err.
Arguments on_error {E _ X} e f x.

Definition map_err {A} (f : error → error) (r : result A) : result A :=
  match r with Ok a => Ok a | Err e => Err (f e) end.

#[export] Instance repo_fallible : Fallible repoE := {
  failure X e := match e in repoE X return X → option error with
    | Create _ | Update _ | Delete _ _ => λ r, r
    | FindByID _ _ | FindAll _ _ _ _ _ | CountAll _ _ _ | CountByStatusAndPriority _ _ _ =>
        result_error
    end;
  fail_with X e := match e in repoE X return error → X with
    | Create _ | Update _ | Delete _ _ => Some
    | FindByID _ _ | FindAll _ _ _ _ _ | CountAll _ _ _ | CountByStatusAndPriority _ _ _ => Err
    end;
  on_error X e := match e in repoE X return (error → error) → X → X with
    | Create _ | Update _ | Delete _ _ => λ f, option_map f
    | FindByID _ _ | FindAll _ _ _ _ _ | CountAll _ _ _ | CountByStatusAndPriority _ _ _ => map_err
    end;
}.

#[export] Instance user_fallible : Fallible userRepoE := {
  failure X e := match e in userRepoE X return X → option error with
    | FindUserByEmail _ | FindUserByID _ | FindSessionByTokenHash _ | FindSessionsForUser _ =>
        result_error
    | _ => λ r, r
    end;
  fail_with X e := match e in userRepoE X return error → X with
    | FindUserByEmail _ | FindUserByID _ | FindSessionByTokenHash _ | FindSessionsForUser _ => Err
    | _ => Some
    end;
  on_error X e := match e in userRepoE X return (error → error) → X → X with
    | FindUserByEmail _ | FindUserByID _ | FindSessionByTokenHash _ | FindSessionsForUser _ => map_err
    | _ => λ f, option_map f
    end;
}.

(** * What a decorated call does *)

(** [call] over a breaker and a store: rejected, it leaves the store alone;
    admitted, it is the store's call and the breaker is told its error. *)
Definition guarded_call {E B S} `{Fallible E} (hb : handler bastionE B) (h : handler E S)
    (p : pkg) (d : Z) {X} (e : E X) (w : B * S) : (B * S) * X :=
  match hb _ Admit w.1 with
  | (b, Some err) => ((b, w.2), fail_with e (translateBreakerError p err d))
  | (b, None) =>
      let '(s, x) := h X e w.2 in
      (((hb _ (Settle (failure e x)) b).1, s),
       on_error e (λ err, translateBreakerError p err d) x)
  end.

Section decorators.
Context {B S : Type} (hb : handler bastionE B).

Lemma breaker_call (h : handler repoE S) d X (e : repoE X) w :
  handle_breaker hb h d X e w = guarded_call hb h task_pkg d e w.
Proof.
  destruct w as [b s]. unfold guarded_call. simpl.
  destruct (hb _ Admit b) as [b1 [err|]] eqn:Ha; destruct e; unfold handle_breaker; simpl;
    rewrite Ha; simpl; try done;
    (destruct (h _ _ s) as [s1 x]; simpl; destruct (hb _ (Settle _) b1); by destruct x).
Qed.

Lemma ubreaker_call (h : handler userRepoE S) d X (e : userRepoE X) w :
  handle_ubreaker hb h d X e w = guarded_call hb h user_pkg d e w.
Proof.
  destruct w as [b s]. unfold guarded_call. simpl.
  destruct (hb _ Admit b) as [b1 [err|]] eqn:Ha; destruct e; unfold handle_ubreaker; simpl;
    rewrite Ha; simpl; try done;
    (destruct (h _ _ s) as [s1 x]; simpl; destruct (hb _ (Settle _) b1); by destruct x).
Qed.
End decorators.

(** A rejection says so, and when to come back. *)
Lemma translate_rejection p err d :
  Is err bastion_ErrOpenState = true ∨ Is err bastion_ErrTooManyRequests = true →
  translateBreakerError p err d = UnavailableError p err d.
Proof. unfold translateBreakerError. by intros [-> | ->]; rewrite ?orb_true_r. Qed.

Lemma translate_foreign err d :
  foreign err = true → foreign (translateBreakerError task_pkg err d) = true.
Proof. unfold translateBreakerError. by destruct (_ || _). Qed.
Lemma translate_uforeign err d :
  uforeign err = true → uforeign (translateBreakerError user_pkg err d) = true.
Proof. unfold translateBreakerError. by destruct (_ || _). Qed.

(** Failing without touching the store is within the contract, and so is
    translating an error. *)
Lemma repo_spec_fail X (e : repoE X) m err : foreign err = true → repo_spec e m m (fail_with e err).
Proof. intros He. destruct e; simpl; auto. Qed.

Lemma repo_spec_translate X (e : repoE X) m m' x d :
  repo_spec e m m' x →
  repo_spec e m m' (on_error e (λ err, translateBreakerError task_pkg err d) x).
Proof.
  destruct e, x; simpl; intuition (subst; eauto using translate_foreign).
Qed.

Lemma user_spec_fail X (e : userRepoE X) a err :
  uforeign err = true → user_spec e a a (fail_with e err).
Proof. intros He. destruct e; simpl; auto. Qed.

Lemma user_spec_translate X (e : userRepoE X) a a' x d :
  user_spec e a a' x →
  user_spec e a a' (on_error e (λ err, translateBreakerError user_pkg err d) x).
Proof.
  destruct e, x; simpl; intuition (subst; eauto using translate_uforeign).
Qed.

Section refinement.
Context {B S : Type} (hb : handler bastionE B) `{!Bastion hb} (d : Z).

Lemma guarded_sound (h : handler repoE S) `{!TaskRepository h} X (e : repoE X) w :
  repo_inv w.2 →
  repo_inv (guarded_call hb h task_pkg d e w).1.2 ∧
  repo_spec e (repo_view w.2) (repo_view (guarded_call hb h task_pkg d e w).1.2)
    (guarded_call hb h task_pkg d e w).2.
Proof.
  intros Hi. unfold guarded_call. pose proof (bastion_rejects w.1) as Hrej.
  destruct (hb _ Admit w.1) as [b [err|]]; simpl in *.
  - split; [done|]. apply repo_spec_fail. rewrite translate_rejection by auto. done.
  - pose proof (repo_sound X e w.2 Hi) as Hs. pose proof (repo_step_inv X e w.2 Hi) as Hi'.
    destruct (h X e w.2) as [s x]; simpl in *. split; [done|]. by apply repo_spec_translate.
Qed.

Lemma uguarded_sound (h : handler userRepoE S) `{!UserRepository h} X (e : userRepoE X) w :
  urepo_inv w.2 → fresh_call e (urepo_view w.2) →
  urepo_inv (guarded_call hb h user_pkg d e w).1.2 ∧
  user_spec e (urepo_view w.2) (urepo_view (guarded_call hb h user_pkg d e w).1.2)
    (guarded_call hb h user_pkg d e w).2.
Proof.
  intros Hi Hf. unfold guarded_call. pose proof (bastion_rejects w.1) as Hrej.
  destruct (hb _ Admit w.1) as [b [err|]]; simpl in *.
  - split; [done|]. apply user_spec_fail. rewrite translate_rejection by auto. done.
  - pose proof (urepo_sound X e w.2 Hi Hf) as Hs. pose proof (urepo_step_inv X e w.2 Hi Hf) as Hi'.
    destruct (h X e w.2) as [s x]; simpl in *. split; [done|]. by apply user_spec_translate.
Qed.

#[export] Instance breaker_repository (h : handler repoE S) `{!TaskRepository h} :
  TaskRepository (handle_breaker hb h d).
Proof.
  refine {| repo_view := λ w, repo_view w.2; repo_inv := λ w, repo_inv w.2 |}.
  - intros w. apply repo_wf.
  - intros X e w Hi. rewrite breaker_call. by apply guarded_sound.
  - intros X e w Hi. rewrite breaker_call. by apply guarded_sound.
Defined.

#[export] Instance breaker_user_repository (h : handler userRepoE S) `{!UserRepository h} :
  UserRepository (handle_ubreaker hb h d).
Proof.
  refine {| urepo_view := λ w, urepo_view w.2; urepo_inv := λ w, urepo_inv w.2 |}.
  - intros w. apply urepo_wf.
  - intros X e w Hi Hf. rewrite ubreaker_call. by apply uguarded_sound.
  - intros X e w Hi Hf. rewrite ubreaker_call. by apply uguarded_sound.
Defined.
End refinement.
