(* ===== verification/Attachment.v ===== *)
(** [internal/attachment]: the data (attachment.go), the calls of [Repository] and
    [BlobStore] (repository.go, storage.go) and [Service] (service.go). *)

From S2P Require Import Prelude GoStd GoError Uuid.
Local Open Scope Z_scope.

(** * attachment.go *)
Record Attachment := {
  att_ID : string;
  att_TaskID : string;
  att_OriginalFilename : string;
  att_StorageKey : string;
  att_ContentType : string;
  att_SizeBytes : Z;
  att_CreatedAt : Z;
}.
#[export] Instance Attachment_eq_dec : EqDecision Attachment.
Proof. solve_decision. Defined.

(** * repository.go *)
Inductive attachRepoE : Type → Type :=
| CreateAttachment (attachment : Attachment) (userID : string) : attachRepoE (option error)
| FindByStorageKey (storageKey userID : string) : attachRepoE (result Attachment)
| FindByTask (taskID userID : string) : attachRepoE (result (list Attachment))
| DeleteAttachment (storageKey userID : string) : attachRepoE (option error)
| TotalBytesForUser (userID : string) : attachRepoE (result Z)
| CountByTask (taskID userID : string) : attachRepoE (result Z)
| UnreferencedKeys (keys : list string) : attachRepoE (result (list string)).

(** * storage.go *)

(** An [io.Reader]: the bytes it delivers and then [io.EOF] or, once and for all,
    another error. *)
Record Reader := { rd_bytes : list Z; rd_err : option error }.

Record BlobRef := { ref_Key : string; ref_ModTime : Z }.

Inductive blobE : Type → Type :=
| Put (key : string) (r : Reader) (maxBytes : Z) : blobE (result Z)
| Open (key : string) : blobE (result (list Z))
| DeleteBlob (key : string) : blobE (option error)
| ListBlobs : blobE (result (list BlobRef)).

Definition attachE : Type → Type := sumE envE (sumE attachRepoE blobE).

(** * service.go *)
Definition maxOriginalFilenameLen : Z := 255.
Definition maxAttachmentsPerTask : Z := 50.
Definition sniffLen : nat := 512.

Definition allowedContentTypes : gmap string () :=
  {[ "image/jpeg" := (); "image/png" := (); "image/gif" := (); "image/webp" := ();
     "application/pdf" := (); "text/plain" := () ]}.

Record Service := { maxBytes : Z; maxBytesPerUser : Z; allowed : gmap string () }.
Definition NewService (maxBytes maxBytesPerUser : Z) : Service :=
  {| maxBytes := maxBytes; maxBytesPerUser := maxBytesPerUser; allowed := allowedContentTypes |}.

(** What follows the last byte that satisfies [P]: the slice from
    [strings.LastIndexAny] plus one. *)
Fixpoint after_last (P : ascii → bool) (s : string) : string :=
  match s with
  | "" => ""
  | String c s' =>
      if existsb P (String.list_ascii_of_string s') then after_last P s'
      else if P c then s' else s
  end.
Definition is_slash (c : ascii) : bool := Ascii.eqb c "/".
Definition is_separator (c : ascii) : bool := is_slash c || Ascii.eqb c "\".

Module filepath.
Fixpoint strip_slashes (l : list ascii) : list ascii :=
  match l with
  | c :: l' => if is_slash c then strip_slashes l' else l
  | [] => []
  end.
(** [filepath.Base] on Unix. *)
Definition Base (path : string) : string :=
  if String.eqb path "" then "."
  else
    let p := String.string_of_list_ascii
      (rev (strip_slashes (rev (String.list_ascii_of_string path)))) in
    let p := after_last is_slash p in
    if String.eqb p "" then "/" else p.
End filepath.

Definition normalizeFilename `{Sanitize} (name : string) : result string :=
  let name := after_last is_separator name in
  let name := PlainText (filepath.Base name) in
  if bool_decide (name ∈ [""; "."; ".."; "/"]) then
    Err (detail (ErrInvalidInput attachment_pkg) "filename must not be empty")
  else if maxOriginalFilenameLen <? utf8.RuneCountInString name then
    Err (detail (ErrInvalidInput attachment_pkg)
      ("filename must be at most " +:+ strconv.Itoa maxOriginalFilenameLen +:+ " characters"))
  else Ok name.

Definition detectContentType `{unicode.Tables} (head : list Z) : string :=
  strings.TrimSpace (strings.ToLower (strings.before_byte (http.DetectContentType head) ";")).

(** [io.ReadFull] into a buffer of [n] bytes: the bytes read, the error, and the
    reader after it. *)
Definition ReadFull (n : nat) (r : Reader) : list Z * option error * Reader :=
  let head := take n r.(rd_bytes) in
  let rest := {| rd_bytes := drop n r.(rd_bytes); rd_err := r.(rd_err) |} in
  if (n <=? length r.(rd_bytes))%nat then (head, None, rest)
  else match r.(rd_err) with
       | Some err => (head, Some err, rest)
       | None => (head, Some (Sentinel match head with [] => io_EOF | _ => io_ErrUnexpectedEOF end), rest)
       end.

(** [io.MultiReader(bytes.NewReader(head), r)]. *)
Definition MultiReader (head : list Z) (r : Reader) : Reader :=
  {| rd_bytes := head ++ r.(rd_bytes); rd_err := r.(rd_err) |}.

Definition newID : prog attachE (result string) := newID_with "failed to generate id".

Section Service.
Context `{Sanitize, unicode.Tables} (s : Service).
Local Open Scope prog_scope.

Definition Upload (userID taskID declaredFilename : string) (r : Reader)
    : prog attachE (result Attachment) :=
  let fail := wrap "upload attachment" in
  if negb (isValidID taskID) then mret (Err ErrTaskNotFound)
  else
    let? total := trigger (TotalBytesForUser userID) onerr fail in
    if s.(maxBytesPerUser) <=? total then
      mret (Err (detail (ErrInvalidInput attachment_pkg)
        ("attachment quota exceeded (" +:+ strconv.Itoa total +:+ "/"
         +:+ strconv.Itoa s.(maxBytesPerUser) +:+ " bytes used)")))
    else
      let? count := trigger (CountByTask taskID userID) onerr fail in
      if maxAttachmentsPerTask <=? count then
        mret (Err (detail (ErrInvalidInput attachment_pkg)
          ("task already has " +:+ strconv.Itoa count +:+ " attachments (max "
           +:+ strconv.Itoa maxAttachmentsPerTask +:+ ")")))
      else
        let! filename := normalizeFilename declaredFilename onerr id in
        let '(head, err, r) := ReadFull sniffLen r in
        let failed := match err with
          | Some e => if Is e io_EOF || Is e io_ErrUnexpectedEOF then None else Some e
          | None => None
          end in
        match failed with
        | Some e => mret (Err (wrap "upload attachment: read" e))
        | None =>
            let contentType := detectContentType head in
            match s.(allowed) !! contentType with
            | None => mret (Err (detail (ErrInvalidInput attachment_pkg)
                ("content type " +:+ quote.Quote contentType +:+ " is not accepted")))
            | Some _ =>
                let? id := newID onerr fail in
                let? storageKey := newID onerr fail in
                put ← trigger (Put storageKey (MultiReader head r) s.(maxBytes));
                match put with
                | Err e =>
                    if Is e ErrTooLarge then
                      mret (Err (detail (ErrInvalidInput attachment_pkg)
                        ("attachment must be at most " +:+ strconv.Itoa s.(maxBytes) +:+ " bytes")))
                    else mret (Err (fail e))
                | Ok size =>
                    now ← trigger Now;
                    let att := {| att_ID := id; att_TaskID := taskID;
                                  att_OriginalFilename := filename; att_StorageKey := storageKey;
                                  att_ContentType := contentType; att_SizeBytes := size;
                                  att_CreatedAt := now |} in
                    err ← trigger (CreateAttachment att userID);
                    match err with
                    | Some e => _ ← trigger (DeleteBlob storageKey); mret (Err (fail e))
                    | None => mret (Ok att)
                    end
                end
            end
        end.

Definition Download (userID storageKey : string) : prog attachE (result (Attachment * list Z)) :=
  if negb (isValidID storageKey) then mret (Err (ErrNotFound attachment_pkg))
  else
    let? att := trigger (FindByStorageKey storageKey userID) onerr (wrap "download attachment") in
    let? blob := trigger (Open att.(att_StorageKey)) onerr (wrap "download attachment") in
    mret (Ok (att, blob)).

Definition Delete (userID storageKey : string) : prog attachE (option error) :=
  if negb (isValidID storageKey) then mret (Some (Sentinel (ErrNotFound attachment_pkg)))
  else
    err ← trigger (DeleteAttachment storageKey userID);
    match err with
    | Some e => mret (Some (wrap "delete attachment" e))
    | None => _ ← trigger (DeleteBlob storageKey); mret None
    end.

Definition ListByTask (userID taskID : string) : prog attachE (result (list Attachment)) :=
  if negb (isValidID taskID) then mret (Err ErrTaskNotFound)
  else
    let? attachments := trigger (FindByTask taskID userID) onerr (wrap "list attachments") in
    mret (Ok attachments).

(** The deletions of the collector: how many succeeded, and the error that ended
    them. *)
Fixpoint deleteLoop (orphans : list string) (deleted : Z) : prog attachE (Z * option error) :=
  match orphans with
  | [] => mret (deleted, None)
  | key :: orphans' =>
      err ← trigger (DeleteBlob key);
      match err with
      | Some e => mret (deleted, Some (wrap "collect orphans" e))
      | None => deleteLoop orphans' (deleted + 1)
      end
  end.

Definition CollectOrphans (minAge : Z) : prog attachE (Z * option error) :=
  if minAge <=? 0 then
    mret (0, Some (detail (ErrInvalidInput attachment_pkg)
      "orphan collection requires a positive minimum age"))
  else
    refs ← trigger ListBlobs;
    match refs with
    | Err e => mret (0, Some (wrap "collect orphans" e))
    | Ok refs =>
        now ← trigger Now;
        let cutoff := time.Add now (- minAge) in
        let candidates :=
          map ref_Key (base.filter (λ ref, time.Before ref.(ref_ModTime) cutoff = true) refs) in
        match candidates with
        | [] => mret (0, None)
        | _ =>
            orphans ← trigger (UnreferencedKeys candidates);
            match orphans with
            | Err e => mret (0, Some (wrap "collect orphans" e))
            | Ok orphans => deleteLoop orphans 0
            end
        end
    end.
End Service.

Example Base_ex : map filepath.Base [""; "a.txt"; "/x/y/"; "//"; "a/b"] = ["."; "a.txt"; "y"; "/"; "b"].
Proof. reflexivity. Qed.
Example after_last_ex : map (after_last is_separator) ["C:\dir\f.txt"; "../../etc/passwd"; "x"; "y/"]
  = ["f.txt"; "passwd"; "x"; ""].
Proof. reflexivity. Qed.
#[global] Arguments detectContentType : simpl never.
#[global] Arguments ReadFull : simpl never.
#[global] Arguments normalizeFilename : simpl never.
#[global] Arguments allowedContentTypes : simpl never.
