(* ===== verification/AttachmentMemory.v ===== *)
(** [internal/attachment/memory_repository.go]: metadata in a map, under the
    attachment's identifier.  Who owns a task is asked of a callback.  Each method
    is a program over its context, the order of its loops over the map and the
    callback; it acts on the map as one step, under the mutex. *)

From S2P Require Import Prelude GoStd GoError Attachment.
Local Open Scope Z_scope.

(** [TaskOwnershipFunc]. *)
Inductive ownsE : Type → Type :=
| OwnsTask (taskID userID : string) : ownsE (result bool).

Definition memE : Type → Type := sumE envE ownsE.
Abbreviation rows := (gmap string Attachment).

Definition NewMemoryRepository : rows := ∅.

(** The entry whose storage key is [key], as the loop finds it. *)
Definition find_key (key : string) (it : list (string * Attachment)) : option (string * Attachment) :=
  List.find (λ e, String.eqb e.2.(att_StorageKey) key) it.

(** [sort.Slice]'s comparison: creation time, then ID. *)
Definition att_less (a b : Attachment) : bool :=
  if negb (time.Equal a.(att_CreatedAt) b.(att_CreatedAt))
  then time.Before a.(att_CreatedAt) b.(att_CreatedAt)
  else strings.less a.(att_ID) b.(att_ID).

Section methods.
Context `{MapIteration}.

(** [for ... := range r.store]. *)
Definition range_store (store : rows) : prog memE (list (string * Attachment)) :=
  seed ← trigger MapSeed; mret (range_with seed store).

Definition mCreateAttachment (attachment : Attachment) (userID : string) (store : rows)
    : prog memE (rows * option error) :=
  owns ← trigger (OwnsTask attachment.(att_TaskID) userID);
  match owns with
  | Err err => mret (store, Some err)
  | Ok false => mret (store, Some (Sentinel ErrTaskNotFound))
  | Ok true =>
      match store !! attachment.(att_ID) with
      | Some _ => mret (store, Some (Sentinel (ErrAlreadyExists attachment_pkg)))
      | None =>
          it ← range_store store;
          if existsb (λ existing, String.eqb existing.(att_StorageKey) attachment.(att_StorageKey))
               (values it)
          then mret (store, Some (Sentinel (ErrAlreadyExists attachment_pkg)))
          else mret (<[attachment.(att_ID) := attachment]> store, None)
      end
  end.

Definition mFindByStorageKey (storageKey userID : string) (store : rows)
    : prog memE (result Attachment) :=
  ctx ← trigger CtxErr;
  match ctx with
  | Some err => mret (Err err)
  | None =>
      it ← range_store store;
      match find_key storageKey it with
      | None => mret (Err (ErrNotFound attachment_pkg))
      | Some (_, found) =>
          owns ← trigger (OwnsTask found.(att_TaskID) userID);
          match owns with
          | Err err => mret (Err err)
          | Ok false => mret (Err (ErrNotFound attachment_pkg))
          | Ok true => mret (Ok found)
          end
      end
  end.

Definition mDeleteAttachment (storageKey userID : string) (store : rows)
    : prog memE (rows * option error) :=
  ctx ← trigger CtxErr;
  match ctx with
  | Some err => mret (store, Some err)
  | None =>
      it ← range_store store;
      match find_key storageKey it with
      | None => mret (store, Some (Sentinel (ErrNotFound attachment_pkg)))
      | Some (id, existing) =>
          owns ← trigger (OwnsTask existing.(att_TaskID) userID);
          match owns with
          | Err err => mret (store, Some err)
          | Ok false => mret (store, Some (Sentinel (ErrNotFound attachment_pkg)))
          | Ok true => mret (delete id store, None)
          end
      end
  end.

Definition mFindByTask (taskID userID : string) (store : rows)
    : prog memE (result (list Attachment)) :=
  owns ← trigger (OwnsTask taskID userID);
  match owns with
  | Err err => mret (Err err)
  | Ok false => mret (Err ErrTaskNotFound)
  | Ok true =>
      it ← range_store store;
      mret (Ok (sort_slice att_less
        (base.filter (λ a, String.eqb a.(att_TaskID) taskID = true) (values it))))
  end.

Fixpoint totalLoop (userID : string) (candidates : list Attachment) (total : Z)
    : prog memE (result Z) :=
  match candidates with
  | [] => mret (Ok total)
  | att :: candidates' =>
      owns ← trigger (OwnsTask att.(att_TaskID) userID);
      match owns with
      | Err err => mret (Err err)
      | Ok owns => totalLoop userID candidates'
          (if owns : bool then int64.add total att.(att_SizeBytes) else total)
      end
  end.

Definition mTotalBytesForUser (userID : string) (store : rows) : prog memE (result Z) :=
  ctx ← trigger CtxErr;
  match ctx with
  | Some err => mret (Err err)
  | None => it ← range_store store; totalLoop userID (values it) 0
  end.

Definition mCountByTask (taskID userID : string) (store : rows) : prog memE (result Z) :=
  ctx ← trigger CtxErr;
  match ctx with
  | Some err => mret (Err err)
  | None =>
      owns ← trigger (OwnsTask taskID userID);
      match owns with
      | Err err => mret (Err err)
      | Ok false => mret (Ok 0)
      | Ok true =>
          it ← range_store store;
          mret (Ok (fold_left (λ count att, if String.eqb att.(att_TaskID) taskID then count + 1 else count)
            (values it) 0))
      end
  end.

Definition mUnreferencedKeys (keys : list string) (store : rows) : prog memE (result (list string)) :=
  ctx ← trigger CtxErr;
  match ctx with
  | Some err => mret (Err err)
  | None =>
      it ← range_store store;
      let referenced := fold_left (λ m existing, <[existing.(att_StorageKey) := true]> m) (values it)
        (∅ : gmap string bool) in
      mret (Ok (base.filter (λ key, referenced !! key = None) keys))
  end.

Definition memoryRepository X (e : attachRepoE X) (store : rows) : prog memE (rows * X) :=
  let read {A} (p : prog memE A) : prog memE (rows * A) := r ← p; mret (store, r) in
  match e in attachRepoE X return prog memE (rows * X) with
  | CreateAttachment attachment userID => mCreateAttachment attachment userID store
  | FindByStorageKey storageKey userID => read (mFindByStorageKey storageKey userID store)
  | FindByTask taskID userID => read (mFindByTask taskID userID store)
  | DeleteAttachment storageKey userID => mDeleteAttachment storageKey userID store
  | TotalBytesForUser userID => read (mTotalBytesForUser userID store)
  | CountByTask taskID userID => read (mCountByTask taskID userID store)
  | UnreferencedKeys keys => read (mUnreferencedKeys keys store)
  end.

(** The repository over tasks in [T], whose ownership [ask] answers. *)
Definition handle_amem {T} (ask : handler ownsE T) : handler attachRepoE (Env * T * rows) :=
  λ X e '(env, t, store),
    let '((env, t), (store, x)) := run (handle_sum handle_env ask) (memoryRepository X e store) (env, t) in
    ((env, t, store), x).
End methods.
