(* ===== verification/AttachmentSpec.v ===== *)
(** What an attachment [Repository] and a [BlobStore] promise, whichever store is
    behind them (repository.go, storage.go), and the proof that the in-memory
    repository keeps the first. *)

From S2P Require Import Prelude GoStd GoError Uuid Attachment AttachmentMemory.
Local Open Scope Z_scope.

Definition attach_sentinels : list sentinel :=
  [ErrNotFound attachment_pkg; ErrTaskNotFound; ErrAlreadyExists attachment_pkg;
   ErrInvalidInput attachment_pkg].
(** A failure of the store or of the request, not an answer about an attachment. *)
Definition aforeign (e : error) : bool := forallb (λ s, negb (Is e s)) attach_sentinels.

Lemma aforeign_ctx c e : ctx_error c = Some e → aforeign e = true.
Proof. destruct c; simpl; intros; simplify_eq; reflexivity. Qed.

(** * Metadata *)
Definition has_key (m : rows) (k : string) (a : Attachment) : Prop :=
  m !! a.(att_ID) = Some a ∧ a.(att_StorageKey) = k.
Definition no_key (m : rows) (k : string) : Prop :=
  ∀ id a, m !! id = Some a → a.(att_StorageKey) ≠ k.

Record wf_rows (m : rows) : Prop := {
  wf_att_id : ∀ k a, m !! k = Some a → a.(att_ID) = k;
  wf_att_key : ∀ k k' a a', m !! k = Some a → m !! k' = Some a' →
    a.(att_StorageKey) = a'.(att_StorageKey) → k = k';
}.

(** The attachments of one task, and the bytes of one user. *)
Definition of_task (m : rows) (taskID : string) : list Attachment :=
  base.filter (λ a, String.eqb a.(att_TaskID) taskID = true) (values (map_to_list m)).
Definition bytes_owned (owns : string → string → bool) (u : string) (l : list Attachment) : Z :=
  fold_right (λ a acc, (if owns a.(att_TaskID) u then a.(att_SizeBytes) else 0) + acc) 0 l.

Definition attach_spec {X} (e : attachRepoE X) (owns : string → string → bool) (m m' : rows)
    : X → Prop :=
  match e in attachRepoE X return X → Prop with
  | CreateAttachment a u => λ r,
      match r with
      | None => owns a.(att_TaskID) u = true ∧ m !! a.(att_ID) = None ∧
          no_key m a.(att_StorageKey) ∧ m' = <[a.(att_ID) := a]> m
      | Some e => m' = m ∧
          (e = ErrTaskNotFound ∧ owns a.(att_TaskID) u = false ∨
           e = ErrAlreadyExists attachment_pkg ∧
             (is_Some (m !! a.(att_ID)) ∨ ∃ a', has_key m a.(att_StorageKey) a') ∨
           aforeign e = true)
      end
  | FindByStorageKey k u => λ r, m' = m ∧
      match r with
      | Ok a => has_key m k a ∧ owns a.(att_TaskID) u = true
      | Err e => e = ErrNotFound attachment_pkg ∧
          (∀ a, has_key m k a → owns a.(att_TaskID) u = false) ∨ aforeign e = true
      end
  | FindByTask t u => λ r, m' = m ∧
      match r with
      | Ok l => owns t u = true ∧ l ≡ₚ of_task m t ∧ StronglySorted (in_order att_less) l
      | Err e => e = ErrTaskNotFound ∧ owns t u = false ∨ aforeign e = true
      end
  | DeleteAttachment k u => λ r,
      match r with
      | None => ∃ a, has_key m k a ∧ owns a.(att_TaskID) u = true ∧ m' = delete a.(att_ID) m
      | Some e => m' = m ∧
          (e = ErrNotFound attachment_pkg ∧ (∀ a, has_key m k a → owns a.(att_TaskID) u = false) ∨
           aforeign e = true)
      end
  | TotalBytesForUser u => λ r, m' = m ∧
      match r with
      | Ok n => n = int64.wrap (bytes_owned owns u (values (map_to_list m)))
      | Err e => aforeign e = true
      end
  | CountByTask t u => λ r, m' = m ∧
      match r with
      | Ok n => n = if owns t u then Z.of_nat (length (of_task m t)) else 0
      | Err e => aforeign e = true
      end
  | UnreferencedKeys ks => λ r, m' = m ∧
      match r with
      | Ok l => (∀ k, k ∈ l → k ∈ ks ∧ no_key m k) ∧
          (∀ k, k ∈ ks → isValidID k = true → no_key m k → k ∈ l)
      | Err e => aforeign e = true
      end
  end.

(** An implementation of [Repository]: its state shows rows and who owns which
    task; its calls act on the rows as specified and on the ownership not at all. *)
Class AttachmentRepository {S : Type} (h : handler attachRepoE S) := {
  arepo_rows : S → rows;
  arepo_owns : S → string → string → bool;
  arepo_inv : S → Prop;
  arepo_wf : ∀ s, arepo_inv s → wf_rows (arepo_rows s);
  arepo_step_inv : ∀ X (e : attachRepoE X) s, arepo_inv s → arepo_inv (h X e s).1;
  arepo_owns_step : ∀ X (e : attachRepoE X) s t u, arepo_inv s →
    arepo_owns (h X e s).1 t u = arepo_owns s t u;
  arepo_sound : ∀ X (e : attachRepoE X) s, arepo_inv s →
    attach_spec e (arepo_owns s) (arepo_rows s) (arepo_rows (h X e s).1) (h X e s).2;
}.

(** * Bytes *)
Record Blob := { blob_bytes : list Z; blob_ModTime : Z }.
Abbreviation blobs := (gmap string Blob).

(** What a call does, where [ok] tells the keys the store can be asked about. *)
Definition blob_spec (ok : string → Prop) {X} (e : blobE X) (b b' : blobs) : X → Prop :=
  match e in blobE X return X → Prop with
  | Put k r max => λ x,
      match x with
      | Ok n => r.(rd_err) = None ∧ n = Z.of_nat (length r.(rd_bytes)) ∧ n ≤ max ∧
          ∃ t, b' = <[k := {| blob_bytes := r.(rd_bytes); blob_ModTime := t |}]> b
      | Err e => (∀ k', k' ≠ k → b' !! k' = b !! k') ∧
          (Is e ErrTooLarge = true → max < Z.of_nat (length r.(rd_bytes)) ∨
             ∃ e', r.(rd_err) = Some e' ∧ Is e' ErrTooLarge = true)
      end
  | Open k => λ x, b' = b ∧
      match x with Ok c => ok k → blob_bytes <$> b !! k = Some c | Err _ => True end
  | DeleteBlob k => λ x,
      match x with None => b' = delete k b | Some _ => b' = b ∨ b' = delete k b end
  | ListBlobs => λ x, b' = b ∧
      match x with
      | Ok refs => refs ≡ₚ map (λ kb, {| ref_Key := kb.1; ref_ModTime := kb.2.(blob_ModTime) |})
                             (map_to_list b)
      | Err _ => True
      end
  end.

(** The calls a store must answer as specified: writes and deletions under keys it
    accepts, with a limit whose successor is still an [int64]. *)
Definition blob_pre (ok : string → Prop) {X} (e : blobE X) : Prop :=
  match e with
  | Put k r max => ok k ∧ max < int64.max
  | DeleteBlob k => ok k
  | _ => True
  end.

(** An implementation of [BlobStore]: it accepts generated keys and the keys it
    lists. *)
Class BlobStore {B : Type} (h : handler blobE B) := {
  blob_view : B → blobs;
  blob_key : string → Prop;
  blob_key_generated : ∀ k, isValidID k = true → blob_key k;
  blob_key_listed : ∀ b k, is_Some (blob_view b !! k) → blob_key k;
  blob_sound : ∀ X (e : blobE X) b, blob_pre blob_key e →
    blob_spec blob_key e (blob_view b) (blob_view (h X e b).1) (h X e b).2;
}.
#[global] Arguments blob_key {B} h {_} k.
#[export] Hint Resolve blob_key_generated : go.

(** * The in-memory repository *)

(** An ownership callback that does not lie and changes nothing. *)
Class TaskOwners {T : Type} (ask : handler ownsE T) := {
  owners : T → string → string → bool;
  owners_inv : T → Prop;
  owners_step : ∀ X (e : ownsE X) t, owners_inv t →
    owners_inv (ask X e t).1 ∧ ∀ id u, owners (ask X e t).1 id u = owners t id u;
  owners_ok : ∀ id u t b, owners_inv t → (ask _ (OwnsTask id u) t).2 = Ok b → b = owners t id u;
  owners_err : ∀ id u t err, owners_inv t → (ask _ (OwnsTask id u) t).2 = Err err → aforeign err = true;
}.

#[export] Instance att_less_weak : StrictWeak att_less.
Proof. exact (time_then_name_weak att_CreatedAt att_ID). Qed.

Lemma find_key_Some k m it id a :
  range_of m it → find_key k it = Some (id, a) → m !! id = Some a ∧ a.(att_StorageKey) = k.
Proof.
  intros Hit [Hin Hk]%find_some. apply list_elem_of_In in Hin. apply String.eqb_eq in Hk.
  by rewrite (elem_of_range m it) in Hin.
Qed.

Lemma find_key_None k m it : range_of m it → find_key k it = None → no_key m k.
Proof.
  intros Hit Hn id a Ha Hk. rewrite <-(elem_of_range m it _ _ Hit) in Ha.
  pose proof (find_none _ _ Hn (id, a) (proj1 (list_elem_of_In _ _) Ha)) as He. simpl in He.
  apply String.eqb_neq in He. done.
Qed.

Lemma no_key_has m k a : wf_rows m → no_key m k → ¬ has_key m k a.
Proof. intros _ Hn [Ha Hk]. by eapply Hn. Qed.

Lemma has_key_of m k id a :
  wf_rows m → m !! id = Some a → a.(att_StorageKey) = k → has_key m k a ∧ a.(att_ID) = id.
Proof. intros Hwf Ha Hk. pose proof (wf_att_id m Hwf id a Ha) as <-. done. Qed.

Lemma has_key_unique m k a a' : wf_rows m → has_key m k a → has_key m k a' → a = a'.
Proof.
  intros Hwf [Ha Hk] [Ha' Hk']. pose proof (wf_att_key m Hwf _ _ _ _ Ha Ha') as He.
  rewrite He in Ha by congruence. congruence.
Qed.

Section memory.
Context `{Iter : MapIteration} (owns : string → string → bool).

(** What the methods may assume of the context and of the callback. *)
Definition mem_answer (w : unit) X (e : memE X) : X → Prop :=
  match e with
  | inl e' =>
      match e' in envE X return X → Prop with
      | CtxErr => λ x, ∀ err, x = Some err → aforeign err = true
      | _ => λ _, True
      end
  | inr e' =>
      match e' in ownsE X return X → Prop with
      | OwnsTask id u => λ x,
          match x with Ok b => b = owns id u | Err err => aforeign err = true end
      end
  end.

Abbreviation ends Q p := (follows eq (λ _ _ _, True) mem_answer (λ _ x, Q x) tt p).
Abbreviation keeps e store := (λ r, attach_spec e owns store r.1 r.2).

(** The answers, one call at a time. *)
Ltac answer :=
  match goal with
  | |- _ ∧ _ => split; [exact I|]
  | |- ∀ _, _ => intros [] ? _ ?
  | x : result bool |- _ => destruct x as [[|]|]; simpl in *
  | x : option error |- _ => destruct x; simpl in *
  end.

Context (store : rows) (Hwf : wf_rows store).

Lemma owned_answer {A} (Q : A → Prop) id u (k : result bool → prog memE A) :
  (owns id u = true → ends Q (k (Ok true))) → (owns id u = false → ends Q (k (Ok false))) →
  (∀ err, aforeign err = true → ends Q (k (Err err))) →
  ends Q (trigger (OwnsTask id u) ≫= k).
Proof.
  intros Ht Hf He. split; [done|]. intros [] [[|]|err] _ Hx; simpl in Hx;
    [by apply Ht|by apply Hf|by apply He].
Qed.

Lemma ctx_answer {A} (Q : A → Prop) (k : option error → prog memE A) :
  ends Q (k None) → (∀ err, aforeign err = true → ends Q (k (Some err))) →
  ends Q (trigger CtxErr ≫= k).
Proof.
  intros Hn He. split; [done|]. intros [] [err|] _ Hx; [|done]. by apply He, Hx.
Qed.

Lemma range_answer {A} (Q : A → Prop) (k : list (string * Attachment) → prog memE A) :
  (∀ it, range_of store it → ends Q (k it)) → ends Q (range_store store ≫= k).
Proof. intros Hk. split; [done|]. intros [] seed _ _. apply Hk, range_with_of. Qed.

Lemma create_follows att u :
  ends (keeps (CreateAttachment att u) store) (mCreateAttachment att u store).
Proof.
  unfold mCreateAttachment. apply owned_answer; intros Ho; cbn beta iota; [|simpl; by auto|simpl; by auto].
  destruct (store !! att_ID att) as [a|] eqn:E; [simpl; by eauto 6|].
  apply range_answer. intros it Hit. destruct (existsb _ _) eqn:Ex; simpl.
  - split; [done|]. right; left. split; [done|]. right.
    apply existsb_exists in Ex as (a & Ha & Hk). apply String.eqb_eq in Hk.
    apply list_elem_of_In, (elem_of_values store _ a Hit) in Ha as [id Ha].
    exists a. by eapply has_key_of.
  - split_and!; [done|done| |done]. intros id a Ha Hk.
    assert (existsb (λ x, String.eqb (att_StorageKey x) (att_StorageKey att)) (values it) = true) as Ht.
    { apply existsb_exists. exists a. split; [|by apply String.eqb_eq].
      apply list_elem_of_In, (elem_of_values store _ a Hit). eauto. }
    by rewrite Ht in Ex.
Qed.

(** What a lookup by key concludes from the row it finds. *)
Lemma not_owned_key k u id a :
  store !! id = Some a → a.(att_StorageKey) = k → owns a.(att_TaskID) u = false →
  ∀ a', has_key store k a' → owns a'.(att_TaskID) u = false.
Proof.
  intros Ha Hk Ho a' Ha'. destruct (has_key_of store k id a Hwf Ha Hk) as [Hka _].
  by rewrite <-(has_key_unique store k a a' Hwf Hka Ha').
Qed.

Lemma find_follows k u :
  ends (attach_spec (FindByStorageKey k u) owns store store) (mFindByStorageKey k u store).
Proof.
  unfold mFindByStorageKey. apply ctx_answer; [|simpl; by auto].
  apply range_answer. intros it Hit. destruct (find_key k it) as [[id a]|] eqn:E.
  - destruct (find_key_Some k store it id a Hit E) as [Ha Hk].
    apply owned_answer; intros Ho; [|simpl; by eauto 6 using not_owned_key|simpl; by auto].
    split; [done|]. split; [|done]. by eapply has_key_of.
  - split; [done|]. left. split; [done|]. intros a Ha.
    destruct (no_key_has store k a Hwf (find_key_None k store it Hit E) Ha).
Qed.

Lemma delete_follows k u :
  ends (keeps (DeleteAttachment k u) store) (mDeleteAttachment k u store).
Proof.
  unfold mDeleteAttachment. apply ctx_answer; [|simpl; by auto].
  apply range_answer. intros it Hit. destruct (find_key k it) as [[id a]|] eqn:E.
  - destruct (find_key_Some k store it id a Hit E) as [Ha Hk].
    apply owned_answer; intros Ho; [|simpl; by eauto 6 using not_owned_key|simpl; by auto].
    destruct (has_key_of store k id a Hwf Ha Hk) as [Hka <-]. simpl. by exists a.
  - split; [done|]. left. split; [done|]. intros a Ha.
    destruct (no_key_has store k a Hwf (find_key_None k store it Hit E) Ha).
Qed.

Lemma values_all it : range_of store it → values it ≡ₚ values (map_to_list store).
Proof. intros Hit. unfold values. by rewrite Hit. Qed.

Lemma byTask_follows t u :
  ends (attach_spec (FindByTask t u) owns store store) (mFindByTask t u store).
Proof.
  unfold mFindByTask. apply owned_answer; intros Ho; [|simpl; by auto|simpl; by auto].
  apply range_answer. intros it Hit. simpl. split; [done|]. split; [done|]. split.
  - rewrite sort_slice_perm. unfold of_task. by rewrite (values_all it Hit).
  - apply sort_slice_sorted. apply _.
Qed.

Lemma int64_add_wrap a b : int64.add (int64.wrap a) b = int64.wrap (a + b).
Proof.
  unfold int64.add, int64.wrap. f_equal.
  replace ((a + 2 ^ 63) mod 2 ^ 64 - 2 ^ 63 + b + 2 ^ 63) with ((a + 2 ^ 63) mod 2 ^ 64 + b) by lia.
  rewrite Zplus_mod_idemp_l. f_equal. lia.
Qed.

Lemma totalLoop_follows u l n :
  ends (λ r, match r with
             | Ok total => total = int64.wrap (n + bytes_owned owns u l)
             | Err e => aforeign e = true
             end) (totalLoop u l (int64.wrap n)).
Proof.
  revert n; induction l as [|a l IH]; intros n; [simpl; by rewrite Z.add_0_r|].
  cbn [totalLoop bytes_owned fold_right]. apply owned_answer; intros Ho; [| |by auto].
  - rewrite Ho, int64_add_wrap, Z.add_assoc. apply IH.
  - rewrite Ho. apply IH.
Qed.

Lemma bytes_owned_perm u l l' : l ≡ₚ l' → bytes_owned owns u l = bytes_owned owns u l'.
Proof. induction 1; simpl; lia. Qed.

Lemma total_follows u :
  ends (attach_spec (TotalBytesForUser u) owns store store) (mTotalBytesForUser u store).
Proof.
  unfold mTotalBytesForUser. apply ctx_answer; [|simpl; by auto].
  apply range_answer. intros it Hit.
  eapply follows_weaken; [|exact (totalLoop_follows u (values it) 0)].
  intros _ [n|e] Hn; simpl in *; [|by auto]. split; [done|].
  rewrite Hn. f_equal. apply bytes_owned_perm. by apply values_all.
Qed.

Lemma count_fold_task t l n :
  fold_left (λ count a, if String.eqb a.(att_TaskID) t then count + 1 else count) l n
  = n + Z.of_nat (length (base.filter (λ a, String.eqb a.(att_TaskID) t = true) l)).
Proof.
  revert n; induction l as [|a l IH]; intros n; simpl; [lia|]. rewrite IH.
  destruct (String.eqb a.(att_TaskID) t) eqn:E.
  - rewrite filter_cons_True by done. simpl. lia.
  - rewrite filter_cons_False by by rewrite E. done.
Qed.

Lemma count_follows t u :
  ends (attach_spec (CountByTask t u) owns store store) (mCountByTask t u store).
Proof.
  unfold mCountByTask. apply ctx_answer; [|simpl; by auto].
  apply owned_answer; intros Ho; [|simpl; by rewrite Ho|simpl; by auto].
  apply range_answer. intros it Hit. simpl. split; [done|].
  rewrite Ho, count_fold_task. unfold of_task. by rewrite (values_all it Hit).
Qed.

Lemma referenced_spec (l : list Attachment) (m : gmap string bool) k :
  fold_left (λ m a, <[a.(att_StorageKey) := true]> m) l m !! k = None ↔
  m !! k = None ∧ k ∉ map att_StorageKey l.
Proof.
  revert m; induction l as [|a l IH]; intros m; simpl; [set_solver|].
  rewrite IH, lookup_insert_None, not_elem_of_cons. naive_solver.
Qed.

Lemma no_key_values it k : range_of store it → k ∉ map att_StorageKey (values it) ↔ no_key store k.
Proof.
  intros Hit. split.
  - intros Hn id a Ha Hk. apply Hn, (list_elem_of_fmap att_StorageKey). exists a. split; [done|].
    apply (elem_of_values store it a Hit). eauto.
  - intros Hn (a & -> & [id Ha]%(elem_of_values store it a Hit))%(list_elem_of_fmap att_StorageKey).
    by eapply Hn.
Qed.

Lemma unreferenced_follows ks :
  ends (attach_spec (UnreferencedKeys ks) owns store store) (mUnreferencedKeys ks store).
Proof.
  unfold mUnreferencedKeys. apply ctx_answer; [|simpl; by auto].
  apply range_answer. intros it Hit. cbn -[base.filter fold_left]. split; [done|].
  assert (∀ k, fold_left (λ m a, <[a.(att_StorageKey) := true]> m) (values it) (∅ : gmap string bool) !! k
    = None ↔ no_key store k) as Hr.
  { intros k. rewrite referenced_spec, (no_key_values it k Hit), lookup_empty. naive_solver. }
  split; intros k; rewrite list_elem_of_filter, Hr; naive_solver.
Qed.

Lemma memory_follows X (e : attachRepoE X) : ends (keeps e store) (memoryRepository X e store).
Proof.
  assert (Hread : ∀ A (Q : A → Prop) (P : rows * A → Prop) (p : prog memE A), ends Q p →
    (∀ a, Q a → P (store, a)) → ends P (p ≫= λ r, mret (store, r))).
  { intros A Q P p Hp HQ. apply (follows_bind _ _ _ (λ _, Q)); [done|]. intros [] a _ Ha. by apply HQ. }
  destruct e; cbn [memoryRepository].
  - apply create_follows.
  - by apply (Hread _ _ _ _ (find_follows _ _)).
  - by apply (Hread _ _ _ _ (byTask_follows _ _)).
  - apply delete_follows.
  - by apply (Hread _ _ _ _ (total_follows _)).
  - by apply (Hread _ _ _ _ (count_follows _ _)).
  - by apply (Hread _ _ _ _ (unreferenced_follows _)).
Qed.
End memory.

(** Rows stay under their own identifier, with distinct keys. *)
Lemma attach_spec_wf X (e : attachRepoE X) owns m m' x :
  wf_rows m → attach_spec e owns m m' x → wf_rows m'.
Proof.
  intros Hwf Hs. destruct e; simpl in Hs; try (destruct Hs as [-> _]; exact Hwf).
  - destruct x as [err|]; [by destruct Hs as [-> _]|]. destruct Hs as (_ & Hn & Hk & ->).
    split.
    + intros k a. rewrite lookup_insert. case_decide; [by intros [= <-]|]. by apply wf_att_id.
    + intros k k' a a'. rewrite !lookup_insert.
      repeat case_decide; intros; simplify_eq; try done.
      * destruct (Hk k' a'); congruence.
      * destruct (Hk k a); congruence.
      * by eapply (wf_att_key m Hwf).
  - destruct x as [err|]; [by destruct Hs as [-> _]|]. destruct Hs as (a & _ & _ & ->).
    split.
    + intros k x. rewrite lookup_delete_Some. intros [_ Hx]. by eapply wf_att_id.
    + intros k k' x x'. rewrite !lookup_delete_Some. intros [_ Hx] [_ Hx']. by eapply wf_att_key.
Qed.

Section memory_instance.
Context `{Iter : MapIteration} {T : Type} (ask : handler ownsE T) `{!TaskOwners ask}.

Lemma mem_call X (e : memE X) (w : Env * T) owns :
  owners_inv w.2 → (∀ t u, owners w.2 t u = owns t u) →
  let w' := (handle_sum handle_env ask X e w).1 in
  (owners_inv w'.2 ∧ ∀ t u, owners w'.2 t u = owns t u) ∧
  mem_answer owns tt X e (handle_sum handle_env ask X e w).2.
Proof.
  destruct w as [env t]; cbn [fst snd]. intros Hi Ho. destruct e as [e|e]; cbn [handle_sum].
  - destruct (handle_env X e env) as [env' x] eqn:E. cbn [fst snd]. split; [done|].
    destruct e; try exact I. simpl in E. destruct (pop Live (env_ctx env)) as [c l]. simplify_eq.
    intros err. apply aforeign_ctx.
  - pose proof (owners_step X e t Hi) as [Hi' Hs]. destruct e as [id u].
    pose proof (λ b, owners_ok id u t b Hi) as Hok. pose proof (λ err, owners_err id u t err Hi) as Herr.
    destruct (ask _ (OwnsTask id u) t) as [t' x]. cbn [fst snd] in *. split.
    + split; [done|]. intros t0 u0. by rewrite Hs.
    + cbn. destruct x as [b|err]; [|by apply Herr]. rewrite <-Ho. by apply Hok.
Qed.

Lemma amem_sound X (e : attachRepoE X) (w : Env * T * rows) :
  wf_rows w.2 → owners_inv w.1.2 →
  attach_spec e (owners w.1.2) w.2 (handle_amem ask X e w).1.2 (handle_amem ask X e w).2 ∧
  owners_inv (handle_amem ask X e w).1.1.2 ∧
  (∀ t u, owners (handle_amem ask X e w).1.1.2 t u = owners w.1.2 t u).
Proof.
  destruct w as [[env t] store]; cbn [fst snd]. intros Hwf Hinv. unfold handle_amem.
  assert (PreOrder (λ _ _ : Env * T, True)) by (split; done).
  destruct (follows_run eq (λ _ _ _, True) (mem_answer (owners t))
    (λ _ r, attach_spec e (owners t) store r.1 r.2) (handle_sum handle_env ask)
    (λ w, owners_inv w.2 ∧ ∀ id u, owners w.2 id u = owners t id u) (λ _ _, True) tt) with
    (p := memoryRepository X e store) (s := (env, t)) as (Hi & _ & HQ).
  - intros X' e' w' [Hi' Hw'] _. destruct (mem_call X' e' w' (owners t) Hi' Hw'). done.
  - by apply memory_follows.
  - done.
  - destruct (run _ _ _) as [[env' t'] [store' x]]. by destruct Hi.
Qed.

#[export] Instance memory_attachments : AttachmentRepository (handle_amem ask).
Proof.
  refine {| arepo_rows := λ w, w.2; arepo_owns := λ w, owners w.1.2;
            arepo_inv := λ w, wf_rows w.2 ∧ owners_inv w.1.2 |}.
  - by intros w [].
  - intros X e w [Hi Ho]. destruct (amem_sound X e w Hi Ho) as (Hs & Ho' & _).
    split; [|done]. by eapply attach_spec_wf.
  - intros X e w t u [Hi Ho]. by apply (amem_sound X e w Hi Ho).
  - intros X e w [Hi Ho]. by apply (amem_sound X e w Hi Ho).
Defined.
End memory_instance.
