(* ===== verification/AttachmentService.v ===== *)
(** What each method of [attachment.Service] does, over any [Repository] and any
    [BlobStore]. *)

From S2P Require Import Prelude GoStd GoError Uuid Attachment AttachmentMemory AttachmentSpec.
From S2P Require Import TaskService.
Local Open Scope Z_scope.

(** * Filenames *)
Definition chars (s : string) : list ascii := String.list_ascii_of_string s.

Lemma after_last_chars P s x : x ∈ chars (after_last P s) → x ∈ chars s ∧ P x = false.
Proof.
  induction s as [|c s IH]; cbn [after_last]; [set_solver|].
  destruct (existsb P (String.list_ascii_of_string s)) eqn:E.
  - intros Hx. destruct (IH Hx). split; [by right|done].
  - assert (∀ y, y ∈ chars s → P y = false) as Hs.
    { intros y Hy. destruct (P y) eqn:Ey; [|done].
      assert (existsb P (String.list_ascii_of_string s) = true) as Ht; [|by rewrite Ht in E].
      apply existsb_exists. exists y. split; [by apply list_elem_of_In|done]. }
    destruct (P c) eqn:Ec; intros Hx; [split; [by right|by apply Hs]|].
    split; [done|]. apply elem_of_cons in Hx as [->|Hx]; [done|by apply Hs].
Qed.

(** [Base] of text without a slash is that text. *)
Lemma Base_no_slash s : s ≠ "" → (∀ x, x ∈ chars s → is_slash x = false) → filepath.Base s = s.
Proof.
  intros Hs Hno. unfold filepath.Base. destruct (String.eqb_spec s ""); [done|].
  assert (Hrev : ∀ l, (∀ x, x ∈ l → is_slash x = false) → filepath.strip_slashes l = l).
  { intros [|x l] Hl; [done|]. simpl. by rewrite (Hl x) by left. }
  rewrite Hrev, rev_involutive, String.string_of_list_ascii_of_string.
  2:{ intros x Hx. apply Hno. apply list_elem_of_In, in_rev, list_elem_of_In. done. }
  assert (after_last is_slash s = s) as ->.
  { destruct s as [|c s]; [done|]. cbn [after_last].
    destruct (existsb is_slash (String.list_ascii_of_string s)) eqn:E.
    - apply existsb_exists in E as (x & Hx & Hsl). rewrite (Hno x) in Hsl; [done|].
      right. by apply list_elem_of_In.
    - by rewrite (Hno c) by left. }
  by destruct (String.eqb_spec s "").
Qed.

Lemma normalizeFilename_err `{Sanitize} name e :
  normalizeFilename name = Err e → Is e (ErrInvalidInput attachment_pkg) = true.
Proof. unfold normalizeFilename. intros Hn. by repeat case_hyp Hn. Qed.

(** * Readers *)
Lemma ReadFull_rest n r : let '(head, _, rest) := ReadFull n r in MultiReader head rest = r ∧ head = take n r.(rd_bytes).
Proof.
  unfold ReadFull. destruct (_ <=? _)%nat; [|destruct (rd_err r) eqn:E];
    unfold MultiReader; simpl; rewrite take_drop; destruct r; simpl in *; by subst.
Qed.

(** * Methods *)

(** The two calls. *)
Lemma acall_sound {S} (h : handler attachRepoE S) `{!AttachmentRepository h} X (e : attachRepoE X) s s' r :
  arepo_inv s → h X e s = (s', r) →
  arepo_inv s' ∧ (∀ t u, arepo_owns s' t u = arepo_owns s t u) ∧
  attach_spec e (arepo_owns s) (arepo_rows s) (arepo_rows s') r.
Proof.
  intros Hi E. pose proof (arepo_step_inv X e s Hi). pose proof (arepo_sound X e s Hi).
  pose proof (λ t u, arepo_owns_step X e s t u Hi). by rewrite E in *.
Qed.

Lemma bcall_sound {B} (hb : handler blobE B) `{!BlobStore hb} X (e : blobE X) b b' r :
  hb X e b = (b', r) → blob_pre (blob_key hb) e → blob_spec (blob_key hb) e (blob_view b) (blob_view b') r.
Proof. intros E Hp. pose proof (blob_sound X e b Hp) as Hs. by rewrite E in Hs. Qed.

Ltac arepo_call :=
  match goal with
  | |- context [?h ?X ?e ?s] =>
      match type of e with
      | attachRepoE _ =>
          let s' := fresh "s" in let r := fresh "r" in let E := fresh "E" in
          let Hi := fresh "Hi" in let Ho := fresh "Howns" in let Hs := fresh "Hspec" in
          destruct (h X e s) as [s' r] eqn:E;
          match goal with
          | HI : arepo_inv s |- _ =>
              destruct (acall_sound h X e s s' r HI E) as (Hi & Ho & Hs); cbn in Hs
          end
      end
  end.
Ltac blob_call :=
  match goal with
  | |- context [?h ?X ?e ?b] =>
      match type of e with
      | blobE _ =>
          let b' := fresh "b" in let r := fresh "r" in let E := fresh "E" in
          let Hs := fresh "Hblob" in
          let Hp := fresh "Hpre" in
          assert (blob_pre (blob_key h) e) as Hp by (cbn; repeat split; auto with go);
          destruct (h X e b) as [b' r] eqn:E; pose proof (bcall_sound h X e b b' r E Hp) as Hs;
          clear Hp; cbn in Hs
      end
  end.

Section methods.
Context `{San : Sanitize, Uni : unicode.Tables} {S B : Type}.
Context (h : handler attachRepoE S) `{!AttachmentRepository h}.
Context (hb : handler blobE B) `{!BlobStore hb}.
Context (sv : Service) (Hbound : sv.(maxBytes) < int64.max).
Abbreviation svc := (handle_sum handle_env (handle_sum h hb)).

(** Nothing but the blob under one key of the application's own making. *)
Definition only_key (b b' : blobs) : Prop :=
  ∃ k, isValidID k = true ∧ ∀ k', k' ≠ k → b' !! k' = b !! k'.

Lemma only_key_refl b : only_key b b.
Proof. exists (format_uuid (set_version_variant (fit_bytes 16 []))). split; [apply generated_valid|done]. Qed.

(** An upload that was taken. *)
Definition uploaded (owns : string → string → bool) (m m' : rows) (b b' : blobs)
    (userID taskID name : string) (r : Reader) (att : Attachment) : Prop :=
  isValidID taskID = true ∧ att.(att_TaskID) = taskID ∧ owns taskID userID = true ∧
  int64.wrap (bytes_owned owns userID (values (map_to_list m))) < sv.(maxBytesPerUser) ∧
  Z.of_nat (length (of_task m taskID)) < maxAttachmentsPerTask ∧
  normalizeFilename name = Ok att.(att_OriginalFilename) ∧
  att.(att_ContentType) = detectContentType (take sniffLen r.(rd_bytes)) ∧
  is_Some (sv.(allowed) !! att.(att_ContentType)) ∧
  r.(rd_err) = None ∧ att.(att_SizeBytes) = Z.of_nat (length r.(rd_bytes)) ∧
  att.(att_SizeBytes) ≤ sv.(maxBytes) ∧
  isValidID att.(att_ID) = true ∧ isValidID att.(att_StorageKey) = true ∧
  m !! att.(att_ID) = None ∧ no_key m att.(att_StorageKey) ∧ m' = <[att.(att_ID) := att]> m ∧
  ∃ t, b' = <[att.(att_StorageKey) := {| blob_bytes := r.(rd_bytes); blob_ModTime := t |}]> b.

Lemma Upload_spec env s b userID taskID name r :
  arepo_inv s →
  let '((_, (s', b')), res) := run svc (Upload sv userID taskID name r) (env, (s, b)) in
  arepo_inv s' ∧ (∀ t u, arepo_owns s' t u = arepo_owns s t u) ∧
  match res with
  | Ok att => uploaded (arepo_owns s) (arepo_rows s) (arepo_rows s') (blob_view b) (blob_view b')
      userID taskID name r att
  | Err e => arepo_rows s' = arepo_rows s ∧ only_key (blob_view b) (blob_view b')
  end.
Proof.
  intros Hinv. unfold Upload. pose proof (only_key_refl (blob_view b)) as Hsame.
  destruct (isValidID taskID) eqn:Hid; simpl; [|done].
  arepo_call. destruct r0 as [total|e]; simpl; [|by destruct Hspec as [-> _]].
  destruct Hspec as [Hm1 Htotal]. destruct (maxBytesPerUser sv <=? total) eqn:Hquota; simpl; [done|].
  arepo_call. assert (Howns1 : ∀ t u, arepo_owns s1 t u = arepo_owns s t u) by (intros; by rewrite Howns0).
  clear Howns0. destruct r0 as [count|e]; simpl; [|destruct Hspec as [-> _]; by rewrite Hm1].
  destruct Hspec as [Hm2 Hcount]. rewrite Hm1 in Hm2. rewrite Hm1, Howns in Hcount. clear Howns.
  destruct (maxAttachmentsPerTask <=? count) eqn:Hfull; simpl; [by rewrite Hm2|].
  destruct (normalizeFilename name) as [filename|e] eqn:Hname; simpl; [|by rewrite Hm2].
  destruct (ReadFull sniffLen r) as [[head err] rest] eqn:Hread.
  pose proof (ReadFull_rest sniffLen r) as Hrest. rewrite Hread in Hrest. destruct Hrest as [Hrest ->].
  destruct (match err with Some _ => _ | None => None end); simpl; [by rewrite Hm2|].
  destruct (allowed sv !! _) as [[]|] eqn:Hallowed; simpl; [|by rewrite Hm2].
  destruct (pop None (env_rand env)) as [[e1|] l1]; simpl; [|by rewrite Hm2].
  destruct (pop None l1) as [[e2|] l2]; simpl; [|by rewrite Hm2].
  rewrite Hrest. set (key := format_uuid _). set (ID := format_uuid _).
  assert (isValidID ID = true ∧ isValidID key = true) as [HID Hkey] by (split; apply generated_valid).
  clearbody ID key. blob_call. destruct r0 as [size|e]; simpl.
  2:{ assert (only_key (blob_view b) (blob_view b0)) by (exists key; by destruct Hblob).
      destruct (Is e ErrTooLarge); simpl; by rewrite Hm2. }
  destruct Hblob as (Hend & -> & Hmax & t & Hput).
  destruct (pop 0 (env_clock env)) as [now l3]; simpl.
  arepo_call. set (att := {| att_ID := ID |}) in *.
  assert (Howns2 : ∀ t u, arepo_owns s2 t u = arepo_owns s t u) by (intros; by rewrite Howns, Howns1).
  rewrite Hm2, Howns1 in Hspec. clear Howns. destruct r0 as [e|]; simpl.
  - blob_call. split; [done|]. split; [done|]. destruct Hspec as [Hm3 _]. split; [done|].
    exists key. split; [done|]. intros k' Hk'.
    assert (blob_view b0 !! k' = blob_view b !! k') as <- by (rewrite Hput; by rewrite lookup_insert_ne).
    destruct r0; [destruct Hblob as [-> | ->]|rewrite Hblob]; rewrite ?lookup_delete_ne by done; done.
  - destruct Hspec as (Hown & Hn & Hnk & Hm3). simpl in Hown. rewrite Hown in Hcount.
    split; [done|]. split; [done|]. unfold uploaded. bool_to_prop. subst total count.
    split_and!; try done. by exists t.
Qed.

Lemma Delete_spec env s b userID storageKey :
  arepo_inv s →
  let '((_, (s', b')), res) := run svc (Delete userID storageKey) (env, (s, b)) in
  arepo_inv s' ∧ (∀ t u, arepo_owns s' t u = arepo_owns s t u) ∧
  match res with
  | None => ∃ a, has_key (arepo_rows s) storageKey a ∧ arepo_owns s a.(att_TaskID) userID = true ∧
      arepo_rows s' = delete a.(att_ID) (arepo_rows s) ∧
      (blob_view b' = blob_view b ∨ blob_view b' = delete storageKey (blob_view b))
  | Some e => arepo_rows s' = arepo_rows s ∧ blob_view b' = blob_view b ∧
      (aforeign e = true ∨ Is e (ErrNotFound attachment_pkg) = true ∧
        (isValidID storageKey = true → ∀ a, has_key (arepo_rows s) storageKey a →
           arepo_owns s a.(att_TaskID) userID = false))
  end.
Proof.
  intros Hinv. unfold Delete. destruct (isValidID storageKey) eqn:Hid; simpl; [|split_and!; try done; by right].
  arepo_call. destruct r as [e|]; simpl.
  - destruct Hspec as [-> [[-> Hn]|Hf]]; split_and!; auto.
  - blob_call. destruct Hspec as (a & Ha & Ho & ->). split; [done|]. split; [done|].
    exists a. split_and!; try done. destruct r; [done|by right].
Qed.

Lemma Download_spec env s b userID storageKey :
  arepo_inv s →
  let '((_, (s', b')), res) := run svc (Download userID storageKey) (env, (s, b)) in
  arepo_inv s' ∧ arepo_rows s' = arepo_rows s ∧ blob_view b' = blob_view b ∧
  match res with
  | Ok (a, content) => has_key (arepo_rows s) storageKey a ∧
      arepo_owns s a.(att_TaskID) userID = true ∧ blob_bytes <$> blob_view b !! storageKey = Some content
  | Err e => True
  end.
Proof.
  intros Hinv. unfold Download. destruct (isValidID storageKey) eqn:Hid; simpl; [|done].
  arepo_call. destruct Hspec as [Hm Hspec]. destruct r as [a|e]; simpl; [|done].
  destruct Hspec as [Ha Ho]. blob_call. destruct Hblob as [Hb Hblob].
  destruct r as [content|e]; simpl; [|done]. destruct Ha as [Hl Hk]. rewrite Hk in Hblob. split_and!; try done. apply Hblob, blob_key_generated, Hid.
Qed.

Lemma ListByTask_spec env s b userID taskID :
  arepo_inv s →
  let '((_, (s', b')), res) := run svc (ListByTask userID taskID) (env, (s, b)) in
  arepo_inv s' ∧ arepo_rows s' = arepo_rows s ∧ b' = b ∧
  (∀ t u, arepo_owns s' t u = arepo_owns s t u) ∧
  match res with
  | Ok l => arepo_owns s taskID userID = true ∧ l ≡ₚ of_task (arepo_rows s) taskID ∧
      StronglySorted (in_order att_less) l
  | Err e => True
  end.
Proof.
  intros Hinv. unfold ListByTask. destruct (isValidID taskID) eqn:Hid; simpl; [|done].
  arepo_call. destruct Hspec as [Hm Hspec]. by destruct r as [l|e].
Qed.

(** The deletions of the collector: only the blobs of the list go, all of them if
    no error ended it. *)
Lemma deleteLoop_spec env s b keys n :
  (∀ k, k ∈ keys → blob_key hb k) →
  let '((env', (s', b')), (deleted, err)) := run svc (deleteLoop keys n) (env, (s, b)) in
  env' = env ∧ s' = s ∧ blob_view b' ⊆ blob_view b ∧
  (∀ k, k ∉ keys → blob_view b' !! k = blob_view b !! k) ∧
  n ≤ deleted ≤ n + Z.of_nat (length keys) ∧
  (err = None → deleted = n + Z.of_nat (length keys) ∧ ∀ k, k ∈ keys → blob_view b' !! k = None).
Proof.
  clear Hbound. revert b n; induction keys as [|key keys IH]; intros b n Hkeys; simpl.
  { split_and!; try done; try lia. intros _. split; [lia|]. set_solver. }
  assert (blob_key hb key) by (apply Hkeys; by left).
  blob_call. assert (blob_view b0 ⊆ blob_view b ∧ ∀ k, k ≠ key → blob_view b0 !! k = blob_view b !! k) as [Hsub Hoth].
  { destruct r as [e|]; [destruct Hblob as [-> | ->]|rewrite Hblob]; try done;
      (split; [apply delete_subseteq|intros; by rewrite lookup_delete_ne]). }
  destruct r as [e|]; simpl.
  - split_and!; try done; try lia. intros k Hk. apply Hoth. set_solver.
  - specialize (IH b0 (n + 1) (λ k Hk, Hkeys k (list_elem_of_further _ _ _ Hk))).
    destruct (run svc (deleteLoop keys (n + 1)) (env, (s, b0))) as [[env' [s' b']] [deleted err]].
    destruct IH as (-> & -> & Hsub' & Hoth' & Hn & Hall). split_and!; try done; try lia.
    + by transitivity (blob_view b0).
    + intros k Hk. rewrite Hoth', Hoth; set_solver.
    + intros ->. destruct (Hall eq_refl) as [-> Hgone]. split; [lia|]. intros k [->|Hk]%elem_of_cons; [|by apply Hgone].
      apply eq_None_not_Some. intros [x Hx]. eapply lookup_weaken in Hx; [|exact Hsub'].
      by rewrite Hblob, lookup_delete_eq in Hx.
Qed.

(** The collector removes only blobs that no row references and that are older
    than the age asked for. *)
Lemma CollectOrphans_spec env s b minAge :
  arepo_inv s →
  let '((_, (s', b')), (deleted, err)) := run svc (CollectOrphans minAge) (env, (s, b)) in
  let now := (pop 0 (env_clock env)).1 in
  let stale k := ∃ blob, blob_view b !! k = Some blob ∧ blob.(blob_ModTime) < now - minAge in
  arepo_inv s' ∧ arepo_rows s' = arepo_rows s ∧ blob_view b' ⊆ blob_view b ∧
  (∀ k, ¬ (stale k ∧ no_key (arepo_rows s) k) ∨ minAge ≤ 0 → blob_view b' !! k = blob_view b !! k) ∧
  (err = None → ∀ k, stale k → isValidID k = true → no_key (arepo_rows s) k → blob_view b' !! k = None).
Proof.
  clear Hbound. intros Hinv. unfold CollectOrphans.
  destruct (Z.leb_spec minAge 0) as [Hage|Hage]; simpl; [done|].
  blob_call. destruct Hblob as [Hb Hrefs]. destruct r as [refs|e]; simpl; [|by rewrite Hb].
  destruct (pop 0 (env_clock env)) as [now l]; simpl.
  set (cands := map ref_Key _).
  assert (Hc : ∀ k, k ∈ cands ↔ ∃ blob, blob_view b !! k = Some blob ∧ blob.(blob_ModTime) < now - minAge).
  { intros k. unfold cands. rewrite (list_elem_of_fmap ref_Key). setoid_rewrite list_elem_of_filter.
    setoid_rewrite Hrefs. setoid_rewrite (list_elem_of_fmap (λ kb, {| ref_Key := kb.1; ref_ModTime := _ |})).
    unfold time.Before, time.Add. setoid_rewrite Z.ltb_lt. split.
    - intros (ref & -> & Ht & ([k' bl] & -> & Hin)). exists bl. rewrite elem_of_map_to_list in Hin.
      simpl in *. split; [done|lia].
    - intros (bl & Hk & Ht). exists {| ref_Key := k; ref_ModTime := blob_ModTime bl |}. split; [done|].
      split; [simpl; lia|]. exists (k, bl). split; [done|]. by apply elem_of_map_to_list. }
  clearbody cands. destruct cands as [|c cands'] eqn:Ecands; [|rewrite <-Ecands in *; clear Ecands].
  { simpl. rewrite Hb. split_and!; try done. intros _ k Hk _ _. apply Hc in Hk. set_solver. }
  simpl. arepo_call. destruct Hspec as [Hm Hspec]. destruct r as [orphans|e]; simpl; [|by rewrite Hb].
  destruct Hspec as [Hsound Hcomplete]. set (env' := {| env_clock := l |}).
  assert (Hkeys : ∀ k, k ∈ orphans → blob_key hb k).
  { intros k Hk. destruct (Hsound k Hk) as [(blob & Hkb & _)%Hc _]. eapply blob_key_listed. by exists blob. }
  pose proof (deleteLoop_spec env' s0 b0 orphans 0 Hkeys) as Hloop.
  destruct (run svc (deleteLoop orphans 0) (env', (s0, b0))) as [[env'' [s' b']] [deleted err]].
  destruct Hloop as (_ & -> & Hsub & Hoth & _ & Hall). rewrite Hb in Hsub, Hoth.
  split_and!; try done.
  - intros k [Hn|Hle]; [|lia]. apply Hoth. intros Hk. destruct (Hsound k Hk) as [Hkc Hnk].
    apply Hn. split; [by apply Hc|done].
  - intros -> k Hst Hv Hnk. apply (Hall eq_refl). by apply Hcomplete; [apply Hc| |].
Qed.
End methods.
