(* ===== verification/AttachmentConcurrent.v ===== *)
(** Requests of [attachment.Service] and runs of the orphan collector whose calls
    interleave.  An upload writes bytes before the row, a deletion removes the row
    before the bytes, and the collector spares blobs younger than its minimum age:
    provided no upload takes longer than that age from its write to its row, no row
    is ever left without its bytes. *)

From S2P Require Import Prelude GoStd GoError Uuid Attachment AttachmentMemory AttachmentSpec AttachmentService.
Local Open Scope Z_scope.

(** * The system *)

(** One service call of a request or of the collector, its answer dropped. *)
Inductive attach_request `{Sanitize, unicode.Tables} (sv : Service) (minAge : Z) : prog attachE unit → Prop :=
| RUpload u t n r : attach_request sv minAge (Upload sv u t n r ≫= λ _, mret ())
| RDownload u k : attach_request sv minAge (Download u k ≫= λ _, mret ())
| RDeleteFile u k : attach_request sv minAge (Delete u k ≫= λ _, mret ())
| RListByTask u t : attach_request sv minAge (ListByTask u t ≫= λ _, mret ())
| RCollect : attach_request sv minAge (CollectOrphans minAge ≫= λ _, mret ()).

(** The state, the threads, the time, and when each storage key was first written. *)
Record aconf (S B : Type) := {
  a_state : Env * (S * B);
  a_threads : list (prog attachE unit);
  a_time : Z;
  a_puts : gmap string Z;
}.
Arguments a_state {S B}.
Arguments a_threads {S B}.
Arguments a_time {S B}.
Arguments a_puts {S B}.

(** Rows without bytes, or with the wrong number of them. *)
Definition complete (m : rows) (b : blobs) : Prop :=
  ∀ id a, m !! id = Some a → ∃ blob, b !! a.(att_StorageKey) = Some blob ∧
    Z.of_nat (length blob.(blob_bytes)) = a.(att_SizeBytes).

Section system.
Context {S B : Type} (h : handler attachRepoE S) `{!AttachmentRepository h}.
Context (hb : handler blobE B) `{!BlobStore hb} (minAge : Z).
Abbreviation svc := (handle_sum handle_env (handle_sum h hb)).
Abbreviation conf := (aconf S B).

Definition a_rows (c : conf) : rows := arepo_rows c.(a_state).2.1.
Definition a_blobs (c : conf) : blobs := blob_view c.(a_state).2.2.

(** Time as the steps see it: the clock tells it, a blob is dated by its write, a
    generated key has not been used before, and a row follows the write of its
    blob within the minimum age. *)
Definition timely (c c' : conf) X (e : attachE X) : X → Prop :=
  match e with
  | inl e' =>
      match e' in envE X return X → Prop with
      | Now => λ x, x = c'.(a_time) ∧ c'.(a_puts) = c.(a_puts)
      | _ => λ _, c'.(a_puts) = c.(a_puts)
      end
  | inr (inl (CreateAttachment a _)) => λ _, c'.(a_puts) = c.(a_puts) ∧
      ∀ t, c.(a_puts) !! a.(att_StorageKey) = Some t → c'.(a_time) ≤ t + minAge
  | inr (inl _) => λ _, c'.(a_puts) = c.(a_puts)
  | inr (inr (Put k _ _)) => λ _, c.(a_puts) !! k = None ∧
      c'.(a_puts) = <[k := c'.(a_time)]> c.(a_puts) ∧
      ∀ blob, a_blobs c' !! k = Some blob → blob.(blob_ModTime) = c'.(a_time)
  | inr (inr _) => λ _, c'.(a_puts) = c.(a_puts)
  end.

Inductive astep (c c' : conf) : Prop :=
| AStep i X (e : attachE X) (k : X → prog attachE unit) x :
    c.(a_threads) !! i = Some (Vis e k) → svc X e c.(a_state) = (c'.(a_state), x) →
    c'.(a_threads) = <[i := k x]> c.(a_threads) → c.(a_time) ≤ c'.(a_time) →
    timely c c' X e x → astep c c'.

(** At the start every row has its bytes, and the keys in use are known. *)
Definition ainitial `{Sanitize, unicode.Tables} (sv : Service) (c : conf) : Prop :=
  arepo_inv c.(a_state).2.1 ∧ complete (a_rows c) (a_blobs c) ∧
  (∀ k blob, a_blobs c !! k = Some blob → c.(a_puts) !! k = Some blob.(blob_ModTime)) ∧
  (∀ k, is_Some (c.(a_puts) !! k) → blob_key hb k) ∧
  Forall (attach_request sv minAge) c.(a_threads).
Definition areachable `{Sanitize, unicode.Tables} (sv : Service) (c : conf) : Prop :=
  ∃ c0, ainitial sv c0 ∧ rtc astep c0 c.
End system.

(** * The protocol *)

(** What all threads know: a time that has passed, the writes so far with the sizes
    they measured if they succeeded, and the keys that no row has or will ever have again. *)
Record world := {
  w_time : Z;
  w_puts : gmap string (Z * option Z);
  w_dead : gset string;
}.
Definition wle (w w' : world) : Prop :=
  w.(w_time) ≤ w'.(w_time) ∧ w.(w_puts) ⊆ w'.(w_puts) ∧ w.(w_dead) ⊆ w'.(w_dead).
#[export] Instance wle_preorder : PreOrder wle.
Proof.
  split; [by intros w|]. intros w1 w2 w3 (? & ? & ?) (? & ? & ?). unfold wle.
  split_and!; [lia|by etransitivity|set_solver].
Qed.

(** An upload of [k] has had its time. *)
Definition expired (minAge : Z) (w : world) (k : string) : Prop :=
  ∃ t n, w.(w_puts) !! k = Some (t, n) ∧ t + minAge < w.(w_time).

Definition acall_ok (minAge : Z) (w : world) X (e : attachE X) : Prop :=
  match e with
  | inr (inl (CreateAttachment a _)) => ∃ t, w.(w_puts) !! a.(att_StorageKey) = Some (t, Some a.(att_SizeBytes))
  | inr (inl (UnreferencedKeys ks)) => ∀ k, k ∈ ks → expired minAge w k
  | inr (inr (Put k _ max)) => isValidID k = true ∧ max < int64.max
  | inr (inr (DeleteBlob k)) => k ∈ w.(w_dead)
  | _ => True
  end.

Definition aanswer_ok (w : world) X (e : attachE X) : X → Prop :=
  match e with
  | inl e' => 
      match e' in envE X return X → Prop with
      | Now => λ x, x ≤ w.(w_time)
      | RandRead n => λ x, ∀ l, x = Ok l → ∃ l', l = fit_bytes n l'
      | _ => λ _, True
      end
  | inr (inl e') =>
      match e' in attachRepoE X return X → Prop with
      | CreateAttachment a _ => λ x, is_Some x → a.(att_StorageKey) ∈ w.(w_dead)
      | DeleteAttachment k _ => λ x, x = None → k ∈ w.(w_dead)
      | UnreferencedKeys ks => λ x, ∀ l k, x = Ok l → k ∈ l → k ∈ w.(w_dead)
      | _ => λ _, True
      end
  | inr (inr e') =>
      match e' in blobE X return X → Prop with
      | Put k _ _ => λ x, ∀ n, x = Ok n → ∃ t, w.(w_puts) !! k = Some (t, Some n)
      | ListBlobs => λ x, ∀ refs ref, x = Ok refs → ref ∈ refs →
          ∃ n, w.(w_puts) !! ref.(ref_Key) = Some (ref.(ref_ModTime), n)
      | _ => λ _, True
      end
  end.

Abbreviation keeps_to minAge := (follows wle (acall_ok minAge) aanswer_ok any_outcome).

Lemma expired_mono minAge w w' k : wle w w' → expired minAge w k → expired minAge w' k.
Proof.
  intros (Ht & Hp & _) (t & n & Hk & Hlt). exists t, n. split; [by eapply lookup_weaken|lia].
Qed.

Lemma acall_ok_mono minAge w w' X (e : attachE X) :
  wle w w' → acall_ok minAge w X e → acall_ok minAge w' X e.
Proof.
  intros Hle. destruct e as [e|[[]|[]]]; simpl; try done.
  - intros (t & Hk). exists t. destruct Hle as (_ & Hp & _). by eapply lookup_weaken.
  - intros Hk k Hin. eapply expired_mono; [done|auto].
  - destruct Hle as (_ & _ & Hd). set_solver.
Qed.

(** A program that may still create a row for the key [k], other than by writing
    its blob first. *)
Fixpoint may_create (k : string) {A} (p : prog attachE A) : Prop :=
  match p with
  | Ret _ => False
  | Vis e c =>
      let later := ∃ x, may_create k (c x) in
      match e with
      | inr (inl (CreateAttachment a _)) => a.(att_StorageKey) = k ∨ later
      | inr (inr (Put k' _ _)) => k' ≠ k ∧ later
      | _ => later
      end
  end.

(** After a row is created, none is created for the same key. *)
Fixpoint linear {A} (p : prog attachE A) : Prop :=
  match p with
  | Ret _ => True
  | Vis e c =>
      match e with
      | inr (inl (CreateAttachment a _)) => ∀ x, ¬ may_create a.(att_StorageKey) (c x)
      | _ => True
      end ∧ ∀ x, linear (c x)
  end.

Lemma may_create_bind k {A C} (p : prog attachE A) (f : A → prog attachE C) :
  may_create k (p ≫= f) → may_create k p ∨ ∃ a, may_create k (f a).
Proof.
  change (p ≫= f) with (prog_bind f p). induction p as [a|X e c IH]; simpl; [by eauto|].
  assert (Hlater : (∃ x, may_create k (prog_bind f (c x))) →
    (∃ x, may_create k (c x)) ∨ ∃ a, may_create k (f a)).
  { intros [x Hx]. destruct (IH x Hx); eauto. }
  destruct e as [e|[[]|[]]]; try exact Hlater; naive_solver.
Qed.

Section requests.
Context `{San : Sanitize, Uni : unicode.Tables} (sv : Service) (Hbound : sv.(maxBytes) < int64.max).
Context (minAge : Z).

(** Walk through a program that creates no row. *)
Ltac creates_nothing :=
  repeat (simpl in *; try done; match goal with
  | H : ∃ _, _ |- _ => destruct H
  | H : _ ∧ _ |- _ => destruct H
  | H : _ ∨ _ |- _ => destruct H
  | H : context [match ?x with _ => _ end] |- _ =>
      lazymatch x with context [match _ with _ => _ end] => fail | _ => destruct x eqn:? end
  end).

Lemma upload_creates k u t n r : ¬ may_create k (Upload sv u t n r).
Proof. unfold Upload, newID, newID_with. intros H. creates_nothing. Qed.

Lemma deleteLoop_creates k keys n : ¬ may_create k (deleteLoop keys n).
Proof.
  revert n; induction keys as [|key keys IH]; intros n; [intros []|].
  intros [[e|] Hx]; [destruct Hx|]. exact (IH (n + 1) Hx).
Qed.

Lemma collect_creates k : ¬ may_create k (CollectOrphans minAge).
Proof.
  unfold CollectOrphans. intros H. creates_nothing; by apply (deleteLoop_creates k _ 0) in H.
Qed.

Lemma request_creates k p : attach_request sv minAge p → ¬ may_create k p.
Proof.
  intros Hp H. destruct Hp; apply may_create_bind in H as [H|[a H]]; try done.
  - by apply upload_creates in H.
  - unfold Download in H. creates_nothing.
  - unfold Delete in H. creates_nothing.
  - unfold ListByTask in H. creates_nothing.
  - by apply collect_creates in H.
Qed.

Lemma upload_follows w u t n r : keeps_to minAge w (Upload sv u t n r).
Proof.
  unfold Upload, newID, newID_with. destruct (negb (isValidID t)); simpl; [done|].
  split; [done|]. intros w1 [total|e] _ _; simpl; [|done].
  destruct (maxBytesPerUser sv <=? total); simpl; [done|].
  split; [done|]. intros w2 [count|e] _ _; simpl; [|done].
  destruct (maxAttachmentsPerTask <=? count); simpl; [done|].
  destruct (normalizeFilename n) as [fn|e]; simpl; [|done].
  destruct (ReadFull sniffLen r) as [[head err] rest].
  destruct (match err with Some _ => _ | None => _ end); simpl; [done|].
  destruct (allowed sv !! _); simpl; [|done].
  split; [done|]. intros w3 [b1|e] _ _; simpl; [|done].
  split; [done|]. intros w4 [b2|e] _ Hb2; simpl; [|done].
  destruct (Hb2 b2 eq_refl) as [l2 ->]. pose proof (generated_valid l2) as Hvalid. set (key := format_uuid (set_version_variant (fit_bytes 16 l2))) in *.
  split; [done|]. intros w5 [size|e] _ Hput; simpl; [|by destruct (Is e ErrTooLarge)].
  destruct (Hput size eq_refl) as [tp Hk].
  split; [done|]. intros w6 now Hle _. split.
  - exists tp. destruct Hle as (_ & Hp & _). by eapply lookup_weaken.
  - intros w7 [e|] _ Hc; simpl; [|done]. split; [|done]. by apply Hc.
Qed.

Lemma deleteLoop_follows w keys n : (∀ k, k ∈ keys → k ∈ w.(w_dead)) → keeps_to minAge w (deleteLoop keys n).
Proof.
  revert w n; induction keys as [|key keys IH]; intros w n Hk; simpl; [done|].
  split; [apply Hk; by left|]. intros w' [e|] (_ & _ & Hd) _; simpl; [done|].
  apply IH. intros k Hin. apply Hd, Hk. by right.
Qed.

Lemma collect_follows w : keeps_to minAge w (CollectOrphans minAge).
Proof.
  unfold CollectOrphans. destruct (minAge <=? 0); simpl; [done|].
  split; [done|]. intros w1 [refs|e] _ Hrefs; simpl; [|done].
  split; [done|]. intros w2 now Hle2 Hnow.
  set (cands := map ref_Key _).
  assert (Hc : ∀ k, k ∈ cands → expired minAge w2 k).
  { intros k (ref & -> & Hin)%(list_elem_of_fmap ref_Key). apply list_elem_of_filter in Hin as [Ht Hin].
    destruct (Hrefs refs ref eq_refl Hin) as [n Hk]. exists (ref_ModTime ref), n.
    destruct Hle2 as (_ & Hp & _). split; [by eapply lookup_weaken|].
    apply Z.ltb_lt in Ht. unfold time.Add in Ht. lia. }
  clearbody cands. destruct cands as [|c cands]; simpl; [done|].
  split; [exact Hc|]. intros w3 [orphans|e] _ Hdead; simpl; [|done].
  apply deleteLoop_follows. intros k Hin. by apply (Hdead orphans k).
Qed.

Lemma request_follows w p : attach_request sv minAge p → keeps_to minAge w p.
Proof.
  intros Hp; destruct Hp; (apply (follows_bind _ _ _ any_outcome); [|done]).
  - apply upload_follows.
  - unfold Download. follow.
  - unfold Delete. destruct (negb (isValidID k)); [done|]. split; [done|].
    intros w' [e|] _ Hd; [done|]. split; [by apply Hd|done].
  - unfold ListByTask. follow.
  - apply collect_follows.
Qed.

(** No request creates two rows for one key. *)
Lemma request_linear p : attach_request sv minAge p → linear p.
Proof.
  assert (Hbind : ∀ A (p : prog attachE A), linear p → linear (p ≫= λ _, mret ())).
  { intros A q. change (q ≫= ?f) with (prog_bind f q). induction q as [a|X e c IH]; simpl; [done|].
    intros [Hone Hc]. split; [|by auto].
    destruct e as [e|[[]|]]; try done. intros x Hx.
    apply (may_create_bind _ (c x)) in Hx as [Hx|[? []]]. by apply (Hone x). }
  assert (Hloop : ∀ keys n, linear (deleteLoop keys n)).
  { induction keys as [|key keys IH]; intros n; simpl; [done|]. split; [done|]. by intros [e|]. }
  intros Hp; destruct Hp; apply Hbind.
  - unfold Upload, newID, newID_with. repeat (follow; try (intros ?)); by creates_nothing.
  - unfold Download. repeat (follow; try (intros ?)).
  - unfold Delete. repeat (follow; try (intros ?)).
  - unfold ListByTask. repeat (follow; try (intros ?)).
  - unfold CollectOrphans. repeat (follow; try (intros ?)); by apply Hloop.
Qed.
End requests.

(** * The invariant *)
Section invariant.
Context {S B : Type} (h : handler attachRepoE S) `{!AttachmentRepository h}.
Context (hb : handler blobE B) `{!BlobStore hb} (minAge : Z).
Abbreviation svc := (handle_sum handle_env (handle_sum h hb)).

(** Some thread may create a row for [K]. *)
Definition awaited (ts : list (prog attachE unit)) (K : string) : Prop :=
  ∃ i p, ts !! i = Some p ∧ may_create K p.

(** A row has its bytes, for good. *)
Definition kept (w : world) (b : blobs) (ts : list (prog attachE unit)) (a : Attachment) : Prop :=
  (a.(att_StorageKey) ∉ w.(w_dead)) ∧ (¬ awaited ts a.(att_StorageKey)) ∧
  ∃ blob, b !! a.(att_StorageKey) = Some blob ∧ Z.of_nat (length blob.(blob_bytes)) = a.(att_SizeBytes).

(** A row that may still come: its bytes are there until its time is over. *)
Definition pending (w : world) (m : rows) (b : blobs) (K : string) : Prop :=
  no_key m K ∧ ∃ t o, w.(w_puts) !! K = Some (t, o) ∧
    (K ∈ w.(w_dead) → expired minAge w K) ∧
    (K ∉ w.(w_dead) → ∀ n, o = Some n → ∃ blob, b !! K = Some blob ∧ Z.of_nat (length blob.(blob_bytes)) = n).

Record threads_ok (w : world) (ts : list (prog attachE unit)) : Prop := {
  th_follow : ∀ i p, ts !! i = Some p → keeps_to minAge w p;
  th_linear : ∀ i p, ts !! i = Some p → linear p;
  th_unique : ∀ i j p q K, ts !! i = Some p → ts !! j = Some q → may_create K p → may_create K q → i = j;
}.

Record ainv_at (w : world) (c : aconf S B) : Prop := {
  inv_repo : arepo_inv c.(a_state).2.1;
  inv_time : w.(w_time) = c.(a_time);
  inv_puts : (fst <$> w.(w_puts)) = c.(a_puts);
  inv_dated : ∀ k blob, a_blobs hb c !! k = Some blob →
    ∃ o, w.(w_puts) !! k = Some (blob.(blob_ModTime), o);
  inv_keys : ∀ k, is_Some (w.(w_puts) !! k) → blob_key hb k;
  inv_dead : ∀ k, k ∈ w.(w_dead) → is_Some (w.(w_puts) !! k);
  inv_rows : ∀ id a, a_rows h c !! id = Some a → kept w (a_blobs hb c) c.(a_threads) a;
  inv_pending : ∀ K, awaited c.(a_threads) K → pending w (a_rows h c) (a_blobs hb c) K;
  inv_threads : threads_ok w c.(a_threads);
}.

(** ** Threads *)
Definition writes {X} (e : attachE X) (K : string) : Prop :=
  match e with inr (inr (Put k _ _)) => k = K | _ => False end.

Lemma may_create_step K X (e : attachE X) k x :
  may_create K (k x) → may_create K (Vis e k : prog attachE unit) ∨ writes e K.
Proof.
  revert k x. destruct e as [e|[[]|[]]]; intros k x Hx;
    assert (∃ x, may_create K (k x)) as Hl by eauto; simpl; try (by left; eauto).
  destruct (decide (key = K)); auto.
Qed.

Lemma threads_step w w' ts i X (e : attachE X) k x :
  threads_ok w ts → wle w w' → ts !! i = Some (Vis e k) → aanswer_ok w' X e x →
  (∀ K, writes e K → ¬ awaited ts K) →
  acall_ok minAge w X e ∧ threads_ok w' (<[i := k x]> ts) ∧
  (∀ K, awaited (<[i := k x]> ts) K → awaited ts K ∨ writes e K).
Proof.
  intros [Hf Hl Hu] Hle Hi Hx Hfresh. destruct (Hf i _ Hi) as [Hcall Hk].
  assert (Hlook : ∀ j p, <[i := k x]> ts !! j = Some p → (j = i ∧ p = k x) ∨ (j ≠ i ∧ ts !! j = Some p)).
  { intros j p. rewrite list_lookup_insert. case_decide as Hd; [intros [= <-]|]; [left; by destruct Hd|].
    intros Hj. right. split; [|done]. intros ->. apply Hd. split; [done|]. by eapply lookup_lt_Some. }
  assert (Hold : ∀ j p K, <[i := k x]> ts !! j = Some p → may_create K p →
    (writes e K ∧ j = i) ∨ ∃ q, ts !! j = Some q ∧ may_create K q).
  { intros j p K Hj Hm. destruct (Hlook j p Hj) as [[-> ->]|[_ Hj']]; [|by eauto].
    destruct (may_create_step K X e k x Hm); eauto. }
  split; [done|]. split; [split|].
  - intros j p Hj. destruct (Hlook j p Hj) as [[-> ->]|[_ Hj']]; [by apply Hk|].
    eapply follows_le; [apply _|apply acall_ok_mono|apply any_growing|exact Hle|by eapply Hf].
  - intros j p Hj. destruct (Hlook j p Hj) as [[-> ->]|[_ Hj']]; [|by eapply Hl].
    by apply (Hl i _ Hi).
  - intros j1 j2 p q K H1 H2 M1 M2.
    destruct (Hold j1 p K H1 M1) as [[W1 ->]|(p' & P1 & M1')], (Hold j2 q K H2 M2) as [[W2 ->]|(q' & P2 & M2')].
    + done.
    + destruct (Hfresh K W1). by exists j2, q'.
    + destruct (Hfresh K W2). by exists j1, p'.
    + by eapply (Hu j1 j2 p' q' K).
  - intros K (j & p & Hj & Hm). destruct (Hold j p K Hj Hm) as [[W _]|(q & Hq & Hm')]; [by right|].
    left. by exists j, q.
Qed.

(** ** States *)

(** One step keeps the invariant if each row of the new state is an old one that
    the step did not touch, or is kept for its own reasons, and the same for each
    row that may still come. *)
Lemma rebuild w w' c c' i X (e : attachE X) k x :
  ainv_at w c → c.(a_threads) !! i = Some (Vis e k) → c'.(a_threads) = <[i := k x]> c.(a_threads) →
  wle w w' → aanswer_ok w' X e x → (∀ K, writes e K → ¬ awaited c.(a_threads) K) →
  arepo_inv c'.(a_state).2.1 → w'.(w_time) = c'.(a_time) → (fst <$> w'.(w_puts)) = c'.(a_puts) →
  (∀ k blob, a_blobs hb c' !! k = Some blob → ∃ o, w'.(w_puts) !! k = Some (blob.(blob_ModTime), o)) →
  (∀ k, is_Some (w'.(w_puts) !! k) → blob_key hb k) →
  (∀ k, k ∈ w'.(w_dead) → is_Some (w'.(w_puts) !! k)) →
  (∀ id a, a_rows h c' !! id = Some a →
     (a_rows h c !! id = Some a ∧ (a.(att_StorageKey) ∉ w'.(w_dead)) ∧
      a_blobs hb c' !! a.(att_StorageKey) = a_blobs hb c !! a.(att_StorageKey) ∧
      (writes e a.(att_StorageKey) → False)) ∨ kept w' (a_blobs hb c') c'.(a_threads) a) →
  (∀ K, awaited c'.(a_threads) K →
     (awaited c.(a_threads) K ∧ no_key (a_rows h c') K ∧ (K ∈ w'.(w_dead) → K ∈ w.(w_dead) ∨ expired minAge w' K) ∧
      (K ∉ w'.(w_dead) → a_blobs hb c' !! K = a_blobs hb c !! K)) ∨
     pending w' (a_rows h c') (a_blobs hb c') K) →
  ainv_at w' c'.
Proof.
  intros Hinv Hi Hts Hle Hx Hfresh Hrepo Htime Hputs Hdated Hkeys Hdead Hrows Hpend.
  destruct (threads_step w w' _ i X e k x (inv_threads _ _ Hinv) Hle Hi Hx Hfresh) as (_ & Hth & Haw).
  rewrite <-Hts in Hth, Haw. split; try done.
  - intros id a Ha. destruct (Hrows id a Ha) as [(Hold & Hd & Hb & Hw)|Hk]; [|done].
    destruct (inv_rows _ _ Hinv id a Hold) as (_ & Hna & Hblob). split; [done|]. split.
    + intros HK. by destruct (Haw _ HK).
    + by rewrite Hb.
  - intros K HK. destruct (Hpend K HK) as [(Hold & Hn & Hd & Hb)|Hp]; [|done].
    destruct (inv_pending _ _ Hinv K Hold) as (_ & t & o & Hk & Hexp & Hblob).
    split; [done|]. exists t, o. split_and!.
    + destruct Hle as (_ & Hp & _). by eapply lookup_weaken.
    + intros Hin. destruct (Hd Hin) as [Hin'|He]; [|done]. eapply expired_mono; [exact Hle|by apply Hexp].
    + intros Hnin n ->. rewrite Hb by done. apply Hblob; [|done]. destruct Hle as (_ & _ & Hd'). set_solver.
Qed.

Definition advance (τ : Z) (dead : gset string) (w : world) : world :=
  {| w_time := τ; w_puts := w.(w_puts); w_dead := dead ∪ w.(w_dead) |}.
Lemma advance_le τ dead w : w.(w_time) ≤ τ → wle w (advance τ dead w).
Proof. intros. split_and!; simpl; [lia|done|set_solver]. Qed.

(** A step that changes neither rows nor blobs, and may give up keys that no row
    has and whose time is over. *)
Lemma quiet_step w c c' i X (e : attachE X) k x (dead : gset string) :
  ainv_at w c → c.(a_threads) !! i = Some (Vis e k) → c'.(a_threads) = <[i := k x]> c.(a_threads) →
  c.(a_time) ≤ c'.(a_time) → c'.(a_puts) = c.(a_puts) → (∀ K, writes e K → False) →
  arepo_inv c'.(a_state).2.1 → a_rows h c' = a_rows h c → a_blobs hb c' = a_blobs hb c →
  (∀ K, K ∈ dead → no_key (a_rows h c) K ∧ expired minAge w K) →
  aanswer_ok (advance c'.(a_time) dead w) X e x →
  ainv_at (advance c'.(a_time) dead w) c'.
Proof.
  intros Hinv Hi Hts Ht Hp Hw Hrepo Hr Hb Hdead Hx.
  assert (Hle : wle w (advance (a_time c') dead w)) by (apply advance_le; by rewrite (inv_time _ _ Hinv)).
  eapply rebuild; try done.
  - intros K HK. by destruct (Hw K).
  - simpl. by rewrite (inv_puts _ _ Hinv).
  - rewrite Hb. apply (inv_dated _ _ Hinv).
  - apply (inv_keys _ _ Hinv).
  - simpl. intros K [HK|HK]%elem_of_union; [|by apply (inv_dead _ _ Hinv)].
    destruct (Hdead K HK) as [_ (t & n & Hk & _)]. eauto.
  - rewrite Hr. intros id a Ha. left. split_and!; [done| |by rewrite Hb|by apply Hw].
    destruct (inv_rows _ _ Hinv id a Ha) as (Hd & _). simpl. intros [HK|HK]%elem_of_union; [|done].
    destruct (Hdead _ HK) as [Hn _]. by eapply Hn.
  - intros K HK. left.
    destruct (threads_step w _ _ i X e k x (inv_threads _ _ Hinv) Hle Hi Hx) as (_ & _ & Haw).
    { intros K' HK'. by destruct (Hw K'). }
    rewrite <-Hts in Haw. destruct (Haw K HK) as [Hold|Hwr]; [|by destruct (Hw K)].
    rewrite Hr, Hb. destruct (inv_pending _ _ Hinv K Hold) as (Hn & _). split_and!; try done.
    simpl. intros [HK'|HK']%elem_of_union; [|by left]. right.
    eapply expired_mono; [exact Hle|]. by apply Hdead.
Qed.

(** Keys that were written. *)
Lemma key_of_row w c id a : ainv_at w c → a_rows h c !! id = Some a →
  ∃ p, w.(w_puts) !! a.(att_StorageKey) = Some p.
Proof.
  intros Hinv Ha. destruct (inv_rows _ _ Hinv id a Ha) as (_ & _ & blob & Hb & _).
  destruct (inv_dated _ _ Hinv _ _ Hb) as [o Hk]. eauto.
Qed.

Lemma delete_blob_step w c c' i k x key :
  ainv_at w c → c.(a_threads) !! i = Some (Vis (E := attachE) (inr (inr (DeleteBlob key))) k) →
  c'.(a_threads) = <[i := k x]> c.(a_threads) → c.(a_time) ≤ c'.(a_time) → c'.(a_puts) = c.(a_puts) →
  c'.(a_state).2.1 = c.(a_state).2.1 →
  (a_blobs hb c' = a_blobs hb c ∨ a_blobs hb c' = delete key (a_blobs hb c)) →
  ainv_at (advance c'.(a_time) ∅ w) c'.
Proof.
  intros Hinv Hi Hts Ht Hp Hs Hb.
  assert (Hle : wle w (advance (a_time c') ∅ w)) by (apply advance_le; by rewrite (inv_time _ _ Hinv)).
  assert (key ∈ w_dead w) as Hkey by (by destruct (th_follow _ _ (inv_threads _ _ Hinv) i _ Hi)).
  assert (Hr : a_rows h c' = a_rows h c) by (unfold a_rows; by rewrite Hs).
  assert (Hsame : ∀ K, K ≠ key → a_blobs hb c' !! K = a_blobs hb c !! K).
  { intros K HK. destruct Hb as [-> | ->]; [done|by rewrite lookup_delete_ne]. }
  assert (Hd : ∀ K, K ∈ w_dead (advance (a_time c') ∅ w) ↔ K ∈ w_dead w) by (simpl; set_solver).
  eapply (rebuild w _ c c' i _ (inr (inr (DeleteBlob key)))); try done.
  - rewrite Hs. apply Hinv.
  - simpl. by rewrite (inv_puts _ _ Hinv).
  - intros K blob HK. destruct Hb as [Hb|Hb]; rewrite Hb in HK; [by apply (inv_dated _ _ Hinv)|].
    apply lookup_delete_Some in HK as [_ HK]. by apply (inv_dated _ _ Hinv).
  - apply (inv_keys _ _ Hinv).
  - intros K. rewrite Hd. apply (inv_dead _ _ Hinv).
  - rewrite Hr. intros id a Ha. left. rewrite Hd.
    destruct (inv_rows _ _ Hinv id a Ha) as (Hn & _). split_and!; try done. apply Hsame. congruence.
  - intros K HK. left. rewrite Hd, Hr.
    destruct (threads_step w _ _ i _ _ k x (inv_threads _ _ Hinv) Hle Hi I) as (_ & _ & Haw); [by intros ? []|].
    rewrite <-Hts in Haw. destruct (Haw K HK) as [Hold|[]].
    destruct (inv_pending _ _ Hinv K Hold) as (Hn & _). split_and!; try done; [by left|].
    intros HK'. apply Hsame. congruence.
Qed.

(** A write: a new key, with its size if it succeeded. *)
Lemma put_step w c c' i k x key r max :
  ainv_at w c → c.(a_threads) !! i = Some (Vis (E := attachE) (inr (inr (Put key r max))) k) →
  c'.(a_threads) = <[i := k x]> c.(a_threads) → c.(a_time) ≤ c'.(a_time) →
  blob_key hb key → c.(a_puts) !! key = None → c'.(a_puts) = <[key := c'.(a_time)]> c.(a_puts) →
  (∀ blob, a_blobs hb c' !! key = Some blob → blob.(blob_ModTime) = c'.(a_time)) →
  c'.(a_state).2.1 = c.(a_state).2.1 →
  (∀ K, K ≠ key → a_blobs hb c' !! K = a_blobs hb c !! K) →
  (∀ n, x = Ok n → ∃ blob, a_blobs hb c' !! key = Some blob ∧ Z.of_nat (length blob.(blob_bytes)) = n) →
  ∃ w', wle w w' ∧ ainv_at w' c'.
Proof.
  intros Hinv Hi Hts Ht Hkey Hnew Hp Hmod Hs Hsame Hok.
  set (o := match x with Ok n => Some n | Err _ => None end).
  set (w' := {| w_time := a_time c'; w_puts := <[key := (a_time c', o)]> (w_puts w); w_dead := w_dead w |}).
  assert (w_puts w !! key = None) as Hnone.
  { rewrite <-(inv_puts _ _ Hinv), lookup_fmap in Hnew. by destruct (w_puts w !! key). }
  assert (Hle : wle w w').
  { split_and!; simpl; [by rewrite (inv_time _ _ Hinv)|by apply insert_subseteq|done]. }
  assert (Hrow : ∀ id a, a_rows h c !! id = Some a → a.(att_StorageKey) ≠ key).
  { intros id a Ha <-. destruct (key_of_row w c id a Hinv Ha). congruence. }
  assert (Hr : a_rows h c' = a_rows h c) by (unfold a_rows; by rewrite Hs).
  assert (Hx : aanswer_ok w' _ (inr (inr (Put key r max))) x).
  { intros n ->. exists (a_time c'). simpl. by rewrite lookup_insert_eq. }
  assert (Hfresh : ∀ K, writes (inr (inr (Put key r max)) : attachE _) K → ¬ awaited (a_threads c) K).
  { intros K <- Haw. destruct (inv_pending _ _ Hinv key Haw) as (_ & t & o' & Hk & _). congruence. }
  exists w'. split; [done|]. eapply (rebuild w _ c c' i _ (inr (inr (Put key r max)))); try done.
  - rewrite Hs. apply Hinv.
  - simpl. rewrite Hp, fmap_insert. by rewrite (inv_puts _ _ Hinv).
  - intros K blob HK. simpl. rewrite lookup_insert. case_decide as Hd.
    + subst K. exists o. by rewrite (Hmod blob HK).
    + rewrite Hsame in HK by done. by apply (inv_dated _ _ Hinv).
  - simpl. intros K. rewrite lookup_insert. case_decide; [by subst|]. apply (inv_keys _ _ Hinv).
  - simpl. intros K HK. rewrite lookup_insert. case_decide; [done|]. by apply (inv_dead _ _ Hinv).
  - rewrite Hr. intros id a Ha. left. destruct (inv_rows _ _ Hinv id a Ha) as (Hn & _).
    split_and!; try done; [by apply Hsame, (Hrow id)|]. simpl. intros He. by apply (Hrow id a Ha).
  - intros K HK. rewrite Hr.
    destruct (threads_step w _ _ i _ _ k x (inv_threads _ _ Hinv) Hle Hi Hx Hfresh) as (_ & _ & Haw).
    rewrite <-Hts in Haw. destruct (Haw K HK) as [Hold|<-].
    + left. destruct (inv_pending _ _ Hinv K Hold) as (Hn & t & o' & Hk & _).
      split_and!; try done; [by left|]. intros _. apply Hsame. congruence.
    + right. split; [intros id a Ha; by eapply Hrow|]. exists (a_time c'), o.
      split; [simpl; by rewrite lookup_insert_eq|]. split.
      * simpl. intros Hd. destruct (inv_dead _ _ Hinv key Hd). congruence.
      * intros _ n Ho. apply Hok. unfold o in Ho. destruct x; [|done]. by simplify_eq.
Qed.

(** A row goes: its key is given up. *)
Lemma delete_row_step w c c' i k x key u a :
  ainv_at w c → c.(a_threads) !! i = Some (Vis (E := attachE) (inr (inl (DeleteAttachment key u))) k) →
  c'.(a_threads) = <[i := k x]> c.(a_threads) → c.(a_time) ≤ c'.(a_time) → c'.(a_puts) = c.(a_puts) →
  arepo_inv c'.(a_state).2.1 → a_blobs hb c' = a_blobs hb c →
  has_key (a_rows h c) key a → a_rows h c' = delete a.(att_ID) (a_rows h c) →
  ainv_at (advance c'.(a_time) {[ key ]} w) c'.
Proof.
  intros Hinv Hi Hts Ht Hp Hrepo Hb [Ha Hkey] Hr.
  assert (Hle : wle w (advance (a_time c') {[key]} w)) by (apply advance_le; by rewrite (inv_time _ _ Hinv)).
  assert (Hwf : wf_rows (a_rows h c)) by apply arepo_wf, Hinv.
  eapply (rebuild w _ c c' i _ (inr (inl (DeleteAttachment key u)))); try done.
  - simpl. set_solver.
  - simpl. by rewrite (inv_puts _ _ Hinv).
  - rewrite Hb. apply (inv_dated _ _ Hinv).
  - apply (inv_keys _ _ Hinv).
  - simpl. intros K [->%elem_of_singleton|HK]%elem_of_union; [|by apply (inv_dead _ _ Hinv)].
    rewrite <-Hkey. destruct (key_of_row w c _ a Hinv Ha). eauto.
  - rewrite Hr, Hb. intros id a' Ha'. apply lookup_delete_Some in Ha' as [Hne Ha'].
    left. destruct (inv_rows _ _ Hinv id a' Ha') as (Hn & _). split_and!; try done. simpl.
    intros [HK%elem_of_singleton|HK]%elem_of_union; [|done]. apply Hne.
    apply (wf_att_key _ Hwf _ _ _ _ Ha Ha'). congruence.
  - intros K HK. left. rewrite Hr, Hb.
    destruct (threads_step w (advance (a_time c') {[key]} w) _ i _ _ k x (inv_threads _ _ Hinv) Hle Hi)
      as (_ & _ & Haw); [simpl; set_solver|by intros ? []|].
    rewrite <-Hts in Haw. destruct (Haw K HK) as [Hold|[]].
    destruct (inv_pending _ _ Hinv K Hold) as (Hn & _). split_and!; try done.
    + intros id a'. rewrite lookup_delete_Some. intros [_ Ha']. by eapply Hn.
    + simpl. intros [->%elem_of_singleton|HK']%elem_of_union; [|by left].
      destruct (Hn _ a Ha). done.
Qed.

(** What the thread that is about to create a row knows. *)
Lemma create_ready w c i k a u τ :
  ainv_at w c → c.(a_threads) !! i = Some (Vis (E := attachE) (inr (inl (CreateAttachment a u))) k) →
  (∀ t, c.(a_puts) !! a.(att_StorageKey) = Some t → τ ≤ t + minAge) → c.(a_time) ≤ τ →
  awaited c.(a_threads) a.(att_StorageKey) ∧ (a.(att_StorageKey) ∉ w.(w_dead)) ∧
  no_key (a_rows h c) a.(att_StorageKey) ∧ is_Some (w.(w_puts) !! a.(att_StorageKey)) ∧
  (∀ x, ¬ awaited (<[i := k x]> c.(a_threads)) a.(att_StorageKey)) ∧
  ∃ blob, a_blobs hb c !! a.(att_StorageKey) = Some blob ∧
    Z.of_nat (length blob.(blob_bytes)) = a.(att_SizeBytes).
Proof.
  intros Hinv Hi Htime Hτ. set (K := att_StorageKey a) in *.
  destruct (th_follow _ _ (inv_threads _ _ Hinv) i _ Hi) as [[t Hk] _]. fold K in Hk.
  assert (may_create K (Vis (E := attachE) (inr (inl (CreateAttachment a u))) k)) as Hmc by by left.
  assert (awaited (a_threads c) K) as Haw by (by exists i, (Vis (inr (inl (CreateAttachment a u))) k)).
  destruct (inv_pending _ _ Hinv K Haw) as (Hn & t' & o & Hk' & Hexp & Hblob).
  rewrite Hk in Hk'. simplify_eq.
  assert (K ∉ w_dead w) as Hd.
  { intros Hd. destruct (Hexp Hd) as (t0 & o0 & Hk0 & Hlt). rewrite Hk in Hk0. simplify_eq.
    assert (a_puts c !! K = Some t0) as Hpt by (by rewrite <-(inv_puts _ _ Hinv), lookup_fmap, Hk).
    specialize (Htime t0 Hpt). rewrite (inv_time _ _ Hinv) in Hlt. lia. }
  split_and!; try done; [|by apply Hblob].
  intros x (j & p & Hj & Hm). rewrite list_lookup_insert in Hj. case_decide as Hji.
  - simplify_eq. destruct (th_linear _ _ (inv_threads _ _ Hinv) i _ Hi) as [Hone _]. by apply (Hone x).
  - assert (i = j) as ->; [|apply Hji; split; [done|by eapply lookup_lt_Some]].
    by eapply (th_unique _ _ (inv_threads _ _ Hinv) i j _ p K).
Qed.

(** A row comes, or will not. *)
Lemma create_step w c c' i k x a u :
  ainv_at w c → c.(a_threads) !! i = Some (Vis (E := attachE) (inr (inl (CreateAttachment a u))) k) →
  c'.(a_threads) = <[i := k x]> c.(a_threads) → c.(a_time) ≤ c'.(a_time) → c'.(a_puts) = c.(a_puts) →
  (∀ t, c.(a_puts) !! a.(att_StorageKey) = Some t → c'.(a_time) ≤ t + minAge) →
  arepo_inv c'.(a_state).2.1 → a_blobs hb c' = a_blobs hb c →
  (match x with None => a_rows h c' = <[a.(att_ID) := a]> (a_rows h c) | Some _ => a_rows h c' = a_rows h c end) →
  ∃ w', wle w w' ∧ ainv_at w' c'.
Proof.
  intros Hinv Hi Hts Ht Hp Htime Hrepo Hb Hr.
  destruct (create_ready w c i k a u (a_time c') Hinv Hi Htime Ht) as (Haw & Hd & Hn & Hput & Hlast & Hblob).
  set (dead := match x with None => ∅ | Some _ => {[ att_StorageKey a ]} end : gset string).
  set (w' := advance (a_time c') dead w).
  assert (Hle : wle w w') by (apply advance_le; by rewrite (inv_time _ _ Hinv)).
  assert (Hx : aanswer_ok w' _ (inr (inl (CreateAttachment a u))) x).
  { intros [err ->]. simpl. set_solver. }
  destruct (threads_step w w' _ i _ _ k x (inv_threads _ _ Hinv) Hle Hi Hx) as (_ & _ & Haw'); [by intros ? []|].
  specialize (Hlast x). rewrite <-Hts in Haw', Hlast.
  assert (Hdead : ∀ K, K ∈ w_dead w' → K = att_StorageKey a ∧ is_Some x ∨ K ∈ w_dead w).
  { intros K. simpl. unfold dead. destruct x; rewrite elem_of_union; [rewrite elem_of_singleton|]; set_solver. }
  exists w'. split; [done|]. eapply (rebuild w _ c c' i _ (inr (inl (CreateAttachment a u)))); try done.
  - simpl. by rewrite (inv_puts _ _ Hinv).
  - rewrite Hb. apply (inv_dated _ _ Hinv).
  - apply (inv_keys _ _ Hinv).
  - intros K HK. destruct (Hdead K HK) as [[-> _]|HK']; [done|by apply (inv_dead _ _ Hinv)].
  - intros id b Hid. destruct (decide (a_rows h c !! id = Some b)) as [Hold|Hnew].
    + left. rewrite Hb. destruct (inv_rows _ _ Hinv id b Hold) as (Hnd & _). split_and!; try done.
      intros HK. destruct (Hdead _ HK) as [[He _]|]; [|done]. by apply (Hn id b).
    + right. destruct x as [err|]; [by rewrite Hr in Hid|]. rewrite Hr, lookup_insert in Hid.
      case_decide; [|done]. simplify_eq. split; [|split; [done|by rewrite Hb]].
      intros HK. destruct (Hdead _ HK) as [[_ [? ?]]|]; done.
  - intros K HK. left. destruct (Haw' K HK) as [Hold|[]]. rewrite Hb.
    assert (K ≠ att_StorageKey a) as Hne by (intros ->; by apply Hlast).
    destruct (inv_pending _ _ Hinv K Hold) as (HnK & _). split_and!; try done.
    + destruct x; rewrite Hr; [done|]. intros id b. rewrite lookup_insert. case_decide; [|by apply HnK].
      intros [= <-] He. by apply Hne.
    + intros HK'. destruct (Hdead K HK') as [[-> _]|]; [done|by left].
Qed.

(** Any step. *)
Lemma astep_inv w c c' : ainv_at w c → astep h hb minAge c c' → ∃ w', wle w w' ∧ ainv_at w' c'.
Proof.
  intros Hinv [i X e k x Hi Hs Hts Ht Htimely].
  assert (Hquiet : ∀ dead, c'.(a_puts) = c.(a_puts) → (∀ K, writes e K → False) →
    arepo_inv c'.(a_state).2.1 → a_rows h c' = a_rows h c → a_blobs hb c' = a_blobs hb c →
    (∀ K, K ∈ dead → no_key (a_rows h c) K ∧ expired minAge w K) →
    aanswer_ok (advance c'.(a_time) dead w) X e x → ∃ w', wle w w' ∧ ainv_at w' c').
  { intros dead. intros. exists (advance c'.(a_time) dead w).
    split; [apply advance_le; by rewrite (inv_time _ _ Hinv)|]. by eapply quiet_step. }
  pose proof (inv_repo _ _ Hinv) as Hrepo.
  destruct c.(a_state) as [env [s b]] eqn:Ec, c'.(a_state) as [env' [s' b']] eqn:Ec'.
  assert (a_rows h c = arepo_rows s ∧ a_blobs hb c = blob_view b) as [Hr Hb] by (unfold a_rows, a_blobs; by rewrite Ec).
  assert (a_rows h c' = arepo_rows s' ∧ a_blobs hb c' = blob_view b') as [Hr' Hb'] by (unfold a_rows, a_blobs; by rewrite Ec').
  cbn [fst snd] in *. destruct e as [e|[e|e]]; cbn [handle_sum] in Hs.
  - destruct (handle_env X e env) as [env1 x1] eqn:E. simplify_eq.
    apply (Hquiet ∅); try done; try congruence; try set_solver.
    + destruct e; by try destruct Htimely.
    + destruct e; simpl in *; try done; [destruct Htimely; lia|].
      destruct (pop None (env_rand env)) as [[l|] ?]; intros l' ->; simplify_eq. eauto.
  - destruct (h X e s) as [s1 x1] eqn:E. simplify_eq.
    destruct (acall_sound h X e s s' x Hrepo E) as (Hi' & _ & Hspec).
    destruct e; simpl in Hspec, Htimely.
    + eapply create_step; try done; [by destruct Htimely|by destruct Htimely|by rewrite Ec'|congruence|].
      rewrite Hr, Hr'. by destruct x; [destruct Hspec|destruct Hspec as (_ & _ & _ & ?)].
    + apply (Hquiet ∅); try done; try set_solver; [by destruct Hspec; congruence|congruence].
    + apply (Hquiet ∅); try done; try set_solver; [by destruct Hspec; congruence|congruence].
    + destruct x as [err|].
      * apply (Hquiet ∅); try done; try set_solver; [by destruct Hspec; congruence|congruence].
      * destruct Hspec as (a & Ha & _ & Hm). exists (advance (a_time c') {[ storageKey ]} w).
        split; [apply advance_le; by rewrite (inv_time _ _ Hinv)|].
        eapply delete_row_step; try done; [by rewrite Ec'|congruence|by rewrite Hr|by rewrite Hr, Hr'].
    + apply (Hquiet ∅); try done; try set_solver; [by destruct Hspec; congruence|congruence].
    + apply (Hquiet ∅); try done; try set_solver; [by destruct Hspec; congruence|congruence].
    + destruct Hspec as [Hm Hspec].
      destruct (th_follow _ _ (inv_threads _ _ Hinv) i _ Hi) as [Hcall _]. simpl in Hcall.
      destruct x as [l|err].
      * destruct Hspec as [Hsound _]. apply (Hquiet (list_to_set l)); try done; try congruence.
        -- intros K HK%elem_of_list_to_set. destruct (Hsound K HK). rewrite Hr. auto.
        -- intros l' K [= ->] HK. simpl. set_solver.
      * apply (Hquiet ∅); try done; try set_solver; congruence.
  - destruct (hb X e b) as [b1 x1] eqn:E. simplify_eq.
    pose proof (bcall_sound hb X e b b' x E) as Hspec.
    destruct (th_follow _ _ (inv_threads _ _ Hinv) i _ Hi) as [Hcall _].
    assert (Hpre : blob_pre (blob_key hb) e).
    { destruct e; simpl in *; try done; [destruct Hcall; auto with go|].
      by apply (inv_keys _ _ Hinv), (inv_dead _ _ Hinv). }
    specialize (Hspec Hpre). destruct e; simpl in Hspec, Hpre, Htimely.
    + destruct Htimely as (Hn & Hp & Hmod). eapply (put_step w c c' i k x key r maxBytes); try done.
      * by destruct Hpre.
      * by rewrite Ec, Ec'.
      * intros K HK. rewrite Hb, Hb'. destruct x as [n|err].
        -- destruct Hspec as (_ & _ & _ & t & ->). by rewrite lookup_insert_ne.
        -- by apply Hspec.
      * intros n ->. destruct Hspec as (_ & -> & _ & t & Hput). rewrite Hb', Hput, lookup_insert_eq. eauto.
    + apply (Hquiet ∅); try done; try set_solver; destruct Hspec; congruence.
    + exists (advance (a_time c') ∅ w). split; [apply advance_le; by rewrite (inv_time _ _ Hinv)|].
      eapply delete_blob_step; try done; [by rewrite Ec, Ec'|]. rewrite Hb, Hb'. destruct x; [done|by right].
    + destruct Hspec as [Hm Hspec]. apply (Hquiet ∅); try done; try set_solver; try congruence.
      simpl. intros refs ref -> Href. rewrite Hspec in Href.
      apply list_elem_of_fmap in Href as ([K bl] & -> & HK). apply elem_of_map_to_list in HK.
      simpl. rewrite <-Hb in HK. by apply (inv_dated _ _ Hinv).
Qed.

Lemma ainitial_inv `{Sanitize, unicode.Tables} (sv : Service) c : sv.(maxBytes) < int64.max → ainitial h hb minAge sv c → ∃ w, ainv_at w c.
Proof.
  intros Hbound (Hrepo & Hcomp & Hputs & Hkeys & Hreq). rewrite Forall_lookup in Hreq.
  exists {| w_time := a_time c; w_puts := (λ t, (t, None)) <$> a_puts c; w_dead := ∅ |}.
  assert (Hna : ∀ K, ¬ awaited (a_threads c) K).
  { intros K (i & p & Hp & Hm). by apply (request_creates sv minAge K p (Hreq i p Hp)). }
  split; simpl; try done.
  - rewrite <-map_fmap_compose. apply map_eq. intros K. rewrite lookup_fmap. by destruct (a_puts c !! K).
  - intros K blob HK. exists None. by rewrite lookup_fmap, (Hputs K blob HK).
  - intros K. rewrite lookup_fmap, fmap_is_Some. apply Hkeys.
  - intros id a Ha. destruct (Hcomp id a Ha) as (blob & Hb & Hlen). split; [set_solver|]. split; [by apply Hna|eauto].
  - intros K HK. by destruct (Hna K).
  - split.
    + intros i p Hp. by eapply request_follows, Hreq.
    + intros i p Hp. by eapply request_linear, Hreq.
    + intros i j p q K Hp Hq Mp _. destruct (Hna K). by exists i, p.
Qed.

Lemma areachable_inv `{Sanitize, unicode.Tables} (sv : Service) c : sv.(maxBytes) < int64.max → areachable h hb minAge sv c → ∃ w, ainv_at w c.
Proof.
  intros Hbound (c0 & Hc0 & Hsteps). destruct (ainitial_inv sv c0 Hbound Hc0) as [w Hw]. clear Hc0. revert w Hw.
  induction Hsteps as [c|c1 c2 c3 Hstep _ IH]; intros w Hw; [eauto|].
  destruct (astep_inv w c1 c2 Hw Hstep) as (w' & _ & Hw'). by eapply IH.
Qed.
End invariant.
