(* ===== verification/BlobStorage.v ===== *)
(** [internal/attachment/storage.go] and [s3_storage.go]: the two stores of bytes.
    What the first calls of the operating system and of moat/pathguard, and the
    second of the S3 client, are calls with any implementation that behaves as
    documented; both stores are then a [BlobStore]. *)

From S2P Require Import Prelude GoStd GoError Uuid Attachment AttachmentMemory AttachmentSpec.
Local Open Scope Z_scope.

(** * Readers *)

(** [io.LimitReader]. *)
Definition LimitReader (r : Reader) (n : Z) : Reader :=
  if n <=? 0 then {| rd_bytes := []; rd_err := None |}
  else if n <=? Z.of_nat (length r.(rd_bytes))
  then {| rd_bytes := take (Z.to_nat n) r.(rd_bytes); rd_err := None |}
  else r.

(** A limit one above what is allowed: the reader says whether there was more. *)
Lemma LimitReader_spec r max :
  max < int64.max → let r' := LimitReader r (int64.add max 1) in
  max < Z.of_nat (length r'.(rd_bytes)) ∧ max < Z.of_nat (length r.(rd_bytes)) ∨
  r' = r ∧ Z.of_nat (length r.(rd_bytes)) ≤ max.
Proof.
  intros Hmax r'. unfold r', LimitReader, int64.add. clear r'.
  destruct (decide (int64.min ≤ max)) as [Hmin|Hmin].
  - rewrite int64.wrap_small by (unfold int64.max, int64.min in *; lia).
    destruct (Z.leb_spec (max + 1) 0); simpl; [lia|].
    destruct (Z.leb_spec (max + 1) (Z.of_nat (length (rd_bytes r)))) as [Hle|Hle]; simpl.
    + left. rewrite length_take. lia.
    + right. split; [done|lia].
  - left. unfold int64.min in *. lia.
Qed.

(** * fsBlobStore *)

(** A name in a directory: one component, and not one with a meaning of its own. *)
Definition plain_name (s : string) : bool :=
  negb (String.eqb s "" || String.eqb s "." || String.eqb s ".." || existsb is_slash (String.list_ascii_of_string s)).

Record DirEntry := { ent_Name : string; ent_IsDir : bool }.

(** Calls of [pathguard.Guard], of the file it created under a name, and of [os]. *)
Inductive fsE : Type → Type :=
| GuardCreate (name : string) : fsE (result unit)
| GuardOpen (name : string) : fsE (result (list Z))
| GuardResolve (name : string) : fsE (result string)
| FileWrite (name : string) (data : list Z) : fsE (Z * option error)
| FileClose (name : string) : fsE (option error)
| OsRemove (path : string) : fsE (option error)
| OsReadDir : fsE (result (list DirEntry))
| EntryInfo (name : string) : fsE (result Z).

Definition fsStoreE : Type → Type := sumE envE fsE.

Section fsBlobStore.
Context `{unicode.Tables}.
Local Open Scope prog_scope.

(** [io.Copy] into the file: what was written, and the error of the write or else
    of the reader. *)
Definition Copy (name : string) (r : Reader) : prog fsStoreE (Z * option error) :=
  written ← trigger (FileWrite name r.(rd_bytes));
  mret (written.1, match written.2 with Some e => Some e | None => r.(rd_err) end).

Definition remove (key : string) : prog fsStoreE (option error) :=
  path ← trigger (GuardResolve key);
  match path with
  | Err _ => mret None
  | Ok path =>
      err ← trigger (OsRemove path);
      match err with
      | Some e => mret (if Is e os_ErrNotExist then None else Some e)
      | None => mret None
      end
  end.

Definition cleanup (key : string) : prog fsStoreE unit :=
  _ ← trigger (FileClose key); _ ← remove key; mret ().

Definition fsPut (key : string) (r : Reader) (maxBytes : Z) : prog fsStoreE (result Z) :=
  do? trigger CtxErr onerr id in
  let? _ := trigger (GuardCreate key) onerr (wrap "attachment: create blob") in
  copied ← Copy key (LimitReader r (int64.add maxBytes 1));
  match copied with
  | (_, Some err) => _ ← cleanup key; mret (Err (wrap "attachment: write blob" err))
  | (written, None) =>
      if maxBytes <? written then _ ← cleanup key; mret (Err ErrTooLarge)
      else
        closed ← trigger (FileClose key);
        match closed with
        | Some err => _ ← remove key; mret (Err (wrap "attachment: close blob" err))
        | None => mret (Ok written)
        end
  end.

Definition fsOpen (key : string) : prog fsStoreE (result (list Z)) :=
  do? trigger CtxErr onerr id in
  f ← trigger (GuardOpen key);
  match f with
  | Err err =>
      if Is err os_ErrNotExist then mret (Err (ErrNotFound attachment_pkg))
      else mret (Err (ErrNotFound attachment_pkg))
  | Ok f => mret (Ok f)
  end.

Definition fsDelete (key : string) : prog fsStoreE (option error) :=
  ctx ← trigger CtxErr;
  match ctx with
  | Some err => mret (Some err)
  | None =>
      err ← remove key;
      mret match err with Some e => Some (wrap "attachment: delete blob" e) | None => None end
  end.

(** The loop over the directory's entries. *)
Fixpoint listLoop (entries : list DirEntry) (refs : list BlobRef) : prog fsStoreE (result (list BlobRef)) :=
  match entries with
  | [] => mret (Ok refs)
  | entry :: entries' =>
      if entry.(ent_IsDir) then listLoop entries' refs
      else
        info ← trigger (EntryInfo entry.(ent_Name));
        match info with
        | Err err =>
            if Is err os_ErrNotExist then listLoop entries' refs
            else mret (Err (wrap ("attachment: stat blob " +:+ quote.Quote entry.(ent_Name)) err))
        | Ok modTime =>
            listLoop entries' (refs ++ [{| ref_Key := entry.(ent_Name); ref_ModTime := modTime |}])
        end
  end.

Definition fsList : prog fsStoreE (result (list BlobRef)) :=
  do? trigger CtxErr onerr id in
  let? entries := trigger OsReadDir onerr (wrap "attachment: list blobs") in
  listLoop entries [].

Definition fsBlobStore X (e : blobE X) : prog fsStoreE X :=
  match e in blobE X return prog fsStoreE X with
  | Put key r maxBytes => fsPut key r maxBytes
  | Open key => fsOpen key
  | DeleteBlob key => fsDelete key
  | ListBlobs => fsList
  end.

Definition handle_fsstore {F} (h : handler fsE F) : handler blobE (Env * F) :=
  λ X e, run (handle_sum handle_env h) (fsBlobStore X e).
End fsBlobStore.

(** ** The documented behaviour of what it calls *)

(** The operating system and the guard, on plain names: [fs_files] are the regular
    files of the root directory; besides them it holds directories only. *)
Class FileSystem {F : Type} (h : handler fsE F) := {
  fs_files : F → blobs;
  fs_path : string → string;
  fs_names : ∀ f k, is_Some (fs_files f !! k) → plain_name k = true;
  fs_create : ∀ f k, plain_name k = true →
    let '(f', x) := h _ (GuardCreate k) f in
    match x with
    | Ok _ => ∃ t, fs_files f' = <[k := {| blob_bytes := []; blob_ModTime := t |}]> (fs_files f)
    | Err e => Is e ErrTooLarge = false ∧ ∀ k', k' ≠ k → fs_files f' !! k' = fs_files f !! k'
    end;
  fs_open : ∀ f k,
    let '(f', x) := h _ (GuardOpen k) f in
    fs_files f' = fs_files f ∧
    ∀ c, x = Ok c → plain_name k = true → blob_bytes <$> fs_files f !! k = Some c;
  (* an error: no such file, or a name that leaves the root *)
  fs_resolve : ∀ f k, plain_name k = true →
    let '(f', x) := h _ (GuardResolve k) f in
    fs_files f' = fs_files f ∧
    match x with Ok path => path = fs_path k | Err _ => fs_files f !! k = None end;
  fs_write : ∀ f k data b, plain_name k = true → fs_files f !! k = Some b →
    let '(f', (n, err)) := h _ (FileWrite k data) f in
    0 ≤ n ≤ Z.of_nat (length data) ∧ (err = None → n = Z.of_nat (length data)) ∧
    (∀ e, err = Some e → Is e ErrTooLarge = false) ∧
    ∃ t, fs_files f' = <[k := {| blob_bytes := b.(blob_bytes) ++ take (Z.to_nat n) data;
                                 blob_ModTime := t |}]> (fs_files f);
  fs_close : ∀ f k,
    let '(f', err) := h _ (FileClose k) f in
    fs_files f' = fs_files f ∧ ∀ e, err = Some e → Is e ErrTooLarge = false;
  fs_remove : ∀ f k, plain_name k = true →
    let '(f', err) := h _ (OsRemove (fs_path k)) f in
    match err with
    | None => fs_files f' = delete k (fs_files f)
    | Some e => Is e ErrTooLarge = false ∧
        if Is e os_ErrNotExist then fs_files f' = fs_files f ∧ fs_files f !! k = None
        else fs_files f' = fs_files f ∨ fs_files f' = delete k (fs_files f)
    end;
  fs_readdir : ∀ f,
    let '(f', x) := h _ OsReadDir f in
    fs_files f' = fs_files f ∧
    ∀ l, x = Ok l → map ent_Name (base.filter (λ e, ent_IsDir e = false) l) ≡ₚ (map_to_list (fs_files f)).*1;
  fs_info : ∀ f k b, fs_files f !! k = Some b →
    let '(f', x) := h _ (EntryInfo k) f in
    fs_files f' = fs_files f ∧
    match x with Ok t => t = b.(blob_ModTime) | Err e => Is e os_ErrNotExist = false end;
}.

(** A generated key is a plain name. *)
Lemma generated_plain k : isValidID k = true → plain_name k = true.
Proof.
  intros Hk. unfold plain_name. apply negb_true_iff. destruct (existsb is_slash _) eqn:E.
  - apply existsb_exists in E as (c & Hc & Hs). apply Ascii.eqb_eq in Hs as ->.
    by pose proof (match_groups_chars _ _ _ Hk Hc).
  - destruct (String.eqb_spec k ""), (String.eqb_spec k "."), (String.eqb_spec k ".."); by subst.
Qed.

Section fs_store.
Context `{unicode.Tables} {F : Type} (h : handler fsE F) `{!FileSystem h}.
Abbreviation svc := (handle_sum handle_env h).

(** The answer of the call, by its law. *)
Ltac fs_call law :=
  let Hl := fresh "Hl" in
  pose proof law as Hl;
  match goal with |- context [h ?X ?e ?f] => let E := fresh "E" in destruct (h X e f) as [?f ?x] eqn:E end;
  cbn in Hl.

Lemma ctx_too_large env e :
  (handle_env _ CtxErr env).2 = Some e → Is e ErrTooLarge = false.
Proof. simpl. destruct (pop Live (env_ctx env)) as [[] l]; simpl; intros; by simplify_eq. Qed.

Lemma remove_spec env f k : plain_name k = true →
  let '((env', f'), err) := run svc (remove k) (env, f) in
  env' = env ∧
  match err with
  | None => fs_files f' = delete k (fs_files f)
  | Some e => Is e ErrTooLarge = false ∧ (fs_files f' = fs_files f ∨ fs_files f' = delete k (fs_files f))
  end.
Proof.
  intros Hk. unfold remove. simpl. fs_call (fs_resolve f k Hk). destruct Hl as [Hf Hp].
  destruct x as [path|e]; simpl; [|split; [done|]; rewrite Hf; by rewrite delete_id].
  subst path. fs_call (fs_remove f0 k Hk). destruct x as [e|]; simpl; [|by rewrite Hf in Hl].
  destruct Hl as [He Hl]. rewrite Hf in Hl. destruct (Is e os_ErrNotExist); [|done].
  destruct Hl as [-> Hn]. by rewrite delete_id.
Qed.
#[local] Opaque remove.

Lemma cleanup_spec env f k : plain_name k = true →
  ∃ f', run svc (cleanup k) (env, f) = ((env, f'), tt) ∧
    ∀ k', k' ≠ k → fs_files f' !! k' = fs_files f !! k'.
Proof.
  intros Hk. unfold cleanup. simpl. fs_call (fs_close f k). destruct Hl as [Hf _].
  rewrite run_bind.
  pose proof (remove_spec env f0 k Hk) as Hr.
  destruct (run svc (remove k) (env, f0)) as [[env' f'] err]. destruct Hr as [-> Hr].
  exists f'. split; [done|]. intros k' Hk'. rewrite <-Hf.
  destruct err as [e|]; [destruct Hr as [_ [-> | ->]]|rewrite Hr]; by rewrite ?lookup_delete_ne.
Qed.
#[local] Opaque cleanup.

Lemma fsPut_spec env f k r max : plain_name k = true → max < int64.max →
  let '((env', f'), x) := run svc (fsPut k r max) (env, f) in
  blob_spec (λ k, plain_name k = true) (Put k r max) (fs_files f) (fs_files f') x.
Proof.
  intros Hk Hmax. unfold fsPut. simpl.
  pose proof (ctx_too_large env) as Hctx. simpl in Hctx.
  destruct (pop Live (env_ctx env)) as [ctx l]; simpl in *. destruct (ctx_error ctx) as [e|]; simpl.
  { split; [done|]. by rewrite (Hctx e eq_refl). }
  set (env1 := {| env_clock := _ |}). fs_call (fs_create f k Hk).
  destruct x as [[]|e]; simpl; [|destruct Hl as [He Hf]; split; [done|]; by rewrite He].
  destruct Hl as [t0 Hf0]. set (r' := LimitReader r _).
  assert (Hput : fs_files f0 !! k = Some {| blob_bytes := []; blob_ModTime := t0 |})
    by (by rewrite Hf0, lookup_insert_eq).
  fs_call (fs_write f0 k (rd_bytes r') _ Hk Hput). destruct x as [n err]. simpl.
  destruct Hl as (Hn & Hok & Herr & t1 & Hf1). simpl in Hf1.
  assert (Hsame : ∀ f' k', (∀ k', k' ≠ k → fs_files f' !! k' = fs_files f1 !! k') → k' ≠ k →
    fs_files f' !! k' = fs_files f !! k').
  { intros f' k' Hf' Hk'. by rewrite Hf', Hf1, Hf0, !lookup_insert_ne. }
  pose proof (LimitReader_spec r max Hmax) as Hlim. fold r' in Hlim.
  assert (Hcl : ∀ (e : error), (Is e ErrTooLarge = true → max < Z.of_nat (length (rd_bytes r)) ∨
      ∃ e', rd_err r = Some e' ∧ Is e' ErrTooLarge = true) →
    let '(_, f', x) := run svc (cleanup k ≫= λ _, mret (Err e)) (env1, f1) in
    blob_spec (λ k, plain_name k = true) (Put k r max) (fs_files f) (fs_files f') x).
  { intros e He. rewrite run_bind. destruct (cleanup_spec env1 f1 k Hk) as (f' & -> & Hf'). simpl.
    split; [|exact He]. intros k'. by apply Hsame. }
  destruct err as [e|]; simpl.
  { apply Hcl. cbn [Is wrap]. by rewrite (Herr e eq_refl). }
  specialize (Hok eq_refl). subst n. destruct (rd_err r') as [e|] eqn:Erd.
  { apply Hcl. cbn [Is wrap]. intros He. destruct Hlim as [[_ ?]|[Hr _]]; [by left|]. right.
    exists e. by rewrite <-Hr. }
  destruct (Z.ltb_spec max (Z.of_nat (length (rd_bytes r')))).
  { apply Hcl. intros _. destruct Hlim as [[_ ?]|[Hr Hle]]; [by left|]. rewrite Hr in *. lia. }
  destruct Hlim as [[? _]|[Hr Hle]]; [lia|]. rewrite Hr in *. clear Hcl.
  simpl. fs_call (fs_close f1 k). destruct Hl as [Hf2 Hc]. destruct x as [e|]; simpl.
  - rewrite run_bind. pose proof (remove_spec env1 f2 k Hk) as Hrm.
    destruct (run svc (remove k) (env1, f2)) as [[env' f'] err]. destruct Hrm as [-> Hrm]. simpl.
    split; [|by rewrite (Hc e eq_refl)]. intros k' Hk'. apply Hsame; [|done]. intros k0 Hk0. rewrite <-Hf2.
    destruct err; [destruct Hrm as [_ [-> | ->]]|rewrite Hrm]; by rewrite ?lookup_delete_ne.
  - split; [done|]. split; [done|]. split; [done|]. exists t1.
    rewrite Hf2, Hf1, Hf0, insert_insert_eq. f_equal. f_equal. rewrite Nat2Z.id. by rewrite firstn_all.
Qed.

Lemma fsDelete_spec env f k : plain_name k = true →
  let '((env', f'), x) := run svc (fsDelete k) (env, f) in
  blob_spec (λ k, plain_name k = true) (DeleteBlob k) (fs_files f) (fs_files f') x.
Proof.
  intros Hk. unfold fsDelete. simpl. destruct (pop Live (env_ctx env)) as [ctx l].
  destruct (ctx_error ctx) as [e|]; simpl; [by left|].
  set (env1 := {| env_clock := _ |}). rewrite run_bind. pose proof (remove_spec env1 f k Hk) as Hr.
  destruct (run svc (remove k) (env1, f)) as [[env' f'] err]. destruct Hr as [-> Hr]. simpl.
  by destruct err; [destruct Hr|].
Qed.

Lemma fsOpen_spec env f k :
  let '((env', f'), x) := run svc (fsOpen k) (env, f) in
  blob_spec (λ k, plain_name k = true) (Open k) (fs_files f) (fs_files f') x.
Proof.
  unfold fsOpen. simpl. destruct (pop Live (env_ctx env)) as [ctx l].
  destruct (ctx_error ctx) as [e|]; simpl; [done|].
  fs_call (fs_open f k). destruct Hl as [Hf Hc]. destruct x as [c|e]; simpl; [by auto|].
  by destruct (Is e os_ErrNotExist).
Qed.

Lemma listLoop_spec env f l refs :
  (∀ k, k ∈ map ent_Name (base.filter (λ e, ent_IsDir e = false) l) → is_Some (fs_files f !! k)) →
  let '((env', f'), x) := run svc (listLoop l refs) (env, f) in
  fs_files f' = fs_files f ∧ ∀ res, x = Ok res →
    res = refs ++ map (λ k, {| ref_Key := k; ref_ModTime := default 0 (blob_ModTime <$> fs_files f !! k) |})
            (map ent_Name (base.filter (λ e, ent_IsDir e = false) l)).
Proof.
  revert f refs; induction l as [|[k d] l IH]; intros f refs Hl; simpl.
  { split; [done|]. intros res [= <-]. by rewrite app_nil_r. }
  destruct d.
  { rewrite filter_cons_False in Hl |- * by done. by apply IH. }
  rewrite filter_cons_True in Hl |- * by done. destruct (Hl k ltac:(by left)) as [b Hb]. simpl.
  fs_call (fs_info f k b Hb). destruct Hl0 as [Hf Hi]. destruct x as [t|e]; simpl.
  - subst t. specialize (IH f0 (refs ++ [{| ref_Key := k; ref_ModTime := blob_ModTime b |}])).
    rewrite Hf in IH. specialize (IH ltac:(intros k' Hk'; apply Hl; by right)).
    destruct (run svc (listLoop l _) (env, f0)) as [[env' f'] x]. destruct IH as [-> IH]. split; [done|].
    intros res Hres. rewrite (IH res Hres), <-app_assoc. simpl. by rewrite Hb.
  - by rewrite Hi.
Qed.

(** The names of the files with the times of the files, in any order. *)
Lemma refs_of_names (m : blobs) names :
  names ≡ₚ (map_to_list m).*1 →
  map (λ k, {| ref_Key := k; ref_ModTime := default 0 (blob_ModTime <$> m !! k) |}) names ≡ₚ
  map (λ kb, {| ref_Key := kb.1; ref_ModTime := kb.2.(blob_ModTime) |}) (map_to_list m).
Proof.
  intros ->. rewrite map_map. erewrite map_ext_in; [reflexivity|].
  intros [k b] Hi. apply list_elem_of_In, elem_of_map_to_list in Hi. simpl. by rewrite Hi.
Qed.

Lemma fsList_spec env f :
  let '((env', f'), x) := run svc fsList (env, f) in
  blob_spec (λ k, plain_name k = true) ListBlobs (fs_files f) (fs_files f') x.
Proof.
  unfold fsList. simpl. destruct (pop Live (env_ctx env)) as [ctx l].
  destruct (ctx_error ctx) as [e|]; simpl; [done|].
  set (env1 := {| env_clock := _ |}). fs_call (fs_readdir f). destruct Hl as [Hf Hl].
  destruct x as [entries|e]; simpl; [|done]. specialize (Hl entries eq_refl).
  pose proof (listLoop_spec env1 f0 entries []) as Hloop. rewrite Hf in Hloop.
  destruct (run svc (listLoop entries []) (env1, f0)) as [[env' f'] x]. destruct Hloop as [Hf' Hx].
  { intros k Hk. rewrite Hl in Hk. apply list_elem_of_fmap in Hk as ([k' b] & -> & Hk).
    apply elem_of_map_to_list in Hk. eauto. }
  split; [done|]. destruct x as [refs|e]; [|done]. rewrite (Hx refs eq_refl). by apply refs_of_names.
Qed.

#[export] Instance fs_blob_store : BlobStore (handle_fsstore h).
Proof.
  refine {| blob_view := λ w, fs_files w.2; blob_key := λ k, plain_name k = true |}.
  - exact generated_plain.
  - intros w k. apply fs_names.
  - intros X e [env f] Hp. unfold handle_fsstore. destruct e; simpl in Hp; cbn [fsBlobStore fst snd].
    + pose proof (fsPut_spec env f key r maxBytes (proj1 Hp) (proj2 Hp)) as Hs.
      by destruct (run _ _ _) as [[? ?] ?].
    + pose proof (fsOpen_spec env f key) as Hs. by destruct (run _ _ _) as [[? ?] ?].
    + pose proof (fsDelete_spec env f key Hp) as Hs. by destruct (run _ _ _) as [[? ?] ?].
    + pose proof (fsList_spec env f) as Hs. by destruct (run _ _ _) as [[? ?] ?].
Defined.
End fs_store.

(** * s3BlobStore *)

Definition writeProbeKey : string := ".task-api-write-probe".

Record S3Config := {
  s3_Endpoint : string; s3_Bucket : string; s3_AccessKey : string; s3_SecretKey : string;
  s3_Region : string; s3_UseSSL : bool; s3_CallTimeout : Z;
}.

(** What the code asks of an error of the client library: the response it carries,
    and whether it is a [net.Error]. *)
Record ErrorResponse := { resp_Code : string; resp_StatusCode : Z }.
Class Minio := {
  ToErrorResponse : error → ErrorResponse;
  AsNetError : error → bool;
}.

(** Calls of the client, each with the time it is given: [None] is the caller's own
    context. *)
Inductive s3E : Type → Type :=
| NewClient (cfg : S3Config) : s3E (option error)
| BucketExists (within : option Z) : s3E (result bool)
| PutObject (within : option Z) (key : string) (r : Reader) : s3E (result Z)
| RemoveObject (within : option Z) (key : string) : s3E (option error)
| StatObject (within : option Z) (key : string) : s3E (option error)
| GetObject (within : option Z) (key : string) : s3E (result (list Z))
| ListObjects (within : option Z) : s3E (list (result BlobRef)).

Record s3BlobStore := { s3_callTimeout : Z }.

Section s3BlobStore.
Context `{Minio, unicode.Tables}.
Local Open Scope prog_scope.

Definition probeWritePermission (within : option Z) (bucket : string) : prog s3E (option error) :=
  put ← trigger (PutObject within writeProbeKey {| rd_bytes := []; rd_err := None |});
  match put with
  | Err e => mret (Some (wrap ("attachment: bucket " +:+ quote.Quote bucket
      +:+ " is reachable but not writable with the configured credentials") e))
  | Ok _ =>
      removed ← trigger (RemoveObject within writeProbeKey);
      match removed with
      | Some e => mret (Some (wrap ("attachment: wrote startup write-probe object "
          +:+ quote.Quote writeProbeKey +:+ " to bucket " +:+ quote.Quote bucket
          +:+ " but could not remove it, left behind") e))
      | None => mret None
      end
  end.

Definition NewS3BlobStore (cfg : S3Config) : prog s3E (result s3BlobStore) :=
  do? trigger (NewClient cfg) onerr (wrap "attachment: build s3 client") in
  let within := Some (10 * time.Second) in
  let? exists_ := trigger (BucketExists within)
    onerr (wrap ("attachment: reach bucket " +:+ quote.Quote cfg.(s3_Bucket))) in
  if negb exists_ then
    mret (Err (Opaque ("attachment: bucket " +:+ quote.Quote cfg.(s3_Bucket) +:+ " does not exist")))
  else
    do? probeWritePermission within cfg.(s3_Bucket) onerr id in
    mret (Ok {| s3_callTimeout := cfg.(s3_CallTimeout) |}).

Definition withTimeout (s : s3BlobStore) : option Z :=
  if s.(s3_callTimeout) <=? 0 then None else Some s.(s3_callTimeout).

Definition s3Put (s : s3BlobStore) (key : string) (r : Reader) (maxBytes : Z) : prog s3E (result Z) :=
  let? size := trigger (PutObject (withTimeout s) key (LimitReader r (int64.add maxBytes 1)))
    onerr (wrap "attachment: put object") in
  if maxBytes <? size then
    _ ← trigger (RemoveObject (withTimeout s) key);
    mret (Err ErrTooLarge)
  else mret (Ok size).

Definition mapS3Error (err : error) : error :=
  let resp := ToErrorResponse err in
  if String.eqb resp.(resp_Code) "NoSuchKey" || String.eqb resp.(resp_Code) "NoSuchBucket"
  then ErrNotFound attachment_pkg
  else if resp.(resp_StatusCode) =? 404 then ErrNotFound attachment_pkg
  else if Is err io_EOF then ErrNotFound attachment_pkg
  else wrap "attachment: get object" err.

Definition s3Open (s : s3BlobStore) (key : string) : prog s3E (result (list Z)) :=
  do? trigger (StatObject (withTimeout s) key) onerr mapS3Error in
  let? obj := trigger (GetObject None key) onerr mapS3Error in
  mret (Ok obj).

Definition s3Delete (s : s3BlobStore) (key : string) : prog s3E (option error) :=
  err ← trigger (RemoveObject (withTimeout s) key);
  mret match err with Some e => Some (wrap "attachment: delete object" e) | None => None end.

(** The loop over the objects of the listing. *)
Fixpoint objectLoop (objects : list (result BlobRef)) (refs : list BlobRef) : result (list BlobRef) :=
  match objects with
  | [] => Ok refs
  | Err e :: _ => Err (wrap "attachment: list objects" e)
  | Ok ref :: objects' => objectLoop objects' (refs ++ [ref])
  end.

Definition s3List (s : s3BlobStore) : prog s3E (result (list BlobRef)) :=
  objects ← trigger (ListObjects (withTimeout s));
  mret (objectLoop objects []).

Definition handle_s3 {O} (h : handler s3E O) (s : s3BlobStore) : handler blobE O := λ X e,
  run h (match e in blobE X return prog s3E X with
         | Put key r maxBytes => s3Put s key r maxBytes
         | Open key => s3Open s key
         | DeleteBlob key => s3Delete s key
         | ListBlobs => s3List s
         end).
End s3BlobStore.

(** The documented behaviour of the client: an object appears whole or not at all,
    removing what is not there succeeds, reading an object starts only after
    [GetObject], and a listing that meets no error is complete. *)
Class ObjectStore {O : Type} (h : handler s3E O) := {
  s3_objects : O → blobs;
  s3_put : ∀ o t k r,
    let '(o', x) := h _ (PutObject t k r) o in
    match x with
    | Ok n => rd_err r = None ∧ n = Z.of_nat (length (rd_bytes r)) ∧
        ∃ τ, s3_objects o' = <[k := {| blob_bytes := rd_bytes r; blob_ModTime := τ |}]> (s3_objects o)
    | Err e => (∀ k', k' ≠ k → s3_objects o' !! k' = s3_objects o !! k') ∧
        (Is e ErrTooLarge = true → ∃ e', rd_err r = Some e' ∧ Is e' ErrTooLarge = true)
    end;
  s3_remove : ∀ o t k,
    let '(o', x) := h _ (RemoveObject t k) o in
    match x with
    | None => s3_objects o' = delete k (s3_objects o)
    | Some _ => s3_objects o' = s3_objects o ∨ s3_objects o' = delete k (s3_objects o)
    end;
  s3_stat : ∀ o t k,
    let '(o', x) := h _ (StatObject t k) o in
    s3_objects o' = s3_objects o ∧ (x = None → is_Some (s3_objects o !! k));
  s3_get : ∀ o t k,
    let '(o', x) := h _ (GetObject t k) o in
    s3_objects o' = s3_objects o ∧
    ∀ c b, x = Ok c → s3_objects o !! k = Some b → c = b.(blob_bytes);
  s3_list : ∀ o t,
    let '(o', x) := h _ (ListObjects t) o in
    s3_objects o' = s3_objects o ∧
    ∀ refs, x = map Ok refs →
      refs ≡ₚ map (λ kb, {| ref_Key := kb.1; ref_ModTime := kb.2.(blob_ModTime) |})
                (map_to_list (s3_objects o));
}.

Lemma objectLoop_ok objects refs res :
  objectLoop objects refs = Ok res → ∃ l, objects = map Ok l ∧ res = refs ++ l.
Proof.
  revert refs; induction objects as [|[ref|e] objects IH]; intros refs; simpl.
  - intros [= <-]. exists []. by rewrite app_nil_r.
  - intros (l & -> & ->)%IH. exists (ref :: l). by rewrite <-app_assoc.
  - done.
Qed.

Section s3_store.
Context `{Minio, unicode.Tables} {O : Type} (h : handler s3E O) `{!ObjectStore h} (s : s3BlobStore).

Ltac s3_call law :=
  let Hl := fresh "Hl" in
  pose proof law as Hl;
  match goal with |- context [h ?X ?e ?o] => let E := fresh "E" in destruct (h X e o) as [?o ?x] eqn:E end;
  cbn in Hl.

Lemma s3Put_spec o k r max : max < int64.max →
  let '(o', x) := run h (s3Put s k r max) o in
  blob_spec (λ _, True) (Put k r max) (s3_objects o) (s3_objects o') x.
Proof.
  intros Hmax. unfold s3Put. simpl. set (r' := LimitReader r _).
  pose proof (LimitReader_spec r max Hmax) as Hlim. fold r' in Hlim.
  s3_call (s3_put o (withTimeout s) k r'). destruct x as [n|e]; simpl.
  - destruct Hl as (Hend & -> & t & Hput). destruct (Z.ltb_spec max (Z.of_nat (length (rd_bytes r')))); simpl.
    + s3_call (s3_remove o0 (withTimeout s) k). simpl. split.
      * intros k' Hk'. destruct x; [destruct Hl as [-> | ->]|rewrite Hl];
          rewrite Hput, ?lookup_delete_ne, lookup_insert_ne; done.
      * intros _. left. destruct Hlim as [[_ ?]|[Hr Hle]]; [done|]. rewrite Hr in *. lia.
    + destruct Hlim as [[? _]|[Hr Hle]]; [lia|]. rewrite Hr in *. split_and!; eauto.
  - destruct Hl as [Hsame He]. split; [done|]. intros Ht.
    destruct Hlim as [[_ ?]|[Hr Hle]]; [by left|]. right. rewrite <-Hr. by apply He.
Qed.

Lemma s3Open_spec o k :
  let '(o', x) := run h (s3Open s k) o in
  blob_spec (λ _, True) (Open k) (s3_objects o) (s3_objects o') x.
Proof.
  unfold s3Open. simpl. s3_call (s3_stat o (withTimeout s) k). destruct Hl as [Ho Hst].
  destruct x as [e|]; simpl; [done|]. destruct (Hst eq_refl) as [b Hb].
  s3_call (s3_get o0 None k). destruct Hl as [Ho' Hg]. rewrite Ho in *.
  destruct x as [c|e]; simpl; [|done]. split; [done|]. intros _. rewrite Hb. simpl. by rewrite (Hg c b).
Qed.

#[export] Instance s3_blob_store : BlobStore (handle_s3 h s).
Proof.
  refine {| blob_view := s3_objects; blob_key := λ _, True |}.
  - done.
  - done.
  - intros X e o Hp. unfold handle_s3. destruct e; simpl in Hp.
    + pose proof (s3Put_spec o key r maxBytes (proj2 Hp)) as Hs. by destruct (run _ _ _) as [? ?].
    + pose proof (s3Open_spec o key) as Hs. by destruct (run _ _ _) as [? ?].
    + unfold s3Delete. simpl. s3_call (s3_remove o (withTimeout s) key). by destruct x.
    + unfold s3List. simpl. s3_call (s3_list o (withTimeout s)). destruct Hl as [Ho Hl]. simpl.
      split; [done|]. destruct (objectLoop x []) as [refs|e] eqn:El; [|done].
      apply objectLoop_ok in El as (l & -> & ->). by apply Hl.
Defined.
End s3_store.
