(* ===== verification/AttachmentBreaker.v ===== *)
(** The circuit breakers of the attachments: in front of PostgreSQL
    ([attachment/postgres_breaker.go]) and in front of the object store
    ([attachment/s3_breaker.go]), where listing has a breaker of its own. *)

From S2P Require Import Prelude GoStd GoError Uuid Task TaskMemory TaskSpec User UserMemory UserSpec Breaker.
From S2P Require Import Attachment AttachmentMemory AttachmentSpec BlobStorage.
Local Open Scope Z_scope.

(** * postgres_breaker.go *)
Definition attachBreakerRepository (retryAfter : Z) X (e : attachRepoE X)
    : prog (sumE bastionE attachRepoE) X :=
  let p := attachment_pkg in
  match e in attachRepoE X return prog (sumE bastionE attachRepoE) X with
  | CreateAttachment attachment userID =>
      guardedDo p retryAfter (trigger (CreateAttachment attachment userID))
  | FindByStorageKey storageKey userID =>
      guardedExecute p retryAfter (trigger (FindByStorageKey storageKey userID))
  | FindByTask taskID userID => guardedExecute p retryAfter (trigger (FindByTask taskID userID))
  | DeleteAttachment storageKey userID =>
      guardedDo p retryAfter (trigger (DeleteAttachment storageKey userID))
  | TotalBytesForUser userID => guardedExecute p retryAfter (trigger (TotalBytesForUser userID))
  | CountByTask taskID userID => guardedExecute p retryAfter (trigger (CountByTask taskID userID))
  | UnreferencedKeys keys => guardedExecute p retryAfter (trigger (UnreferencedKeys keys))
  end.

Definition handle_abreaker {B S} (hb : handler bastionE B) (h : handler attachRepoE S)
    (retryAfter : Z) : handler attachRepoE (B * S) :=
  λ X e, run (handle_sum hb h) (attachBreakerRepository retryAfter X e).

(** * s3_breaker.go *)
Definition s3BreakerOpenTimeout : Z := 30 * time.Second.

(** The two breakers, [rw] and [list], and the store they guard. *)
Definition guardedStoreE : Type → Type := sumE (sumE bastionE bastionE) blobE.
Definition rw : Subevent bastionE guardedStoreE := λ X e, inl (inl e).
Definition list_ : Subevent bastionE guardedStoreE := λ X e, inl (inr e).

Definition breakerBlobStore X (e : blobE X) : prog guardedStoreE X :=
  let p := attachment_pkg in
  match e in blobE X return prog guardedStoreE X with
  | Put key r maxBytes =>
      @guardedExecute _ rw _ p s3BreakerOpenTimeout (trigger (Put key r maxBytes))
  | DeleteBlob key => @guardedDo _ rw p s3BreakerOpenTimeout (trigger (DeleteBlob key))
  | Open key => @guardedExecute _ rw _ p s3BreakerOpenTimeout (trigger (Open key))
  | ListBlobs => @guardedExecute _ list_ _ p s3BreakerOpenTimeout (trigger ListBlobs)
  end.

Definition handle_sbreaker {B1 B2 S} (rw : handler bastionE B1) (list_ : handler bastionE B2)
    (h : handler blobE S) : handler blobE ((B1 * B2) * S) :=
  λ X e, run (handle_sum (handle_sum rw list_) h) (breakerBlobStore X e).

(** Which errors of the store count against it; [None] is a call that succeeded. *)
Definition isS3BreakerFailure `{Minio} (err : option error) : bool :=
  match err with
  | None => false
  | Some err =>
      if Is err (ErrNotFound attachment_pkg) || Is err ErrTooLarge then false
      else if Is err context_DeadlineExceeded then true
      else if AsNetError err then true
      else
        let resp := ToErrorResponse err in
        if 500 <=? resp.(resp_StatusCode) then true
        else String.eqb resp.(resp_Code) "SlowDown" || String.eqb resp.(resp_Code) "ServiceUnavailable"
             || String.eqb resp.(resp_Code) "InternalError"
  end.

(** * Calls that can fail *)
#[export] Instance attach_fallible : Fallible attachRepoE := {
  failure X e := match e in attachRepoE X return X → option error with
    | CreateAttachment _ _ | DeleteAttachment _ _ => λ r, r
    | FindByStorageKey _ _ | FindByTask _ _ | TotalBytesForUser _ | CountByTask _ _
    | UnreferencedKeys _ => result_error
    end;
  fail_with X e := match e in attachRepoE X return error → X with
    | CreateAttachment _ _ | DeleteAttachment _ _ => Some
    | FindByStorageKey _ _ | FindByTask _ _ | TotalBytesForUser _ | CountByTask _ _
    | UnreferencedKeys _ => Err
    end;
  on_error X e := match e in attachRepoE X return (error → error) → X → X with
    | CreateAttachment _ _ | DeleteAttachment _ _ => λ f, option_map f
    | FindByStorageKey _ _ | FindByTask _ _ | TotalBytesForUser _ | CountByTask _ _
    | UnreferencedKeys _ => map_err
    end;
}.

#[export] Instance blob_fallible : Fallible blobE := {
  failure X e := match e in blobE X return X → option error with
    | DeleteBlob _ => λ r, r
    | Put _ _ _ | Open _ | ListBlobs => result_error
    end;
  fail_with X e := match e in blobE X return error → X with
    | DeleteBlob _ => Some
    | Put _ _ _ | Open _ | ListBlobs => Err
    end;
  on_error X e := match e in blobE X return (error → error) → X → X with
    | DeleteBlob _ => λ f, option_map f
    | Put _ _ _ | Open _ | ListBlobs => map_err
    end;
}.

Section decorators.
Context {B B2 S : Type} (hb : handler bastionE B).

Lemma abreaker_call (h : handler attachRepoE S) d X (e : attachRepoE X) w :
  handle_abreaker hb h d X e w = guarded_call hb h attachment_pkg d e w.
Proof.
  destruct w as [b s]. unfold guarded_call. simpl.
  destruct (hb _ Admit b) as [b1 [err|]] eqn:Ha; destruct e; unfold handle_abreaker; simpl;
    rewrite Ha; simpl; try done;
    (destruct (h _ _ s) as [s1 x]; simpl; destruct (hb _ (Settle _) b1); by destruct x).
Qed.

(** The breaker that guards a call of the store, the other one left as it is. *)
Definition store_call (hl : handler bastionE B2) (h : handler blobE S) {X} (e : blobE X)
    (w : (B * B2) * S) : ((B * B2) * S) * X :=
  match e with
  | ListBlobs =>
      let '((b, s), x) := guarded_call hl h attachment_pkg s3BreakerOpenTimeout e (w.1.2, w.2) in
      (((w.1.1, b), s), x)
  | _ =>
      let '((b, s), x) := guarded_call hb h attachment_pkg s3BreakerOpenTimeout e (w.1.1, w.2) in
      (((b, w.1.2), s), x)
  end.

Lemma sbreaker_call (hl : handler bastionE B2) (h : handler blobE S) X (e : blobE X) w :
  handle_sbreaker hb hl h X e w = store_call hl h e w.
Proof.
  destruct w as [[b b2] s]. unfold store_call, guarded_call.
  destruct e; unfold handle_sbreaker; simpl;
    match goal with |- context [?g _ Admit ?b0] => destruct (g _ Admit b0) as [b1 [err|]] eqn:Ha end;
    simpl; try done;
    (destruct (h _ _ s) as [s1 x]; simpl;
     match goal with |- context [?g _ (Settle ?x) ?b0] => destruct (g _ (Settle x) b0) end; by destruct x).
Qed.
End decorators.

Lemma translate_aforeign err d :
  aforeign err = true → aforeign (translateBreakerError attachment_pkg err d) = true.
Proof. unfold translateBreakerError. by destruct (_ || _). Qed.

Lemma attach_spec_fail X (e : attachRepoE X) owns m err :
  aforeign err = true → attach_spec e owns m m (fail_with e err).
Proof. intros He. destruct e; simpl; auto. Qed.

Lemma attach_spec_translate X (e : attachRepoE X) owns m m' x d :
  attach_spec e owns m m' x →
  attach_spec e owns m m' (on_error e (λ err, translateBreakerError attachment_pkg err d) x).
Proof.
  destruct e, x; simpl; intuition (subst; eauto using translate_aforeign).
Qed.

(** A rejected call of the store leaves it alone, and the limit on sizes is not
    what rejected it. *)
Lemma blob_spec_fail X (e : blobE X) ok b err :
  Is err ErrTooLarge = false → blob_spec ok e b b (fail_with e err).
Proof. intros He. destruct e; simpl; auto. split; [done|by rewrite He]. Qed.

Lemma translate_too_large err d :
  Is (translateBreakerError attachment_pkg err d) ErrTooLarge = true → Is err ErrTooLarge = true.
Proof. unfold translateBreakerError. by destruct (_ || _). Qed.

Lemma blob_spec_translate X (e : blobE X) ok b b' x d :
  blob_spec ok e b b' x →
  blob_spec ok e b b' (on_error e (λ err, translateBreakerError attachment_pkg err d) x).
Proof.
  destruct e, x; simpl; intuition (subst; eauto using translate_too_large).
Qed.

Section refinement.
Context {B B2 S : Type} (hb : handler bastionE B) `{!Bastion hb} (hl : handler bastionE B2) `{!Bastion hl}.

(** What a guarded call leaves behind: the store as its own call leaves it, or as
    it was. *)
Lemma guarded_cases {E St Bk} `{Fallible E} (hbk : handler bastionE Bk) `{!Bastion hbk}
    (h : handler E St) p d X (e : E X) w :
  (∃ err, (guarded_call hbk h p d e w).2 = fail_with e (UnavailableError p err d) ∧
     (guarded_call hbk h p d e w).1.2 = w.2) ∨
  ((guarded_call hbk h p d e w).1.2 = (h X e w.2).1 ∧
   (guarded_call hbk h p d e w).2 = on_error e (λ err, translateBreakerError p err d) (h X e w.2).2).
Proof.
  unfold guarded_call. pose proof (bastion_rejects w.1) as Hrej.
  destruct (hbk _ Admit w.1) as [b [err|]]; simpl in *.
  - left. exists err. by rewrite translate_rejection by auto.
  - right. by destruct (h X e w.2).
Qed.

#[export] Instance breaker_attachments (d : Z) (h : handler attachRepoE S) `{!AttachmentRepository h} :
  AttachmentRepository (handle_abreaker hb h d).
Proof.
  refine {| arepo_rows := λ w, arepo_rows w.2; arepo_owns := λ w, arepo_owns w.2;
            arepo_inv := λ w, arepo_inv w.2 |}.
  - intros w. apply arepo_wf.
  - intros X e w Hi. rewrite abreaker_call.
    destruct (guarded_cases hb h attachment_pkg d X e w) as [(err & _ & ->)|[-> _]]; [done|].
    by apply arepo_step_inv.
  - intros X e w t u Hi. rewrite abreaker_call.
    destruct (guarded_cases hb h attachment_pkg d X e w) as [(err & _ & ->)|[-> _]]; [done|].
    by apply arepo_owns_step.
  - intros X e w Hi. rewrite abreaker_call.
    destruct (guarded_cases hb h attachment_pkg d X e w) as [(err & -> & ->)|[-> ->]].
    + by apply attach_spec_fail.
    + by apply attach_spec_translate, arepo_sound.
Defined.

#[export] Instance breaker_blob_store (h : handler blobE S) `{!BlobStore h} :
  BlobStore (handle_sbreaker hb hl h).
Proof.
  assert (Hg : ∀ Bk (hbk : handler bastionE Bk) `{!Bastion hbk} X (e : blobE X) (w : Bk * S),
    blob_pre (blob_key h) e →
    blob_spec (blob_key h) e (blob_view w.2)
      (blob_view (guarded_call hbk h attachment_pkg s3BreakerOpenTimeout e w).1.2)
      (guarded_call hbk h attachment_pkg s3BreakerOpenTimeout e w).2).
  { intros Bk hbk Hbk X e w Hp.
    destruct (guarded_cases hbk h attachment_pkg s3BreakerOpenTimeout X e w) as [(err & -> & ->)|[-> ->]].
    - by apply blob_spec_fail.
    - by apply blob_spec_translate, blob_sound. }
  refine {| blob_view := λ w, blob_view w.2; blob_key := blob_key h |}.
  - apply blob_key_generated.
  - intros w. apply blob_key_listed.
  - intros X e w Hp. rewrite sbreaker_call. unfold store_call.
    pose proof (Hg _ hb _ X e (w.1.1, w.2) Hp) as H1. pose proof (Hg _ hl _ X e (w.1.2, w.2) Hp) as H2.
    revert H1 H2. destruct e; [| | |intros _]; destruct (guarded_call _ _ _ _ _ _) as [[? ?] ?]; by intros.
Defined.
End refinement.
