(* ===== verification/BreakerTheorems.v ===== *)
(** Theorems about the circuit breaker: it guards whole repository calls, what an
    open circuit does to the routes, and which database errors count. *)

From S2P Require Import Prelude GoStd GoError Uuid Http Middleware Task TaskMemory TaskSpec TaskService.
From S2P Require Import User UserMemory UserSpec TaskHandler TaskHandlerTheorems Concrete ConcreteUser Breaker.
From S2P Require Import Attachment AttachmentMemory AttachmentSpec AttachmentBreaker.
Local Open Scope Z_scope.

(** * Routes over an open circuit *)

(** What the routes over a store that turns every call away with
    [UnavailableError _ _ d] may assume of the answers they get. *)
Definition turned_away (d : Z) (w : unit) X (e : taskE X) : X → Prop :=
  match e with
  | inr e' => λ x, ∃ err, x = fail_with e' (UnavailableError task_pkg err d)
  | inl e' =>
      match e' in envE X return X → Prop with
      | RandRead n => λ x, ∀ err, x = Err err → ∃ msg, err = Opaque msg
      | _ => λ _, True
      end
  end.

(** The answer tells of an error, and a 503 tells when to come back. *)
Definition refused (d : Z) (res : wire * outcome) : Prop :=
  ∃ code, status res.1 = Some code ∧ 400 ≤ code ∧
    (code = 503 → sent_header res.1 "Retry-After" = strconv.Itoa (time.whole_seconds d)).
Definition unavailable (d : Z) (res : wire * outcome) : Prop :=
  status res.1 = Some 503 ∧
  sent_header res.1 "Retry-After" = strconv.Itoa (time.whole_seconds d).

(** The errors the service then returns: the breaker's, for a request that gets as
    far as the store; for others also that the request is not in order, or
    something unrelated to dependencies. *)
Definition closed_off (d : Z) (err : error) : Prop :=
  foreign err = true ∧ Is err (ErrDependencyUnavailable task_pkg) = false ∧
  Is err (ErrUnavailable task_pkg) = true ∧ AsRetryAfter err = Some d.
Definition refusal (d : Z) (wf : bool) (err : error) : Prop :=
  closed_off d err ∨
  wf = false ∧ (Is err (ErrNotFound task_pkg) = true ∨ Is err (ErrInvalidInput task_pkg) = true ∨
    Is err (ErrDependencyUnavailable task_pkg) = false ∧ Is err (ErrUnavailable task_pkg) = false).

Lemma sent_writeJSON w code j : w_sent w = None →
  status (writeJSON w code j) = Some code ∧
  sent_header (writeJSON w code j) "Retry-After" = Header_Get (w_header w) "Retry-After".
Proof.
  intros H. unfold status, sent_header, writeJSON.
  rewrite (proj1 (respond_fresh _ _ _ _ _ H)). split; [done|]. by apply Header_Get_Set_ne.
Qed.

Lemma refused_error d w code msg reason :
  w_sent w = None → 400 ≤ code → code ≠ 503 →
  refused d (writeJSON w code (errorResponse msg reason), Returned).
Proof.
  intros H Hc Hn. destruct (sent_writeJSON w code (errorResponse msg reason) H) as [Hs _].
  exists code. cbn [fst]. by rewrite Hs.
Qed.

Lemma unavailable_answer d r w err :
  w_sent w = None → closed_off d err → unavailable d (handleServiceError r w err, Returned).
Proof.
  intros H (Hf & Hdep & Hu & Hd). unfold handleServiceError.
  rewrite !(foreign_Is err) by (done || set_solver). rewrite Hdep, Hu.
  unfold set_retry_after. rewrite Hd. set (w' := set_header _ _ _).
  unfold unavailable, writeError. cbn [fst].
  destruct (sent_writeJSON w' 503 (errorResponse unavailable_message "") H) as [-> ->].
  split; [done|]. apply Header_Get_Set.
Qed.

Definition answered (d : Z) (wf : bool) (res : wire * outcome) : Prop :=
  refused d res ∧ (wf = true → unavailable d res).

Lemma unavailable_answered d wf res : unavailable d res → answered d wf res.
Proof. intros [Hs Hh]. split; [|done]. exists 503. by rewrite Hs. Qed.

Lemma refusal_answer d wf r w err :
  w_sent w = None → refusal d wf err → answered d wf (handleServiceError r w err, Returned).
Proof.
  intros H [Hc|[-> He]]; [by apply unavailable_answered, unavailable_answer|].
  split; [|done]. unfold handleServiceError.
  destruct (Is err (ErrNotFound task_pkg)) eqn:?; [by apply refused_error|].
  destruct (Is err (ErrInvalidInput task_pkg)) eqn:?; [by apply refused_error|].
  destruct He as [?|[?|[-> ->]]]; [done|done|]. repeat case_match; by apply refused_error.
Qed.

(** The store behind an open circuit, and the source of randomness, answer so. *)
Section open.
Context {B S : Type} (hb : handler bastionE B) `{!Bastion hb} (h : handler repoE S) (d : Z).
Context (opened : B → Prop).
Hypothesis stays_open : ∀ b, opened b → ∃ err, (hb _ Admit b).2 = Some err ∧ opened (hb _ Admit b).1.

Abbreviation over := (handle_sum handle_env (handle_breaker hb h d)).

Lemma open_call X (e : taskE X) st :
  opened st.2.1 →
  opened (over X e st).1.2.1 ∧ st.2.2 = (over X e st).1.2.2 ∧ turned_away d tt X e (over X e st).2.
Proof.
  destruct st as [env [b s]]; cbn [fst snd]. intros Ho. destruct e as [e|e]; cbn [handle_sum].
  - destruct (handle_env X e env) as [env' x] eqn:E. cbn [fst snd]. split; [done|]. split; [done|].
    destruct e; try exact I. simpl in E. destruct (pop None (env_rand env)) as [[bytes|] rest]; simplify_eq/=.
    + done.
    + intros err [= <-]. by eexists.
  - rewrite breaker_call. unfold guarded_call. cbn [fst snd].
    destruct (stays_open b Ho) as (err & He & Ho'). pose proof (bastion_rejects b err He) as Hr.
    destruct (hb _ Admit b) as [b' a]; cbn [fst snd] in *. subst a. cbn [fst snd].
    split; [done|]. split; [done|]. exists err. by rewrite (translate_rejection task_pkg err d Hr).
Qed.

(** A program over an open circuit leaves the store alone and ends as its
    protocol says. *)
Lemma open_run {A} (Q : unit → A → Prop) (p : prog taskE A) st :
  follows eq (λ _ _ _, True) (turned_away d) Q tt p → opened st.2.1 →
  (run over p st).1.2.2 = st.2.2 ∧ Q tt (run over p st).2.
Proof.
  intros Hp Ho.
  assert (PreOrder (λ st st' : Env * (B * S), st.2.2 = st'.2.2)) by (split; [done|intros ???; congruence]).
  destruct (follows_run eq (λ _ _ _, True) (turned_away d) Q over (λ st, opened st.2.1)
    (λ st st', st.2.2 = st'.2.2) tt (λ X e st Hst _, open_call X e st Hst) p st Hp Ho) as (_ & Hs & HQ).
  split; [by symmetry|done].
Qed.
End open.

(** * The routes *)

Section routes.
Context `{San : Sanitize, Uni : unicode.Tables} (d : Z).

Abbreviation ends Q p := (follows eq (λ _ _ _, True) (turned_away d) (λ _ res, Q res) tt p).

Definition err_of {A} (P : error → Prop) (res : result A) : Prop :=
  match res with Ok _ => False | Err err => P err end.

Lemma closed_wrap ctx cause wf : refusal d wf (wrap ctx (UnavailableError task_pkg cause d)).
Proof. left. done. Qed.

Lemma GetTask_refused u id : ends (err_of (refusal d (isValidID id))) (GetTask u id).
Proof.
  unfold GetTask. destruct (isValidID id); simpl; [|right; by auto].
  split; [done|]. intros [] x _ [cause ->]. apply closed_wrap.
Qed.

Lemma TransitionStatus_refused u id target wf :
  (wf = true → isValidID id = true ∧ mem validStatuses target = true) →
  ends (err_of (refusal d wf)) (TransitionStatus u id target).
Proof.
  intros Hwf. unfold TransitionStatus.
  destruct (isValidID id); simpl; [|destruct wf; [by destruct Hwf|right; by auto]].
  destruct (mem validStatuses target); simpl; [|destruct wf; [by destruct Hwf|right; by auto]].
  split; [done|]. intros [] x _ [cause ->]. apply closed_wrap.
Qed.
Lemma filter_errs statuses priorities err :
  validateStatusFilters statuses = Err err ∨ validatePriorityFilters priorities = Err err →
  refusal d (bool_decide (statuses = [] ∧ priorities = [])) err.
Proof.
  intros He. right. unfold validateStatusFilters, validatePriorityFilters in He.
  rewrite !(filterLoop_ok _ _ _ _ _ [] seen_empty) in He. split.
  - apply bool_decide_eq_false. intros [-> ->]. by destruct He.
  - destruct He as [He|He]; repeat case_hyp He; right; by left.
Qed.

Lemma CompleteTask_refused u id : ends (err_of (refusal d (isValidID id))) (CompleteTask u id).
Proof.
  unfold CompleteTask, TransitionStatus. destruct (isValidID id); simpl; [|right; by auto].
  split; [done|]. intros [] x _ [cause ->]. by left.
Qed.

Lemma DeleteTask_refused u id :
  ends (λ res, ∃ err, res = Some err ∧ refusal d (isValidID id) err) (DeleteTask u id).
Proof.
  unfold DeleteTask. destruct (isValidID id); simpl; [|eexists; split; [done|right; by auto]].
  split; [done|]. intros [] x _ [cause ->]. eexists. split; [done|]. apply closed_wrap.
Qed.

Lemma ListTasks_refused u limit offset st pr :
  ends (err_of (refusal d (bool_decide (st = [] ∧ pr = [])))) (ListTasks u limit offset st pr).
Proof.
  unfold ListTasks. pose proof (filter_errs st pr) as He.
  destruct (validateStatusFilters st); simpl; [|by auto].
  destruct (validatePriorityFilters pr); simpl; [|by auto].
  split; [done|]. intros [] x _ [cause ->]. apply closed_wrap.
Qed.

Lemma TaskStats_refused u st pr :
  ends (err_of (refusal d (bool_decide (st = [] ∧ pr = [])))) (TaskStats u st pr).
Proof.
  unfold TaskStats. pose proof (filter_errs st pr) as He.
  destruct (validateStatusFilters st); simpl; [|by auto].
  destruct (validatePriorityFilters pr); simpl; [|by auto].
  split; [done|]. intros [] x _ [cause ->]. apply closed_wrap.
Qed.

Lemma ExportTasks_refused u st pr :
  ends (err_of (refusal d (bool_decide (st = [] ∧ pr = [])))) (ExportTasks u st pr).
Proof.
  unfold ExportTasks. pose proof (filter_errs st pr) as He.
  destruct (validateStatusFilters st); simpl; [|by auto].
  destruct (validatePriorityFilters pr); simpl; [|by auto].
  split; [done|]. intros [] x _ [cause ->]. apply closed_wrap.
Qed.

Lemma CreateTask_refused u title description priority :
  ends (err_of (refusal d false)) (CreateTask u title description priority).
Proof.
  unfold CreateTask, newID, newID_with.
  pose proof (validate_err title description) as Hv.
  destruct (validateTitleAndDescription title description) as [[tt' ds]|]; simpl; [|right; by auto].
  pose proof (validatePriority_err priority PriorityMedium) as Hp.
  destruct (validatePriority priority PriorityMedium); simpl; [|right; by auto].
  split; [done|]. intros [] [bytes|err] _ Hr; simpl.
  - split; [done|]. intros [] now _ _. split; [done|]. intros [] x _ [cause ->]. apply closed_wrap.
  - destruct (Hr err eq_refl) as [msg ->]. right. by auto.
Qed.

Lemma UpdateTask_refused u id title description priority :
  ends (err_of (refusal d false)) (UpdateTask u id title description priority).
Proof.
  unfold UpdateTask. destruct (isValidID id); simpl; [|right; by auto].
  pose proof (validate_err title description) as Hv.
  destruct (validateTitleAndDescription title description) as [[tt' ds]|]; simpl; [|right; by auto].
  split; [done|]. intros [] x _ [cause ->]. apply closed_wrap.
Qed.

(** From the service's error to the answer. *)
Lemma respond_refused {A} (p : prog taskE (result A)) wf r w k :
  w_sent w = None → ends (err_of (refusal d wf)) p →
  ends (answered d wf) (p ≫= λ res, respond r w res k).
Proof.
  intros Hw Hp. apply (follows_bind _ _ _ (λ _ res, err_of (refusal d wf) res)); [done|].
  intros [] [a|err] _ He; [done|]. simpl. by apply refusal_answer.
Qed.

Lemma answered_weaken wf wf' res : (wf' = true → wf = true) → answered d wf res → answered d wf' res.
Proof. intros Hwf [Hr Hu]. split; [done|]. intros H. by apply Hu, Hwf. Qed.

Lemma ends_weaken wf wf' p : (wf' = true → wf = true) →
  ends (answered d wf) p → ends (answered d wf') p.
Proof.
  intros Hwf. apply follows_weaken. intros _ res. by apply answered_weaken.
Qed.

(** Requests that get as far as the store. *)
Definition well_formed (route : taskRoute) (r : Request) : bool :=
  match route with
  | GET_task | DELETE_task | PATCH_task_done => isValidID (PathValue r "id")
  | GET_tasks | GET_tasks_stats | GET_tasks_export => bool_decide (req_Query r = ∅)
  | _ => false
  end.

Lemma no_filters r : bool_decide (req_Query r = ∅) = true →
  bool_decide (Query_All (req_Query r) "status" = [] ∧ Query_All (req_Query r) "priority" = []) = true.
Proof. intros ->%bool_decide_eq_true. reflexivity. Qed.

Lemma route_refused connected route r w : w_sent w = None →
  ends (answered d (well_formed route r)) (serveTasks connected route r w).
Proof.
  intros Hw.
  assert (Hbad : ∀ msg wf, wf = false → answered d wf (writeError w 400 msg, Returned)).
  { intros msg wf ->. split; [by apply refused_error|done]. }
  destruct route; cbn [serveTasks well_formed].
  - unfold createTask. destruct (Decode _ _ _); [|by apply Hbad].
    apply respond_refused; [done|]. apply CreateTask_refused.
  - unfold listTasks. destruct (parsePagination (req_Query r)) as [[limit offset]|err] eqn:Hp.
    + eapply ends_weaken; [apply no_filters|]. apply respond_refused; [done|]. apply ListTasks_refused.
    + apply Hbad, bool_decide_eq_false. intros He. by rewrite He in Hp.
  - eapply ends_weaken; [apply no_filters|]. apply respond_refused; [done|]. apply TaskStats_refused.
  - eapply ends_weaken; [apply no_filters|]. unfold exportTasks.
    eapply (follows_bind _ _ _ (λ _, err_of (refusal d _))); [apply ExportTasks_refused|].
    intros [] [a|err] _ He; [done|]. by apply refusal_answer.
  - apply respond_refused; [done|]. apply GetTask_refused.
  - unfold updateTask. destruct (Decode _ _ _); [|by apply Hbad].
    apply respond_refused; [done|]. apply UpdateTask_refused.
  - apply respond_refused; [done|]. apply CompleteTask_refused.
  - unfold transitionStatus. destruct (Decode _ _ _); [|by apply Hbad].
    apply (follows_bind _ _ _ (λ _ res, err_of (refusal d false) res)); [by apply TransitionStatus_refused|].
    intros [] [a|err] _ He; [done|]. simpl. unfold handleTransitionStatusError.
    destruct (Is err ErrConflict); [split; [by apply refused_error|done]|].
    destruct (Is err ErrInvalidTransition); [split; [by apply refused_error|done]|].
    by apply refusal_answer.
  - unfold deleteTask.
    apply (follows_bind _ _ _ (λ _ res, ∃ err, res = Some err ∧ refusal d (isValidID (PathValue r "id")) err)).
    + apply DeleteTask_refused.
    + intros [] res _ (err & -> & He). by apply refusal_answer.
Qed.
End routes.

(** While the circuit in front of PostgreSQL is open, no task route reaches the
    store and none answers with success: whatever the route and the request, the
    store is as it was and the status is an error; a request in order is answered
    503 with the breaker's delay in [Retry-After], and any 503 carries that
    header. *)
Theorem open_circuit_refuses `{Sanitize, unicode.Tables} {B S : Type} (hb : handler bastionE B)
    `{!Bastion hb} (h : handler repoE S) (d : Z) (opened : B → Prop) connected route r w env b s :
  (∀ b, opened b → ∃ err, (hb _ Admit b).2 = Some err ∧ opened (hb _ Admit b).1) →
  opened b → w_sent w = None →
  let '((_, (_, s')), res) := run (handle_sum handle_env (handle_breaker hb h d))
    (serveTasks connected route r w) (env, (b, s)) in
  s' = s ∧ refused d res ∧ (well_formed route r = true → unavailable d res).
Proof.
  intros Hopen Hb Hw.
  destruct (open_run hb h d opened Hopen (λ _ res, answered d (well_formed route r) res)
    (serveTasks connected route r w) (env, (b, s))) as (Hs & Hr & Hu);
    [by apply route_refused|done|].
  destruct (run _ _ _) as [[env' [b' s']] res]. by split_and!.
Qed.

(** A breaker that opens on a dependency failure and stays open. *)
Definition fuse : handler bastionE bool := λ X e blown,
  match e in bastionE X return bool * X with
  | Admit => (blown, if blown then Some (Sentinel bastion_ErrOpenState) else None)
  | Settle (Some err) =>
      (blown || match IsInfrastructureFailure err with Some c => c | None => false end, ())
  | Settle None => (blown, ())
  end.
#[export] Instance fuse_bastion : Bastion fuse.
Proof. intros [] err; intros [= <-]. by left. Qed.

Example open_circuit_refuses_witness :
  let '((_, (_, s')), (w', _)) := run (handle_sum handle_env (handle_breaker fuse handle_mem (30 * time.Second)))
    (serveTasks 0 GET_task conditional_get fresh_wire)
    (env_at [] [], (true, (env_at [] [], two_tasks))) in
  s'.2 = two_tasks ∧ status w' = Some 503 ∧ sent_header w' "Retry-After" = "30".
Proof.
  pose proof (open_circuit_refuses fuse handle_mem (30 * time.Second) (λ b, b = true) 0 GET_task
    conditional_get fresh_wire (env_at [] []) true (env_at [] [], two_tasks)) as Ht.
  destruct (run _ _ _) as [[env' [b' s']] [w' o]].
  destruct Ht as (-> & _ & Hu).
  - intros b ->. by eexists.
  - done.
  - done.
  - destruct (Hu eq_refl) as [Hs Hh]. split; [done|]. split; [exact Hs|exact Hh].
Defined.

(** * Whole calls *)

(** Attachments of tasks that nobody owns. *)
Definition nobody : handler ownsE unit := λ X e s, match e in ownsE X return unit * X with OwnsTask _ _ => (s, Ok false) end.
#[local] Instance nobody_owners : TaskOwners nobody.
Proof.
  refine {| owners _ _ _ := false; owners_inv _ := True |}.
  - done.
  - intros id u t b _ [= <-]. done.
  - done.
Defined.

(** What a breaker makes of a call [e] whose store answers [y] in [s]. *)
Definition guards {E B S} `{Fallible E} (hb : handler bastionE B) (h : handler E S) (p : pkg) (d : Z)
    {X} (e : E X) (w w' : B * S) (x : X) : Prop :=
  match hb _ Admit w.1 with
  | (_, Some err) => w'.2 = w.2 ∧ failure e x = Some (UnavailableError p err d)
  | (b, None) =>
      let '(s, y) := h X e w.2 in
      w' = ((hb _ (Settle (failure e y)) b).1, s) ∧
      (failure e y = None → x = y) ∧
      (∀ err, failure e y = Some err → failure e x = Some (translateBreakerError p err d))
  end.

(** Replacing the error of an answer replaces just that. *)
Class LawfulFallible (E : Type → Type) `{Fallible E} := {
  failure_fail X (e : E X) err : failure e (fail_with e err) = Some err;
  on_error_ok X (e : E X) f x : failure e x = None → on_error e f x = x;
  on_error_failure X (e : E X) f x err : failure e x = Some err → failure e (on_error e f x) = Some (f err);
}.
#[export] Instance repo_lawful : LawfulFallible repoE.
Proof. split; intros ? e; destruct e; try destruct x; naive_solver. Qed.
#[export] Instance attach_lawful : LawfulFallible attachRepoE.
Proof. split; intros ? e; destruct e; try destruct x; naive_solver. Qed.
#[export] Instance user_lawful : LawfulFallible userRepoE.
Proof. split; intros ? e; destruct e; try destruct x; naive_solver. Qed.

Lemma guarded_call_guards {E B S} `{LawfulFallible E} (hb : handler bastionE B) `{!Bastion hb}
    (h : handler E S) p d X (e : E X) w :
  guards hb h p d e w (guarded_call hb h p d e w).1 (guarded_call hb h p d e w).2.
Proof.
  unfold guards, guarded_call. pose proof (bastion_rejects w.1) as Hrej.
  destruct (hb _ Admit w.1) as [b [err|]]; cbn [fst snd] in *.
  - split; [done|]. rewrite failure_fail. by rewrite translate_rejection by auto.
  - destruct (h X e w.2) as [s y]. split; [done|]. split; [apply on_error_ok|].
    intros err. apply on_error_failure.
Qed.

(** C19: behind a breaker each of the three repositories still keeps its contract,
    and the breaker guards whole calls: a call is either rejected before the store
    sees it, with the package's own unavailable error and the delay, or is the
    store's call from start to end, its answer passed on and its error reported to
    the breaker. *)
Theorem breakers_refine {B S R A : Type} (hb : handler bastionE B) `{!Bastion hb} (d : Z)
    (h : handler repoE S) `{!TaskRepository h} (hu : handler userRepoE R) `{!UserRepository hu}
    (ha : handler attachRepoE A) `{!AttachmentRepository ha} :
  (∀ X (e : repoE X) w, repo_inv w.2 →
     let '(w', x) := handle_breaker hb h d X e w in
     repo_inv w'.2 ∧ repo_spec e (repo_view w.2) (repo_view w'.2) x ∧ guards hb h task_pkg d e w w' x) ∧
  (∀ X (e : userRepoE X) w, urepo_inv w.2 → fresh_call e (urepo_view w.2) →
     let '(w', x) := handle_ubreaker hb hu d X e w in
     urepo_inv w'.2 ∧ user_spec e (urepo_view w.2) (urepo_view w'.2) x ∧ guards hb hu user_pkg d e w w' x) ∧
  (∀ X (e : attachRepoE X) w, arepo_inv w.2 →
     let '(w', x) := handle_abreaker hb ha d X e w in
     arepo_inv w'.2 ∧ attach_spec e (arepo_owns w.2) (arepo_rows w.2) (arepo_rows w'.2) x ∧
     guards hb ha attachment_pkg d e w w' x).
Proof.
  split_and!.
  - intros X e w Hi. pose proof (guarded_call_guards hb h task_pkg d X e w) as Hg.
    pose proof (guarded_sound hb d h X e w Hi) as [Hi' Hs].
    rewrite breaker_call. by destruct (guarded_call hb h task_pkg d e w).
  - intros X e w Hi Hf. pose proof (guarded_call_guards hb hu user_pkg d X e w) as Hg.
    pose proof (uguarded_sound hb d hu X e w Hi Hf) as [Hi' Hs].
    rewrite ubreaker_call. by destruct (guarded_call hb hu user_pkg d e w).
  - intros X e w Hi. pose proof (guarded_call_guards hb ha attachment_pkg d X e w) as Hg.
    pose proof (arepo_step_inv (h := handle_abreaker hb ha d) X e w Hi) as Hi'.
    pose proof (arepo_sound (h := handle_abreaker hb ha d) X e w Hi) as Hs. simpl in Hi', Hs.
    rewrite abreaker_call in *. by destruct (guarded_call hb ha attachment_pkg d e w).
Qed.

Example breakers_refine_witness :
  (let '(w', x) := handle_breaker fuse handle_mem (30 * time.Second) _ (Task.Delete id1 alice)
    (false, (env_at [] [], two_tasks)) in
   x = None ∧ w'.1 = false ∧ w'.2.2 = delete id1 two_tasks) ∧
  (let '(w', x) := handle_ubreaker fuse handle_umem (30 * time.Second) _ (DeleteUser alice)
    (true, (calm, alice_store)) in
   w'.2.2 = alice_store ∧
   x = Some (UnavailableError user_pkg (Sentinel bastion_ErrOpenState) (30 * time.Second))).
Proof.
  pose proof (breakers_refine (A := Env * unit * rows) fuse (30 * time.Second) handle_mem handle_umem
    (handle_amem nobody)) as (Ht & Hu & _).
  split.
  - specialize (Ht _ (Task.Delete id1 alice) (false, (env_at [] [], two_tasks)) two_tasks_wf).
    destruct (handle_breaker _ _ _ _ _ _) as [w' x] eqn:E.
    destruct Ht as (_ & _ & Hw & Hx & _). specialize (Hx eq_refl). subst. done.
  - specialize (Hu _ (DeleteUser alice) (true, (calm, alice_store)) alice_store_inv I).
    destruct (handle_ubreaker _ _ _ _ _ _) as [w' x].
    destruct Hu as (_ & _ & Hw & Hx). split; [by rewrite Hw|exact Hx].
Defined.

(** * Database errors *)

(** The classification of database errors and its wrapping.  A PostgreSQL error
    counts as an infrastructure failure exactly when its class is 08, 53 or 57 (a
    code of fewer than two bytes would panic), any other error exactly when it is a
    bad connection or an expired deadline; the wrapping marks those and only those
    as [ErrDependencyUnavailable], changes no other comparison, and leaves the
    error classified as before, so the breaker counts the wrapped error as it would
    the bare one. *)
Theorem database_errors_classified (p : pkg) (err : error) :
  match AsPgError err with
  | Some Code =>
      match IsInfrastructureFailure err with
      | None => (String.length Code < 2)%nat
      | Some c => (2 ≤ String.length Code)%nat ∧ (c = true ↔ String.substring 0 2 Code ∈ ["08"; "53"; "57"])
      end
  | None => IsInfrastructureFailure err =
      Some (bool_decide (Is err driver_ErrBadConn = true ∨ Is err context_DeadlineExceeded = true))
  end ∧
  match wrapDBError p err with
  | None => IsInfrastructureFailure err = None
  | Some err' =>
      IsInfrastructureFailure err' = IsInfrastructureFailure err ∧
      (∀ s, Is err' s = Is err s || bool_decide (s = ErrDependencyUnavailable p ∧ IsInfrastructureFailure err = Some true))
  end.
Proof.
  assert (Hclass : ∀ err', AsPgError err' = AsPgError err →
    (∀ s, s = driver_ErrBadConn ∨ s = context_DeadlineExceeded → Is err' s = Is err s) →
    IsInfrastructureFailure err' = IsInfrastructureFailure err).
  { intros err' Hpg His. unfold IsInfrastructureFailure. rewrite Hpg.
    by rewrite !His by auto. }
  split.
  - unfold IsInfrastructureFailure. destruct (AsPgError err) as [Code|].
    + destruct (Nat.ltb_spec (String.length Code) 2); [done|]. split; [done|].
      rewrite !orb_true_iff, !String.eqb_eq. set_solver.
    + f_equal. by destruct (Is err driver_ErrBadConn), (Is err context_DeadlineExceeded).
  - unfold wrapDBError. destruct (IsInfrastructureFailure err) as [[|]|] eqn:E; [| |done].
    + split.
      * apply Hclass; [done|]. intros s [-> | ->]; done.
      * intros s. cbn [Is]. rewrite orb_comm. f_equal. apply bool_decide_ext. naive_solver.
    + split; [done|]. intros s. rewrite bool_decide_eq_false_2 by naive_solver. by rewrite orb_false_r.
Qed.
