(* ===== verification/Wiring.v ===== *)
(** [cmd/api/main.go]: what the composition root puts between the packages.  The
    in-memory attachment repository is told who owns a task by the task repository,
    and deleting an account deletes its tasks and attachments first. *)

From S2P Require Import Prelude GoStd GoError Uuid Task TaskMemory TaskSpec TaskService.
From S2P Require Import Attachment AttachmentMemory AttachmentSpec AttachmentService.
Local Open Scope Z_scope.

(** * Ownership *)
Definition ownsTask (taskID userID : string) : prog repoE (result bool) :=
  (found ← trigger (FindByID taskID userID);
   match found with
   | Err err => if Is err (ErrNotFound task_pkg) then mret (Ok false) else mret (Err err)
   | Ok _ => mret (Ok true)
   end)%prog.

Definition handle_owns {S} (h : handler repoE S) : handler ownsE S := λ X e,
  run h (match e in ownsE X return prog repoE X with OwnsTask t u => ownsTask t u end).

(** The task repository answers truthfully; what it passes on besides is not an
    answer about attachments. *)
Section owners.
Context {S : Type} (h : handler repoE S) `{!TaskRepository h}.
Hypothesis h_foreign : ∀ s id u err, (h _ (FindByID id u) s).2 = Err err →
  err = ErrNotFound task_pkg ∨ aforeign err = true.

Lemma handle_owns_spec s id u : repo_inv s →
  let '(s', x) := handle_owns h _ (OwnsTask id u) s in
  repo_inv s' ∧ repo_view s' = repo_view s ∧
  match x with
  | Ok b => b = bool_decide (is_Some (owned (repo_view s) u id))
  | Err err => aforeign err = true
  end.
Proof.
  intros Hi. unfold handle_owns, ownsTask. simpl.
  pose proof (repo_sound _ (FindByID id u) s Hi) as Hs. pose proof (repo_step_inv _ (FindByID id u) s Hi) as Hi'.
  pose proof (h_foreign s id u) as Hf. destruct (h _ (FindByID id u) s) as [s' [t|err]]; simpl in *.
  - destruct Hs as [Hv Ht]. split_and!; try done. by rewrite Ht.
  - destruct Hs as [Hv He]. destruct (Hf err eq_refl) as [->|Haf].
    + simpl. split_and!; try done. destruct He as [[_ ->]|He]; done.
    + destruct (Is err (ErrNotFound task_pkg)) eqn:Hn; simpl; [|done]. split_and!; try done.
      destruct He as [[_ ->]|He]; [done|]. unfold foreign in He. simpl in He. by rewrite Hn in He.
Qed.

#[export] Instance repository_owners : TaskOwners (handle_owns h).
Proof.
  refine {| owners := λ s t u, bool_decide (is_Some (owned (repo_view s) u t));
            owners_inv := λ s, repo_inv s |}.
  - intros X [id u] s Hi. pose proof (handle_owns_spec s id u Hi) as Hs.
    destruct (handle_owns h _ _ s) as [s' x]. destruct Hs as (Hi' & Hv & _). simpl.
    split; [done|]. intros id' u'. by rewrite Hv.
  - intros id u s b Hi. pose proof (handle_owns_spec s id u Hi) as Hs.
    destruct (handle_owns h _ _ s) as [s' x]. destruct Hs as (_ & _ & Hx). simpl. by intros ->.
  - intros id u s err Hi. pose proof (handle_owns_spec s id u Hi) as Hs.
    destruct (handle_owns h _ _ s) as [s' x]. destruct Hs as (_ & _ & Hx). simpl. by intros ->.
Defined.
End owners.

(** * The account cascade *)

(** The calls of both services. *)
Definition appE : Type → Type := sumE envE (sumE repoE (sumE attachRepoE blobE)).
Definition task_call X (e : taskE X) : appE X :=
  match e with inl e => inl e | inr e => inr (inl e) end.
Definition attach_call X (e : attachE X) : appE X :=
  match e with inl e => inl e | inr (inl e) => inr (inr (inl e)) | inr (inr e) => inr (inr (inr e)) end.

Abbreviation taskSvc p := (lift task_call p).
Abbreviation attachmentSvc p := (lift attach_call p).

Section cascade.
Local Open Scope prog_scope.

(** The attachments of one task. *)
Fixpoint deleteAttachments (userID : string) (atts : list Attachment) : prog appE (option error) :=
  match atts with
  | [] => mret None
  | a :: atts' =>
      err ← attachmentSvc (Attachment.Delete userID a.(att_StorageKey));
      match err with
      | Some e => mret (Some (wrap ("delete account cascade: delete attachment " +:+ a.(att_StorageKey)) e))
      | None => deleteAttachments userID atts'
      end
  end.

(** The loop over the tasks; [attachments] tells whether there is an attachment
    service. *)
Fixpoint deleteTasks (attachments : bool) (userID : string) (tasks : list Task) : prog appE (option error) :=
  match tasks with
  | [] => mret None
  | t :: tasks' =>
      cleared ← (if attachments then
        atts ← attachmentSvc (ListByTask userID t.(task_ID));
        match atts with
        | Err e => mret (Some (wrap ("delete account cascade: list attachments for task " +:+ t.(task_ID)) e))
        | Ok atts => deleteAttachments userID atts
        end
      else mret None);
      match cleared with
      | Some e => mret (Some e)
      | None =>
          err ← taskSvc (DeleteTask userID t.(task_ID));
          match err with
          | Some e => mret (Some (wrap ("delete account cascade: delete task " +:+ t.(task_ID)) e))
          | None => deleteTasks attachments userID tasks'
          end
      end
  end.

Definition deleteAccountCascade (attachments : bool) (userID : string) : prog appE (option error) :=
  let noLimit := -1 in
  listed ← taskSvc (ListTasks userID noLimit 0 [] []);
  match listed with
  | Err e => mret (Some (wrap "delete account cascade: list tasks" e))
  | Ok (tasks, _) => deleteTasks attachments userID tasks
  end.
End cascade.

(** * The stores together *)

(** Tasks and attachments in one state [D]: either two in-memory maps, the second
    asking the first who owns a task, or two tables of one database. *)
Class Linked {D : Type} (h : handler repoE D) (ha : handler attachRepoE D)
    `{!TaskRepository h, !AttachmentRepository ha} := {
  link_owns : ∀ d t u, repo_inv d → arepo_owns d t u = bool_decide (is_Some (owned (repo_view d) u t));
  link_task_inv : ∀ X (e : repoE X) d, repo_inv d → arepo_inv d → arepo_inv (h X e d).1;
  link_attach_inv : ∀ X (e : attachRepoE X) d, repo_inv d → arepo_inv d → repo_inv (ha X e d).1;
  link_tasks : ∀ X (e : attachRepoE X) d, repo_inv d → arepo_inv d → repo_view (ha X e d).1 = repo_view d;
  (* rows go with their task or stay *)
  link_rows : ∀ X (e : repoE X) d, repo_inv d → arepo_inv d →
    arepo_rows (h X e d).1 ⊆ arepo_rows d ∧
    ∀ id a, arepo_rows d !! id = Some a → arepo_rows (h X e d).1 !! id = None →
      is_Some (repo_view d !! a.(att_TaskID)) ∧ repo_view (h X e d).1 !! a.(att_TaskID) = None;
}.

Definition handle_app {D B} (h : handler repoE D) (ha : handler attachRepoE D) (hb : handler blobE B)
    : handler appE (Env * (D * B)) := λ X e '(env, (d, b)),
  match e with
  | inl e => let '(env, x) := handle_env X e env in ((env, (d, b)), x)
  | inr (inl e) => let '(d, x) := h X e d in ((env, (d, b)), x)
  | inr (inr (inl e)) => let '(d, x) := ha X e d in ((env, (d, b)), x)
  | inr (inr (inr e)) => let '(b, x) := hb X e b in ((env, (d, b)), x)
  end.

Section app.
Context `{San : Sanitize, Uni : unicode.Tables} {D B : Type}.
Context (h : handler repoE D) (ha : handler attachRepoE D).
Context `{!TaskRepository h, !AttachmentRepository ha, !Linked h ha}.
Context (hb : handler blobE B) `{!BlobStore hb}.
Abbreviation app := (handle_app h ha hb).

(** A service's program runs on its own stores. *)
Lemma run_task {A} (p : prog taskE A) env d b :
  run app (taskSvc p) (env, (d, b)) =
  let '((env', d'), x) := run (handle_sum handle_env h) p (env, d) in ((env', (d', b)), x).
Proof.
  unfold lift. rewrite run_interp. revert env d. induction p as [a|X e k IH]; intros env d; [done|].
  destruct e as [e|e]; simpl.
  - destruct (handle_env X e env). apply IH.
  - destruct (h X e d). apply IH.
Qed.
Lemma run_attachment {A} (p : prog attachE A) env d b :
  run app (attachmentSvc p) (env, (d, b)) =
  run (handle_sum handle_env (handle_sum ha hb)) p (env, (d, b)).
Proof.
  unfold lift. rewrite run_interp. revert env d b. induction p as [a|X e k IH]; intros env d b; [done|].
  destruct e as [e|[e|e]]; simpl.
  - destruct (handle_env X e env). apply IH.
  - destruct (ha X e d). apply IH.
  - destruct (hb X e b). apply IH.
Qed.

(** Both repositories are in order. *)
Definition app_inv (d : D) : Prop := repo_inv d ∧ arepo_inv d.

(** The user's own tasks. *)
Abbreviation own d u id := (is_Some (owned (repo_view d) u id)).

(** Rows after a call on tasks. *)
Lemma rows_after X (e : repoE X) d id a : app_inv d →
  arepo_rows d !! id = Some a →
  arepo_rows (h X e d).1 !! id = Some a ∨
  is_Some (repo_view d !! a.(att_TaskID)) ∧ repo_view (h X e d).1 !! a.(att_TaskID) = None.
Proof.
  intros [Hr Ha] Hid. destruct (link_rows X e d Hr Ha) as [Hsub Hgone].
  destruct (arepo_rows (h X e d).1 !! id) as [a'|] eqn:E; [left|right; by eapply Hgone].
  eapply lookup_weaken in E; [|exact Hsub]. congruence.
Qed.

Lemma same_tasks_same_rows X (e : repoE X) d : app_inv d →
  repo_view (h X e d).1 = repo_view d → app_inv (h X e d).1 ∧ arepo_rows (h X e d).1 = arepo_rows d.
Proof.
  intros Hd Hv. pose proof Hd as [Hr Ha].
  split; [split; [by apply repo_step_inv|by apply link_task_inv]|].
  apply (anti_symm (⊆)); [by apply link_rows|]. apply map_subseteq_spec. intros id a Hid.
  destruct (rows_after X e d id a Hd Hid) as [|[[t Ht] Hn]]; [done|]. congruence.
Qed.

(** The call in the goal, one that only reads tasks. *)
Ltac reading d' r :=
  match goal with
  | Hd : app_inv ?d |- context [h ?X ?e ?d] =>
      let Hi := fresh "Hi" in let Hr := fresh "Hr" in let E := fresh "E" in
      destruct (same_tasks_same_rows X e d Hd (proj1 (repo_sound X e d (proj1 Hd)))) as [Hi Hr];
      destruct (h X e d) as [d' r] eqn:E; simpl in Hi, Hr
  end.

Lemma ListTasks_app env d b u : app_inv d →
  let '((env', (d', b')), r) := run app (taskSvc (ListTasks u (-1) 0 [] [])) (env, (d, b)) in
  app_inv d' ∧ b' = b ∧ repo_view d' = repo_view d ∧ arepo_rows d' = arepo_rows d ∧
  ∀ tasks n, r = Ok (tasks, n) → ∀ t, t ∈ tasks ↔ repo_view d !! t.(task_ID) = Some t ∧ t.(task_UserID) = u.
Proof.
  intros Hd. rewrite run_task. pose proof (ListTasks_spec h env d u (-1) 0 [] [] (proj1 Hd)) as Hs.
  assert (Hrun : let '((_, d'), _) := run (handle_sum handle_env h) (ListTasks u (-1) 0 [] []) (env, d) in
    app_inv d' ∧ arepo_rows d' = arepo_rows d).
  { clear Hs. unfold ListTasks. simpl.
    reading d1 r1. destruct r1 as [page|e]; simpl; [|done].
    reading d2 r2. destruct r2; simpl; split; (done || congruence). }
  destruct (run _ _ _) as [[env' d'] r]. simpl in Hs. destruct Hs as (_ & Hv & Hs), Hrun as [Hd' Hr'].
  split_and!; try done. intros tasks n ->. destruct Hs as (st & pr & l & [= <-] & [= <-] & [Hl _] & _ & Hp).
  assert (tasks = l) as ->.
  { unfold paginateTasks in Hp. destruct (Z.of_nat (length l) <=? 0) eqn:E; [|simpl in Hp; rewrite ?drop_0 in Hp; by simplify_eq].
    apply Z.leb_le in E. destruct l; simpl in *; [congruence|lia]. }
  intros t. rewrite Hl. unfold selected. rewrite list_elem_of_filter, (elem_of_values (repo_view d) _ _ (Permutation_refl _)).
  unfold selects. simpl. rewrite !andb_true_r, String.eqb_eq. split.
  - intros [<- [k Hk]]. by rewrite (repo_wf d (proj1 Hd) k t Hk).
  - intros [Ht <-]. eauto.
Qed.

Lemma DeleteTask_app env d b u id : app_inv d →
  let '((env', (d', b')), r) := run app (taskSvc (DeleteTask u id)) (env, (d, b)) in
  app_inv d' ∧ b' = b ∧ arepo_rows d' ⊆ arepo_rows d ∧
  (∀ i a, arepo_rows d !! i = Some a → arepo_rows d' !! i = Some a ∨ a.(att_TaskID) = id ∧ own d u id) ∧
  match r with
  | None => own d u id ∧ repo_view d' = delete id (repo_view d)
  | Some _ => repo_view d' = repo_view d
  end.
Proof.
  intros Hd. rewrite run_task. pose proof (DeleteTask_spec h env d u id (proj1 Hd)) as Hs.
  assert (Hrun : let '((_, d'), r) := run (handle_sum handle_env h) (DeleteTask u id) (env, d) in
    app_inv d' ∧ arepo_rows d' ⊆ arepo_rows d ∧ ∀ i a, arepo_rows d !! i = Some a →
      arepo_rows d' !! i = Some a ∨ is_Some (repo_view d !! a.(att_TaskID)) ∧ repo_view d' !! a.(att_TaskID) = None).
  { clear Hs. unfold DeleteTask. destruct (isValidID id); simpl; [|by auto].
    pose proof (rows_after _ (Task.Delete id u) d) as Hrows.
    pose proof (link_rows _ (Task.Delete id u) d (proj1 Hd) (proj2 Hd)) as [Hsub _].
    pose proof (repo_step_inv _ (Task.Delete id u) d (proj1 Hd)) as Hi1.
    pose proof (link_task_inv _ (Task.Delete id u) d (proj1 Hd) (proj2 Hd)) as Hi2.
    destruct (h _ (Task.Delete id u) d) as [d1 [e|]]; simpl in *; (split; [done|]); auto. }
  destruct (run _ _ _) as [[env' d'] r]. simpl in Hs. destruct Hs as (_ & Hs), Hrun as (Hd' & Hsub & Hrows).
  split_and!; try done; [|by destruct r; [destruct Hs|]].
  intros i a Hi. destruct (Hrows i a Hi) as [|[[t Ht] Hn]]; [by left|]. destruct r as [e|].
  - destruct Hs as [Hs _]. congruence.
  - destruct Hs as [Hown Hv]. right. rewrite Hv in Hn. apply lookup_delete_None in Hn as [<-|Hn]; [done|congruence].
Qed.
(** The attachment service leaves the tasks alone. *)
Lemma attachment_run_linked {A} (p : prog attachE A) env d b : app_inv d →
  let '((_, (d', _)), _) := run (handle_sum handle_env (handle_sum ha hb)) p (env, (d, b)) in
  app_inv d' ∧ repo_view d' = repo_view d.
Proof.
  intros Hd.
  pose proof (run_invariant (handle_sum handle_env (handle_sum ha hb))
    (λ w, app_inv w.2.1 ∧ repo_view w.2.1 = repo_view d) p) as Hr.
  assert (Hstep : ∀ X (e : attachE X) s, app_inv s.2.1 ∧ repo_view s.2.1 = repo_view d →
    let s' := (handle_sum handle_env (handle_sum ha hb) X e s).1 in
    app_inv s'.2.1 ∧ repo_view s'.2.1 = repo_view d).
  { intros X e [env0 [d0 b0]] [[Hr0 Ha0] Hv0]. cbn [fst snd] in *. destruct e as [e|[e|e]]; cbn [handle_sum].
    - by destruct (handle_env X e env0).
    - pose proof (link_attach_inv X e d0 Hr0 Ha0). pose proof (arepo_step_inv X e d0 Ha0).
      pose proof (link_tasks X e d0 Hr0 Ha0) as Hv. destruct (ha X e d0). simpl in *. rewrite Hv. done.
    - by destruct (hb X e b0). }
  specialize (Hr Hstep (env, (d, b)) (conj Hd eq_refl)).
  by destruct (run (handle_sum handle_env (handle_sum ha hb)) p (env, (d, b))) as [[env' [d' b']] x].
Qed.

(** ** The cascade's footprint

    What the deletion of what [u] owns may have done, wherever it stopped: tasks,
    rows and blobs only went, and only those of [u]. *)
Record footprint (u : string) (d : D) (b : B) (d' : D) (b' : B) : Prop := {
  fp_inv : app_inv d';
  fp_tasks : repo_view d' ⊆ repo_view d;
  fp_others : ∀ id t, repo_view d !! id = Some t → t.(task_UserID) ≠ u → repo_view d' !! id = Some t;
  fp_rows : arepo_rows d' ⊆ arepo_rows d;
  fp_other_rows : ∀ i a, arepo_rows d !! i = Some a → ¬ own d u a.(att_TaskID) → arepo_rows d' !! i = Some a;
  fp_blobs : blob_view b' ⊆ blob_view b;
  fp_other_blobs : ∀ k blob, blob_view b !! k = Some blob →
    (∀ a, has_key (arepo_rows d) k a → ¬ own d u a.(att_TaskID)) → blob_view b' !! k = Some blob;
}.

Lemma footprint_refl u d b : app_inv d → footprint u d b d b.
Proof. by split. Qed.

Lemma own_weaken d d' u id : repo_view d' ⊆ repo_view d → own d' u id → own d u id.
Proof.
  intros Hsub [t Ht]. apply owned_Some in Ht as [Ht Hu]. exists t. apply owned_Some.
  split; [by eapply lookup_weaken|done].
Qed.

Lemma footprint_trans u d b d1 b1 d2 b2 :
  footprint u d b d1 b1 → footprint u d1 b1 d2 b2 → footprint u d b d2 b2.
Proof.
  intros H1 H2. split.
  - apply H2.
  - etransitivity; [apply H2|apply H1].
  - intros id t Ht Hu. apply H2; [by apply H1|done].
  - etransitivity; [apply H2|apply H1].
  - intros i a Ha Hn. eapply fp_other_rows; [exact H2|by apply H1|].
    intros Ho. apply Hn. eapply own_weaken; [apply H1|done].
  - etransitivity; [apply H2|apply H1].
  - intros k blob Hk Hn. eapply fp_other_blobs; [exact H2|by apply H1|]. intros a [Ha Hka] Ho.
    apply (Hn a); [split; [|done]|eapply own_weaken; [apply H1|done]].
    eapply lookup_weaken; [exact Ha|apply H1].
Qed.
(** ** One attachment *)
Lemma Delete_app env d b u k : app_inv d →
  let '((env', (d', b')), r) := run app (attachmentSvc (Attachment.Delete u k)) (env, (d, b)) in
  footprint u d b d' b' ∧ repo_view d' = repo_view d ∧
  (r = None → ∀ i a, arepo_rows d' !! i = Some a → a.(att_StorageKey) ≠ k).
Proof.
  intros Hd. rewrite run_attachment.
  pose proof (Delete_spec ha hb env d b u k (proj2 Hd)) as Hs.
  pose proof (attachment_run_linked (Attachment.Delete u k) env d b Hd) as Hl.
  destruct (run _ _ _) as [[env' [d' b']] r]. destruct Hl as [Hd' Hv], Hs as (_ & _ & Hs).
  destruct r as [e|].
  - destruct Hs as (Hr & Hb & _). split; [|done].
    split; rewrite ?Hr, ?Hb, ?Hv; done.
  - destruct Hs as (a & [Ha Hk] & Ho & Hr & Hb). rewrite (link_owns d _ _ (proj1 Hd)), bool_decide_eq_true in Ho.
    pose proof (arepo_wf d (proj2 Hd)) as Hwf.
    split; [split|split].
    + done.
    + by rewrite Hv.
    + intros; by rewrite Hv.
    + rewrite Hr. apply delete_subseteq.
    + intros i a' Hi Hn. rewrite Hr, lookup_delete_ne; [done|]. intros <-. rewrite Ha in Hi. by simplify_eq.
    + destruct Hb as [-> | ->]; [done|apply delete_subseteq].
    + intros k' blob Hk' Hn. destruct Hb as [-> | ->]; [done|]. rewrite lookup_delete_ne; [done|].
      intros <-. by apply (Hn a).
    + done.
    + intros _ i a'. rewrite Hr, lookup_delete_Some. intros [Hne Ha'] Hk'. apply Hne.
      apply (wf_att_key _ Hwf _ _ _ _ Ha Ha'). congruence.
Qed.

Lemma deleteAttachments_app env d b u atts : app_inv d →
  let '((env', (d', b')), r) := run app (deleteAttachments u atts) (env, (d, b)) in
  footprint u d b d' b' ∧ repo_view d' = repo_view d ∧
  (r = None → ∀ i a a', a ∈ atts → arepo_rows d' !! i = Some a' → a'.(att_StorageKey) ≠ a.(att_StorageKey)).
Proof.
  revert env d b; induction atts as [|a atts IH]; intros env d b Hd; cbn [deleteAttachments].
  { simpl. split; [by apply footprint_refl|]. split; [done|]. intros _ i a a' Ha. set_solver. }
  rewrite run_bind. pose proof (Delete_app env d b u (att_StorageKey a) Hd) as Hdel.
  destruct (run app (attachmentSvc (Attachment.Delete u (att_StorageKey a))) (env, (d, b))) as [[env1 [d1 b1]] r1].
  destruct Hdel as (Hf & Hv & Hgone). destruct r1 as [e|]; [by simpl|].
  specialize (IH env1 d1 b1 (fp_inv _ _ _ _ _ Hf)).
  destruct (run app (deleteAttachments u atts) (env1, (d1, b1))) as [[env2 [d2 b2]] r2].
  destruct IH as (Hf2 & Hv2 & Hgone2). split; [by eapply footprint_trans|]. split; [congruence|].
  intros -> i a1 a2 [->|Ha]%elem_of_cons Hi; [|by eapply Hgone2].
  apply (Hgone eq_refl i a2). eapply lookup_weaken; [exact Hi|apply Hf2].
Qed.
(** ** The loop over the tasks *)
Lemma clear_task_app env d b u (attachments : bool) taskID : app_inv d →
  let '((env', (d', b')), r) := run app
    (if attachments then
       (atts ← attachmentSvc (ListByTask u taskID);
        match atts with
        | Err e => mret (Some (wrap ("delete account cascade: list attachments for task " +:+ taskID) e))
        | Ok atts => deleteAttachments u atts
        end)%prog
     else mret None) (env, (d, b)) in
  footprint u d b d' b' ∧ repo_view d' = repo_view d ∧
  (r = None → attachments = true → ∀ i a, arepo_rows d' !! i = Some a → a.(att_TaskID) ≠ taskID).
Proof.
  intros Hd. destruct attachments; [|simpl; split; [by apply footprint_refl|done]].
  rewrite run_bind, run_attachment.
  pose proof (ListByTask_spec ha hb env d b u taskID (proj2 Hd)) as Hs.
  pose proof (attachment_run_linked (ListByTask u taskID) env d b Hd) as Hl.
  destruct (run (handle_sum handle_env (handle_sum ha hb)) (ListByTask u taskID) (env, (d, b))) as [[env1 [d1 b1]] r1].
  destruct Hl as [Hd1 Hv1], Hs as (_ & Hr1 & -> & _ & Hs).
  assert (Hf1 : footprint u d b d1 b) by (by split; rewrite ?Hr1, ?Hv1).
  destruct r1 as [atts|e]; [|by simpl]. destruct Hs as (_ & Hatts & _).
  pose proof (deleteAttachments_app env1 d1 b u atts Hd1) as Hda.
  destruct (run app (deleteAttachments u atts) (env1, (d1, b))) as [[env2 [d2 b2]] r2].
  destruct Hda as (Hf2 & Hv2 & Hgone). split; [by eapply footprint_trans|]. split; [congruence|].
  intros -> _ i a Hi Ht. apply (Hgone eq_refl i a a); [|done|done]. rewrite Hatts.
  assert (arepo_rows d !! i = Some a) as Hi' by (rewrite <-Hr1; eapply lookup_weaken; [exact Hi|apply Hf2]).
  apply list_elem_of_filter. split; [by apply String.eqb_eq|].
  apply (elem_of_values (arepo_rows d) _ _ (Permutation_refl _)). eauto.
Qed.

Lemma delete_task_footprint env d b u id : app_inv d →
  let '((env', (d', b')), r) := run app (taskSvc (DeleteTask u id)) (env, (d, b)) in
  footprint u d b d' b' ∧ (r = None → repo_view d' !! id = None).
Proof.
  intros Hd. pose proof (DeleteTask_app env d b u id Hd) as Hs.
  destruct (run _ _ _) as [[env' [d' b']] r]. destruct Hs as (Hd' & -> & Hsub & Hrows & Hs).
  assert (Hown : repo_view d' = repo_view d ∨ own d u id ∧ repo_view d' = delete id (repo_view d))
    by (destruct r; auto).
  split; [split; try done|].
  - destruct Hown as [->|[_ ->]]; [done|apply delete_subseteq].
  - intros id' t Ht Hu. destruct Hown as [->|[[t' Ht'] ->]]; [done|]. rewrite lookup_delete_ne; [done|].
    intros <-. apply owned_Some in Ht' as [Ht' Hu']. congruence.
  - intros i a Hi Hn. destruct (Hrows i a Hi) as [|[He Ho]]; [done|]. destruct Hn. by rewrite He.
  - intros ->. destruct Hs as [_ ->]. apply lookup_delete_eq.
Qed.

Lemma deleteTasks_app env d b u (attachments : bool) tasks : app_inv d →
  let '((env', (d', b')), r) := run app (deleteTasks attachments u tasks) (env, (d, b)) in
  footprint u d b d' b' ∧
  (r = None → ∀ t, t ∈ tasks → repo_view d' !! t.(task_ID) = None ∧
     (attachments = true → ∀ i a, arepo_rows d' !! i = Some a → a.(att_TaskID) ≠ t.(task_ID))).
Proof.
  revert env d b; induction tasks as [|t tasks IH]; intros env d b Hd; cbn [deleteTasks].
  { simpl. split; [by apply footprint_refl|]. intros _ t Ht. set_solver. }
  rewrite run_bind. pose proof (clear_task_app env d b u attachments (task_ID t) Hd) as Hc.
  match type of Hc with context [run ?h ?p ?s] => destruct (run h p s) as [[env1 [d1 b1]] r1] end. destruct Hc as (Hf1 & Hv1 & Hgone1).
  destruct r1 as [e|]; [by simpl|]. rewrite run_bind.
  pose proof (delete_task_footprint env1 d1 b1 u (task_ID t) (fp_inv _ _ _ _ _ Hf1)) as Hdel.
  match type of Hdel with context [run ?h ?p ?s] => destruct (run h p s) as [[env2 [d2 b2]] r2] end. destruct Hdel as [Hf2 Hgone2].
  pose proof (footprint_trans _ _ _ _ _ _ _ Hf1 Hf2) as Hf12.
  destruct r2 as [e|]; [by simpl|]. specialize (IH env2 d2 b2 (fp_inv _ _ _ _ _ Hf2)).
  destruct (run app (deleteTasks attachments u tasks) (env2, (d2, b2))) as [[env3 [d3 b3]] r3]. destruct IH as [Hf3 Hall].
  split; [by eapply footprint_trans|]. intros -> t' [->|Ht']%elem_of_cons; [|by apply Hall]. split.
  - specialize (Hgone2 eq_refl). eapply lookup_weaken_None; [exact Hgone2|apply Hf3].
  - intros Ha i a Hi. apply (Hgone1 eq_refl Ha i a).
    eapply lookup_weaken; [exact Hi|]. transitivity (arepo_rows d2); [apply Hf3|apply Hf2].
Qed.

Lemma deleteAccountCascade_app env d b u (attachments : bool) : app_inv d →
  let '((env', (d', b')), r) := run app (deleteAccountCascade attachments u) (env, (d, b)) in
  footprint u d b d' b' ∧
  (r = None → (∀ id t, repo_view d' !! id = Some t → t.(task_UserID) ≠ u) ∧
     (attachments = true → ∀ i a, arepo_rows d' !! i = Some a → ¬ own d u a.(att_TaskID))).
Proof.
  intros Hd. unfold deleteAccountCascade. rewrite run_bind. pose proof (ListTasks_app env d b u Hd) as Hs.
  match type of Hs with context [run ?h ?p ?s] => destruct (run h p s) as [[env1 [d1 b1]] r1] end. destruct Hs as (Hd1 & -> & Hv1 & Hr1 & Hs).
  assert (Hf1 : footprint u d b d1 b) by (by split; rewrite ?Hr1, ?Hv1).
  destruct r1 as [[tasks n]|e]; [|by simpl]. specialize (Hs tasks n eq_refl).
  pose proof (deleteTasks_app env1 d1 b u attachments tasks Hd1) as Ht.
  destruct (run app (deleteTasks attachments u tasks) (env1, (d1, b))) as [[env2 [d2 b2]] r2]. destruct Ht as [Hf2 Hall].
  split; [by eapply footprint_trans|]. intros ->. specialize (Hall eq_refl). split.
  - intros id t Ht Hu. assert (repo_view d !! id = Some t) as Ht1
      by (rewrite <-Hv1; eapply lookup_weaken; [exact Ht|apply Hf2]).
    pose proof (repo_wf d (proj1 Hd) id t Ht1) as <-.
    destruct (Hall t) as [Hn _]; [by apply Hs|]. congruence.
  - intros Ha i a Hi [t Ht]. apply owned_Some in Ht as [Ht Hu].
    pose proof (repo_wf d (proj1 Hd) _ _ Ht) as He.
    destruct (Hall t) as [_ Hn]; [apply Hs; by rewrite He|]. by apply (Hn Ha i a Hi).
Qed.
End app.

(** * The in-memory stores

    One state holds the tasks, the attachments' rows and what the context of the
    latter answers. *)
Section memory.
Context `{Iter : MapIteration} {S : Type} (h : handler repoE S) `{!TaskRepository h}.
Hypothesis h_foreign : ∀ s id u err, (h _ (FindByID id u) s).2 = Err err →
  err = ErrNotFound task_pkg ∨ aforeign err = true.

Definition handle_tasks : handler repoE (Env * S * rows) := λ X e '(env, s, store),
  let '(s, x) := h X e s in ((env, s, store), x).
Definition handle_attachments : handler attachRepoE (Env * S * rows) := handle_amem (handle_owns h).

#[export] Instance tasks_repository : TaskRepository handle_tasks.
Proof.
  refine {| repo_view := λ d, repo_view d.1.2; repo_inv := λ d, repo_inv d.1.2 |}.
  - intros d. apply repo_wf.
  - intros X e [[env s] store] Hi. simpl in *. pose proof (repo_step_inv X e s Hi). by destruct (h X e s).
  - intros X e [[env s] store] Hi. simpl in *. pose proof (repo_sound X e s Hi). by destruct (h X e s).
Defined.

#[export] Instance attachments_repository : AttachmentRepository handle_attachments.
Proof. apply memory_attachments. by apply repository_owners. Defined.

Lemma owns_keeps_tasks X (e : memE X) (w : Env * S) v :
  repo_inv w.2 ∧ repo_view w.2 = v →
  let w' := (handle_sum handle_env (handle_owns h) X e w).1 in repo_inv w'.2 ∧ repo_view w'.2 = v.
Proof.
  destruct w as [env s]. intros [Hi Hv]. cbn [fst snd] in *. destruct e as [e|[id u]]; cbn [handle_sum].
  - by destruct (handle_env X e env).
  - pose proof (handle_owns_spec h h_foreign s id u Hi) as Hs.
    destruct (handle_owns h (result bool) (OwnsTask id u) s) as [s' x]. destruct Hs as (Hi' & Hv' & _).
    simpl. by rewrite Hv'.
Qed.

#[export] Instance memory_linked : Linked handle_tasks handle_attachments.
Proof.
  assert (Hkeep : ∀ X (e : attachRepoE X) d, repo_inv (h := handle_tasks) d →
    repo_inv (h := handle_tasks) (handle_attachments X e d).1 ∧
    repo_view (h := handle_tasks) (handle_attachments X e d).1 = repo_view (h := handle_tasks) d).
  { intros X e [[env s] store] Hi. simpl in Hi. unfold handle_attachments, handle_amem.
    pose proof (run_invariant (handle_sum handle_env (handle_owns h))
      (λ w, repo_inv w.2 ∧ repo_view w.2 = repo_view s) (memoryRepository X e store)) as Hr.
    specialize (Hr (λ X e w, owns_keeps_tasks X e w _) (env, s) (conj Hi eq_refl)).
    match type of Hr with context [run ?h ?p ?s] => destruct (run h p s) as [[env' s'] [store' x]] end.
    done. }
  split.
  - done.
  - intros X e [[env s] store] Hi [Hw Ho]. simpl in *. pose proof (repo_step_inv X e s Hi).
    by destruct (h X e s).
  - intros X e d Hi _. by apply Hkeep.
  - intros X e d Hi _. by apply Hkeep.
  - intros X e [[env s] store] Hi _. simpl. destruct (h X e s) as [s' x]. simpl.
    split; [done|]. intros id a Ha Hn. congruence.
Defined.
End memory.

(** The in-memory task repository passes on nothing but what its context says. *)
Lemma mem_find_foreign `{MapIteration} w id u err :
  (handle_mem _ (FindByID id u) w).2 = Err err → err = ErrNotFound task_pkg ∨ aforeign err = true.
Proof.
  destruct w as [env s]. unfold handle_mem. simpl. destruct (pop Live (env_ctx env)) as [c l]. simpl.
  destruct (pop 0%nat (env_seed env)). simpl. unfold mFindByID.
  destruct (ctx_error c) as [e|] eqn:E; simpl; [intros; simplify_eq; right; by eapply aforeign_ctx|].
  destruct (s !! id) as [t|]; [destruct (String.eqb _ _)|]; simpl; intros; simplify_eq; by left.
Qed.
