(* ===== verification/ConcreteStore.v ===== *)
(** A directory on which the examples and witnesses about attachments evaluate. *)

From S2P Require Import Prelude GoStd GoError Uuid Task TaskMemory Concrete Attachment AttachmentMemory.
From S2P Require Import AttachmentSpec BlobStorage.
Local Open Scope Z_scope.

(** The files of the root, and the time that the next write gets. *)
Abbreviation dir := (gmap string Blob * Z)%type.
Definition dir_files (d : dir) : blobs := base.filter (λ kb, plain_name kb.1 = true) d.1.

Definition disk : handler fsE dir := λ X e '(m, now),
  match e in fsE X return dir * X with
  | GuardCreate k =>
      if plain_name k then ((<[k := {| blob_bytes := []; blob_ModTime := now |}]> m, now), Ok ())
      else ((m, now), Err (Opaque "path escapes the root"))
  | GuardOpen k =>
      ((m, now), match m !! k with Some b => Ok b.(blob_bytes) | None => Err os_ErrNotExist end)
  | GuardResolve k =>
      ((m, now), if plain_name k then Ok k else Err (Opaque "path escapes the root"))
  | FileWrite k data =>
      ((match m !! k with
        | Some b => <[k := {| blob_bytes := b.(blob_bytes) ++ data; blob_ModTime := now |}]> m
        | None => m
        end, now), (Z.of_nat (length data), None))
  | FileClose k => ((m, now), None)
  | OsRemove path =>
      match m !! path with
      | Some _ => ((delete path m, now), None)
      | None => ((m, now), Some (Sentinel os_ErrNotExist))
      end
  | OsReadDir =>
      ((m, now), Ok (map (λ kb, {| ent_Name := kb.1; ent_IsDir := false |}) (map_to_list (dir_files (m, now)))))
  | EntryInfo k =>
      ((m, now), match m !! k with Some b => Ok b.(blob_ModTime) | None => Err os_ErrNotExist end)
  end.

Lemma dir_lookup m now k b : plain_name k = true → dir_files (m, now) !! k = b ↔ m !! k = b.
Proof.
  intros Hk. unfold dir_files; simpl. destruct b as [b|].
  - rewrite map_lookup_filter_Some. simpl. naive_solver.
  - rewrite map_lookup_filter_None. simpl. split; [|by left].
    intros [|Hn]; [done|]. destruct (m !! k) as [b|]; [|done]. by destruct (Hn b eq_refl).
Qed.
Lemma dir_insert m now k b : plain_name k = true → dir_files (<[k := b]> m, now) = <[k := b]> (dir_files (m, now)).
Proof. intros Hk. unfold dir_files; simpl. by rewrite map_filter_insert_True. Qed.
Lemma dir_delete m now k : dir_files (delete k m, now) = delete k (dir_files (m, now)).
Proof. unfold dir_files; simpl. apply map_filter_delete. Qed.

Lemma entries_names (l : list (string * Blob)) :
  map ent_Name (base.filter (λ e, ent_IsDir e = false)
    (map (λ kb, {| ent_Name := kb.1; ent_IsDir := false |}) l)) = l.*1.
Proof.
  induction l as [|[k b] l IH]; [done|]. cbn [map]. rewrite filter_cons_True by done.
  cbn [map fmap list_fmap]. by rewrite IH.
Qed.

Lemma dir_names d k : is_Some (dir_files d !! k) → plain_name k = true.
Proof. intros [b Hb]. unfold dir_files in Hb. by apply map_lookup_filter_Some in Hb as [_ ?]. Qed.

#[export] Instance disk_fs : FileSystem disk.
Proof.
  refine {| fs_files := dir_files; fs_path := id |}.
  - exact dir_names.
  - intros [m now] k Hk. simpl. rewrite Hk. exists now. by apply dir_insert.
  - intros [m now] k. simpl. split; [done|]. intros c Hc Hk. destruct (m !! k) as [b|] eqn:E; [|done].
    apply (dir_lookup m now) in E as ->; [|done]. simpl. congruence.
  - intros [m now] k Hk. simpl. by rewrite Hk.
  - intros [m now] k data b Hk Hb. simpl. split; [lia|]. split; [done|]. split; [done|].
    apply dir_lookup in Hb as ->; [|done]. exists now. rewrite dir_insert by done.
    by rewrite Nat2Z.id, firstn_all.
  - intros [m now] k. done.
  - intros [m now] k Hk. simpl. unfold id. destruct (m !! k) as [b|] eqn:E; simpl.
    + apply dir_delete.
    + split; [done|]. split; [done|]. by apply dir_lookup.
  - intros [m now]. simpl. split; [done|]. intros l [= <-].
    by rewrite entries_names.
  - intros [m now] k b Hb. simpl. split; [done|].
    unfold dir_files in Hb. apply map_lookup_filter_Some in Hb as [Hb _]. simpl in Hb. by rewrite Hb.
Defined.

(** Two attachments of one owner's task; a third file that nothing references. *)
Definition key1 : string := "cccccccc-cccc-4ccc-8ccc-cccccccccccc".
Definition key2 : string := "dddddddd-dddd-4ddd-8ddd-dddddddddddd".
Definition key3 : string := "eeeeeeee-eeee-4eee-8eee-eeeeeeeeeeee".
Definition mk_att (id task key : string) (size created : Z) : Attachment :=
  {| att_ID := id; att_TaskID := task; att_OriginalFilename := "notes.txt"; att_StorageKey := key;
     att_ContentType := "text/plain"; att_SizeBytes := size; att_CreatedAt := created |}.
Definition two_rows : rows :=
  {[ key1 := mk_att key1 id1 key1 2 5; key2 := mk_att key2 id2 key2 3 6 ]}.
Definition three_blobs : blobs :=
  {[ key1 := {| blob_bytes := [104; 105]; blob_ModTime := 5 |};
     key2 := {| blob_bytes := [121; 111; 33]; blob_ModTime := 6 |};
     key3 := {| blob_bytes := [0]; blob_ModTime := 7 |} ]}.

(** A bucket that is always reachable, and a client whose errors say nothing. *)
Definition bucket : handler s3E blobs := λ X e m,
  match e in s3E X return blobs * X with
  | NewClient _ => (m, None)
  | BucketExists _ => (m, Ok true)
  | PutObject _ k r =>
      match rd_err r with
      | Some err => (m, Err err)
      | None => (<[k := {| blob_bytes := rd_bytes r; blob_ModTime := 0 |}]> m, Ok (Z.of_nat (length (rd_bytes r))))
      end
  | RemoveObject _ k => (delete k m, None)
  | StatObject _ k => (m, match m !! k with Some _ => None | None => Some (Opaque "NoSuchKey") end)
  | GetObject _ k => (m, match m !! k with Some b => Ok b.(blob_bytes) | None => Ok [] end)
  | ListObjects _ =>
      (m, map (λ kb, Ok {| ref_Key := kb.1; ref_ModTime := kb.2.(blob_ModTime) |}) (map_to_list m))
  end.
#[export] Instance opaque_minio : Minio := {
  ToErrorResponse _ := {| resp_Code := ""; resp_StatusCode := 0 |};
  AsNetError _ := false;
}.

#[export] Instance bucket_store : ObjectStore bucket.
Proof.
  refine {| s3_objects := id |}.
  - intros m t k r. simpl. destruct (rd_err r) as [e|] eqn:E; simpl; eauto.
  - done.
  - intros m t k. simpl. unfold id. split; [done|]. destruct (m !! k); [eauto|done].
  - intros m t k. simpl. unfold id. split; [done|]. intros c b Hc Hb. rewrite Hb in Hc. congruence.
  - intros m t. simpl. split; [done|]. unfold id. generalize (map_to_list m). intros l refs.
    revert refs. induction l as [|kb l IH]; intros [|ref refs]; simpl; try done.
    intros Heq. simplify_eq. constructor. by apply IH.
Defined.
