(* ===== verification/AttachmentTheorems.v ===== *)
(** Theorems about attachments: uploads, the collector, the stores of bytes, and
    what concurrent requests and the deletion of an account leave behind. *)

From S2P Require Import Prelude GoStd GoError Uuid Task TaskMemory TaskSpec TaskService Concrete.
From S2P Require Import Attachment AttachmentMemory AttachmentSpec AttachmentService AttachmentConcurrent.
From S2P Require Import Breaker BreakerTheorems BlobStorage AttachmentBreaker Wiring ConcreteStore.
Local Open Scope Z_scope.

(** * A concrete application *)
Definition calm_env : Env := env_at [100] [].
Abbreviation mem_tasks := (handle_tasks handle_mem).
Abbreviation mem_attachments := (handle_attachments handle_mem).
Abbreviation mem_store := (Env * (Env * store) * rows)%type.

#[local] Instance mem_owners_instance : AttachmentRepository mem_attachments :=
  attachments_repository handle_mem mem_find_foreign.
#[local] Instance mem_linked_instance : Linked mem_tasks mem_attachments :=
  memory_linked handle_mem mem_find_foreign.

Definition seeded (env : Env) : mem_store := ((env, (env, two_tasks)), two_rows).
Definition seeded_blobs : Env * dir := (calm_env, (three_blobs, 50)).

Lemma two_rows_wf : wf_rows two_rows.
Proof.
  split.
  - intros k a. unfold two_rows. rewrite lookup_insert. case_decide; [by intros [= <-]|].
    rewrite lookup_singleton. case_decide; [by intros [= <-]|done].
  - intros k k' a a'. unfold two_rows. rewrite !lookup_insert, !lookup_singleton.
    repeat case_decide; intros; by simplify_eq.
Qed.
Lemma seeded_inv env : arepo_inv (seeded env).
Proof. split; [exact two_rows_wf|exact two_tasks_wf]. Qed.

(** * Concurrency *)

(** C20: whatever uploads, downloads, deletions and runs of the orphan collector
    interleave, no attachment is ever left without its bytes: in every reachable
    state each row's blob is in the store, with as many bytes as the row says.
    What this rests on is in [timely]: the clock does not go back, a generated
    key has not been used before, and an upload creates its row within the
    collector's minimum age of writing its blob. *)
Theorem attachments_never_dangle `{Sanitize, unicode.Tables} {S B : Type}
    (h : handler attachRepoE S) `{!AttachmentRepository h} (hb : handler blobE B) `{!BlobStore hb}
    (minAge : Z) (sv : Service) (c : aconf S B) :
  sv.(maxBytes) < int64.max → areachable h hb minAge sv c →
  ∀ id a, a_rows h c !! id = Some a → ∃ blob, a_blobs hb c !! a.(att_StorageKey) = Some blob ∧
    Z.of_nat (length blob.(blob_bytes)) = a.(att_SizeBytes).
Proof.
  intros Hbound Hc id a Ha. destruct (areachable_inv h hb minAge sv c Hbound Hc) as [w Hw].
  by destruct (inv_rows _ _ _ _ _ Hw id a Ha) as (_ & _ & Hblob).
Qed.

Definition small : Service := NewService 100 1000.
Definition fs_store : handler blobE (Env * dir) := handle_fsstore disk.
Definition start : aconf mem_store (Env * dir) :=
  {| a_state := (calm_env, (seeded calm_env, seeded_blobs));
     a_threads := [Delete alice key1 ≫= λ _, mret (); CollectOrphans 10 ≫= λ _, mret ()];
     a_time := 100;
     a_puts := blob_ModTime <$> three_blobs |}.

(** The first thread's next call. *)
Definition step_first {S B} (h : handler attachRepoE S) (hb : handler blobE B) (c : aconf S B) : aconf S B :=
  match a_threads c with
  | Vis e k :: ts =>
      let '(st, x) := handle_sum handle_env (handle_sum h hb) _ e (a_state c) in
      {| a_state := st; a_threads := k x :: ts; a_time := a_time c; a_puts := a_puts c |}
  | _ => c
  end.
Lemma first_step {S B} (h : handler attachRepoE S) `{!AttachmentRepository h} (hb : handler blobE B)
    `{!BlobStore hb} minAge c k u (f : option error → prog attachE unit) ts :
  a_threads c = Vis (E := attachE) (inr (inl (DeleteAttachment k u))) f :: ts →
  astep h hb minAge c (step_first h hb c).
Proof.
  intros Hts. unfold step_first. rewrite Hts.
  destruct (handle_sum handle_env (handle_sum h hb) _ _ (a_state c)) as [st x] eqn:E.
  eapply (AStep h hb minAge c _ 0%nat); [by rewrite Hts|exact E|by rewrite Hts|done|done].
Qed.
Definition after_one : aconf mem_store (Env * dir) := step_first mem_attachments fs_store start.

Lemma two_rows_cases (P : string → Attachment → Prop) :
  P key1 (mk_att key1 id1 key1 2 5) → P key2 (mk_att key2 id2 key2 3 6) → ∀ id a, two_rows !! id = Some a → P id a.
Proof.
  intros H1 H2 id a. unfold two_rows. rewrite lookup_insert. case_decide; [intros [= <-]; by subst|].
  rewrite lookup_singleton. case_decide; [intros [= <-]; by subst|done].
Qed.

Lemma start_initial : ainitial mem_attachments fs_store 10 small start.
Proof.
  assert (Hfiles : dir_files (three_blobs, 50) = three_blobs).
  { apply map_filter_id. intros k b. unfold three_blobs.
    rewrite !lookup_insert, lookup_singleton. simpl. by repeat case_decide; intros; simplify_eq. }
  split; [apply seeded_inv|]. split; [|split; [|split]].
  - refine (two_rows_cases (λ _ a, ∃ blob, a_blobs fs_store start !! a.(att_StorageKey) = Some blob ∧
      Z.of_nat (length blob.(blob_bytes)) = a.(att_SizeBytes)) _ _); eexists; (split; [vm_compute; reflexivity|reflexivity]).
  - intros k blob. change (a_blobs fs_store start) with (dir_files (three_blobs, 50)). rewrite Hfiles.
    intros Hk. simpl. by rewrite lookup_fmap, Hk.
  - intros k. cbn [start a_puts]. rewrite lookup_fmap, fmap_is_Some, <-Hfiles. change (blob_key fs_store k) with (plain_name k = true).
    apply dir_names.
  - repeat constructor.
Qed.

Example attachments_never_dangle_witness :
  ∃ blob, a_blobs fs_store after_one !! key2 = Some blob ∧ Z.of_nat (length blob.(blob_bytes)) = 3.
Proof.
  pose proof (attachments_never_dangle mem_attachments fs_store 10 small after_one) as Ht.
  apply (λ H1 H2, Ht H1 H2 key2 (mk_att key2 id2 key2 3 6)); [done| |vm_compute; reflexivity].
  exists start. split; [exact start_initial|]. apply rtc_once.
  exact (first_step mem_attachments fs_store 10 start key1 alice _ _ eq_refl).
Defined.

(** * Uploads *)

(** Text without path separators that is not a directory's name. *)
Definition is_filename (s : string) : Prop :=
  (∀ c, c ∈ chars s → is_separator c = false) ∧ (s ∉ [""; "."; ".."; "/"]) ∧
  utf8.RuneCountInString s ≤ maxOriginalFilenameLen.

Lemma normalizeFilename_is `{Sanitize} name s :
  (∀ t c, c ∈ chars (PlainText t) → is_separator c = true → c ∈ chars t) →
  normalizeFilename name = Ok s → is_filename s.
Proof.
  intros Hplain. unfold normalizeFilename.
  destruct (bool_decide _) eqn:Hn; [done|]. destruct (_ <? _) eqn:Hlen; [done|]. intros [= <-].
  bool_to_prop. split; [|by split]. intros c Hc. destruct (is_separator c) eqn:Hs; [|done].
  apply Hplain in Hc; [|done]. set (l := after_last is_separator name) in *.
  assert (Hl : ∀ x, x ∈ chars l → is_separator x = false) by (intros x Hx; by eapply after_last_chars).
  destruct (decide (l = "")) as [He|He].
  - rewrite He in Hc. simpl in Hc. apply elem_of_cons in Hc as [->|Hc]; [done|]. set_solver.
  - rewrite Base_no_slash in Hc by (done || intros x Hx; by specialize (Hl x Hx) as [? _]%orb_false_iff).
    by rewrite (Hl c Hc) in Hs.
Qed.

Lemma html_not_allowed `{unicode.Tables} tag data :
  tag ∈ http.htmlTags → http.match_tag (bytes tag) (http.skipWS (take sniffLen data)) = true →
  allowedContentTypes !! detectContentType (take sniffLen data) = None.
Proof.
  intros Hin Hm. unfold detectContentType. rewrite (http.html_first tag).
  - vm_compute. reflexivity.
  - done.
  - rewrite take_take. by rewrite Nat.min_id.
Qed.

(** C21: an upload that succeeds was of a task the user owns, within the user's
    quota, the task's number of files and the size limit; it is of one of the
    accepted types as sniffed from its own first bytes, so never HTML whatever the
    client called it; its recorded name is a plain file name; and exactly its row
    and, under a fresh key of the application's own making, exactly the bytes sent
    were added.  One that fails adds no row and touches no blob but under one
    generated key. *)
Theorem Upload_correct `{Sanitize, unicode.Tables} {S B : Type}
    (h : handler attachRepoE S) `{!AttachmentRepository h} (hb : handler blobE B) `{!BlobStore hb}
    (maxBytes maxBytesPerUser : Z) env s b userID taskID name r :
  (∀ t c, c ∈ chars (PlainText t) → is_separator c = true → c ∈ chars t) →
  maxBytes < int64.max → arepo_inv s →
  let sv := NewService maxBytes maxBytesPerUser in
  let '((_, (s', b')), res) :=
    run (handle_sum handle_env (handle_sum h hb)) (Upload sv userID taskID name r) (env, (s, b)) in
  let m := arepo_rows s in
  match res with
  | Ok att =>
      att.(att_TaskID) = taskID ∧ arepo_owns s taskID userID = true ∧
      int64.wrap (bytes_owned (arepo_owns s) userID (values (map_to_list m))) < maxBytesPerUser ∧
      Z.of_nat (length (of_task m taskID)) < maxAttachmentsPerTask ∧
      is_filename att.(att_OriginalFilename) ∧
      att.(att_ContentType) = detectContentType (take sniffLen r.(rd_bytes)) ∧
      is_Some (allowedContentTypes !! att.(att_ContentType)) ∧
      (∀ tag, tag ∈ http.htmlTags → http.match_tag (bytes tag) (http.skipWS (take sniffLen r.(rd_bytes))) = false) ∧
      r.(rd_err) = None ∧ att.(att_SizeBytes) = Z.of_nat (length r.(rd_bytes)) ∧
      att.(att_SizeBytes) ≤ maxBytes ∧
      isValidID att.(att_ID) = true ∧ isValidID att.(att_StorageKey) = true ∧
      m !! att.(att_ID) = None ∧ no_key m att.(att_StorageKey) ∧
      arepo_rows s' = <[att.(att_ID) := att]> m ∧
      ∃ t, blob_view b' = <[att.(att_StorageKey) := {| blob_bytes := r.(rd_bytes); blob_ModTime := t |}]> (blob_view b)
  | Err e => arepo_rows s' = m ∧
      ∃ k, isValidID k = true ∧ ∀ k', k' ≠ k → blob_view b' !! k' = blob_view b !! k'
  end.
Proof.
  intros Hplain Hmax Hinv sv.
  pose proof (Upload_spec h hb sv Hmax env s b userID taskID name r Hinv) as Hs.
  destruct (run _ _ _) as [[env' [s' b']] res]. destruct Hs as (_ & _ & Hs).
  destruct res as [att|e]; [|exact Hs].
  destruct Hs as (_ & Htask & Hown & Hquota & Hcount & Hname & Htype & Hallowed & Hend & Hsize & Hle & HID & Hkey
    & Hn & Hnk & Hrows & Hblob).
  split_and!; try done.
  - by eapply normalizeFilename_is.
  - intros tag Hin. destruct (http.match_tag _ _) eqn:Hm; [|done].
    pose proof (html_not_allowed tag _ Hin Hm) as Hno. rewrite <-Htype in Hno.
    destruct Hallowed as [u Hu]. simpl in Hu. congruence.
Qed.

Lemma strip_keeps s c : c ∈ chars (strip s) → c ∈ chars s.
Proof.
  unfold strip, chars. rewrite String.list_ascii_of_string_of_list_ascii.
  intros Hc%list_elem_of_In%filter_In. apply list_elem_of_In, Hc.
Qed.
Lemma plain_text_keeps t c : c ∈ chars (PlainText t) → is_separator c = true → c ∈ chars t.
Proof.
  intros Hc _. apply strip_keeps.
  apply (list_elem_of_fmap_2 byte_val), strings.TrimSpace_sub in Hc.
  apply list_elem_of_fmap in Hc as (c' & Hv & Hc'). rewrite <-(byte_of_val c), Hv, byte_of_val. exact Hc'.
Qed.

Definition notes : Reader := {| rd_bytes := bytes "some notes"; rd_err := None |}.
Definition upload_env : Env := env_at [100] [repeat 1 16; repeat 2 16].
Abbreviation whole h hb := (handle_sum handle_env (handle_sum h hb)).

Example Upload_correct_witness :
  ∃ att, eval (whole mem_attachments fs_store)
    (Upload (NewService 100 1000) alice id1 "C:\tmp\notes.txt" notes) (upload_env, (seeded calm_env, seeded_blobs)) = Ok att ∧
  att.(att_OriginalFilename) = "notes.txt" ∧ is_Some (allowedContentTypes !! att.(att_ContentType)).
Proof.
  pose proof (Upload_correct mem_attachments fs_store 100 1000 upload_env (seeded calm_env) seeded_blobs
    alice id1 "C:\tmp\notes.txt" notes plain_text_keeps eq_refl (seeded_inv calm_env)) as Ht.
  cbv zeta in Ht. unfold eval.
  assert (Hok : ∃ att, eval (whole mem_attachments fs_store)
    (Upload (NewService 100 1000) alice id1 "C:\tmp\notes.txt" notes) (upload_env, (seeded calm_env, seeded_blobs)) = Ok att
    ∧ att.(att_OriginalFilename) = "notes.txt") by (eexists; split; vm_compute; reflexivity).
  unfold eval in Hok. destruct (run _ _ _) as [[env' [s' b']] res]. destruct Hok as (att & Hres & Hname).
  simpl in Hres. subst res. exists att. destruct Ht as (_ & _ & _ & _ & _ & _ & Hall & _). done.
Defined.

(** * The orphan collector *)

(** The collector changes no row, and of the blobs it removes only those that no
    row references and that were last written longer ago than the minimum age: a
    young blob, or one some row has, survives it; when it reports no error, every
    such blob under a generated key is gone.  Without a positive minimum age it
    does nothing. *)
Theorem CollectOrphans_correct {S B : Type}
    (h : handler attachRepoE S) `{!AttachmentRepository h} (hb : handler blobE B) `{!BlobStore hb}
    env s b minAge :
  arepo_inv s →
  let '((_, (s', b')), (deleted, err)) :=
    run (handle_sum handle_env (handle_sum h hb)) (CollectOrphans minAge) (env, (s, b)) in
  let now := (pop 0 (env_clock env)).1 in
  let orphan k := no_key (arepo_rows s) k ∧
    ∃ blob, blob_view b !! k = Some blob ∧ blob.(blob_ModTime) < now - minAge in
  arepo_rows s' = arepo_rows s ∧
  (∀ k, ¬ orphan k → blob_view b' !! k = blob_view b !! k) ∧
  (err = None → 0 < minAge ∧ ∀ k, orphan k → isValidID k = true → blob_view b' !! k = None) ∧
  (minAge ≤ 0 → blob_view b' = blob_view b).
Proof.
  intros Hinv. pose proof (CollectOrphans_spec h hb env s b minAge Hinv) as Hs.
  assert (Herr : minAge ≤ 0 → (run (whole h hb) (CollectOrphans minAge) (env, (s, b))).2.2 ≠ None).
  { intros Hle. unfold CollectOrphans. by rewrite (proj2 (Z.leb_le _ _) Hle). }
  destruct (run _ _ _) as [[env' [s' b']] [deleted err]]. simpl in Herr.
  destruct Hs as (_ & Hrows & _ & Hkeep & Hgone). split_and!.
  - done.
  - intros k Hk. apply Hkeep. left. tauto.
  - intros ->. split; [destruct (Z.lt_ge_cases 0 minAge); [done|by destruct Herr]|].
    intros k [Hn Ho] Hv. by apply Hgone.
  - intros Hle. apply map_eq. intros k. apply Hkeep. by right.
Qed.

Example CollectOrphans_correct_witness :
  let '((_, (s', b')), (deleted, err)) := run (whole mem_attachments fs_store) (CollectOrphans 10)
    (env_at [100] [], (seeded calm_env, seeded_blobs)) in
  arepo_rows s' = two_rows ∧ blob_view b' !! key1 = blob_view seeded_blobs !! key1.
Proof.
  pose proof (CollectOrphans_correct mem_attachments fs_store (env_at [100] []) (seeded calm_env) seeded_blobs 10
    (seeded_inv calm_env)) as Ht.
  cbv zeta in Ht.
  destruct (run _ _ _) as [[env' [s' b']] [deleted err]]. destruct Ht as (Hr & Hkeep & _).
  split; [exact Hr|]. apply Hkeep. intros [Hn _]. apply (Hn key1 (mk_att key1 id1 key1 2 5)); reflexivity.
Defined.

(** A file that no upload made, in a directory served with the in-memory
    repository: the collector takes it. *)
Definition stray_blobs : Env * dir := (calm_env, ({[ "README" := {| blob_bytes := [82]; blob_ModTime := 1 |} ]}, 50)).
Example collector_takes_strays :
  let '((_, (_, b')), res) := run (whole mem_attachments fs_store) (CollectOrphans 10)
    (env_at [100] [], (seeded calm_env, stray_blobs)) in
  res = (1, None) ∧ b'.2.1 !! "README" = None.
Proof. vm_compute. done. Qed.

(** * The deletion of an account *)

(** C22: what deleting an account does to tasks and attachments, over any stores that
    share their tasks (the in-memory ones, or two tables of a database).  When the
    cascade reports success the user has no task left and, if attachments are
    enabled, no row of an attachment on one of them; and wherever it stops, with or
    without an error, nothing was added, and no task, row or blob that is not the
    user's own was touched. *)
Theorem deleteAccountCascade_correct {D B : Type}
    (h : handler repoE D) (ha : handler attachRepoE D) `{!TaskRepository h, !AttachmentRepository ha, !Linked h ha}
    (hb : handler blobE B) `{!BlobStore hb} (attachments : bool) (u : string) env d b :
  repo_inv d → arepo_inv d →
  let '((_, (d', b')), res) := run (handle_app h ha hb) (deleteAccountCascade attachments u) (env, (d, b)) in
  let own id := is_Some (owned (repo_view d) u id) in
  (res = None →
     (∀ id t, repo_view d' !! id = Some t → t.(task_UserID) ≠ u) ∧
     (attachments = true → ∀ i a, arepo_rows d' !! i = Some a → ¬ own a.(att_TaskID))) ∧
  repo_view d' ⊆ repo_view d ∧ arepo_rows d' ⊆ arepo_rows d ∧ blob_view b' ⊆ blob_view b ∧
  (∀ id t, repo_view d !! id = Some t → t.(task_UserID) ≠ u → repo_view d' !! id = Some t) ∧
  (∀ i a, arepo_rows d !! i = Some a → ¬ own a.(att_TaskID) → arepo_rows d' !! i = Some a) ∧
  (∀ k blob, blob_view b !! k = Some blob → (∀ a, has_key (arepo_rows d) k a → ¬ own a.(att_TaskID)) →
     blob_view b' !! k = Some blob).
Proof.
  intros Hi Ha. pose proof (deleteAccountCascade_app h ha hb env d b u attachments (conj Hi Ha)) as Hs.
  destruct (run _ _ _) as [[env' [d' b']] res]. destruct Hs as [Hf Hdone]. split; [exact Hdone|].
  split_and!; apply Hf.
Qed.

Example deleteAccountCascade_correct_witness :
  let '((_, (d', b')), res) := run (handle_app mem_tasks mem_attachments fs_store)
    (deleteAccountCascade true alice) (calm_env, (seeded calm_env, seeded_blobs)) in
  res = None ∧ repo_view d' !! id1 = None ∧ repo_view d' !! id2 = two_tasks !! id2 ∧
  arepo_rows d' !! key2 = two_rows !! key2 ∧ blob_view b' !! key1 = None.
Proof.
  assert (Hok : let '((_, (d', b')), res) := run (handle_app mem_tasks mem_attachments fs_store)
    (deleteAccountCascade true alice) (calm_env, (seeded calm_env, seeded_blobs)) in
    res = None ∧ repo_view d' !! id1 = None ∧ blob_view b' !! key1 = None) by (vm_compute; done).
  pose proof (deleteAccountCascade_correct mem_tasks mem_attachments fs_store true alice calm_env (seeded calm_env)
    seeded_blobs two_tasks_wf (seeded_inv calm_env)) as Ht. cbv zeta in Ht.
  destruct (run _ _ _) as [[env' [d' b']] res]. destruct Hok as (Hres & H1 & Hb).
  destruct Ht as (_ & _ & _ & _ & Htasks & Hrows & _). split_and!; try done.
  - rewrite (Htasks id2 (mk_task id2 bob "read" StatusDone 2 3)); [reflexivity|reflexivity|done].
  - rewrite (Hrows key2 (mk_att key2 id2 key2 3 6)); [reflexivity|reflexivity|].
    intros [t Ho]. vm_compute in Ho. done.
Defined.

(** * The stores of bytes *)

(** C23: every store of bytes the program can be built with keeps the same contract
    on every call: the directory behind its guard and the bucket behind its client, bare
    or behind the two circuit breakers; and either behind the breakers, a listing leaves
    the one for the other calls alone, and the other calls the one for listings. *)
Theorem blob_stores_conform `{unicode.Tables, Minio} {F O B1 B2 : Type}
    (fs : handler fsE F) `{!FileSystem fs} (s3 : handler s3E O) `{!ObjectStore s3} (s : s3BlobStore)
    (rw : handler bastionE B1) `{!Bastion rw} (sweep : handler bastionE B2) `{!Bastion sweep}
    X (e : blobE X) :
  let directory := handle_sbreaker rw sweep (handle_fsstore fs) in
  let bucket := handle_sbreaker rw sweep (handle_s3 s3 s) in
  (∀ w, blob_pre (λ k, plain_name k = true) e →
     let '(w', x) := handle_fsstore fs X e w in
     blob_spec (λ k, plain_name k = true) e (fs_files w.2) (fs_files w'.2) x) ∧
  (∀ w, blob_pre (λ k, plain_name k = true) e →
     let '(w', x) := directory X e w in
     blob_spec (λ k, plain_name k = true) e (fs_files w.2.2) (fs_files w'.2.2) x) ∧
  (∀ w, blob_pre (λ _, True) e →
     let '(w', x) := handle_s3 s3 s X e w in blob_spec (λ _, True) e (s3_objects w) (s3_objects w') x) ∧
  (∀ w, blob_pre (λ _, True) e →
     let '(w', x) := bucket X e w in blob_spec (λ _, True) e (s3_objects w.2) (s3_objects w'.2) x) ∧
  (∀ w v, match e with
        | ListBlobs => (directory X e w).1.1.1 = w.1.1 ∧ (bucket X e v).1.1.1 = v.1.1
        | _ => (directory X e w).1.1.2 = w.1.2 ∧ (bucket X e v).1.1.2 = v.1.2
        end).
Proof.
  intros directory bucket. split_and!.
  - intros w Hp. pose proof (blob_sound (h := handle_fsstore fs) X e w Hp) as Hs.
    by destruct (handle_fsstore fs X e w).
  - intros w Hp. pose proof (blob_sound (h := directory) X e w Hp) as Hs. by destruct (directory X e w).
  - intros w Hp. pose proof (blob_sound (h := handle_s3 s3 s) X e w Hp) as Hs. by destruct (handle_s3 s3 s X e w).
  - intros w Hp. pose proof (blob_sound (h := bucket) X e w Hp) as Hs. by destruct (bucket X e w).
  - intros w v. unfold directory, bucket. rewrite !sbreaker_call. unfold store_call.
    destruct e; (split; by destruct (guarded_call _ _ _ _ _ _) as [[? ?] ?]).
Qed.

Example blob_stores_conform_witness :
  blob_spec (λ _, True) (Put key1 notes 4) ∅ (s3_objects (h := bucket)
    (handle_s3 bucket {| s3_callTimeout := 0 |} _ (Put key1 notes 4) ∅).1) (Err ErrTooLarge).
Proof.
  pose proof (blob_stores_conform disk bucket {| s3_callTimeout := 0 |} fuse fuse _ (Put key1 notes 4)) as (_ & _ & Ht & _).
  exact (Ht ∅ (conj I eq_refl)).
Defined.
