(* ===== verification/StoreTheorems.v ===== *)
(** The in-memory stores of the three packages keep the contracts of their
    interfaces. *)

From S2P Require Import Prelude GoStd GoError Uuid Task TaskMemory TaskSpec Concrete.
From S2P Require Import User UserMemory UserSpec ConcreteUser UserTheorems.
From S2P Require Import Attachment AttachmentMemory AttachmentSpec Wiring ConcreteStore AttachmentTheorems.
Local Open Scope Z_scope.

(** C7: every in-memory repository does on every call what the interface in front of
    it promises, for every context, clock, iteration order of its maps and every
    state it can be in, and stays in such a state: the tasks under their
    identifiers; the users with their index by address in step and at most the
    allowed number of sessions, the oldest evicted first; the attachments under
    identifier and storage key, asking another component who owns a task. *)
Theorem memory_repositories_refine `{MapIteration} :
  (∀ X (e : repoE X) w, wf_store w.2 →
     wf_store (handle_mem X e w).1.2 ∧
     repo_spec e w.2 (handle_mem X e w).1.2 (handle_mem X e w).2) ∧
  (∀ X (e : userRepoE X) env r, mem_inv r → fresh_call e (view_mem r) →
     mem_inv (handle_umem X e (env, r)).1.2 ∧
     user_spec e (view_mem r) (view_mem (handle_umem X e (env, r)).1.2) (handle_umem X e (env, r)).2) ∧
  (∀ T (ask : handler ownsE T) `{!TaskOwners ask} X (e : attachRepoE X) w,
     wf_rows w.2 → owners_inv w.1.2 →
     wf_rows (handle_amem ask X e w).1.2 ∧ owners_inv (handle_amem ask X e w).1.1.2 ∧
     attach_spec e (owners w.1.2) w.2 (handle_amem ask X e w).1.2 (handle_amem ask X e w).2).
Proof.
  split_and!.
  - intros X e w Hwf. split; [by apply mem_wf|by apply mem_sound].
  - intros X e env r Hi Hf. split; [by apply (umem_inv X e (env, r))|by apply (umem_sound X e (env, r))].
  - intros T ask Hask X e w Hwf Ho. destruct (amem_sound ask X e w Hwf Ho) as (Hs & Ho' & _).
    split; [by eapply attach_spec_wf|done].
Qed.

#[local] Instance mem_ask_instance : TaskOwners (handle_owns handle_mem) := repository_owners handle_mem mem_find_foreign.
Definition two_of_each : Env * (Env * store) * rows := (env_at [] [], (env_at [] [], two_tasks), two_rows).
Definition look_up : Env * (Env * store) * rows * result Attachment :=
  handle_amem (handle_owns handle_mem) _ (FindByStorageKey key1 alice) two_of_each.
Definition removal : (Env * store) * option error := handle_mem _ (Task.Delete id1 alice) (env_at [] [], two_tasks).

Example memory_repositories_refine_witness :
  wf_store removal.1.2 ∧
  mem_inv after_third ∧ user_spec third_login (view_mem alice_store) (view_mem after_third) None ∧
  attach_spec (FindByStorageKey key1 alice) (owners two_of_each.1.2) two_of_each.2 look_up.1.2 look_up.2.
Proof.
  destruct memory_repositories_refine as (Ht & Hu & Ha).
  assert (fresh_call third_login (view_mem alice_store)) as Hf by (vm_compute; discriminate).
  pose proof (Hu _ third_login calm alice_store alice_store_inv Hf) as [Hi H2].
  assert ((handle_umem _ third_login (calm, alice_store)).2 = None) as Hn by (vm_compute; reflexivity).
  rewrite Hn in H2.
  pose proof (Ht _ (Task.Delete id1 alice) (env_at [] [], two_tasks) two_tasks_wf) as [Ht1 _].
  pose proof (Ha _ (handle_owns handle_mem) mem_ask_instance _ (FindByStorageKey key1 alice) two_of_each two_rows_wf two_tasks_wf)
    as (_ & _ & Ha1).
  exact (conj Ht1 (conj Hi (conj H2 Ha1))).
Defined.
