(* ===== verification/AttachmentHandler.v ===== *)
(** [internal/attachment/handler.go]: uploading, listing, downloading and deleting
    attachments over HTTP, with the parts of [mime] and [net/http] the file uses. *)

From S2P Require Import Prelude GoStd GoError Uuid Http Middleware Attachment.
Local Open Scope Z_scope.

Definition multipartMemoryBytes : Z := Z.shiftl 1 20.
Definition fileFormField : string := "file".

(** * [mime] *)
Module mime.
Definition isTSpecial (c : ascii) : bool :=
  bool_decide (c ∈ String.list_ascii_of_string ("()<>@,;:\/[]?=" +:+ quote.dquote)).
Definition isTokenChar (c : ascii) : bool :=
  (32 <? byte_val c) && (byte_val c <? 127) && negb (isTSpecial c).
Definition isToken (s : string) : bool :=
  negb (String.eqb s "") && forallb isTokenChar (String.list_ascii_of_string s).
Definition needsEncoding (s : string) : bool :=
  existsb (λ r, ((r <? 32) || (126 <? r)) && negb (r =? 9)) (utf8.runes s).

Definition upper_hex (d : Z) : ascii := if d <? 10 then byte_of (48 + d) else byte_of (55 + d).
(** The characters of an extended value that stand for themselves. *)
Definition attribute_char (c : ascii) : bool :=
  let v := byte_val c in
  negb ((v <=? 32) || (127 <=? v) || (v =? 42) || (v =? 39) || (v =? 37) || isTSpecial c).
Fixpoint percent_encode (s : string) : string :=
  match s with
  | "" => ""
  | String c s' =>
      if attribute_char c then String c (percent_encode s')
      else String "%" (String (upper_hex (byte_val c / 16))
             (String (upper_hex (byte_val c mod 16)) (percent_encode s')))
  end.
Fixpoint escape (s : string) : string :=
  match s with
  | "" => ""
  | String c s' =>
      if (byte_val c =? 34) || (byte_val c =? 92) then String "\" (String c (escape s'))
      else String c (escape s')
  end.

(** [mime.FormatMediaType] of a type without a slash, with one parameter; both are
    in lower case where the code calls it. *)
Definition FormatMediaType (t attribute value : string) : string :=
  if negb (isToken t) || negb (isToken attribute) then ""
  else t +:+ "; " +:+ attribute +:+
    (if needsEncoding value then "*=utf-8''" +:+ percent_encode value
     else if isToken value then "=" +:+ value
     else "=" +:+ quote.dquote +:+ escape value +:+ quote.dquote).
End mime.

(** * [net/http] and [mime/multipart] *)

(** One part of a multipart body: the names its header gives, and its bytes. *)
Record Part := { part_FormName : string; part_FileName : string; part_Reader : Reader }.

(** What [r.MultipartReader] finds when the body is limited to so many bytes:
    nothing, if the request is not multipart; otherwise the parts that [NextPart]
    returns one after the other, and the error it ends with, which is [io.EOF]
    after the last part. *)
Class MultipartBody := MultipartReader : Request → Z → option (list Part * error).

(** [http.MaxBytesReader] takes a negative limit for zero. *)
Definition MaxBytesReader (n : Z) : Z := Z.max 0 n.

(** [http.ServeContent]: a response made of the request, the name, the time, the
    content and the header as set so far.  What it keeps to: no answer is a
    redirect or a failure of its own other than the ones for conditional and range
    requests; it leaves [Content-Disposition] alone; a request that is neither gets
    the whole content under the type that was set. *)
Definition conditional (r : Request) : bool :=
  existsb (λ k, negb (String.eqb (Header_Get r.(req_Header) k) ""))
    ["If-Match"; "If-None-Match"; "If-Modified-Since"; "If-Unmodified-Since"; "If-Range"; "Range"].
Class ContentServer := {
  ServeContent : Request → string → Z → list Z → wire → wire;
  serve_statuses : ∀ r name t content w, w_sent w = None →
    ∃ st hd, w_sent (ServeContent r name t content w) = Some (st, hd) ∧
      st ∈ [200; 206; 304; 412; 416] ∧
      Header_Get hd "Content-Disposition" = Header_Get (w_header w) "Content-Disposition";
  serve_log : ∀ r name t content w, w_log (ServeContent r name t content w) = w_log w;
  serve_whole : ∀ r name t content w, w_sent w = None → conditional r = false →
    req_Method r = MethodGet →
    ∃ hd, w_sent (ServeContent r name t content w) = Some (200, hd) ∧
      Header_Get hd "Content-Type" = Header_Get (w_header w) "Content-Type" ∧
      w_body (ServeContent r name t content w) = w_body w ++ [CText (of_bytes content)];
}.

(** * Responses *)
Definition attachment_json (a : Attachment) : json :=
  JObj [("id", JStr a.(att_ID)); ("task_id", JStr a.(att_TaskID));
        ("original_filename", JStr a.(att_OriginalFilename)); ("storage_key", JStr a.(att_StorageKey));
        ("content_type", JStr a.(att_ContentType)); ("size_bytes", JNum (strconv.Itoa a.(att_SizeBytes)));
        ("created_at", JTime a.(att_CreatedAt))].

(** Encoding such values does not fail, so the log line for that is not here. *)
Definition writeJSON (w : wire) (status : Z) (data : json) : wire :=
  Write (CJson data) (WriteHeader status (set_header "Content-Type" "application/json" w)).
Definition writeError (w : wire) (status : Z) (message : string) : wire :=
  writeJSON w status (JObj [("error", JStr message)]).

Definition request_id (r : Request) : string := default "" (RequestIDFromContext r.(req_Context)).
Definition error_attrs (r : Request) (err : error) : list (string * attr) :=
  [("error", AErr err); ("request_id", AStr (request_id r)); ("method", AStr r.(req_Method));
   ("path", AStr r.(req_Path))].
Definition set_retry_after (err : error) (w : wire) : wire :=
  match AsRetryAfter err with
  | Some d => set_header "Retry-After" (strconv.Itoa (time.whole_seconds d)) w
  | None => w
  end.

Definition handleServiceError (r : Request) (w : wire) (err : error) : wire :=
  if Is err (ErrNotFound attachment_pkg) then writeError w 404 "attachment not found"
  else if Is err ErrTaskNotFound then writeError w 404 "task not found"
  else if Is err (ErrInvalidInput attachment_pkg) then writeError w 400 (Error err)
  else if Is err (ErrAlreadyExists attachment_pkg) then
    writeError (log LevelError "attachment identifier collision"
      [("error", AErr err); ("request_id", AStr (request_id r)); ("path", AStr r.(req_Path))] w)
      500 "internal server error"
  else if Is err (ErrDependencyUnavailable attachment_pkg) then
    writeError (log LevelError "dependency unavailable" (error_attrs r err) w) 503
      "service temporarily unavailable, please retry"
  else if Is err (ErrUnavailable attachment_pkg) then
    let w := log LevelWarn "attachment store circuit open, call rejected" (error_attrs r err) w in
    writeError (set_retry_after err w) 503 "attachment storage temporarily unavailable, please retry"
  else
    writeError (log LevelError "unexpected service error" (error_attrs r err) w) 500
      "internal server error".

(** * The handlers *)
Section handlers.
Context `{Sanitize, unicode.Tables, MultipartBody, ContentServer} (svc : Service).
(** [Handler.maxBytes]. *)
Context (maxBytes : Z).

Definition authenticated (k : string → Handler attachE) : Handler attachE := λ r w,
  match UserIDFromContext r.(req_Context) with
  | None => finish (writeError w 401 "unauthorized")
  | Some userID => k userID r w
  end.

(** The loop over the parts: the first one of the field is uploaded, the ones
    before it are skipped. *)
Fixpoint partLoop (userID : string) (r : Request) (w : wire) (parts : list Part) (ended : error)
    : prog attachE (wire * outcome) :=
  match parts with
  | [] =>
      if Is ended io_EOF then
        finish (writeError w 400 ("multipart body must contain a " +:+ quote.Quote fileFormField +:+ " part"))
      else finish (writeError w 400 "malformed multipart body")
  | part :: parts' =>
      if negb (String.eqb part.(part_FormName) fileFormField) then partLoop userID r w parts' ended
      else
        res ← Upload svc userID (PathValue r "id") part.(part_FileName) part.(part_Reader);
        match res with
        | Err err => finish (handleServiceError r w err)
        | Ok att => finish (writeJSON w 201 (attachment_json att))
        end
  end.
Definition upload : Handler attachE := authenticated (λ userID r w,
  match MultipartReader r (MaxBytesReader (int64.add maxBytes multipartMemoryBytes)) with
  | None => finish (writeError w 400 "request body must be multipart/form-data")
  | Some (parts, ended) => partLoop userID r w parts ended
  end).

Definition listHandler : Handler attachE := authenticated (λ userID r w,
  res ← ListByTask userID (PathValue r "id");
  match res with
  | Err err => finish (handleServiceError r w err)
  | Ok attachments => finish (writeJSON w 200 (JArr (map attachment_json attachments)))
  end).

Definition deleteHandler : Handler attachE := authenticated (λ userID r w,
  res ← Delete userID (PathValue r "key");
  match res with
  | Some err => finish (handleServiceError r w err)
  | None => finish (WriteHeader 204 w)
  end).

Definition content_disposition (name : string) : string :=
  let disposition := mime.FormatMediaType "attachment" "filename" name in
  if String.eqb disposition "" then "attachment" else disposition.
Definition download : Handler attachE := authenticated (λ userID r w,
  res ← Download userID (PathValue r "key");
  match res with
  | Err err => finish (handleServiceError r w err)
  | Ok (att, blob) =>
      let w := set_header "Content-Type" att.(att_ContentType) w in
      let w := set_header "Content-Disposition" (content_disposition att.(att_OriginalFilename)) w in
      finish (ServeContent r att.(att_OriginalFilename) att.(att_CreatedAt) blob w)
  end).

Inductive attachmentRoute := POST_attachments | GET_attachments | GET_file | DELETE_file.
Definition serveAttachments (route : attachmentRoute) : Handler attachE :=
  match route with
  | POST_attachments => upload
  | GET_attachments => listHandler
  | GET_file => download
  | DELETE_file => deleteHandler
  end.
Definition RegisterRoutes {E} (up : ∀ X, attachE X → E X) (requireAuth : Middleware E)
    (route : attachmentRoute) : Handler E :=
  requireAuth (λ r w, lift up (serveAttachments route r w)).
End handlers.
#[global] Arguments MaxBytesReader : simpl never.
#[global] Arguments mime.FormatMediaType : simpl never.
#[global] Arguments content_disposition : simpl never.
