(* ===== verification/AttachmentHandlerTheorems.v ===== *)
(** Theorems about the attachment routes: what a client that uploads a file gets
    back, and how a download presents itself to a browser. *)

From S2P Require Import Prelude GoStd GoError Uuid Text Http Middleware Concrete.
From S2P Require Import Attachment AttachmentMemory AttachmentSpec AttachmentService.
From S2P Require Import AttachmentHandler Task TaskMemory TaskSpec BlobStorage Wiring ConcreteStore AttachmentTheorems.
From Stdlib Require Import ZifyBool.
Local Open Scope Z_scope.
#[local] Ltac Zify.zify_post_hook ::= Z.to_euclidean_division_equations.

(** * Reading [Content-Disposition] as RFC 6266 defines it *)
Definition hex_val (c : ascii) : option Z :=
  let v := byte_val c in
  if (48 <=? v) && (v <=? 57) then Some (v - 48)
  else if (65 <=? v) && (v <=? 70) then Some (v - 55)
  else if (97 <=? v) && (v <=? 102) then Some (v - 87) else None.
Fixpoint percent_decode (s : string) : option string :=
  match s with
  | "" => Some ""
  | String "%" (String a (String b s')) =>
      match hex_val a, hex_val b with
      | Some x, Some y => String (byte_of (16 * x + y)) <$> percent_decode s'
      | _, _ => None
      end
  | String c s' => if mime.attribute_char c then String c <$> percent_decode s' else None
  end.
(** The text up to the closing quote, which must be the end. *)
Fixpoint unescape (s : string) : option string :=
  match s with
  | "" => None
  | String "\" (String c s') => String c <$> unescape s'
  | String c s' =>
      if byte_val c =? 34 then (if String.eqb s' "" then Some "" else None) else String c <$> unescape s'
  end.
Definition disposition_name (header : string) : option string :=
  let plain := "attachment; filename=" in
  let extended := "attachment; filename*=utf-8''" in
  if strings.HasPrefix header extended then percent_decode (strings.drop_bytes (String.length extended) header)
  else if strings.HasPrefix header plain then
    match strings.drop_bytes (String.length plain) header with
    | String c s => if byte_val c =? 34 then unescape s
                    else if mime.isToken (String c s) then Some (String c s) else None
    | "" => None
    end
  else None.

(** Bytes that a header field may hold: no control character but the tab, so no
    line can be added to the response. *)
Definition header_safe (s : string) : Prop :=
  Forall (λ b, 32 ≤ b ≤ 126 ∨ b = 9) (bytes s).

Lemma header_safe_app s t : header_safe s → header_safe t → header_safe (s +:+ t).
Proof. intros. unfold header_safe. rewrite bytes_append. by apply Forall_app. Qed.
Lemma header_safe_cons c s : header_safe (String c s) ↔ (32 ≤ byte_val c ≤ 126 ∨ byte_val c = 9) ∧ header_safe s.
Proof. unfold header_safe. change (bytes (String c s)) with (byte_val c :: bytes s). by rewrite Forall_cons. Qed.

(** ** The extended form *)
Lemma upper_hex_val d : 0 ≤ d < 16 → hex_val (mime.upper_hex d) = Some d ∧
  32 ≤ byte_val (mime.upper_hex d) ≤ 126.
Proof.
  intros Hd. unfold mime.upper_hex, hex_val. destruct (Z.ltb_spec d 10); rewrite byte_val_of by lia; cbv zeta.
  - replace ((48 <=? 48 + d) && (48 + d <=? 57)) with true by lia. split; [f_equal|]; lia.
  - replace ((48 <=? 55 + d) && (55 + d <=? 57)) with false by lia.
    replace ((65 <=? 55 + d) && (55 + d <=? 70)) with true by lia. split; [f_equal|]; lia.
Qed.
Lemma attribute_char_range c : mime.attribute_char c = true → 32 < byte_val c < 127 ∧ byte_val c ≠ 37.
Proof. unfold mime.attribute_char. lia. Qed.

Lemma percent_encode_safe s : header_safe (mime.percent_encode s).
Proof.
  induction s as [|c s IH]; [constructor|]. cbn [mime.percent_encode].
  destruct (mime.attribute_char c) eqn:Hc; repeat (apply header_safe_cons; split); try done.
  - apply attribute_char_range in Hc. lia.
  - left. vm_compute. done.
  - left. apply upper_hex_val. pose proof (byte_val_range c). lia.
  - left. apply upper_hex_val. pose proof (byte_val_range c). lia.
Qed.
Lemma percent_decode_encode s : percent_decode (mime.percent_encode s) = Some s.
Proof.
  induction s as [|c s IH]; [done|]. cbn [mime.percent_encode].
  destruct (mime.attribute_char c) eqn:Hc.
  - destruct (attribute_char_range c Hc) as [_ Hp].
    assert (percent_decode (String c (mime.percent_encode s)) =
      if mime.attribute_char c then String c <$> percent_decode (mime.percent_encode s) else None) as ->.
    { destruct c as [[] [] [] [] [] [] [] []]; try reflexivity. by destruct Hp. }
    by rewrite Hc, IH.
  - pose proof (byte_val_range c). cbn [percent_decode].
    destruct (upper_hex_val (byte_val c / 16)) as [-> _]; [lia|].
    destruct (upper_hex_val (byte_val c mod 16)) as [-> _]; [lia|].
    rewrite IH. cbn [fmap option_fmap option_map]. do 2 f_equal.
    replace (16 * _ + _) with (byte_val c) by lia. apply byte_of_val.
Qed.

(** ** The quoted form *)
Lemma unescape_escape s : unescape (mime.escape s +:+ quote.dquote) = Some s.
Proof.
  induction s as [|c s IH]; [reflexivity|]. cbn [mime.escape].
  destruct ((byte_val c =? 34) || (byte_val c =? 92)) eqn:Hc.
  - rewrite !append_cons. cbn [unescape]. by rewrite IH.
  - assert (unescape (String c (mime.escape s) +:+ quote.dquote) =
      if byte_val c =? 34 then None else String c <$> unescape (mime.escape s +:+ quote.dquote)) as ->.
    { destruct c as [[] [] [] [] [] [] [] []]; try reflexivity; discriminate Hc. }
    apply orb_false_iff in Hc as [-> _]. by rewrite IH.
Qed.
Lemma escape_safe s : header_safe s → header_safe (mime.escape s).
Proof.
  induction s as [|c s IH]; [done|]. rewrite header_safe_cons. intros [Hc Hs]. cbn [mime.escape].
  case_match; repeat (apply header_safe_cons; split); auto. left. vm_compute. done.
Qed.

Lemma plain_bytes fuel l :
  (length l ≤ fuel)%nat → Forall (λ b, 0 ≤ b < 256) l →
  existsb (λ r, ((r <? 32) || (126 <? r)) && negb (r =? 9)) (utf8.runes_fuel fuel l) = false →
  Forall (λ b, 32 ≤ b ≤ 126 ∨ b = 9) l.
Proof.
  revert l; induction fuel as [|fuel IH]; intros [|b l] Hf Hb; [done|simpl in Hf; lia|done|].
  apply Forall_cons in Hb as [Hb Hl]. cbn [utf8.runes_fuel].
  destruct (Z.ltb_spec b 128) as [Hlt|Hge].
  - assert (utf8.DecodeRune (b :: l) = (b, 1%nat)) as ->.
    { unfold utf8.DecodeRune, utf8.lead. by rewrite (proj2 (Z.ltb_lt b 128)). }
    cbn [existsb]. intros [Hr Hrest]%orb_false_iff. constructor; [lia|].
    apply IH; [simpl in Hf; lia|done|done].
  - pose proof (DecodeRune_high b l ltac:(lia)) as Hh.
    destruct (utf8.DecodeRune (b :: l)) as [r w]. cbn [fst] in Hh. cbn [existsb].
    intros [Hr _]%orb_false_iff. lia.
Qed.
Lemma needsEncoding_false s : mime.needsEncoding s = false → header_safe s.
Proof.
  apply plain_bytes; [|apply bytes_range]. apply Nat2Z.inj_le. by rewrite length_bytes.
Qed.

(** The header of a download names the file exactly, whatever its name. *)
Definition plain_form : string := "attachment; filename=".
Definition extended_form : string := "attachment; filename*=utf-8''".
Lemma content_disposition_forms name : content_disposition name =
  if mime.needsEncoding name then extended_form +:+ mime.percent_encode name
  else if mime.isToken name then plain_form +:+ name
  else plain_form +:+ (quote.dquote +:+ mime.escape name +:+ quote.dquote).
Proof.
  unfold content_disposition, mime.FormatMediaType.
  change (negb (mime.isToken "attachment") || negb (mime.isToken "filename")) with false. cbv iota zeta.
  by destruct (mime.needsEncoding name), (mime.isToken name).
Qed.
Lemma disposition_extended s : disposition_name (extended_form +:+ s) = percent_decode s.
Proof.
  unfold disposition_name. fold extended_form. unfold strings.HasPrefix. by rewrite prefix_append, drop_bytes_append.
Qed.
Lemma disposition_plain s : disposition_name (plain_form +:+ s) =
  match s with
  | String c s' => if byte_val c =? 34 then unescape s'
                   else if mime.isToken (String c s') then Some (String c s') else None
  | "" => None
  end.
Proof.
  unfold disposition_name. fold plain_form extended_form.
  assert (strings.HasPrefix (plain_form +:+ s) extended_form = false) as -> by reflexivity.
  unfold strings.HasPrefix. by rewrite prefix_append, drop_bytes_append.
Qed.
Lemma token_no_quote c s : mime.isToken (String c s) = true → (byte_val c =? 34) = false.
Proof.
  intros Ht. destruct (Z.eqb_spec (byte_val c) 34) as [Hc|]; [|done].
  rewrite <-(byte_of_val c), Hc in Ht. discriminate Ht.
Qed.

Lemma disposition_reads_back name : disposition_name (content_disposition name) = Some name.
Proof.
  rewrite content_disposition_forms. destruct (mime.needsEncoding name); [|destruct (mime.isToken name) eqn:Ht].
  - rewrite disposition_extended. apply percent_decode_encode.
  - rewrite disposition_plain. destruct name as [|c name]; [done|]. by rewrite (token_no_quote c name Ht), Ht.
  - rewrite disposition_plain. unfold quote.dquote at 1. rewrite append_cons, append_empty.
    change (byte_val (byte_of 34) =? 34) with true. apply unescape_escape.
Qed.
Lemma disposition_safe name : header_safe (content_disposition name).
Proof.
  rewrite content_disposition_forms.
  assert (header_safe plain_form ∧ header_safe extended_form ∧ header_safe quote.dquote) as (Hp & He & Hq).
  { unfold header_safe. split_and!; repeat constructor; vm_compute; intuition congruence. }
  destruct (mime.needsEncoding name) eqn:Hn; [|apply needsEncoding_false in Hn; destruct (mime.isToken name)];
    repeat apply header_safe_app; auto using percent_encode_safe, escape_safe.
Qed.

(** * The routes *)

(** An answer that refuses: an error status, its message as JSON, and no file. *)
Definition refused (w : wire) : Prop :=
  ∃ code hd msg, w_sent w = Some (code, hd) ∧ code ∈ [400; 401; 404; 500; 503] ∧
    Header_Get hd "Content-Disposition" = "" ∧ w_body w = [CJson (JObj [("error", JStr msg)])].

Lemma refused_writeError w code msg :
  w_sent w = None → w_body w = [] → Header_Get (w_header w) "Content-Disposition" = "" →
  code ∈ [400; 401; 404; 500; 503] → refused (writeError w code msg).
Proof.
  intros Hs Hb Hh Hc. unfold writeError, writeJSON.
  destruct (respond_fresh code "Content-Type" "application/json" (CJson (JObj [("error", JStr msg)])) w Hs)
    as (Hs' & Hb' & _).
  exists code, (Header_Set "Content-Type" "application/json" (w_header w)), msg.
  rewrite Hs', Hb', Hb, Header_Get_Set_ne by done. done.
Qed.
Lemma refused_service_error r err : refused (handleServiceError r fresh_wire err).
Proof.
  unfold handleServiceError, set_retry_after.
  repeat case_match; apply refused_writeError; try done; set_solver.
Qed.

(** The part that is uploaded: the first one of the field. *)
Definition first_file `{MultipartBody} (maxBytes : Z) (r : Request) (part : Part) : Prop :=
  ∃ before after ended,
    MultipartReader r (MaxBytesReader (int64.add maxBytes multipartMemoryBytes))
      = Some (before ++ part :: after, ended) ∧
    Forall (λ p, p.(part_FormName) ≠ fileFormField) before ∧ part.(part_FormName) = fileFormField.

Section routes.
Context `{San : Sanitize, Uni : unicode.Tables, Multi : MultipartBody, Serve : ContentServer} {S B : Type}.
Context (h : handler attachRepoE S) `{!AttachmentRepository h}.
Context (hb : handler blobE B) `{!BlobStore hb}.
Context (sv : Service) (Hbound : sv.(maxBytes) < int64.max).
Abbreviation svc := (handle_sum handle_env (handle_sum h hb)).

Lemma partLoop_spec r u parts ended env s b :
  arepo_inv s →
  let '((_, (s', b')), (w, _)) := run svc (partLoop sv u r fresh_wire parts ended) (env, (s, b)) in
  arepo_inv s' ∧ (∀ t v, arepo_owns s' t v = arepo_owns s t v) ∧
  (refused w ∧ arepo_rows s' = arepo_rows s ∧ only_key (blob_view b) (blob_view b') ∨
   status w = Some 201 ∧ ∃ before part after att, parts = before ++ part :: after ∧
     Forall (λ p, p.(part_FormName) ≠ fileFormField) before ∧ part.(part_FormName) = fileFormField ∧
     w_body w = [CJson (attachment_json att)] ∧
     uploaded sv (arepo_owns s) (arepo_rows s) (arepo_rows s') (blob_view b) (blob_view b')
       u (PathValue r "id") part.(part_FileName) part.(part_Reader) att).
Proof.
  intros Hinv. induction parts as [|part parts IH]; cbn [partLoop].
  - destruct (Is ended io_EOF); unfold finish; rewrite run_ret; (split_and!; [done|done|]); left;
      (split_and!; [|done|apply only_key_refl]); apply refused_writeError; (done || set_solver).
  - destruct (String.eqb_spec (part_FormName part) fileFormField) as [Hf|Hf]; cbn [negb].
    + rewrite run_bind.
      pose proof (Upload_spec h hb sv Hbound env s b u (PathValue r "id") (part_FileName part) (part_Reader part) Hinv) as Hs.
      destruct (run svc (Upload _ _ _ _ _) _) as [[env' [s' b']] [att|err]];
        destruct Hs as (Hi & Ho & Hs); unfold finish; rewrite run_ret; split_and!; try done.
      * right. split; [done|]. exists [], part, parts, att. split_and!; try done.
      * left. destruct Hs. split_and!; try done. apply refused_service_error.
    + destruct (run svc (partLoop _ _ _ _ _ _) _) as [[env' [s' b']] [w o]].
      destruct IH as (Hi & Ho & [Hr|(Hst & before & p & after & att & -> & Hb & Hp)]); split_and!; try done.
      * by left.
      * right. split; [done|]. exists (part :: before), p, after, att. split_and!; [done|by constructor|apply Hp..].
Qed.

(** What a response to a download of a file shows: never anything but the file, as
    an attachment under its name. *)
Definition presents (w : wire) (down : Request) (name contentType : string) (content : list Z) : Prop :=
  ∃ code hd, w_sent w = Some (code, hd) ∧ code ∈ [200; 206; 304; 412; 416] ∧
    header_safe (Header_Get hd "Content-Disposition") ∧
    disposition_name (Header_Get hd "Content-Disposition") = Some name ∧
    (conditional down = false → req_Method down = MethodGet →
       code = 200 ∧ Header_Get hd "Content-Type" = contentType ∧ w_body w = [CText (of_bytes content)]).

Lemma download_spec r v env s b :
  arepo_inv s → UserIDFromContext r.(req_Context) = Some v →
  let '((_, (s', b')), (w, _)) := run svc (download r fresh_wire) (env, (s, b)) in
  arepo_inv s' ∧ arepo_rows s' = arepo_rows s ∧ blob_view b' = blob_view b ∧
  (refused w ∨ ∃ a content, has_key (arepo_rows s) (PathValue r "key") a ∧
     arepo_owns s a.(att_TaskID) v = true ∧
     blob_bytes <$> blob_view b !! PathValue r "key" = Some content ∧
     presents w r a.(att_OriginalFilename) a.(att_ContentType) content).
Proof.
  intros Hinv Hv. unfold download, authenticated. rewrite Hv, run_bind.
  pose proof (Download_spec h hb env s b v (PathValue r "key") Hinv) as Hs.
  destruct (run svc (Download _ _) _) as [[env' [s' b']] [[a content]|err]];
    destruct Hs as (Hi & Hr & Hb & Hs); unfold finish; rewrite run_ret; split_and!; try done.
  2:{ left. apply refused_service_error. }
  right. exists a, content. destruct Hs as (Hk & Ho & Hc). split_and!; try done.
  set (w := set_header "Content-Disposition" _ _).
  assert (Hd : Header_Get (w_header w) "Content-Disposition" = content_disposition (att_OriginalFilename a))
    by apply Header_Get_Set.
  assert (Ht : Header_Get (w_header w) "Content-Type" = att_ContentType a).
  { unfold w. cbn [w_header set_header with_header]. rewrite Header_Get_Set_ne by done. apply Header_Get_Set. }
  destruct (serve_statuses r (att_OriginalFilename a) (att_CreatedAt a) content w eq_refl) as (code & hd & Hw & Hin & Hcd).
  exists code, hd. rewrite Hcd, Hd. split_and!; [done|done|apply disposition_safe|apply disposition_reads_back|].
  intros Hcond Hget.
  destruct (serve_whole r (att_OriginalFilename a) (att_CreatedAt a) content w eq_refl Hcond Hget) as (hd' & Hw' & Hct & Hbody).
  assert ((code, hd) = (200, hd')) as [= -> ->] by congruence. by rewrite Hct, Hbody.
Qed.
End routes.

(** * The property *)

(** C30: a file that is uploaded comes back as it was sent, to its owner only, and
    never as anything a browser would render.  If [POST /tasks/{id}/attachments]
    answers 201, then the task is the caller's, what was stored is the first part
    of the body that is named [file], and for every later [GET /files/{key}] under
    the key of the answer: either it is refused without a file, or the caller is an
    owner of the task too and the response is an attachment whose
    [Content-Disposition] can hold no line break and names the file exactly as it
    was recorded, whatever characters are in the name; and unless the request is
    conditional or for a range, it is 200 with exactly the bytes that were sent,
    under an accepted type sniffed from those bytes.  If the upload does not answer
    201, no row was added and no blob touched but under one generated key. *)
Theorem upload_then_download `{Sanitize, unicode.Tables, MultipartBody, ContentServer} {S B : Type}
    (h : handler attachRepoE S) `{!AttachmentRepository h} (hb : handler blobE B) `{!BlobStore hb}
    (sv : Service) env s b (up : Request) :
  sv.(maxBytes) < int64.max → arepo_inv s →
  let all := handle_sum handle_env (handle_sum h hb) in
  let '((env', (s', b')), (w, _)) := run all (upload sv sv.(maxBytes) up fresh_wire) (env, (s, b)) in
  if bool_decide (status w = Some 201) then
    ∃ u part att, UserIDFromContext up.(req_Context) = Some u ∧ first_file sv.(maxBytes) up part ∧
      w_body w = [CJson (attachment_json att)] ∧ arepo_owns s (PathValue up "id") u = true ∧
      ∀ down v, PathValue down "key" = att.(att_StorageKey) →
        UserIDFromContext down.(req_Context) = Some v →
        let '(_, (w', _)) := run all (download down fresh_wire) (env', (s', b')) in
        refused w' ∨
        arepo_owns s (PathValue up "id") v = true ∧
        normalizeFilename part.(part_FileName) = Ok att.(att_OriginalFilename) ∧
        att.(att_ContentType) = detectContentType (take sniffLen part.(part_Reader).(rd_bytes)) ∧
        is_Some (sv.(allowed) !! att.(att_ContentType)) ∧
        presents w' down att.(att_OriginalFilename) att.(att_ContentType) part.(part_Reader).(rd_bytes)
  else refused w ∧ arepo_rows s' = arepo_rows s ∧ only_key (blob_view b) (blob_view b').
Proof.
  intros Hmax Hinv all. unfold upload, authenticated.
  destruct (UserIDFromContext (req_Context up)) as [u|] eqn:Hu.
  2:{ unfold finish. rewrite run_ret. rewrite bool_decide_eq_false_2 by done.
      split_and!; [|done|apply only_key_refl]. apply refused_writeError; (done || set_solver). }
  destruct (MultipartReader up _) as [[parts ended]|] eqn:Hm.
  2:{ unfold finish. rewrite run_ret. rewrite bool_decide_eq_false_2 by done.
      split_and!; [|done|apply only_key_refl]. apply refused_writeError; (done || set_solver). }
  pose proof (partLoop_spec h hb sv Hmax up u parts ended env s b Hinv) as Hp.
  subst all. match type of Hp with context [run ?hh ?p ?st] => destruct (run hh p st) as [[env' [s' b']] [w o]] end.
  destruct Hp as (Hi & Ho & [(Hr & Hrest)|(Hst & before & part & after & att & -> & Hb & Hf & Hbody & Hup)]).
  { rewrite bool_decide_eq_false_2; [done|]. destruct Hr as (code & hd & msg & Hw & Hin & _).
    unfold status. rewrite Hw. intros [= ->]. set_solver. }
  rewrite bool_decide_eq_true_2 by done. exists u, part, att.
  destruct Hup as (Hid & Htask & Hown & _ & _ & Hname & Htype & Hall & _ & _ & _ & _ & Hkey & Hn & Hnk & Hrows & tm & Hblob).
  split_and!; [done|by exists before, after, ended|done|done|].
  intros down v Hdk Hv. pose proof (download_spec h hb down v env' s' b' Hi Hv) as Hd.
  match type of Hd with context [run ?hh ?p ?st] => destruct (run hh p st) as [[env'' [s'' b'']] [w' o']] end.
  destruct Hd as (_ & _ & _ & [Hr|(a & content & Hka & Hoa & Hc & Hpres)]); [by left|]. right.
  rewrite Hdk in Hka, Hc.
  assert (a = att) as ->.
  { eapply (has_key_unique (arepo_rows s')); [by apply arepo_wf|exact Hka|]. rewrite Hrows.
    split; [by rewrite lookup_insert_eq|done]. }
  rewrite Hblob, lookup_insert_eq in Hc. injection Hc as <-.
  rewrite Htask, Ho in Hoa. done.
Qed.

(** ** A concrete upload *)
#[local] Instance two_parts : MultipartBody := λ _ limit,
  if limit <? 1000 then None
  else Some ([{| part_FormName := "comment"; part_FileName := ""; part_Reader := {| rd_bytes := []; rd_err := None |} |};
              {| part_FormName := "file"; part_FileName := "relat" +:+ of_bytes [195; 179] +:+ "rio 1.txt";
                 part_Reader := {| rd_bytes := bytes "some notes"; rd_err := None |} |}], Sentinel io_EOF).
Definition serve_all (r : Request) (name : string) (t : Z) (content : list Z) (w : wire) : wire :=
  Write (CText (of_bytes content)) (WriteHeader 200 w).
#[local] Program Instance serve_plain : ContentServer := {| ServeContent := serve_all |}.
Next Obligation.
  intros r name t content w Hw. exists 200, (w_header w). unfold serve_all, Write, WriteHeader. rewrite Hw.
  split_and!; [done|set_solver|done].
Qed.
Next Obligation. intros r name t content w. unfold serve_all, Write, WriteHeader. by destruct (w_sent w) eqn:E; simpl; rewrite ?E. Qed.
Next Obligation.
  intros r name t content w Hw _ _. exists (w_header w). unfold serve_all, Write, WriteHeader. by rewrite Hw.
Qed.

#[local] Instance mem_owners_instance : AttachmentRepository mem_attachments :=
  attachments_repository handle_mem mem_find_foreign.
Definition file_request (method : string) (u : string) (path : gmap string string) : Request :=
  {| req_Method := method; req_Path := ""; req_Query := ∅; req_Header := ∅; req_Cookies := [];
     req_PathValue := path; req_Body := {| body_value := None; body_end := 0 |};
     req_Context := ContextWithUserID background u |}.
Definition up_request : Request := file_request "POST" alice {[ "id" := id1 ]}.
Definition after_upload := run (whole mem_attachments fs_store)
  (upload (NewService 100 1000) 100 up_request fresh_wire) (upload_env, (seeded calm_env, seeded_blobs)).
Definition new_key : string := format_uuid (set_version_variant (repeat 2 16)).
Definition down_request (u : string) : Request := file_request "GET" u {[ "key" := new_key ]}.
Definition after_download (u : string) : wire :=
  (run (whole mem_attachments fs_store) (download (down_request u) fresh_wire) after_upload.1).2.1.


(** What the answers say, computed once. *)
Definition stored_row : Attachment :=
  {| att_ID := format_uuid (set_version_variant (repeat 1 16)); att_TaskID := id1;
     att_OriginalFilename := "relat" +:+ of_bytes [195; 179] +:+ "rio 1.txt"; att_StorageKey := new_key;
     att_ContentType := "text/plain"; att_SizeBytes := 10; att_CreatedAt := 100 |}.
Definition up_answer : Prop := status after_upload.2.1 = Some 201.
Lemma concrete_upload : up_answer ∧
  ∃ att, w_body after_upload.2.1 = [CJson (attachment_json att)] ∧ att.(att_StorageKey) = new_key.
Proof. split; [vm_compute; reflexivity|]. exists stored_row. split; vm_compute; reflexivity. Qed.
Lemma concrete_download : status (after_download alice) = Some 200 ∧ status (after_download "mallory") = Some 404.
Proof. split; vm_compute; reflexivity. Qed.
Lemma attachment_json_inj a a' :
  [CJson (attachment_json a)] = [CJson (attachment_json a')] → a.(att_StorageKey) = a'.(att_StorageKey).
Proof. unfold attachment_json. congruence. Qed.

Example upload_then_download_witness :
  ∃ att, presents (after_download alice) (down_request alice) att.(att_OriginalFilename) att.(att_ContentType)
    (bytes "some notes").
Proof.
  pose proof (upload_then_download mem_attachments fs_store (NewService 100 1000) upload_env (seeded calm_env)
    seeded_blobs up_request eq_refl (seeded_inv calm_env)) as Ht.
  destruct concrete_upload as (Hst & att' & Hbody & Hkey). destruct concrete_download as [Hdn _].
  unfold up_answer, after_download in *. cbv zeta in Ht. change (maxBytes (NewService 100 1000)) with 100 in Ht.
  fold after_upload in Ht. destruct after_upload as [[env' [s' b']] [w o]]. cbn [fst snd] in *.
  rewrite bool_decide_eq_true_2 in Ht by exact Hst.
  destruct Ht as (u & part & att & Hu & (before & after & ended & Hm & Hb & Hf) & Hbody' & _ & Hd).
  assert (att.(att_StorageKey) = new_key) as Hk.
  { rewrite Hbody in Hbody'. rewrite <-Hkey. symmetry. by apply attachment_json_inj. }
  specialize (Hd (down_request alice) alice (eq_sym Hk) eq_refl).
  assert (part.(part_Reader).(rd_bytes) = bytes "some notes") as Hbytes.
  { unfold MultipartReader, two_parts in Hm.
    change (MaxBytesReader (int64.add 100 multipartMemoryBytes) <? 1000) with false in Hm. cbv iota in Hm.
    destruct before as [|p [|p' before]]; injection Hm as ?? Hm; subst.
    - discriminate Hf. - reflexivity. - by destruct before. }
  exists att. match type of Hd with context [run ?hh ?p ?st] => destruct (run hh p st) as [[env'' [s'' b'']] [w' o']] end.
  cbn [fst snd] in *.
  rewrite <-Hbytes. destruct Hd as [(code & hd & msg & Hw & Hin & _)|(_ & _ & _ & _ & Hp)]; [|exact Hp].
  exfalso. unfold status in Hdn. rewrite Hw in Hdn. injection Hdn as ->. set_solver.
Defined.
