(* ===== verification/Link.v ===== *)
(** [internal/link]: the short links, over the library cairn, whose [Shortener] and
    [OwnerLister] are the calls [cairnE]: the service with its ownership check
    (service.go), and the HTTP handlers (handler.go). *)

From S2P Require Import Prelude GoStd GoError Http Middleware.
Local Open Scope Z_scope.

(** * cairn *)

(** [cairn.Link], with the fields that the package reads; no expiry is a zero time. *)
Record Link := {
  lnk_Code : string;
  lnk_Raw : string;
  lnk_OwnerID : string;
  lnk_Vanity : bool;
  lnk_CreatedAt : Z;
  lnk_ExpiresAt : option Z;
}.
(** [cairn.CreateOption]. *)
Inductive CreateOption := WithOwner (owner : string) | WithVanityCode (code : string) | WithTTL (ttl : Z).

Inductive cairnE : Type → Type :=
| Shorten (rawURL : string) (opts : list CreateOption) : cairnE (result Link)
| Resolve (code : string) : cairnE (result Link)
| RevokeCode (code : string) : cairnE (option error)
| ListByOwner (owner after : string) (limit : Z) : cairnE (result (list Link * string)).

(** [cairn.RejectReasonFrom]. *)
Class RejectReasons := RejectReasonFrom : error → string.

(** * service.go *)
Record CreateRequest := { cr_RawURL : string; cr_VanityCode : string; cr_TTL : Z }.

Definition create_options (ownerID : string) (req : CreateRequest) : list CreateOption :=
  [WithOwner ownerID] ++
  (if String.eqb req.(cr_VanityCode) "" then [] else [WithVanityCode req.(cr_VanityCode)]) ++
  (if 0 <? req.(cr_TTL) then [WithTTL req.(cr_TTL)] else []).
Definition Create (ownerID : string) (req : CreateRequest) : prog cairnE (result Link) :=
  trigger (Shorten req.(cr_RawURL) (create_options ownerID req)).
Definition List (ownerID after : string) (limit : Z) : prog cairnE (result (list Link * string)) :=
  trigger (ListByOwner ownerID after limit).
Definition Revoke (ownerID code : string) : prog cairnE (option error) :=
  res ← trigger (Resolve code);
  match res with
  | Err err => mret (Some err)
  | Ok link =>
      if negb (String.eqb link.(lnk_OwnerID) ownerID) then mret (Some (Sentinel ErrNotOwner))
      else trigger (RevokeCode code)
  end.

(** * handler.go *)
Definition maxRequestBodyBytes : Z := 1048576.
Definition maxListLimit : Z := 100.
Definition defaultListLimit : Z := 20.

Definition createLinkRequest : list (string * kind) :=
  [("url", KString); ("vanity_code", KString); ("ttl_seconds", KInt64)].
Definition linkResponse (code shortURL url : string) (vanity : bool) (createdAt : Z)
    (expiresAt : option Z) : json :=
  JObj ([("code", JStr code); ("short_url", JStr shortURL); ("url", JStr url);
         ("vanity", JBool vanity); ("created_at", JTime createdAt)] ++
        match expiresAt with Some t => [("expires_at", JTime t)] | None => [] end).
Definition errorResponse (message reason : string) : json :=
  JObj ([("error", JStr message)] ++ if String.eqb reason "" then [] else [("reason", JStr reason)]).

(** Encoding such values does not fail, so the log line for that is not here. *)
Definition writeJSON (w : wire) (status : Z) (data : json) : wire :=
  Write (CJson data) (WriteHeader status (set_header "Content-Type" "application/json" w)).
Definition writeErrorWithReason (w : wire) (status : Z) (message reason : string) : wire :=
  writeJSON w status (errorResponse message reason).
Definition writeError (w : wire) (status : Z) (message : string) : wire :=
  writeJSON w status (errorResponse message "").
Definition writeSimpleJSONError (w : wire) (status : Z) (message : string) : wire :=
  Write (CJson (errorResponse message ""))
    (WriteHeader status (set_header "Content-Type" "application/json" w)).

(** Every way in which a code does not lead to a link. *)
Definition no_link (err : error) : bool :=
  Is err cairn_ErrCodeNotFound || Is err cairn_ErrInvalidCode || Is err cairn_ErrLinkExpired
  || Is err cairn_ErrLinkRevoked.
Definition publicErrorEncoder (w : wire) (err : error) : wire :=
  if no_link err then writeSimpleJSONError w 404 "link not found"
  else if Is err cairn_ErrStoreUnavailable then writeSimpleJSONError w 503 "link service unavailable"
  else writeSimpleJSONError w 500 "internal server error".

Definition request_id (r : Request) : string := default "" (RequestIDFromContext r.(req_Context)).
Definition user_of (r : Request) : string := default "" (UserIDFromContext r.(req_Context)).

Section handlers.
Context `{RejectReasons} (publicBaseURL : string).

Definition toLinkResponse (link : Link) : json :=
  linkResponse link.(lnk_Code) (publicBaseURL +:+ "/" +:+ link.(lnk_Code)) link.(lnk_Raw)
    link.(lnk_Vanity) link.(lnk_CreatedAt) link.(lnk_ExpiresAt).

Definition handleServiceError (r : Request) (w : wire) (err : error) : wire :=
  if no_link err || Is err ErrNotOwner then writeError w 404 "link not found"
  else if Is err cairn_ErrDestinationRejected then
    writeErrorWithReason w 422 "destination rejected" (RejectReasonFrom err)
  else if Is err cairn_ErrCodeExists then writeError w 409 "code already exists"
  else if Is err cairn_ErrVanityReserved then writeError w 422 "vanity code is reserved"
  else if Is err cairn_ErrVanityLength then
    writeError w 422 "vanity code length collides with the generated code length"
  else if Is err cairn_ErrCodeSpaceExhausted || Is err cairn_ErrStoreUnavailable then
    writeError w 503 "link service temporarily unavailable"
  else
    writeError (log LevelError "unexpected service error"
      [("error", AErr err); ("request_id", AStr (request_id r)); ("method", AStr r.(req_Method));
       ("path", AStr r.(req_Path))] w) 500 "internal server error".

(** [time.Duration(n) * time.Second]. *)
Definition ttl_of (seconds : Z) : Z := if 0 <? seconds then int64.mul seconds time.Second else 0.
Definition createLink : Handler cairnE := λ r w,
  match Decode maxRequestBodyBytes createLinkRequest r.(req_Body) with
  | None => finish (writeError w 400 "invalid request body")
  | Some req =>
      let svcReq := {| cr_RawURL := get_string req "url"; cr_VanityCode := get_string req "vanity_code";
                       cr_TTL := ttl_of (get_int64 req "ttl_seconds") |} in
      res ← Create (user_of r) svcReq;
      match res with
      | Err err => finish (handleServiceError r w err)
      | Ok link => finish (writeJSON w 201 (toLinkResponse link))
      end
  end.

Definition list_limit (raw : string) : Z + string :=
  if String.eqb raw "" then inl defaultListLimit
  else match strconv.Atoi raw with
       | None => inr "invalid input: limit must be a positive integer"
       | Some n =>
           if n <=? 0 then inr "invalid input: limit must be a positive integer"
           else if maxListLimit <? n then
             inr ("invalid input: limit must be at most " +:+ strconv.Itoa maxListLimit)
           else inl n
       end.
Definition listLinks : Handler cairnE := λ r w,
  match list_limit (Query_Get r.(req_Query) "limit") with
  | inr message => finish (writeError w 400 message)
  | inl limit =>
      res ← List (user_of r) (Query_Get r.(req_Query) "after") limit;
      match res with
      | Err err => finish (handleServiceError r w err)
      | Ok (links, next) =>
          let w := if String.eqb next "" then w else set_header "X-Next-Cursor" next w in
          finish (writeJSON w 200 (JArr (map toLinkResponse links)))
      end
  end.

Definition revokeLink : Handler cairnE := λ r w,
  err ← Revoke (user_of r) (PathValue r "code");
  match err with
  | Some err => finish (handleServiceError r w err)
  | None => finish (WriteHeader 204 w)
  end.

Inductive linkRoute := POST_links | GET_links | DELETE_link.
Definition serveLinks (route : linkRoute) : Handler cairnE :=
  match route with
  | POST_links => createLink
  | GET_links => listLinks
  | DELETE_link => revokeLink
  end.
Definition RegisterRoutes {E} (up : ∀ X, cairnE X → E X) (requireAuth : Middleware E)
    (route : linkRoute) : Handler E :=
  requireAuth (λ r w, lift up (serveLinks route r w)).

(** [cairnhttp.NewHandler] with the encoder of its errors. *)
Definition NewPublicResolveHandler (NewHandler : (wire → error → wire) → Handler cairnE) : Handler cairnE :=
  NewHandler publicErrorEncoder.
End handlers.
#[global] Arguments writeJSON : simpl never.
#[global] Arguments handleServiceError : simpl never.
#[global] Arguments toLinkResponse : simpl never.
