(* ===== verification/LinkTheorems.v ===== *)
(** Theorems about short links: whose links a request can see and end, and what it
    can learn about the others. *)

From S2P Require Import Prelude GoStd GoError Http Middleware Link.
Local Open Scope Z_scope.

(** * What a shortener promises *)
Definition owner_of (opts : list CreateOption) : string :=
  fold_left (λ o opt, match opt with WithOwner owner => owner | _ => o end) opts "".
Definition ttl_option (opts : list CreateOption) : option Z :=
  fold_left (λ o opt, match opt with WithTTL ttl => Some ttl | _ => o end) opts None.

(** Between two calls a link may expire; one without an expiry stays. *)
Definition keeps (m m' : gmap string Link) : Prop :=
  m' ⊆ m ∧ ∀ c l, m !! c = Some l → l.(lnk_ExpiresAt) = None → m' !! c = Some l.

(** A failure that says nothing about a code. *)
Definition unavailable (e : error) : Prop :=
  no_link e = false ∧ Forall (λ s, Is e s = false)
    [ErrNotOwner; cairn_ErrDestinationRejected; cairn_ErrCodeExists; cairn_ErrVanityReserved; cairn_ErrVanityLength].

(** Its links that are neither expired nor revoked, by code; and what each call
    answers and does to them.  A code that leads to no such link is refused with
    one of the errors for that, or the store is down. *)
Definition cairn_spec {X} (e : cairnE X) (m m' : gmap string Link) : X → Prop :=
  match e in cairnE X return X → Prop with
  | Shorten raw opts => λ x,
      match x with
      | Ok l => l.(lnk_OwnerID) = owner_of opts ∧ m !! l.(lnk_Code) = None ∧
          l.(lnk_ExpiresAt) = (time.Add l.(lnk_CreatedAt) <$> ttl_option opts) ∧
          keeps (<[l.(lnk_Code) := l]> m) m'
      | Err _ => keeps m m'
      end
  | Resolve code => λ x, keeps m m' ∧
      match x with
      | Ok l => m !! code = Some l
      | Err e => no_link e = true ∨ unavailable e
      end
  | RevokeCode code => λ x, match x with None => keeps (delete code m) m' | Some _ => keeps m m' end
  | ListByOwner owner after limit => λ x, keeps m m' ∧
      match x with
      | Ok (l, _) => Forall (λ lnk, lnk.(lnk_OwnerID) = owner) l ∧ (0 ≤ limit → Z.of_nat (length l) ≤ limit)
      | Err _ => True
      end
  end.
#[global] Arguments owner_of : simpl never.
#[global] Arguments ttl_option : simpl never.
#[global] Arguments create_options : simpl never.
Class Shortener {L : Type} (h : handler cairnE L) := {
  links : L → gmap string Link;
  shortener_sound : ∀ X (e : cairnE X) s, cairn_spec e (links s) (links (h X e s).1) (h X e s).2;
}.

#[export] Instance keeps_refl : Reflexive keeps.
Proof. done. Qed.
#[export] Instance keeps_trans : Transitive keeps.
Proof.
  intros m1 m2 m3 [Hs1 Hk1] [Hs2 Hk2]. split; [by etransitivity|]. eauto.
Qed.

(** * The options of a new link *)
Lemma create_options_owner u req : owner_of (create_options u req) = u.
Proof. unfold create_options, owner_of. by repeat case_match. Qed.
Lemma create_options_ttl u req : ttl_option (create_options u req) =
  if 0 <? req.(cr_TTL) then Some req.(cr_TTL) else None.
Proof. unfold create_options, ttl_option. by repeat case_match. Qed.

(** The lifetime asked for is the lifetime set as long as it is below 292 years. *)
Lemma ttl_of_exact n : n ≤ int64.max / time.Second → ttl_of n = Z.max 0 n * time.Second.
Proof.
  intros Hn. unfold ttl_of. destruct (Z.ltb_spec 0 n) as [Hp|Hp].
  - rewrite Z.max_r by lia. unfold int64.mul. apply int64.wrap_small.
    assert (n * time.Second ≤ int64.max); [|unfold int64.min, time.Second, time.Millisecond in *; lia].
    etransitivity; [apply Z.mul_le_mono_nonneg_r; [done|exact Hn]|]. done.
  - by rewrite Z.max_l by lia.
Qed.
(** Beyond it the product wraps; here to nothing, and the link never expires. *)
Example ttl_wraps : ttl_of (2 ^ 55) = 0 ∧ ttl_option (create_options "alice"
  {| cr_RawURL := ""; cr_VanityCode := ""; cr_TTL := ttl_of (2 ^ 55) |}) = None.
Proof. by vm_compute. Qed.

(** * The handlers *)
Section handlers.
Context `{RejectReasons} (base : string) {L : Type} (h : handler cairnE L) `{!Shortener h}.

Lemma Revoke_spec u code s :
  let '(s', res) := run h (Revoke u code) s in
  match res with
  | None => keeps (delete code (links s)) (links s') ∧ ∃ l, links s !! code = Some l ∧ l.(lnk_OwnerID) = u
  | Some e => keeps (links s) (links s') ∧
      ((∀ l, links s !! code = Some l → l.(lnk_OwnerID) ≠ u) →
         no_link e = true ∨ e = ErrNotOwner ∨ unavailable e)
  end.
Proof.
  unfold Revoke. rewrite run_bind, run_trigger. cbn.
  pose proof (shortener_sound _ (Resolve code) s) as Hr.
  destruct (h _ (Resolve code) s) as [s1 [l|e]]; cbn in *.
  2:{ destruct Hr as [Hk He]. split; [done|]. intros _. destruct He; auto. }
  destruct Hr as [Hk Hl]. destruct (String.eqb_spec (lnk_OwnerID l) u) as [Ho|Ho]; cbn [negb].
  - rewrite run_trigger. cbn. pose proof (shortener_sound _ (RevokeCode code) s1) as Hv.
    destruct (h _ (RevokeCode code) s1) as [s2 [e|]]; cbn in *.
    + split; [by etransitivity|]. intros Hn. by destruct (Hn l Hl).
    + split; [|eauto]. etransitivity; [|exact Hv]. destruct Hk as [Hsub Hkeep]. split.
      * by apply delete_mono.
      * intros c l' Hc He. apply lookup_delete_Some in Hc as [Hne Hc].
        rewrite lookup_delete_ne by done. by apply Hkeep.
  - split; [done|]. auto.
Qed.

Definition not_found : wire := writeError fresh_wire 404 "link not found".
Lemma not_found_error r e : no_link e = true ∨ e = ErrNotOwner → handleServiceError r fresh_wire e = not_found.
Proof. unfold handleServiceError. intros [->| ->]; [done|]. by rewrite orb_true_r. Qed.
Lemma unavailable_error r e : unavailable e → status (handleServiceError r fresh_wire e) ∈ [Some 503; Some 500].
Proof.
  intros [Hn Hf]. rewrite !Forall_cons in Hf. destruct Hf as (H1 & H2 & H3 & H4 & H5 & _).
  unfold handleServiceError. rewrite Hn, H1, H2, H3, H4, H5. cbn [orb]. case_match; set_solver.
Qed.
Lemma link_error_status r e :
  status (handleServiceError r fresh_wire e) ∈ [Some 404; Some 422; Some 409; Some 503; Some 500].
Proof. unfold handleServiceError. repeat case_match; set_solver. Qed.
Lemma link_error_status_ne r e n : status (handleServiceError r fresh_wire e) = Some n → n ∉ [200; 201; 204].
Proof. intros Hst. pose proof (link_error_status r e) as Hin. rewrite Hst in Hin. set_solver. Qed.

Lemma revokeLink_spec r s :
  let '(s', (w, _)) := run h (revokeLink r fresh_wire) s in
  let u := user_of r in let code := PathValue r "code" in
  (status w = Some 204 ∧ keeps (delete code (links s)) (links s') ∧
     ∃ l, links s !! code = Some l ∧ l.(lnk_OwnerID) = u) ∨
  (status w ≠ Some 204 ∧ keeps (links s) (links s') ∧
     ((∀ l, links s !! code = Some l → l.(lnk_OwnerID) ≠ u) → w = not_found ∨ status w ∈ [Some 503; Some 500])).
Proof.
  unfold revokeLink. rewrite run_bind. pose proof (Revoke_spec (user_of r) (PathValue r "code") s) as Hr.
  destruct (run h (Revoke _ _) s) as [s' [e|]]; unfold finish; rewrite run_ret; cbv zeta.
  - right. destruct Hr as [Hk Hr]. split_and!; [|done|].
    + intros Hst. apply link_error_status_ne in Hst. set_solver.
    + intros Hn. destruct (Hr Hn) as [He|[He|He]]; [left; apply not_found_error; auto..|].
      right. by apply unavailable_error.
  - by left.
Qed.

Lemma list_limit_range raw limit : list_limit raw = inl limit → 1 ≤ limit ≤ 100.
Proof.
  unfold list_limit. destruct (String.eqb raw ""); [by intros [= <-]|].
  destruct (strconv.Atoi raw) as [n|]; [|done]. destruct (Z.leb_spec n 0); [done|].
  destruct (Z.ltb_spec maxListLimit n); [done|]. intros [= <-]. unfold maxListLimit in *. lia.
Qed.
Lemma body_writeJSON w code j : w_body (writeJSON w code j) = w_body w ++ [CJson j].
Proof. unfold writeJSON, Write, WriteHeader, set_header, with_header. cbn. by destruct (w_sent w) eqn:E; cbn; rewrite ?E. Qed.

Lemma listLinks_spec r s :
  let '(s', (w, _)) := run h (listLinks base r fresh_wire) s in
  keeps (links s) (links s') ∧
  (status w = Some 200 → ∃ l, w_body w = [CJson (JArr (map (toLinkResponse base) l))] ∧
     Forall (λ lnk, lnk.(lnk_OwnerID) = user_of r) l ∧ Z.of_nat (length l) ≤ 100).
Proof.
  unfold listLinks. destruct (list_limit _) as [limit|message] eqn:Hl; [|unfold finish; rewrite run_ret; by split].
  apply list_limit_range in Hl. rewrite run_bind. unfold List. rewrite run_trigger. cbn.
  pose proof (shortener_sound _ (ListByOwner (user_of r) (Query_Get (req_Query r) "after") limit) s) as Hs.
  destruct (h _ (ListByOwner _ _ _) s) as [s' [[l next]|e]]; cbn in Hs |- *; destruct Hs as [Hk Hs];
    (split; [done|]).
  - intros _. exists l. destruct Hs as [Ho Hlen]. split_and!; [|done|lia].
    rewrite body_writeJSON. by case_match.
  - intros Hst. apply link_error_status_ne in Hst. set_solver.
Qed.

Lemma createLink_spec r s :
  let '(s', (w, _)) := run h (createLink base r fresh_wire) s in
  (status w ≠ Some 201 ∧ keeps (links s) (links s')) ∨
  ∃ l fields, w_body w = [CJson (toLinkResponse base l)] ∧
    l.(lnk_OwnerID) = user_of r ∧ links s !! l.(lnk_Code) = None ∧ keeps (<[l.(lnk_Code) := l]> (links s)) (links s') ∧
    Decode maxRequestBodyBytes createLinkRequest (req_Body r) = Some fields ∧
    let ttl := ttl_of (get_int64 fields "ttl_seconds") in
    l.(lnk_ExpiresAt) = if 0 <? ttl then Some (time.Add l.(lnk_CreatedAt) ttl) else None.
Proof.
  unfold createLink. destruct (Decode _ _ _) as [fields|] eqn:Hd; [|unfold finish; rewrite run_ret; by left].
  rewrite run_bind. set (req := {| cr_RawURL := _ |}).
  assert (run h (Create (user_of r) req) s
    = h _ (Shorten (get_string fields "url") (create_options (user_of r) req)) s) as ->
    by (unfold Create; by rewrite run_trigger).
  pose proof (shortener_sound _ (Shorten (get_string fields "url") (create_options (user_of r) req)) s) as Hs.
  destruct (h _ (Shorten _ _) s) as [s' [l|e]]; cbn in Hs |- *.
  - right. exists l, fields. rewrite create_options_owner, create_options_ttl in Hs.
    destruct Hs as (Ho & Hn & He & Hk). split_and!; try done. rewrite He. cbn [cr_TTL req].
    by destruct (0 <? ttl_of _).
  - left. split; [|done]. intros Hst. apply link_error_status_ne in Hst. set_solver.
Qed.
End handlers.

(** C31: short links are their owner's.  [DELETE /v1/links/{code}] ends at most the
    link under that code, and only if the caller owns it; if the caller does not,
    the answer is the same, byte for byte and with nothing logged, as for a code
    that does not exist, unless the store is down.  [GET /v1/links] lists links of
    the caller only, and never more than a hundred.  [POST /v1/links] creates a
    link that is the caller's, under a code that was free, that expires exactly
    when asked to (for lifetimes below 292 years), and replaces no other. *)
Theorem links_are_private `{RejectReasons} (base : string) {L : Type} (h : handler cairnE L) `{!Shortener h}
    (r : Request) (s : L) :
  let u := user_of r in let code := PathValue r "code" in let m := links s in
  (let '(s', (w, _)) := run h (revokeLink r fresh_wire) s in
   (∀ c l, m !! c = Some l → l.(lnk_ExpiresAt) = None → c ≠ code ∨ l.(lnk_OwnerID) ≠ u →
      links s' !! c = Some l) ∧
   links s' ⊆ m ∧
   (status w = Some 204 → links s' !! code = None ∧ ∃ l, m !! code = Some l ∧ l.(lnk_OwnerID) = u) ∧
   ((∀ l, m !! code = Some l → l.(lnk_OwnerID) ≠ u) → w = not_found ∨ status w ∈ [Some 503; Some 500])) ∧
  (let '(s', (w, _)) := run h (listLinks base r fresh_wire) s in
   keeps m (links s') ∧
   (status w = Some 200 → ∃ l, w_body w = [CJson (JArr (map (toLinkResponse base) l))] ∧
      Forall (λ lnk, lnk.(lnk_OwnerID) = u) l ∧ Z.of_nat (length l) ≤ 100)) ∧
  (let '(s', (w, _)) := run h (createLink base r fresh_wire) s in
   (∀ c l, m !! c = Some l → l.(lnk_ExpiresAt) = None → links s' !! c = Some l) ∧
   (status w = Some 201 → ∃ l fields, w_body w = [CJson (toLinkResponse base l)] ∧
      l.(lnk_OwnerID) = u ∧ m !! l.(lnk_Code) = None ∧ links s' ⊆ <[l.(lnk_Code) := l]> m ∧
      Decode maxRequestBodyBytes createLinkRequest (req_Body r) = Some fields ∧
      let ttl := get_int64 fields "ttl_seconds" in
      ttl ≤ 9223372036 →
      l.(lnk_ExpiresAt) = if 0 <? ttl then Some (l.(lnk_CreatedAt) + ttl * time.Second) else None)).
Proof.
  intros u code m. split_and!.
  - pose proof (revokeLink_spec h r s) as Hr. cbv zeta in Hr. fold u code m in Hr.
    destruct (run h (revokeLink r fresh_wire) s) as [s' [w o]].
    destruct Hr as [(Hst & [Hsub Hkeep] & l & Hl & Ho)|(Hst & [Hsub Hkeep] & Hn)]; split_and!; try done.
    + intros c l' Hc He Hne. apply Hkeep; [|done]. rewrite lookup_delete_ne; [done|].
      destruct Hne as [Hne|Hne]; [done|]. intros <-. congruence.
    + etransitivity; [exact Hsub|apply delete_subseteq].
    + intros _. split; [|eauto]. eapply lookup_weaken_None; [|exact Hsub]. apply lookup_delete_eq.
    + intros Hn. by destruct (Hn l Hl).
    + intros c l' Hc He _. by apply Hkeep.
  - exact (listLinks_spec base h r s).
  - pose proof (createLink_spec base h r s) as Hc. fold u m in Hc.
    destruct (run h (createLink base r fresh_wire) s) as [s' [w o]].
    destruct Hc as [(Hst & Hsub & Hkeep)|(l & fields & Hb & Ho & Hn & [Hsub Hkeep] & Hd & He)]; split; try done.
    + intros c l' Hc Hx. apply Hkeep; [|done]. rewrite lookup_insert_ne; [done|]. intros <-. congruence.
    + intros _. exists l, fields. split_and!; try done. cbv zeta in He |- *. intros Hle. rewrite He, ttl_of_exact by exact Hle.
      destruct (Z.ltb_spec 0 (get_int64 fields "ttl_seconds")) as [Hp|Hp].
      * rewrite Z.max_r by lia. rewrite (proj2 (Z.ltb_lt 0 _)); [done|]. unfold time.Second, time.Millisecond. lia.
      * by rewrite Z.max_l by lia.
Qed.

(** * A concrete shortener *)
Definition vanity_of (opts : list CreateOption) : option string :=
  fold_left (λ o opt, match opt with WithVanityCode code => Some code | _ => o end) opts None.
Definition store_of_links : handler cairnE (gmap string Link) := λ X e m,
  match e in cairnE X return gmap string Link * X with
  | Shorten raw opts =>
      let code := default (strconv.Itoa (Z.of_nat (size m))) (vanity_of opts) in
      let l := {| lnk_Code := code; lnk_Raw := raw; lnk_OwnerID := owner_of opts;
                  lnk_Vanity := bool_decide (is_Some (vanity_of opts)); lnk_CreatedAt := 0;
                  lnk_ExpiresAt := time.Add 0 <$> ttl_option opts |} in
      match m !! code with
      | Some _ => (m, Err cairn_ErrCodeExists)
      | None => (<[code := l]> m, Ok l)
      end
  | Resolve code => (m, match m !! code with Some l => Ok l | None => Err cairn_ErrCodeNotFound end)
  | RevokeCode code => (delete code m, None)
  | ListByOwner owner after limit =>
      (m, Ok (take (Z.to_nat limit) (base.filter (λ l, l.(lnk_OwnerID) = owner) (map_to_list m).*2), ""))
  end.
#[export] Program Instance links_in_memory : Shortener store_of_links := {| links := λ m, m |}.
Next Obligation.
  intros X e m. destruct e as [raw opts|code|code|owner after limit]; cbn.
  - destruct (m !! _) eqn:E; cbn; [done|]. by split_and!.
  - destruct (m !! code) eqn:E; split; try done. by left.
  - done.
  - split; [done|]. split.
    + apply Forall_take, Forall_forall. intros l. rewrite list_elem_of_filter. by intros [? _].
    + intros Hl. rewrite length_take. lia.
Qed.

Definition alices_link : Link :=
  {| lnk_Code := "abc"; lnk_Raw := "https://example.com"; lnk_OwnerID := "alice"; lnk_Vanity := false;
     lnk_CreatedAt := 0; lnk_ExpiresAt := None |}.
Definition revoke_request (u code : string) : Request :=
  {| req_Method := "DELETE"; req_Path := "/links/" +:+ code; req_Query := ∅; req_Header := ∅; req_Cookies := [];
     req_PathValue := {[ "code" := code ]}; req_Body := {| body_value := None; body_end := 0 |};
     req_Context := ContextWithUserID background u |}.
#[local] Instance no_reasons : RejectReasons := λ _, "".

Example links_are_private_witness :
  let '(s', (w, _)) := run store_of_links (revokeLink (revoke_request "mallory" "abc") fresh_wire)
    {[ "abc" := alices_link ]} in
  s' !! "abc" = Some alices_link ∧ w = not_found.
Proof.
  pose proof (links_are_private "https://s.example.com" store_of_links (revoke_request "mallory" "abc")
    {[ "abc" := alices_link ]}) as Ht. cbv zeta in Ht. destruct Ht as (Hr & _).
  assert (status (run store_of_links (revokeLink (revoke_request "mallory" "abc") fresh_wire)
    {[ "abc" := alices_link ]}).2.1 = Some 404) as Hst by (vm_compute; reflexivity).
  match type of Hr with context [run ?hh ?p ?st] => destruct (run hh p st) as [s' [w o]] end.
  cbn [fst snd] in Hst. destruct Hr as (Hkeep & _ & _ & Hn).
  split.
  - apply Hkeep; [apply lookup_singleton_eq|done|]. by right.
  - destruct Hn as [Hn|Hn].
    + intros l. cbn. intros Hl. apply lookup_singleton_Some in Hl as [_ <-]. done.
    + exact Hn.
    + rewrite Hst in Hn. set_solver.
Defined.
