(* ===== verification/Mux.v ===== *)
(** [http.ServeMux]: patterns, the choice of the most specific one that matches, and
    what is answered when none does. *)

From S2P Require Import Prelude GoStd GoError Http.
Local Open Scope Z_scope.

(** * Patterns *)
Inductive segment := Lit (s : string) | Wild (name : string) | Rest.
Record pattern := { pat_method : string; pat_path : list segment }.

Definition parse_segment (s : string) : segment :=
  match s with
  | "" => Rest                                  (* a slash at the end *)
  | String "{" s' => Wild (strings.before_byte s' "}")
  | _ => Lit s
  end.
(** [parsePattern], for patterns without a host: an optional method, a space, a path. *)
Definition parsePattern (s : string) : pattern :=
  let method := if strings.ContainsByte s " " then strings.before_byte s " " else "" in
  let path := if strings.ContainsByte s " "
              then strings.drop_bytes (Datatypes.S (String.length method)) s else s in
  {| pat_method := method; pat_path := map parse_segment (strings.Split (strings.drop_bytes 1 path) "/") |}.

(** [r.SetPathValue], for all of them. *)
Definition with_path_values (m : gmap string string) (r : Request) : Request :=
  {| req_Method := r.(req_Method); req_Path := r.(req_Path); req_Query := r.(req_Query);
     req_Header := r.(req_Header); req_Cookies := r.(req_Cookies);
     req_PathValue := m; req_Body := r.(req_Body); req_Context := r.(req_Context) |}.

(** * Requests, as the multiplexer sees their URL *)

(** The segments of [EscapedPath] after its first slash, each of them unescaped (a
    slash at the end is an empty last segment); whether [cleanPath] leaves the path
    as it is; and whether [TrimPrefix] finds the prefix in both forms of the path. *)
Class RequestURL := {
  url_segments : Request → list string;
  url_clean : Request → bool;
  url_has_prefix : string → Request → bool;
  (* neither a context nor the values of wildcards are part of the URL *)
  url_of_context : ∀ c r, url_segments (WithContext c r) = url_segments r;
  url_of_values : ∀ m r, url_segments (with_path_values m r) = url_segments r;
}.

(** * Matching *)
Section match_.
Context {A : Type}.
Abbreviation table := (list (list segment * A)).

Definition after_lit (s : string) (t : table) : table :=
  omap (λ p, match p.1 with Lit s' :: l => if String.eqb s' s then Some (l, p.2) else None | _ => None end) t.
Definition after_wild (t : table) : table :=
  omap (λ p, match p.1 with Wild _ :: l => Some (l, p.2) | _ => None end) t.
Definition at_rest (t : table) : option A :=
  snd <$> List.find (λ p, match p.1 with [Rest] => true | _ => false end) t.
Definition at_end (t : table) : option A :=
  snd <$> List.find (λ p, match p.1 with [] => true | _ => false end) t.

(** [routingNode.matchPath]: the literal before the wildcard before the rest, with
    backtracking.  A wildcard does not match the empty segment of a slash at the
    end. *)
Fixpoint matchPath (t : table) (path : list string) (matches : list string) : option (A * list string) :=
  match path with
  | [] => (λ a, (a, matches)) <$> at_end t
  | s :: path' =>
      let lit := if String.eqb s "" then None else matchPath (after_lit s t) path' matches in
      let wild := if String.eqb s "" then None else matchPath (after_wild t) path' (matches ++ [s]) in
      match lit, wild with
      | Some r, _ => Some r
      | None, Some r => Some r
      | None, None => (λ a, (a, matches)) <$> at_rest t
      end
  end.
End match_.

Record entry (A : Type) := { ent_pattern : pattern; ent_handler : A }.
Arguments ent_pattern {A} _. Arguments ent_handler {A} _.
Definition on (A : Type) (s : string) (a : A) : entry A := {| ent_pattern := parsePattern s; ent_handler := a |}.
Arguments on {A} s a.

Definition with_method {A} (m : string) (mux : list (entry A)) : list (list segment * entry A) :=
  omap (λ e, if String.eqb e.(ent_pattern).(pat_method) m then Some (e.(ent_pattern).(pat_path), e) else None) mux.

(** [matchMethodAndPath]: the patterns with the method, then those with [GET] if it
    is [HEAD], then those without one. *)
Definition matchMethodAndPath {A} (mux : list (entry A)) (method : string) (path : list string)
    : option (entry A * list string) :=
  match matchPath (with_method method mux) path [] with
  | Some r => Some r
  | None =>
      match (if String.eqb method MethodHead then matchPath (with_method MethodGet mux) path [] else None) with
      | Some r => Some r
      | None => matchPath (with_method "" mux) path []
      end
  end.

(** The wildcards of a pattern, by name. *)
Fixpoint wild_names (l : list segment) : list string :=
  match l with
  | Wild n :: l' => n :: wild_names l'
  | _ :: l' => wild_names l'
  | [] => []
  end.
Definition path_values (p : pattern) (matches : list string) : gmap string string :=
  list_to_map (zip (wild_names p.(pat_path)) matches).
(** [exactMatch]: not by a pattern with a slash at the end that took more. *)
Definition exactMatch {A} (m : option (entry A * list string)) (path : list string) : bool :=
  match m with
  | None => false
  | Some (e, _) =>
      match last e.(ent_pattern).(pat_path) with
      | Some Rest => match last path with Some "" => Nat.eqb (length e.(ent_pattern).(pat_path)) (length path) | _ => false end
      | _ => true
      end
  end.

(** [matchingMethods]: the methods that would match, also with a slash at the end;
    [HEAD] with [GET]. *)
Definition matchingMethods {A} (mux : list (entry A)) (path : list string) : list string :=
  base.filter (λ m, m ≠ "" ∧ (is_Some (matchMethodAndPath mux m path) ∨
                               is_Some (matchMethodAndPath mux m (path ++ [""]))))
    (remove_dups (MethodHead :: map (λ e, e.(ent_pattern).(pat_method)) mux)).

(** ** What matching finds

    A pattern matches a path segment by segment; the search finds an entry exactly
    when some entry matches, and one that does. *)
Fixpoint pat_matches (p : list segment) (path : list string) : bool :=
  match p, path with
  | [], [] => true
  | [Rest], _ :: _ => true
  | Lit s :: p', s' :: path' => String.eqb s s' && negb (String.eqb s' "") && pat_matches p' path'
  | Wild _ :: p', s' :: path' => negb (String.eqb s' "") && pat_matches p' path'
  | _, _ => false
  end.

Lemma find_fst {A} (f : list segment → bool) (t : list (list segment * A)) a :
  snd <$> List.find (λ p, f p.1) t = Some a → ∃ l, (l, a) ∈ t ∧ f l = true.
Proof.
  intros Hf. apply fmap_Some in Hf as ([l a'] & Hf & ->). apply find_some in Hf as [Hin Hl].
  exists l. split; [by apply list_elem_of_In|done].
Qed.

Lemma matchPath_sound {A} (t : list (list segment * A)) path ms a ms' :
  matchPath t path ms = Some (a, ms') → ∃ l, (l, a) ∈ t ∧ pat_matches l path = true.
Proof.
  revert t ms; induction path as [|s path IH]; intros t ms; cbn [matchPath].
  { intros Hf. apply fmap_Some in Hf as (a' & Hf & [= <- <-]).
    destruct (find_fst (λ l, match l with [] => true | _ => false end) t a Hf) as (l & Hin & Hl).
    exists l. split; [done|]. by destruct l. }
  assert (Hrest : (λ a, (a, ms)) <$> at_rest t = Some (a, ms') →
    ∃ l, (l, a) ∈ t ∧ pat_matches l (s :: path) = true).
  { intros Hf. apply fmap_Some in Hf as (a' & Hf & [= <- <-]).
    destruct (find_fst (λ l, match l with [Rest] => true | _ => false end) t a Hf) as (l & Hin & Hl).
    exists l. split; [done|]. by destruct l as [|[] []]. }
  destruct (String.eqb s "") eqn:Hs; [exact Hrest|].
  destruct (matchPath (after_lit s t) path ms) as [[a1 ms1]|] eqn:Hl.
  { intros [= -> ->]. destruct (IH _ _ Hl) as (l & Hin & Hm). apply list_elem_of_omap in Hin as ([l0 a0] & Hin & Hp).
    cbn in Hp. destruct l0 as [|[s0| |] l0]; try done. destruct (String.eqb_spec s0 s) as [->|]; [|done].
    injection Hp as -> ->. exists (Lit s :: l). cbn. by rewrite String.eqb_refl, Hs, Hm. }
  destruct (matchPath (after_wild t) path (ms ++ [s])) as [[a1 ms1]|] eqn:Hw; [|exact Hrest].
  intros [= -> ->]. destruct (IH _ _ Hw) as (l & Hin & Hm). apply list_elem_of_omap in Hin as ([l0 a0] & Hin & Hp).
  cbn in Hp. destruct l0 as [|[|n|] l0]; try done. injection Hp as -> ->.
  exists (Wild n :: l). cbn. by rewrite Hs, Hm.
Qed.

Lemma matchPath_complete {A} (t : list (list segment * A)) path ms l a :
  (l, a) ∈ t → pat_matches l path = true → is_Some (matchPath t path ms).
Proof.
  revert t ms l; induction path as [|s path IH]; intros t ms l Hin Hm; cbn [matchPath].
  { destruct l as [|[] []]; try done. unfold at_end. rewrite !fmap_is_Some.
    destruct (List.find _ t) as [p|] eqn:Hf; [by eexists|]. by pose proof (find_none _ _ Hf ([], a) (proj1 (list_elem_of_In _ _) Hin)). }
  assert (Hrest : l = [Rest] → is_Some ((λ a, (a, ms)) <$> at_rest t)).
  { intros ->. unfold at_rest. rewrite !fmap_is_Some.
    destruct (List.find _ t) as [p|] eqn:Hf; [by eexists|]. by pose proof (find_none _ _ Hf ([Rest], a) (proj1 (list_elem_of_In _ _) Hin)). }
  destruct l as [|[s0|n|] l]; cbn in Hm; [done| | |].
  - apply andb_true_iff in Hm as [[<-%String.eqb_eq Hs%negb_true_iff]%andb_true_iff Hm]. rewrite Hs.
    destruct (IH (after_lit s0 t) ms l) as [r ->]; [|done|done].
    apply list_elem_of_omap. exists (Lit s0 :: l, a). cbn. by rewrite String.eqb_refl.
  - apply andb_true_iff in Hm as [Hs%negb_true_iff Hm]. rewrite Hs.
    destruct (matchPath (after_lit s t) path ms); [done|].
    destruct (IH (after_wild t) (ms ++ [s]) l) as [r ->]; [|done|done].
    apply list_elem_of_omap. by exists (Wild n :: l, a).
  - destruct l; [|done]. specialize (Hrest eq_refl). destruct (String.eqb s ""); [done|].
    repeat case_match; done.
Qed.

(** The entry that is found is of the table, for the method, and matches the path. *)
Definition ent_matches {A} (e : entry A) (method : string) (path : list string) : Prop :=
  pat_matches e.(ent_pattern).(pat_path) path = true ∧
  (e.(ent_pattern).(pat_method) = "" ∨ e.(ent_pattern).(pat_method) = method ∨
   method = MethodHead ∧ e.(ent_pattern).(pat_method) = MethodGet).

Lemma with_method_elem {A} m (mux : list (entry A)) l e :
  (l, e) ∈ with_method m mux ↔ e ∈ mux ∧ e.(ent_pattern).(pat_method) = m ∧ l = e.(ent_pattern).(pat_path).
Proof.
  unfold with_method. rewrite list_elem_of_omap. split.
  - intros (e' & Hin & He). destruct (String.eqb_spec (pat_method (ent_pattern e')) m); [|done]. by simplify_eq.
  - intros (Hin & <- & ->). exists e. by rewrite String.eqb_refl.
Qed.
Lemma matchMethodAndPath_sound {A} (mux : list (entry A)) method path e ms :
  matchMethodAndPath mux method path = Some (e, ms) → e ∈ mux ∧ ent_matches e method path.
Proof.
  unfold matchMethodAndPath, ent_matches. intros Hm.
  assert (Hone : ∀ m, matchPath (with_method m mux) path [] = Some (e, ms) →
    e ∈ mux ∧ pat_method (ent_pattern e) = m ∧ pat_matches (pat_path (ent_pattern e)) path = true).
  { intros m (l & Hin & Hp)%matchPath_sound. by apply with_method_elem in Hin as (Hin & Hme & ->). }
  destruct (matchPath (with_method method mux) path []) as [r|] eqn:H1.
  { injection Hm as ->. destruct (Hone _ H1) as (? & ? & ?). auto. }
  destruct (String.eqb_spec method MethodHead) as [Hh|Hh].
  - destruct (matchPath (with_method MethodGet mux) path []) as [r|] eqn:H2.
    + injection Hm as ->. destruct (Hone _ H2) as (? & ? & ?). auto 6.
    + destruct (Hone _ Hm) as (? & ? & ?). auto.
  - destruct (Hone _ Hm) as (? & ? & ?). auto.
Qed.
Lemma matchMethodAndPath_complete {A} (mux : list (entry A)) method path e :
  e ∈ mux → ent_matches e method path → is_Some (matchMethodAndPath mux method path).
Proof.
  intros Hin [Hp Hm]. unfold matchMethodAndPath.
  assert (Hone : is_Some (matchPath (with_method (pat_method (ent_pattern e)) mux) path [])).
  { eapply matchPath_complete; [|exact Hp]. by apply with_method_elem. }
  destruct Hm as [Hm|[Hm|[-> Hm]]]; rewrite Hm in Hone.
  - repeat case_match; done.
  - destruct Hone as [r ->]. done.
  - destruct (matchPath (with_method MethodHead mux) path []); [done|]. cbn. destruct Hone as [r ->]. done.
Qed.

(** * Answers *)

(** [http.Error]. *)
Definition Error_ (message : string) (code : Z) (w : wire) : wire :=
  let w := set_header "Content-Type" "text/plain; charset=utf-8" w in
  let w := set_header "X-Content-Type-Options" "nosniff" w in
  Write (CText (message +:+ String (byte_of 10) "")) (WriteHeader code w).
Definition NotFound : wire → wire := Error_ "404 page not found" 404.
Definition MethodNotAllowed (allow : list string) (w : wire) : wire :=
  Error_ (StatusText 405) 405
    (set_header "Allow" (strings.Join (sort_slice strings.less allow) ", ") w).

(** The redirection of an unclean path to its clean form: 301, with a [Location]. *)
Class Redirects := {
  Redirect : Request → wire → wire;
  redirect_sent : ∀ r w, w_sent w = None → ∃ hd, w_sent (Redirect r w) = Some (301, hd);
}.

(** [ServeMux.ServeHTTP], on the segments of the path. *)
Definition ServeMux {E} `{RequestURL, Redirects} (mux : list (entry (Handler E)))
    (path : list string) (clean : bool) : Handler E := λ r w,
  let m := matchMethodAndPath mux r.(req_Method) path in
  let slashed := path ++ [""] in
  let redirect := negb (exactMatch m path) && negb (bool_decide (last path = Some ""))
                  && exactMatch (matchMethodAndPath mux r.(req_Method) slashed) slashed in
  if redirect || (negb clean && negb (String.eqb r.(req_Method) "CONNECT")) then finish (Redirect r w)
  else match m with
       | Some (e, matches) =>
           e.(ent_handler) (with_path_values (path_values e.(ent_pattern) matches) r) w
       | None =>
           match matchingMethods mux path with
           | [] => finish (NotFound w)
           | allow => finish (MethodNotAllowed allow w)
           end
       end.

(** [http.StripPrefix]; the multiplexer behind it sees the path without its first
    segment. *)
Definition TrimPath (prefix : string) (r : Request) : Request :=
  {| req_Method := r.(req_Method); req_Path := strings.TrimPrefix r.(req_Path) prefix;
     req_Query := r.(req_Query); req_Header := r.(req_Header); req_Cookies := r.(req_Cookies);
     req_PathValue := r.(req_PathValue); req_Body := r.(req_Body); req_Context := r.(req_Context) |}.
Definition StripPrefix {E} `{RequestURL} (prefix : string) (h : Handler E) : Handler E := λ r w,
  if url_has_prefix prefix r then h (TrimPath prefix r) w else finish (NotFound w).

Example parsePattern_ex :
  map parsePattern ["GET /tasks/{id}"; "/v1/"; "/{code}"] =
    [{| pat_method := "GET"; pat_path := [Lit "tasks"; Wild "id"] |};
     {| pat_method := ""; pat_path := [Lit "v1"; Rest] |};
     {| pat_method := ""; pat_path := [Wild "code"] |}].
Proof. reflexivity. Qed.
