(* ===== verification/Path.v ===== *)
(** [path] and [path/filepath] (on Unix), and [encoding/base64], as far as the code uses
    them. *)

From S2P Require Import Prelude GoStd Text.
Local Open Scope Z_scope.

(** * Paths *)
Module path.
Definition slash : ascii := "/".

(** The elements of a path, resolved: the result so far, in reverse, is what stands
    before each element.  [..] removes the element before it; at the root it is dropped,
    at the start of a relative path it stays. *)
Fixpoint walk (rooted : bool) (out : list string) (l : list string) : list string :=
  match l with
  | [] => out
  | e :: l =>
      if String.eqb e "" || String.eqb e "." then walk rooted out l
      else if String.eqb e ".." then
        match out with
        | [] => walk rooted (if rooted then [] else [".."]) l
        | e' :: out' => walk rooted (if String.eqb e' ".." then ".." :: out else out') l
        end
      else walk rooted (e :: out) l
  end.
Definition rooted (s : string) : bool := strings.HasPrefix s "/".
Definition elements (s : string) : list string := rev (walk (rooted s) [] (strings.Split s slash)).
(** A path of resolved elements. *)
Definition render (rooted : bool) (l : list string) : string :=
  let s := (if rooted then "/" else "") +:+ strings.Join l "/" in
  if String.eqb s "" then "." else s.
Definition Clean (s : string) : string := render (rooted s) (elements s).
(** [path.Base]: the last element; slashes at the end do not count. *)
Definition Base (s : string) : string :=
  if String.eqb s "" then "."
  else match last (base.filter (λ e, e ≠ "") (strings.Split s slash)) with Some e => e | None => "/" end.
End path.

(** [strings.HasSuffix] and [strings.TrimSuffix]. *)
Definition HasSuffix (s suffix : string) : bool :=
  (String.length suffix <=? String.length s)%nat &&
  String.eqb (strings.drop_bytes (String.length s - String.length suffix) s) suffix.
Definition TrimSuffix (s suffix : string) : string :=
  if HasSuffix s suffix then of_bytes (take (String.length s - String.length suffix) (bytes s)) else s.

Module filepath.
(** On Unix, [Clean] is that of [path], [FromSlash] changes nothing, and [Join] starts
    from the first element that is not empty. *)
Definition Clean : string → string := path.Clean.
Definition FromSlash (s : string) : string := s.
Fixpoint Join (l : list string) : string :=
  match l with
  | [] => ""
  | e :: l' => if String.eqb e "" then Join l' else Clean (strings.Join l "/")
  end.
End filepath.

Example Clean_ex :
  map path.Clean [""; "/"; "a/../.."; "/../a//b/./c/.."; "../../x"; "a/.."] = ["."; "/"; ".."; "/a/b"; "../../x"; "."].
Proof. reflexivity. Qed.

Lemma prefix_split p s : String.prefix p s = true → s = p +:+ strings.drop_bytes (String.length p) s.
Proof.
  revert s; induction p as [|c p IH]; intros s Hp; [by rewrite append_empty|].
  destruct s as [|d s]; cbn in Hp; [done|]. destruct (ascii_dec c d) as [->|]; [|done].
  cbn [String.length strings.drop_bytes]. by rewrite append_cons, <-IH.
Qed.

(** ** Resolved elements *)

(** An element that is a name. *)
Definition name_elem (e : string) : Prop := e ≠ "" ∧ e ≠ "." ∧ e ≠ ".." ∧ without path.slash e.
#[export] Instance name_elem_without : ∀ e, Decision (without path.slash e).
Proof.
  intros e. destruct (decide (path.slash ∈ String.list_ascii_of_string e)) as [Hin|Hin].
  - right. intros Hw. by apply list_elem_of_In, Hw in Hin.
  - left. intros x Hx ->. by apply Hin, list_elem_of_In.
Defined.
#[export] Instance name_elem_dec e : Decision (name_elem e) := _.

(** What [walk] leaves, in reverse: names, on top of [..] elements unless it started at
    the root. *)
Inductive resolved (rooted : bool) : list string → Prop :=
| resolved_ups n : rooted = false ∨ n = 0%nat → resolved rooted (repeat ".." n)
| resolved_name e l : name_elem e → resolved rooted l → resolved rooted (e :: l).

Lemma Split_pieces s sep : Forall (without sep) (strings.Split s sep).
Proof.
  induction s as [|c s IH]; cbn [strings.Split].
  - apply Forall_cons. split; [by intros x []|by apply Forall_nil].
  - destruct (Ascii.eqb_spec c sep) as [->|Hc].
    + apply Forall_cons. split; [by intros x []|done].
    + destruct (strings.Split s sep) as [|w ws].
      * apply Forall_cons. split; [|by apply Forall_nil]. by intros x [<-|[]].
      * apply Forall_cons in IH as [Hw Hws]. apply Forall_cons. split; [|done].
        intros x [<-|Hx]; [done|by apply Hw].
Qed.

Lemma Split_concat s t sep : strings.Split (s +:+ String sep t) sep = strings.Split s sep ++ strings.Split t sep.
Proof.
  induction s as [|c s IH]; [by rewrite append_empty; cbn; rewrite Ascii.eqb_refl|].
  rewrite append_cons. cbn [strings.Split]. destruct (Ascii.eqb c sep); [by rewrite IH|].
  rewrite IH. destruct (strings.Split s sep) eqn:Hs; [|done].
  exfalso. destruct s as [|d s]; [done|]. cbn in Hs. repeat case_match; done.
Qed.

Lemma walk_app rooted out l l' : path.walk rooted out (l ++ l') = path.walk rooted (path.walk rooted out l) l'.
Proof.
  revert out; induction l as [|e l IH]; intros out; cbn; [done|].
  repeat case_match; apply IH.
Qed.

Lemma walk_names rooted out l : Forall name_elem l → path.walk rooted out l = rev l ++ out.
Proof.
  intros Hl. revert out; induction Hl as [|e l (H1 & H2 & H3 & _) Hl IH]; intros out; [done|].
  apply String.eqb_neq in H1, H2, H3. cbn. rewrite H1, H2, H3. cbn. by rewrite IH, <-app_assoc.
Qed.

Lemma walk_resolved rooted out l :
  Forall (without path.slash) l → resolved rooted out → resolved rooted (path.walk rooted out l).
Proof.
  intros Hl. revert out; induction Hl as [|e l He Hl IH]; intros out Hout; cbn; [done|].
  destruct (String.eqb_spec e ""); [by apply IH|]. destruct (String.eqb_spec e "."); [by apply IH|].
  cbn. destruct (String.eqb_spec e "..") as [->|]; [|apply IH; by apply resolved_name].
  destruct Hout as [k Hk|e' out' (H1 & H2 & H3 & H4) Hout'].
  - destruct k as [|k]; cbn; apply IH.
    + destruct rooted; [apply (resolved_ups _ 0)|apply (resolved_ups _ 1)]; auto.
    + destruct Hk as [Hk|]; [|done]. apply (resolved_ups _ (2 + k)). by left.
  - apply String.eqb_neq in H3. rewrite H3. by apply IH.
Qed.

Lemma elements_resolved s : resolved (path.rooted s) (rev (path.elements s)).
Proof.
  unfold path.elements. rewrite rev_involutive. apply walk_resolved; [apply Split_pieces|].
  apply (resolved_ups _ 0). by right.
Qed.

(** At the root there are only names. *)
Lemma resolved_root l : resolved true l → Forall name_elem l.
Proof.
  intros Hl. induction Hl as [n [| ->]|e l He Hl IH]; [done|by apply Forall_nil|].
  by apply Forall_cons.
Qed.
Lemma rooted_names s : path.rooted s = true → Forall name_elem (path.elements s).
Proof.
  intros Hr. pose proof (elements_resolved s) as Hs. rewrite Hr in Hs.
  apply resolved_root, Forall_rev in Hs. by rewrite rev_involutive in Hs.
Qed.

(** Resolved elements stay as they are. *)
Lemma walk_ups n : path.walk false [] (repeat ".." n) = repeat ".." n.
Proof.
  change (path.walk false (repeat ".." 0) (repeat ".." n) = repeat ".." n).
  rewrite <-(Nat.add_0_r n) at 2. generalize 0%nat as k.
  induction n as [|n IH]; intros k; [done|].
  transitivity (path.walk false (repeat ".." (Datatypes.S k)) (repeat ".." n)); [by destruct k|].
  rewrite IH. f_equal. lia.
Qed.
Lemma rev_ups n : rev (repeat ".." n) = repeat ".." n.
Proof.
  induction n as [|n IH]; [done|]. cbn. rewrite IH.
  change [".."] with (repeat ".." 1). rewrite <-repeat_app. replace (n + 1)%nat with (Datatypes.S n) by lia. done.
Qed.

Lemma walk_back rooted l : resolved rooted l → path.walk rooted [] (rev l) = l.
Proof.
  intros Hl. induction Hl as [n Hn|e l He Hl IH].
  - rewrite rev_ups. destruct Hn as [->| ->]; [apply walk_ups|done].
  - cbn [rev]. rewrite walk_app, IH, walk_names; [done|by apply Forall_singleton].
Qed.

Lemma resolved_without rooted l : resolved rooted l → Forall (λ e, e ≠ "" ∧ without path.slash e) l.
Proof.
  intros Hl. induction Hl as [n Hn|e l (H1 & _ & _ & H4) Hl IH]; [|by apply Forall_cons].
  apply Forall_forall. intros e He. apply list_elem_of_In, repeat_spec in He as ->. split; [done|].
  by intros x [<-|[<-|[]]].
Qed.

Lemma Join_elements l : Forall (without path.slash) l → l ≠ [] → strings.Split (strings.Join l "/") path.slash = l.
Proof. intros Hl Hn. by apply Split_Join. Qed.

Lemma Split_render rooted l :
  Forall (λ e, e ≠ "" ∧ without path.slash e) l →
  path.walk rooted [] (strings.Split (path.render rooted l) path.slash) = path.walk rooted [] l ∧
  (path.rooted (path.render rooted l) = rooted).
Proof.
  intros Hl. assert (Hw : Forall (without path.slash) l) by (eapply Forall_impl; [exact Hl|by intros ? []]).
  unfold path.render. destruct l as [|e l]; [by destruct rooted|].
  assert (Hne : strings.Join (e :: l) "/" ≠ "" ∧ strings.HasPrefix (strings.Join (e :: l) "/") "/" = false).
  { apply Forall_cons in Hl as [[He Hs] _]. destruct e as [|c e]; [done|].
    assert (c ≠ "/"%char) by (apply Hs; by left).
    destruct l; cbn [strings.Join]; rewrite ?append_cons; (split; [done|]);
      unfold strings.HasPrefix; cbn [String.prefix]; by destruct (ascii_dec _ c) as [<-|]. }
  destruct rooted.
  - rewrite append_cons, append_empty. cbn [String.eqb].
    rewrite <-(append_empty (String "/" _)). change (String "/" ?s) with (String path.slash s).
    rewrite Split_concat, Join_elements by done. split; [done|].
    generalize (strings.Join (e :: l) "/"). by intros [].
  - rewrite append_empty. destruct Hne as [Hne Hp]. apply String.eqb_neq in Hne. rewrite Hne.
    by rewrite Join_elements.
Qed.

Lemma elements_without s : Forall (λ e, e ≠ "" ∧ without path.slash e) (path.elements s).
Proof.
  rewrite <-(rev_involutive (path.elements s)). apply Forall_rev.
  eapply resolved_without, elements_resolved.
Qed.
Lemma rooted_Clean s : path.rooted (path.Clean s) = path.rooted s.
Proof. apply Split_render, elements_without. Qed.
Lemma walk_Clean s : path.walk (path.rooted s) [] (strings.Split (path.Clean s) path.slash) = rev (path.elements s).
Proof.
  unfold path.Clean. rewrite (proj1 (Split_render _ _ (elements_without s))).
  rewrite <-(rev_involutive (path.elements s)) at 1. apply walk_back, elements_resolved.
Qed.
Lemma elements_Clean s : path.elements (path.Clean s) = path.elements s.
Proof. unfold path.elements at 1. by rewrite rooted_Clean, walk_Clean, rev_involutive. Qed.
Lemma Clean_Clean s : path.Clean (path.Clean s) = path.Clean s.
Proof. unfold path.Clean at 1. by rewrite rooted_Clean, elements_Clean. Qed.

(** ** [Join] *)
Lemma Clean_nonempty s : path.Clean s ≠ "".
Proof. unfold path.Clean, path.render. case_match eqn:E; [done|]. by apply String.eqb_neq. Qed.

Lemma rooted_append s t : s ≠ "" → path.rooted (s +:+ t) = path.rooted s.
Proof.
  destruct s as [|c s]; [done|]. intros _. rewrite append_cons. unfold path.rooted, strings.HasPrefix. cbn [String.prefix].
  destruct (ascii_dec _ c); [|done]. by destruct s, t.
Qed.

(** The elements of the second part are resolved on top of those of the first. *)
Lemma elements_append s t : s ≠ "" →
  path.elements (s +:+ String path.slash t) =
    rev (path.walk (path.rooted s) (rev (path.elements s)) (strings.Split t path.slash)).
Proof.
  intros Hs. unfold path.elements. rewrite rooted_append by done.
  by rewrite Split_concat, walk_app, rev_involutive.
Qed.

Lemma Join_two s t : s ≠ "" → filepath.Join [s; t] = path.Clean (s +:+ String path.slash t).
Proof. intros Hs. cbn. apply String.eqb_neq in Hs. by rewrite Hs, append_cons, append_empty. Qed.

(** A rooted path below a directory. *)
Lemma Join_rooted d p : d ≠ "" → path.rooted p = true →
  filepath.Join [d; path.Clean p] = path.render (path.rooted d) (path.elements d ++ path.elements p).
Proof.
  intros Hd Hp. rewrite Join_two by done. unfold path.Clean at 1.
  rewrite rooted_append, elements_append by done. f_equal.
  pose proof (walk_Clean p) as Hw. rewrite Hp in Hw.
  pose proof (rooted_names p Hp) as Hn.
  assert (Hs : ∃ l, strings.Split (path.Clean p) path.slash = "" :: l ∧ (l = [""] ∨ Forall name_elem l)).
  { unfold path.Clean, path.render. rewrite Hp. destruct (path.elements p) as [|e l] eqn:He.
    - exists [""]. cbn. auto.
    - exists (e :: l). split; [|by right]. rewrite append_cons, append_empty. cbn [String.eqb].
      rewrite <-(append_empty (String "/" _)). change (String "/" ?s) with (String path.slash s).
      rewrite Split_concat, Join_elements; [done| |done].
      rewrite <-He. eapply Forall_impl; [apply elements_without|by intros ? []]. }
  destruct Hs as (l & Hs & Hl). rewrite Hs in *. destruct Hl as [->|Hl].
  - cbn in *. rewrite rev_involutive. destruct (path.elements p) as [|e l]; [by rewrite app_nil_r|].
    cbn in Hw. by destruct (rev l).
  - cbn [path.walk String.eqb orb] in *. rewrite walk_names in Hw by done.
    rewrite app_nil_r in Hw. apply (f_equal (@rev _)) in Hw. rewrite !rev_involutive in Hw. subst l.
    by rewrite walk_names, rev_app_distr, !rev_involutive.
Qed.
