(* ===== verification/TaskCache.v ===== *)
(** [internal/task/cached_repository.go]: the cache-aside layer over [FindAll].  The
    cache itself is the library cistern: looking a key up, storing under it and
    invalidating a tag are calls with any implementation that behaves as
    documented. *)

From S2P Require Import Prelude GoStd GoError Uuid Text Task TaskMemory TaskSpec.
Local Open Scope Z_scope.

(** * cistern *)
Inductive cisternE : Type → Type :=
| CacheLoad (key : string) : cisternE (option (list Task))
| CacheStore (key : string) (tags : list string) (value : list Task) : cisternE unit
| InvalidateTag (tag : string) : cisternE (option error)
| OnInvalidationError (err : error) : cisternE unit.   (* the field of [CachedRepository] *)

Definition cachedE : Type → Type := sumE cisternE repoE.

(** * Keys *)
Record cacheKey := {
  ck_userID : string;
  ck_statuses : string;
  ck_priorities : string;
  ck_limit : Z;
  ck_offset : Z;
}.

Definition sortedJoin (values : list string) : string :=
  match values with
  | [] => ""
  | _ => strings.Join (sort_slice strings.less values) ","
  end.

Definition newCacheKey (userID : string) (limit offset : Z) (statuses priorities : list string) : cacheKey :=
  {| ck_userID := userID; ck_statuses := sortedJoin statuses; ck_priorities := sortedJoin priorities;
     ck_limit := limit; ck_offset := offset |}.

Definition cacheKeyString (k : cacheKey) : string :=
  "user:" +:+ k.(ck_userID) +:+ ":lists:status=" +:+ k.(ck_statuses) +:+ ":priority=" +:+ k.(ck_priorities)
  +:+ ":limit=" +:+ strconv.Itoa k.(ck_limit) +:+ ":offset=" +:+ strconv.Itoa k.(ck_offset).

Definition userTag (userID : string) : string := "user:" +:+ userID +:+ ":lists".
Definition cacheKeyTag (k : cacheKey) : list string := [userTag k.(ck_userID)].

(** * CachedRepository *)
Section CachedRepository.
Local Open Scope prog_scope.

(** [cistern.GetOrLoad] with this repository's key, tags and loader. *)
Definition GetOrLoad (k : cacheKey) (load : prog cachedE (result (list Task))) : prog cachedE (result (list Task)) :=
  hit ← trigger (CacheLoad (cacheKeyString k));
  match hit with
  | Some v => mret (Ok v)
  | None =>
      r ← load;
      match r with
      | Err e => mret (Err e)
      | Ok v => _ ← trigger (CacheStore (cacheKeyString k) (cacheKeyTag k) v); mret (Ok v)
      end
  end.

Definition invalidateOwner (userID : string) : prog cachedE unit :=
  err ← trigger (InvalidateTag (userTag userID));
  match err with
  | Some e => trigger (OnInvalidationError e)
  | None => mret ()
  end.

(** A write, and the invalidation that follows it if it succeeded. *)
Definition write_through (e : repoE (option error)) (userID : string) : prog cachedE (option error) :=
  err ← trigger e;
  match err with
  | Some e => mret (Some e)
  | None => _ ← invalidateOwner userID; mret None
  end.

Definition CachedRepository X (e : repoE X) : prog cachedE X :=
  match e in repoE X return prog cachedE X with
  | Create task => write_through (Create task) task.(task_UserID)
  | FindByID id userID => trigger (FindByID id userID)
  | FindAll userID limit offset statuses priorities =>
      GetOrLoad (newCacheKey userID limit offset statuses priorities)
        (trigger (FindAll userID limit offset statuses priorities))
  | Update task => write_through (Update task) task.(task_UserID)
  | Delete id userID => write_through (Delete id userID) userID
  | CountAll userID statuses priorities => trigger (CountAll userID statuses priorities)
  | CountByStatusAndPriority userID statuses priorities =>
      trigger (CountByStatusAndPriority userID statuses priorities)
  end.

Definition handle_cached {C S} (hc : handler cisternE C) (h : handler repoE S) : handler repoE (C * S) :=
  λ X e, run (handle_sum hc h) (CachedRepository X e).
End CachedRepository.

(** * The cache *)

(** What is documented of it: an answer was stored under the key, a store adds at
    most its entry, after a successful invalidation no entry has the tag, and
    entries may disappear at any time. *)
Class Cistern {C : Type} (hc : handler cisternE C) := {
  cache_view : C → gmap string (list string * list Task);
  cache_load : ∀ c k, let '(c', x) := hc _ (CacheLoad k) c in
    cache_view c' ⊆ cache_view c ∧ ∀ v, x = Some v → ∃ tags, cache_view c !! k = Some (tags, v);
  cache_store : ∀ c k tags v, cache_view (hc _ (CacheStore k tags v) c).1 ⊆ <[k := (tags, v)]> (cache_view c);
  cache_invalidate : ∀ c tag, let '(c', x) := hc _ (InvalidateTag tag) c in
    cache_view c' ⊆ cache_view c ∧
    (x = None → ∀ k tags v, cache_view c' !! k = Some (tags, v) → tag ∉ tags);
  cache_report : ∀ c err, cache_view (hc _ (OnInvalidationError err) c).1 ⊆ cache_view c;
}.

(** ** Keys determine answers *)

(** Text that can stand between the separators of a key. *)
Definition key_text (s : string) : Prop := s ≠ "" ∧ without "," s ∧ without ":" s.

#[export] Instance strings_less_weak : StrictWeak strings.less.
Proof.
  split.
  - intros x y. rewrite !less_false. destruct (total String.le x y); auto.
  - intros x y z. unfold in_order. rewrite !less_false. intros. by etransitivity.
Qed.

Lemma sortedJoin_eq l : sortedJoin l = strings.Join (sort_slice strings.less l) ",".
Proof. by destruct l. Qed.

Lemma sortedJoin_perm l l' : l ≡ₚ l' → sortedJoin l = sortedJoin l'.
Proof.
  intros Hp. assert (sort_slice strings.less l = sort_slice strings.less l') as Hs.
  { apply sort_slice_unique; [apply _| |done]. intros a b _ _. unfold in_order. rewrite !less_false.
    intros. by apply (anti_symm String.le). }
  by rewrite !sortedJoin_eq, Hs.
Qed.

Lemma sortedJoin_inj l l' : Forall key_text l → Forall key_text l' → sortedJoin l = sortedJoin l' → l ≡ₚ l'.
Proof.
  intros Hl Hl'. rewrite !sortedJoin_eq. intros H.
  rewrite <-(sort_slice_perm strings.less l), <-(sort_slice_perm strings.less l').
  rewrite (Join_inj "," _ _) with (3 := H); [done| |];
    (rewrite sort_slice_perm; eapply Forall_impl; [eassumption|by intros ? (? & ? & ?)]).
Qed.

Lemma sortedJoin_without l : Forall key_text l → without ":" (sortedJoin l).
Proof.
  rewrite sortedJoin_eq. intros Hl. rewrite <-(sort_slice_perm strings.less l) in Hl.
  induction Hl as [|s m (Hne & Hcomma & Hcolon) Hl IH]; [by intros x []|].
  destruct m as [|s' m]; [done|]. cbn [strings.Join] in *. intros x.
  rewrite !list_ascii_append. intros [Hx|[Hx|Hx]%in_app_iff]%in_app_iff; [by apply Hcolon| |by apply IH].
  destruct Hx as [<-|[]]. done.
Qed.

Lemma split_without (c : ascii) s s' t t' :
  without c s → without c s' → s +:+ String c t = s' +:+ String c t' → s = s' ∧ t = t'.
Proof.
  intros Hs Hs'. apply (split_at c (λ x, negb (Ascii.eqb x c))).
  - by rewrite Ascii.eqb_refl.
  - intros x Hx. apply negb_true_iff, Ascii.eqb_neq. by apply Hs.
  - intros x Hx. apply negb_true_iff, Ascii.eqb_neq. by apply Hs'.
Qed.

Lemma Itoa_without n : without ":" (strconv.Itoa n).
Proof. intros x Hx ->. by apply Itoa_chars in Hx. Qed.

(** The key names the request, up to the order of its filters. *)
Lemma cacheKeyString_inj u u' n n' o o' st st' pr pr' :
  without ":" u → without ":" u' → Forall key_text st → Forall key_text st' →
  Forall key_text pr → Forall key_text pr' →
  cacheKeyString (newCacheKey u n o st pr) = cacheKeyString (newCacheKey u' n' o' st' pr') →
  u = u' ∧ n = n' ∧ o = o' ∧ st ≡ₚ st' ∧ pr ≡ₚ pr'.
Proof.
  intros Hu Hu' Hst Hst' Hpr Hpr'. unfold cacheKeyString, newCacheKey. cbn [ck_userID ck_statuses ck_priorities ck_limit ck_offset].
  intros H. apply append_inj_l in H. apply split_without in H as [-> H]; [|done|done].
  apply (append_inj_l "lists:status=") in H.
  apply split_without in H as [Hs H]; [|by apply sortedJoin_without..].
  apply (append_inj_l "priority=") in H. apply split_without in H as [Hp H]; [|by apply sortedJoin_without..].
  apply (append_inj_l "limit=") in H. apply split_without in H as [Hn H]; [|apply Itoa_without..].
  apply (append_inj_l "offset=") in H. apply Itoa_inj_Z in Hn, H.
  split_and!; try done; by apply sortedJoin_inj.
Qed.

Lemma userTag_inj u u' : userTag u = userTag u' → u = u'.
Proof.
  unfold userTag. intros H. apply append_inj_l in H. apply append_inj in H as [? _]; [done|].
  apply (f_equal String.length) in H. rewrite !length_append in H. simpl in H. lia.
Qed.

(** * Coherence *)

(** What [FindAll] may answer for these parameters. *)
Definition page_of (m : store) (u : string) (limit offset : Z) (st pr : list string) (v : list Task) : Prop :=
  ∃ l, is_listing m u st pr l ∧ paginateTasks l limit offset = Some v.

(** Calls as [Service] makes them: a user's identifier and validated filters. *)
Definition service_call {X} (e : repoE X) : Prop :=
  match e with
  | FindAll u _ _ st pr => without ":" u ∧ Forall key_text st ∧ Forall key_text pr
  | _ => True
  end.

(** An entry under the key of a request, tagged with its owner. *)
Definition entry_of (key : string) (tags : list string) (u : string) (limit offset : Z) (st pr : list string) : Prop :=
  service_call (FindAll u limit offset st pr) ∧
  key = cacheKeyString (newCacheKey u limit offset st pr) ∧ tags = [userTag u].

(** Every entry is a page of the tasks as they are; every entry is a page of tasks of
    its owner, as they are or were. *)
Definition coherent (view : gmap string (list string * list Task)) (m : store) : Prop :=
  ∀ key tags v, view !! key = Some (tags, v) → ∃ u limit offset st pr,
    entry_of key tags u limit offset st pr ∧ page_of m u limit offset st pr v.
Definition confined (view : gmap string (list string * list Task)) : Prop :=
  ∀ key tags v, view !! key = Some (tags, v) → ∃ u limit offset st pr,
    entry_of key tags u limit offset st pr ∧ Forall (λ t, t.(task_UserID) = u) v.

Lemma page_owned m u limit offset st pr v : page_of m u limit offset st pr v → Forall (λ t, t.(task_UserID) = u) v.
Proof.
  intros (l & [Hl _] & Hp). assert (Forall (λ t, t.(task_UserID) = u) l) as Hall.
  { apply Forall_forall. intros t. rewrite Hl. unfold selected. rewrite list_elem_of_filter. intros [Hs _].
    unfold selects in Hs. rewrite !andb_true_iff, String.eqb_eq in Hs. tauto. }
  unfold paginateTasks in Hp. repeat case_match; simplify_eq; auto using Forall_drop, Forall_take.
Qed.

Lemma coherent_confined view m : coherent view m → confined view.
Proof.
  intros Hc key tags v Hk. destruct (Hc key tags v Hk) as (u & n & o & st & pr & He & Hp).
  exists u, n, o, st, pr. split; [done|]. by eapply page_owned.
Qed.

Lemma coherent_sub view view' m : view' ⊆ view → coherent view m → coherent view' m.
Proof. intros Hs Hc key tags v Hk. eapply Hc, lookup_weaken; eauto. Qed.
Lemma confined_sub view view' : view' ⊆ view → confined view → confined view'.
Proof. intros Hs Hc key tags v Hk. eapply Hc, lookup_weaken; eauto. Qed.

(** The user's tasks decide the user's pages. *)
Lemma selected_same m m' u st pr : wf_store m → wf_store m' →
  (∀ k t, t.(task_UserID) = u → m !! k = Some t ↔ m' !! k = Some t) → selected m u st pr ≡ₚ selected m' u st pr.
Proof.
  intros Hm Hm' Heq.
  assert (Hnd : ∀ m, wf_store m → NoDup (selected m u st pr)).
  { intros s Hs. apply NoDup_filter. apply (NoDup_fmap_1 task_ID). unfold values.
    rewrite <-list_fmap_compose. erewrite list_fmap_ext; [apply NoDup_fst_map_to_list|].
    intros i [k t] Hi. simpl. apply list_elem_of_lookup_2, elem_of_map_to_list in Hi. by apply Hs. }
  apply NoDup_Permutation; [by apply Hnd|by apply Hnd|]. intros t. unfold selected.
  rewrite !list_elem_of_filter, !(elem_of_values _ _ _ (Permutation_refl _)).
  split; intros [Hs [k Hk]]; (split; [done|]); exists k; apply Heq; try done;
    unfold selects in Hs; rewrite !andb_true_iff, String.eqb_eq in Hs; tauto.
Qed.

Lemma page_same m m' u limit offset st pr v : wf_store m → wf_store m' →
  (∀ k t, t.(task_UserID) = u → m !! k = Some t ↔ m' !! k = Some t) →
  page_of m u limit offset st pr v → page_of m' u limit offset st pr v.
Proof.
  intros Hm Hm' Heq (l & [Hl Hs] & Hp). exists l. split; [|done]. split; [|done].
  rewrite Hl. by apply selected_same.
Qed.

(** The answers to two requests with one key. *)
Lemma page_permuted m u limit offset st st' pr pr' v :
  st ≡ₚ st' → pr ≡ₚ pr' → page_of m u limit offset st pr v → page_of m u limit offset st' pr' v.
Proof.
  assert (Hm : ∀ x l l', l ≡ₚ l' → matchesAny x l = matchesAny x l').
  { intros x l l' Hp. unfold matchesAny.
    assert (existsb (String.eqb x) l = existsb (String.eqb x) l') as He.
    { apply eq_true_iff_eq. rewrite !existsb_exists. setoid_rewrite <-list_elem_of_In. by setoid_rewrite Hp. }
    destruct l, l'; try done; [by apply Permutation_nil_l in Hp|by symmetry in Hp; apply Permutation_nil_l in Hp]. }
  intros Hst Hpr (l & [Hl Hs] & Hp). exists l. split; [|done]. split; [|done].
  rewrite Hl. unfold selected.
  erewrite list_filter_iff; [reflexivity|]. intros t. unfold selects. by rewrite (Hm _ _ _ Hst), (Hm _ _ _ Hpr).
Qed.

(** What a write changes belongs to one user. *)
Lemma write_touches X (e : repoE X) (m m' : store) x u :
  wf_store m → repo_spec e m m' x →
  match e with
  | Create t | Update t => u ≠ t.(task_UserID)
  | Delete _ w => u ≠ w
  | _ => True
  end → ∀ k t, t.(task_UserID) = u → m !! k = Some t ↔ m' !! k = Some t.
Proof.
  intros Hm Hs Hu k t <-. destruct e; simpl in Hs; try (by destruct Hs as [-> _]).
  - destruct x as [err|]; [by destruct Hs as [-> _]|]. destruct Hs as [Hn ->].
    rewrite lookup_insert. case_decide as Hk; [|done]. subst k. rewrite Hn. split; [done|].
    intros [= <-]. by destruct Hu.
  - destruct x as [err|]; [by destruct Hs as [-> _]|]. destruct Hs as (t0 & Ho & _ & ->).
    apply owned_Some in Ho as [Ho Hw]. rewrite lookup_insert. case_decide as Hk; [|done]. subst k.
    rewrite Ho. split; intros [= <-]; by destruct Hu.
  - destruct x as [err|]; [by destruct Hs as [-> _]|]. destruct Hs as [[t0 Ho] ->].
    apply owned_Some in Ho as [Ho Hw]. rewrite lookup_delete. case_decide as Hk; [|done]. subst k.
    rewrite Ho. split; [|done]. intros [= ->]. by destruct Hu.
Qed.

Section refinement.
Context {C S : Type} (hc : handler cisternE C) `{!Cistern hc} (h : handler repoE S) `{!TaskRepository h}.

(** One call of the decorated repository: what it does to the tasks is what the
    repository does, except that a hit answers a listing. *)
Lemma write_through_run (e : repoE (option error)) u c s :
  ∃ c', (let '((c1, s1), x) := run (handle_sum hc h) (write_through e u) (c, s) in
         c1 = c' ∧ s1 = (h _ e s).1 ∧ x = (h _ e s).2) ∧
    cache_view c' ⊆ cache_view c ∧
    ((h _ e s).2 = None → (∀ tag c, (hc _ (InvalidateTag tag) c).2 = None) →
       ∀ k tags v, cache_view c' !! k = Some (tags, v) → userTag u ∉ tags).
Proof.
  unfold write_through. simpl. destruct (h _ e s) as [s' [err|]]; simpl.
  { exists c. split; [done|]. split; [done|]. by intros. }
  pose proof (cache_invalidate c (userTag u)) as Hi.
  assert (Hr : ∀ hyp : (∀ tag c, (hc _ (InvalidateTag tag) c).2 = None), (hc _ (InvalidateTag (userTag u)) c).2 = None) by auto.
  destruct (hc _ (InvalidateTag (userTag u)) c) as [c1 [err|]]; simpl in *; destruct Hi as [Hsub Hi].
  - pose proof (cache_report c1 err) as Hrep. destruct (hc _ (OnInvalidationError err) c1) as [c2 []]. simpl in *.
    exists c2. split; [done|]. split; [by etransitivity|]. intros _ Hall. by specialize (Hr Hall).
  - exists c1. split; [done|]. split; [done|]. intros _ _. by apply Hi.
Qed.

(** A listing: the cache's answer, or the repository's, which is then cached. *)
Lemma find_all_run u limit offset st pr c s :
  let k := newCacheKey u limit offset st pr in
  let e := FindAll u limit offset st pr in
  ∃ c', (let '((c1, s1), x) := run (handle_sum hc h) (GetOrLoad k (trigger e)) (c, s) in
     c1 = c' ∧
     ((∃ v tags, cache_view c !! cacheKeyString k = Some (tags, v) ∧ s1 = s ∧ x = Ok v ∧ cache_view c' ⊆ cache_view c) ∨
      (s1 = (h _ e s).1 ∧ x = (h _ e s).2 ∧
       match x with
       | Ok v => cache_view c' ⊆ <[cacheKeyString k := ([userTag u], v)]> (cache_view c)
       | Err _ => cache_view c' ⊆ cache_view c
       end))).
Proof.
  intros k e. unfold GetOrLoad. simpl. pose proof (cache_load c (cacheKeyString k)) as Hl.
  destruct (hc _ (CacheLoad (cacheKeyString k)) c) as [c1 [v|]]; simpl; destruct Hl as [Hsub Hl].
  - exists c1. split; [done|]. left. destruct (Hl v eq_refl) as [tags Ht]. by exists v, tags.
  - destruct (h _ e s) as [s1 [v|err]]; simpl.
    + pose proof (cache_store c1 (cacheKeyString k) (cacheKeyTag k) v) as Hst.
      destruct (hc _ (CacheStore (cacheKeyString k) (cacheKeyTag k) v) c1) as [c2 []]. simpl in *.
      exists c2. split; [done|]. right. split; [done|]. split; [done|]. etransitivity; [exact Hst|].
      by apply insert_mono.
    + exists c1. split; [done|]. by right.
Qed.
(** A page of the user's own tasks, if a page it is. *)
Definition own_page {X} (e : repoE X) : X → Prop :=
  match e in repoE X return X → Prop with
  | FindAll u _ _ _ _ => λ x, ∀ v, x = Ok v → Forall (λ t, t.(task_UserID) = u) v
  | _ => λ _, True
  end.

(** What is in the cache after any call. *)
Lemma entry_same_owner key tags u limit offset st pr u' limit' offset' st' pr' :
  entry_of key tags u limit offset st pr → service_call (FindAll u' limit' offset' st' pr') →
  key = cacheKeyString (newCacheKey u' limit' offset' st' pr') →
  u = u' ∧ limit = limit' ∧ offset = offset' ∧ st ≡ₚ st' ∧ pr ≡ₚ pr'.
Proof.
  intros ((? & ? & ?) & -> & _) (? & ? & ?) Hkey. by apply cacheKeyString_inj in Hkey.
Qed.

Lemma find_all_cached u limit offset st pr c s : repo_inv s → service_call (FindAll u limit offset st pr) →
  let '((c', s'), x) := handle_cached hc h _ (FindAll u limit offset st pr) (c, s) in
  repo_inv s' ∧ repo_view s' = repo_view s ∧
  (confined (cache_view c) → confined (cache_view c') ∧ own_page (FindAll u limit offset st pr) x) ∧
  (coherent (cache_view c) (repo_view s) → coherent (cache_view c') (repo_view s) ∧
     repo_spec (FindAll u limit offset st pr) (repo_view s) (repo_view s) x).
Proof.
  intros Hi Hcall. unfold handle_cached; cbn [CachedRepository].
  destruct (find_all_run u limit offset st pr c s) as (c' & Hrun).
  destruct (run _ _ _) as [[c1 s1] x]. destruct Hrun as [-> [(v & tags & Hk & -> & -> & Hsub)|(-> & Hx & Hsub)]].
  - split; [done|]. split; [done|]. split.
    + intros Hc. split; [by eapply confined_sub|]. intros w [= <-].
      destruct (Hc _ _ _ Hk) as (u' & n' & o' & st' & pr' & He & Hall).
      by destruct (entry_same_owner _ _ _ _ _ _ _ _ _ _ _ _ He Hcall eq_refl) as (<- & _).
    + intros Hc. split; [by eapply coherent_sub|]. split; [done|].
      destruct (Hc _ _ _ Hk) as (u' & n' & o' & st' & pr' & He & Hp).
      destruct (entry_same_owner _ _ _ _ _ _ _ _ _ _ _ _ He Hcall eq_refl) as (-> & -> & -> & Hst & Hpr).
      by eapply page_permuted.
  - pose proof (repo_sound _ (FindAll u limit offset st pr) s Hi) as [Hv Hs]. rewrite <-Hx in Hs.
    split; [by apply repo_step_inv|]. split; [done|].
    assert (Hentry : entry_of (cacheKeyString (newCacheKey u limit offset st pr)) [userTag u] u limit offset st pr) by done.
    destruct x as [v|err]; simpl in Hs.
    + split; intros Hc.
      * assert (Hown : Forall (λ t, t.(task_UserID) = u) v) by by eapply page_owned.
        split; [|by intros w [= <-]]. eapply confined_sub; [exact Hsub|]. intros key tags w.
        rewrite lookup_insert. case_decide; [|by apply Hc]. intros [= <- <-]. subst key. by exists u, limit, offset, st, pr.
      * split; [|done]. eapply coherent_sub; [exact Hsub|]. intros key tags w.
        rewrite lookup_insert. case_decide; [|by apply Hc]. intros [= <- <-]. subst key. by exists u, limit, offset, st, pr.
    + split; intros Hc; (split; [by eapply confined_sub || by eapply coherent_sub|done]).
Qed.

(** Calls that go through, and writes. *)
Definition writer {X} (e : repoE X) : option string :=
  match e with
  | Create t | Update t => Some t.(task_UserID)
  | Delete _ u => Some u
  | _ => None
  end.

Lemma other_cached X (e : repoE X) c s : repo_inv s →
  match e with FindAll _ _ _ _ _ => False | _ => True end →
  let '((c', s'), x) := handle_cached hc h X e (c, s) in
  s' = (h X e s).1 ∧ x = (h X e s).2 ∧ cache_view c' ⊆ cache_view c ∧
  (repo_view s' ≠ repo_view s → (∀ tag c, (hc _ (InvalidateTag tag) c).2 = None) →
     ∃ u, writer e = Some u ∧ ∀ k tags v, cache_view c' !! k = Some (tags, v) → userTag u ∉ tags).
Proof.
  intros Hi Hne. unfold handle_cached.
  assert (Hwrite : ∀ (e : repoE (option error)) u, (∀ err, (h _ e s).2 = Some err → repo_view (h _ e s).1 = repo_view s) →
    let '((c', s'), x) := run (handle_sum hc h) (write_through e u) (c, s) in
    s' = (h _ e s).1 ∧ x = (h _ e s).2 ∧ cache_view c' ⊆ cache_view c ∧
    (repo_view s' ≠ repo_view s → (∀ tag c, (hc _ (InvalidateTag tag) c).2 = None) →
       ∃ u', Some u = Some u' ∧ ∀ k tags v, cache_view c' !! k = Some (tags, v) → userTag u' ∉ tags)).
  { intros e0 u Herr. destruct (write_through_run e0 u c s) as (c' & Hrun & Hsub & Hgone).
    destruct (run _ _ _) as [[c1 s1] x]. destruct Hrun as (-> & -> & ->). split_and!; try done.
    intros Hch Hinv. exists u. split; [done|]. apply Hgone; [|done].
    destruct (h _ e0 s).2 as [err|] eqn:E; [|done]. by destruct Hch; apply (Herr err). }
  assert (Hread : ∀ X (e : repoE X), repo_view (h X e s).1 = repo_view s →
    let '((c', s'), x) := run (handle_sum hc h) (trigger e) (c, s) in
    s' = (h X e s).1 ∧ x = (h X e s).2 ∧ cache_view c' ⊆ cache_view c ∧
    (repo_view s' ≠ repo_view s → (∀ tag c, (hc _ (InvalidateTag tag) c).2 = None) →
       ∃ u, writer e = Some u ∧ ∀ k tags v, cache_view c' !! k = Some (tags, v) → userTag u ∉ tags)).
  { intros Y e0 Hv. simpl. destruct (h Y e0 s) as [s' x]. split_and!; try done. }
  pose proof (repo_sound X e s Hi) as Hs. destruct e; cbn [CachedRepository writer]; try done;
    try (apply Hread; by destruct Hs);
    (apply Hwrite; intros err Herr; rewrite Herr in Hs; by destruct Hs).
Qed.
End refinement.
