(* ===== verification/TaskCacheTheorems.v ===== *)
(** The cached task repository is a task repository as long as invalidations reach
    the cache; when they do not, it may answer a user with that user's own past. *)

From S2P Require Import Prelude GoStd GoError Uuid Text Task TaskMemory TaskSpec TaskCache Concrete.
Local Open Scope Z_scope.

(** C28: calls of the service through the cache, one after the other.  Whatever the
    cache loses and whether or not invalidations succeed, every listing holds only
    tasks of the user who asks, and every other call is the store's own, answer and
    effect.  If invalidations succeed, the cache stays coherent with the store and
    the decorated repository keeps the whole contract of a task repository, so that
    no listing is stale. *)
Theorem cached_repository_refines {C S : Type} (hc : handler cisternE C) `{!Cistern hc}
    (h : handler repoE S) `{!TaskRepository h} X (e : repoE X) c s :
  repo_inv s → service_call e →
  let '((c', s'), x) := handle_cached hc h X e (c, s) in
  repo_inv s' ∧
  match e with
  | FindAll _ _ _ _ _ => repo_view s' = repo_view s
  | _ => s' = (h X e s).1 ∧ x = (h X e s).2
  end ∧
  (confined (cache_view c) → confined (cache_view c') ∧ own_page e x) ∧
  ((∀ tag c, (hc _ (InvalidateTag tag) c).2 = None) → coherent (cache_view c) (repo_view s) →
     coherent (cache_view c') (repo_view s') ∧ repo_spec e (repo_view s) (repo_view s') x).
Proof.
  intros Hi Hcall.
  assert (match e with FindAll _ _ _ _ _ => True | _ => False end ∨
          match e with FindAll _ _ _ _ _ => False | _ => True end) as [Hf|Hother] by (destruct e; auto).
  { destruct e; try done. pose proof (find_all_cached hc h userID limit offset statuses priorities c s Hi Hcall) as Hs.
    destruct (handle_cached _ _ _ _ _) as [[c' s'] x]. destruct Hs as (Hi' & Hv & Hown & Hc).
    split_and!; try done. intros _ Hco. rewrite Hv. by apply Hc. }
  pose proof (other_cached hc h X e c s Hi Hother) as Hs.
  destruct (handle_cached hc h X e (c, s)) as [[c' s'] x]. destruct Hs as (-> & -> & Hsub & Hch).
  pose proof (repo_sound X e s Hi) as Hsound. pose proof (repo_step_inv X e s Hi) as Hi'.
  split; [done|]. split; [by destruct e|]. split.
  { intros Hc. split; [by eapply confined_sub|by destruct e]. }
  intros Hinv Hc. split; [|done].
  destruct (decide (repo_view (h X e s).1 = repo_view s)) as [->|Hdiff]; [by eapply coherent_sub|].
  destruct (Hch Hdiff Hinv) as (u & Hu & Hgone). intros key tags v Hk.
  destruct (Hc key tags v) as (u' & n & o & st & pr & He & Hp); [by eapply lookup_weaken|].
  exists u', n, o, st, pr. split; [done|]. apply (page_same (repo_view s)); [by apply repo_wf|by apply repo_wf| |exact Hp].
  apply (write_touches X e _ _ _ u' (repo_wf s Hi) Hsound).
  assert (u' ≠ u) as Hne'.
  { intros ->. destruct He as (_ & _ & ->). apply (Hgone key _ v Hk). by left. }
  by destruct e; simplify_eq/=.
Qed.

(** A cache that keeps everything, and whose invalidations succeed or fail. *)
Definition shelf (reachable : bool) : handler cisternE (gmap string (list string * list Task)) := λ X e m,
  match e in cisternE X return gmap string (list string * list Task) * X with
  | CacheLoad k => (m, snd <$> m !! k)
  | CacheStore k tags v => (<[k := (tags, v)]> m, ())
  | InvalidateTag tag =>
      if reachable then (base.filter (λ kv, tag ∉ kv.2.1) m, None)
      else (m, Some (Opaque "redis: connection refused"))
  | OnInvalidationError _ => (m, ())
  end.
#[export] Instance shelf_cistern b : Cistern (shelf b).
Proof.
  refine {| cache_view := id |}.
  - intros m k. simpl. split; [done|]. unfold id. intros v Hv. destruct (m !! k) as [[tags w]|]; simplify_eq/=. eauto.
  - done.
  - intros m tag. simpl. destruct b; simpl; [|done]. split; [apply map_filter_subseteq|].
    unfold id. intros _ k tags v Hk. by apply map_lookup_filter_Some in Hk as [_ ?].
  - done.
Defined.

Definition cached_alice : prog repoE (list (list Task)) :=
  (first ← trigger (FindAll alice 10 0 [] []);
   _ ← trigger (Task.Delete id1 alice);
   second ← trigger (FindAll alice 10 0 [] []);
   mret (map (λ r, match r with Ok l => l | Err _ => [] end) [first; second]))%prog.

Example cached_repository_refines_witness :
  let '((c', s'), x) := handle_cached (shelf true) handle_mem _ (Task.Delete id1 alice) (∅, (env_at [] [], two_tasks)) in
  x = None ∧ repo_spec (Task.Delete id1 alice) two_tasks (repo_view s') x.
Proof.
  pose proof (cached_repository_refines (shelf true) handle_mem _ (Task.Delete id1 alice) ∅ (env_at [] [], two_tasks)
    two_tasks_wf I) as Ht.
  assert (Hx : (handle_cached (shelf true) handle_mem _ (Task.Delete id1 alice) (∅, (env_at [] [], two_tasks))).2 = None)
    by (vm_compute; reflexivity).
  destruct (handle_cached _ _ _ _ _) as [[c' s'] x]. destruct Ht as (_ & _ & _ & Ht).
  split; [exact Hx|]. apply Ht; [done|]. intros key tags v Hk. done.
Defined.

(** The listings before and after a deletion, with invalidations that reach the cache
    and with ones that do not. *)
Example stale_listing :
  eval (handle_cached (shelf true) handle_mem) cached_alice (∅, (env_at [] [], two_tasks))
    = [[mk_task id1 alice "write" StatusPending 1 1]; []] ∧
  eval (handle_cached (shelf false) handle_mem) cached_alice (∅, (env_at [] [], two_tasks))
    = [[mk_task id1 alice "write" StatusPending 1 1]; [mk_task id1 alice "write" StatusPending 1 1]].
Proof. split; vm_compute; reflexivity. Qed.
