(* ===== verification/Config.v ===== *)
(** [internal/config]: the configuration the process starts with (config.go) and the
    .env file that can supply its variables (dotenv.go).  The environment is a map
    from names to values. *)

From S2P Require Import Prelude GoStd GoError Http.
Local Open Scope Z_scope.

Abbreviation environ := (gmap string string).
Definition Getenv (env : environ) (name : string) : string := default "" (env !! name).

(** Errors without [%w], results in sequence. *)
Definition Errorf (msg : string) : error := Opaque msg.
Definition Errorf_w (before : string) (err : error) : error := Wrapped before err "".
Notation "'let@' x := r 'in' k" :=
  (match r with Ok x => k | Err e => Err e end)
  (at level 10, x pattern, r at level 100, k at level 200).

(** * dotenv.go *)

(** [os.Setenv] refuses a NUL byte; the code does not look at its error. *)
Definition nul : ascii := byte_of 0.
Definition Setenv (key value : string) (env : environ) : environ :=
  if strings.ContainsByte key nul || strings.ContainsByte value nul then env else <[key := value]> env.

(** [bufio.ScanLines]: the lines, without a carriage return at their end. *)
Definition drop_cr (line : string) : string :=
  match rev (String.list_ascii_of_string line) with
  | c :: l => if byte_val c =? 13 then String.string_of_list_ascii (rev l) else line
  | [] => line
  end.
Definition newline : ascii := byte_of 10.
Definition raw_lines (data : string) : list string :=
  let l := strings.Split data newline in
  match last l with Some "" => removelast l | _ => l end.
Definition MaxScanTokenSize : Z := 65536.

(** The first [=] of a line, and the text on both sides. *)
Definition unquote (value : string) : string :=
  let quoted (q : Z) := 
    match bytes value, last (bytes value) with
    | a :: _ :: _, Some b => (a =? q) && (b =? q)
    | _, _ => false
    end in
  if quoted 34 || quoted 39
  then of_bytes (removelast (tail (bytes value))) else value.
(** What a line assigns; comments and lines that are no assignment have none. *)
Definition assignment (text : string) : option (string * string) :=
  let line := strings.TrimSpace text in
  if String.eqb line "" || strings.HasPrefix line "#" then None
  else if negb (strings.ContainsByte line "=") then None
  else
    let before := strings.before_byte line "=" in
    let key := strings.TrimSpace before in
    let value := unquote (strings.TrimSpace (strings.drop_bytes (Datatypes.S (String.length before)) line)) in
    if String.eqb key "" then None else Some (key, value).
Definition dotenv_line (text : string) (env : environ) : environ :=
  match assignment text with
  | None => env
  | Some (key, value) =>
      match env !! key with
      | Some _ => env
      | None => Setenv key value env
      end
  end.

(** [for scanner.Scan()]: a line that does not fit the buffer ends it. *)
Fixpoint dotenvLoop (lines : list string) (env : environ) : environ * option error :=
  match lines with
  | [] => (env, None)
  | raw :: lines' =>
      if MaxScanTokenSize <=? len raw then (env, Some (Opaque "bufio.Scanner: token too long"))
      else dotenvLoop lines' (dotenv_line (drop_cr raw) env)
  end.

(** A file, as [os.Open] finds it: its bytes and the error that ended reading them. *)
Record File := { file_data : string; file_err : option error }.

Definition loadDotEnv (opened : result File) (env : environ) : environ * option error :=
  match opened with
  | Err err => (env, if Is err os_ErrNotExist then None else Some err)
  | Ok f =>
      match dotenvLoop (raw_lines f.(file_data)) env with
      | (env, Some err) => (env, Some err)
      | (env, None) => (env, f.(file_err))
      end
  end.

(** * The standard library's parsers *)

(** A [float64]: finite ones are [m * 2^e]. *)
Inductive float64 := NaN | Inf (negative : bool) | Finite (m e : Z).
Definition not_positive (f : float64) : bool :=
  match f with NaN => false | Inf negative => negative | Finite m _ => m <=? 0 end.
Definition IsNaN (f : float64) : bool := match f with NaN => true | _ => false end.

(** Parsers of the standard library of which the code uses only the outcome: a
    duration, a number, the length of a prefix, the scheme and host of a URL. *)
Class Parsers := {
  ParseDuration : string → result Z;
  ParseDuration_range : ∀ s d, ParseDuration s = Ok d → int64.min ≤ d ≤ int64.max;
  Duration_String : Z → string;
  ParseFloat : string → result float64;
  ParsePrefix : string → result Z;
  ParseAddr : string → result unit;
  url_Parse : string → result (string * string);
}.

Definition ParseBool (s : string) : option bool :=
  if bool_decide (s ∈ ["1"; "t"; "T"; "TRUE"; "true"; "True"]) then Some true
  else if bool_decide (s ∈ ["0"; "f"; "F"; "FALSE"; "false"; "False"]) then Some false
  else None.

(** [net.SplitHostPort], up to the host, which the code does not use. *)
Definition SplitHostPort (hostport : string) : result string :=
  let fail (why : string) := Err (Opaque ("address " +:+ hostport +:+ ": " +:+ why)) in
  let port := List.last (strings.Split hostport ":") "" in
  let i := (String.length hostport - String.length port - 1)%nat in
  let check (j k : nat) :=
    if strings.ContainsByte (strings.drop_bytes j hostport) "[" then fail "unexpected '[' in address"
    else if strings.ContainsByte (strings.drop_bytes k hostport) "]" then fail "unexpected ']' in address"
    else Ok port in
  if negb (strings.ContainsByte hostport ":") then fail "missing port in address"
  else if strings.HasPrefix hostport "[" then
    if negb (strings.ContainsByte hostport "]") then fail "missing ']' in address"
    else
      let end' := String.length (strings.before_byte hostport "]") in
      if bool_decide (Datatypes.S end' = String.length hostport) then fail "missing port in address"
      else if bool_decide (Datatypes.S end' = i) then check 1%nat (Datatypes.S end')
      else if strings.HasPrefix (strings.drop_bytes (Datatypes.S end') hostport) ":"
      then fail "too many colons in address"
      else fail "missing port in address"
  else if strings.ContainsByte (String.substring 0 i hostport) ":" then fail "too many colons in address"
  else check 0%nat 0%nat.

Fixpoint Contains (s sub : string) : bool :=
  strings.HasPrefix s sub || match s with "" => false | String _ s' => Contains s' sub end.

(** [strings.TrimRight] of one byte. *)
Fixpoint drop_leading (c : ascii) (l : list ascii) : list ascii :=
  match l with d :: l' => if Ascii.eqb d c then drop_leading c l' else l | [] => [] end.
Definition TrimRight (s : string) (c : ascii) : string :=
  String.string_of_list_ascii (rev (drop_leading c (rev (String.list_ascii_of_string s)))).

(** * config.go: one variable *)
Section parse.
Context `{unicode.Tables} `{Parsers} (env : environ).

(** [*strconv.NumError]. *)
Definition num_error (fn s : string) : error :=
  let digits := match s with String "-" s' | String "+" s' => s' | _ => s end in
  Opaque ("strconv." +:+ fn +:+ ": parsing " +:+ quote.Quote s +:+ ": " +:+
    match strconv.parse_nonempty digits with Some _ => "value out of range" | None => "invalid syntax" end).

Definition variable (name raw what : string) : string :=
  "config: " +:+ name +:+ " " +:+ quote.Quote raw +:+ " is not a valid " +:+ what.
Definition must (name what raw : string) : error :=
  Errorf ("config: " +:+ name +:+ " must " +:+ what +:+ ", got " +:+ quote.Quote raw).

Definition validateAddr (raw : string) : option error :=
  match SplitHostPort raw with
  | Err err => Some (Errorf_w "must be a host:port address: " err)
  | Ok port =>
      match strconv.Atoi port with
      | None => Some (Errorf ("port " +:+ quote.Quote port +:+ " is not a valid integer"))
      | Some p =>
          if (p <? 1) || (65535 <? p) then
            Some (Errorf ("port " +:+ strconv.Itoa p +:+ " is out of range (1–65535)"))
          else None
      end
  end.

Definition parseDuration (name : string) (def : Z) : result Z :=
  let raw := Getenv env name in
  if String.eqb raw "" then Ok def
  else match ParseDuration raw with
       | Err err => Err (Errorf_w (variable name raw "duration: ") err)
       | Ok d => if d <=? 0 then Err (must name "be positive" raw) else Ok d
       end.
Definition parseNonNegativeDuration (name : string) (def : Z) : result Z :=
  let raw := Getenv env name in
  if String.eqb raw "" then Ok def
  else match ParseDuration raw with
       | Err err => Err (Errorf_w (variable name raw "duration: ") err)
       | Ok d => if d <? 0 then Err (must name "not be negative" raw) else Ok d
       end.
Definition parsePositiveInt (name : string) (def : Z) : result Z :=
  let raw := Getenv env name in
  if String.eqb raw "" then Ok def
  else match strconv.Atoi raw with
       | None => Err (Errorf_w (variable name raw "integer: ") (num_error "Atoi" raw))
       | Some n => if n <=? 0 then Err (must name "be positive" raw) else Ok n
       end.
Definition parsePositiveInt64 (name : string) (def : Z) : result Z :=
  let raw := Getenv env name in
  if String.eqb raw "" then Ok def
  else match strconv.ParseInt raw with
       | None => Err (Errorf_w (variable name raw "integer: ") (num_error "ParseInt" raw))
       | Some n => if n <=? 0 then Err (must name "be positive" raw) else Ok n
       end.
Definition parsePositiveFloat (name : string) (def : float64) : result float64 :=
  let raw := Getenv env name in
  if String.eqb raw "" then Ok def
  else match ParseFloat raw with
       | Err err => Err (Errorf_w (variable name raw "number: ") err)
       | Ok f => if IsNaN f || not_positive f then Err (must name "be positive" raw) else Ok f
       end.
Definition parseBool (name : string) (def : bool) : result bool :=
  let raw := Getenv env name in
  if String.eqb raw "" then Ok def
  else match ParseBool raw with
       | None => Err (Errorf_w (variable name raw "boolean: ") (Opaque ("strconv.ParseBool: parsing " +:+ quote.Quote raw +:+ ": invalid syntax")))
       | Some b => Ok b
       end.
Definition parseLogLevel (name : string) (def : Level) : result Level :=
  let raw := Getenv env name in
  if String.eqb raw "" then Ok def
  else
    let low := strings.ToLower raw in
    if String.eqb low "debug" then Ok LevelDebug
    else if String.eqb low "info" then Ok LevelInfo
    else if String.eqb low "warn" || String.eqb low "warning" then Ok LevelWarn
    else if String.eqb low "error" then Ok LevelError
    else Err (Errorf (variable name raw "log level (want debug, info, warn, or error)")).

Definition parseCommaSeparated (name : string) : list string :=
  let raw := Getenv env name in
  if String.eqb raw "" then []
  else base.filter (λ entry, entry ≠ "") (map strings.TrimSpace (strings.Split raw ",")).

(** The check of one entry. *)
Definition checkCIDR (name entry : string) : option error :=
  match ParsePrefix entry with
  | Ok bits =>
      if bits =? 0 then
        Some (Errorf ("config: " +:+ name +:+ " entry " +:+ quote.Quote entry +:+
          " is the default route, which would trust every client as a proxy"))
      else None
  | Err _ =>
      match ParseAddr entry with
      | Err _ => Some (Errorf ("config: " +:+ name +:+ " entry " +:+ quote.Quote entry +:+
          " is not a valid CIDR or IP address"))
      | Ok _ => None
      end
  end.
Fixpoint checkCIDRs (name : string) (entries : list string) : option error :=
  match entries with
  | [] => None
  | entry :: entries' =>
      match checkCIDR name entry with Some err => Some err | None => checkCIDRs name entries' end
  end.
Definition parseCIDRList (name : string) : result (list string) :=
  let raw := parseCommaSeparated name in
  match checkCIDRs name raw with Some err => Err err | None => Ok raw end.

Definition validateLinkPublicBaseURL (raw : string) : option error :=
  if String.eqb raw "" then
    Some (Errorf "config: LINK_PUBLIC_BASE_URL is required when LINK_SHORTENING_ENABLED=true")
  else match url_Parse raw with
       | Err err => Some (Errorf_w "config: LINK_PUBLIC_BASE_URL is not a valid URL: " err)
       | Ok (scheme, host) =>
           if negb (String.eqb scheme "http") && negb (String.eqb scheme "https") then
             Some (Errorf ("config: LINK_PUBLIC_BASE_URL must be an absolute http(s) URL, got " +:+ quote.Quote raw))
           else if String.eqb host "" then
             Some (Errorf ("config: LINK_PUBLIC_BASE_URL must include a host, got " +:+ quote.Quote raw))
           else None
       end.
End parse.

(** * config.go: all of them *)
Definition defaultAddr : string := ":8080".
Definition defaultReadTimeout : Z := 5 * time.Second.
Definition defaultWriteTimeout : Z := 10 * time.Second.
Definition defaultIdleTimeout : Z := 60 * time.Second.
Definition defaultShutdownTimeout : Z := 10 * time.Second.
Definition defaultLogLevel : Level := LevelInfo.
Definition defaultDotenvPath : string := ".env".
Definition defaultDBMaxOpenConns : Z := 25.
Definition defaultDBMaxIdleConns : Z := 25.
Definition defaultDBConnMaxLife : Z := 5 * time.Minute.
Definition defaultDBCallTimeout : Z := 5 * time.Second.
Definition defaultStorageCallTO : Z := 30 * time.Second.
Definition defaultDBAutoMigrate : bool := true.
Definition defaultAuthSessionTTL : Z := 24 * time.Hour.
Definition defaultAuthMaxSessionsPerUser : Z := 10.
Definition defaultHSTSMaxAge : Z := 365 * 24 * time.Hour.
Definition defaultCookieInsecure : bool := false.
Definition defaultLinkShorteningEnabled : bool := false.
Definition defaultRateLimitBurst : Z := 60.
Definition defaultRateLimitPerSec : float64 := Finite 20 0.
Definition defaultAuthRateLimitBurst : Z := 10.
(** The constant 0.05 as the nearest [float64]. *)
Definition defaultAuthRateLimitPer : float64 := Finite 3602879701896397 (-56).
Definition defaultUserRateLimitBurst : Z := 120.
Definition defaultUserRateLimitPer : float64 := Finite 40 0.
Definition defaultAttachmentMaxBytes : Z := Z.shiftl 10 20.
Definition defaultAttachmentMaxBytesPerUser : Z := Z.shiftl 500 20.
Definition defaultAttachmentOrphanMinAge : Z := 1 * time.Hour.
Definition defaultRedisUseTLS : bool := false.
Definition defaultRedisCacheTTL : Z := 5 * time.Minute.
Definition defaultRedisCacheL1TTL : Z := 5 * time.Second.

Record Config := {
  cfg_Addr : string;
  cfg_ReadTimeout : Z;
  cfg_WriteTimeout : Z;
  cfg_IdleTimeout : Z;
  cfg_ShutdownTimeout : Z;
  cfg_PreShutdownDelay : Z;
  cfg_LogLevel : Level;
  cfg_DatabaseURL : string;
  cfg_DBMaxOpenConns : Z;
  cfg_DBMaxIdleConns : Z;
  cfg_DBConnMaxLifetime : Z;
  cfg_DBCallTimeout : Z;
  cfg_StorageCallTimeout : Z;
  cfg_DBAutoMigrate : bool;
  cfg_AuthSessionTTL : Z;
  cfg_AuthMaxSessionsPerUser : Z;
  cfg_CORSAllowedOrigins : list string;
  cfg_HSTSMaxAge : Z;
  cfg_TrustedProxies : list string;
  cfg_AttachmentStorageDir : string;
  cfg_AttachmentMaxBytes : Z;
  cfg_AttachmentMaxBytesPerUser : Z;
  cfg_AttachmentS3Endpoint : string;
  cfg_AttachmentS3Bucket : string;
  cfg_AttachmentS3AccessKey : string;
  cfg_AttachmentS3SecretKey : string;
  cfg_AttachmentS3Region : string;
  cfg_AttachmentS3UseSSL : bool;
  cfg_AttachmentOrphanMinAge : Z;
  cfg_RateLimitBurst : Z;
  cfg_RateLimitPerSec : float64;
  cfg_AuthRateLimitBurst : Z;
  cfg_AuthRateLimitPerSec : float64;
  cfg_UserRateLimitBurst : Z;
  cfg_UserRateLimitPerSec : float64;
  cfg_CrierOTLPEndpoint : string;
  cfg_CSRFSecret : string;
  cfg_CookieInsecure : bool;
  cfg_LinkShorteningEnabled : bool;
  cfg_LinkPublicBaseURL : string;
  cfg_RedisAddr : string;
  cfg_RedisUsername : string;
  cfg_RedisPassword : string;
  cfg_RedisUseTLS : bool;
  cfg_RedisCacheTTL : Z;
  cfg_RedisCacheL1TTL : Z;
}.

(** What [parseAttachmentS3] sets in the configuration. *)
Record S3Settings := {
  s3_Endpoint : string; s3_Bucket : string; s3_AccessKey : string; s3_SecretKey : string;
  s3_Region : string; s3_UseSSL : bool }.
Definition no_s3 : S3Settings :=
  {| s3_Endpoint := ""; s3_Bucket := ""; s3_AccessKey := ""; s3_SecretKey := ""; s3_Region := "";
     s3_UseSSL := false |}.

Section Load.
Context `{unicode.Tables} `{Parsers}.

(** The first of the required variables that is blank. *)
Fixpoint firstMissing (required : list (string * string)) : option string :=
  match required with
  | [] => None
  | (name, value) :: required' =>
      if String.eqb (strings.TrimSpace value) "" then Some name else firstMissing required'
  end.
Definition parseAttachmentS3 (env : environ) : result S3Settings :=
  let Endpoint := strings.TrimSpace (Getenv env "ATTACHMENT_S3_ENDPOINT") in
  if String.eqb Endpoint "" then Ok no_s3
  else
    let Bucket := strings.TrimSpace (Getenv env "ATTACHMENT_S3_BUCKET") in
    let AccessKey := strings.TrimSpace (Getenv env "ATTACHMENT_S3_ACCESS_KEY") in
    let SecretKey := Getenv env "ATTACHMENT_S3_SECRET_KEY" in
    let Region := strings.TrimSpace (Getenv env "ATTACHMENT_S3_REGION") in
    if Contains Endpoint "://" then
      Err (Errorf "config: ATTACHMENT_S3_ENDPOINT must be host[:port] without a scheme; use ATTACHMENT_S3_USE_SSL to choose https")
    else
      match firstMissing [("ATTACHMENT_S3_BUCKET", Bucket); ("ATTACHMENT_S3_ACCESS_KEY", AccessKey);
                          ("ATTACHMENT_S3_SECRET_KEY", SecretKey)] with
      | Some name => Err (Errorf ("config: " +:+ name +:+ " is required when ATTACHMENT_S3_ENDPOINT is set"))
      | None =>
          let@ useSSL := parseBool env "ATTACHMENT_S3_USE_SSL" true in
          Ok {| s3_Endpoint := Endpoint; s3_Bucket := Bucket; s3_AccessKey := AccessKey;
                s3_SecretKey := SecretKey; s3_Region := Region; s3_UseSSL := useSSL |}
      end.

Definition loadAddr (env : environ) : result string :=
  let raw := Getenv env "HTTP_ADDR" in
  if String.eqb raw "" then Ok defaultAddr
  else match validateAddr raw with
       | Some err => Err (Errorf_w ("config: HTTP_ADDR " +:+ quote.Quote raw +:+ " is invalid: ") err)
       | None => Ok raw
       end.

(** The variables in the order in which they are read; the first that is invalid
    is the one reported. *)
Definition LoadEnv (env : environ) : result Config :=
  let@ Addr := loadAddr env in
  let@ ReadTimeout := parseDuration env "HTTP_READ_TIMEOUT" defaultReadTimeout in
  let@ WriteTimeout := parseDuration env "HTTP_WRITE_TIMEOUT" defaultWriteTimeout in
  let@ IdleTimeout := parseDuration env "HTTP_IDLE_TIMEOUT" defaultIdleTimeout in
  let@ ShutdownTimeout := parseDuration env "HTTP_SHUTDOWN_TIMEOUT" defaultShutdownTimeout in
  let@ PreShutdownDelay := parseNonNegativeDuration env "HTTP_PRE_SHUTDOWN_DELAY" 0 in
  let@ LogLevel := parseLogLevel env "LOG_LEVEL" defaultLogLevel in
  let DatabaseURL := Getenv env "DATABASE_URL" in
  let@ DBMaxOpenConns := parsePositiveInt env "DB_MAX_OPEN_CONNS" defaultDBMaxOpenConns in
  let@ DBMaxIdleConns := parsePositiveInt env "DB_MAX_IDLE_CONNS" defaultDBMaxIdleConns in
  let@ DBConnMaxLifetime := parseDuration env "DB_CONN_MAX_LIFETIME" defaultDBConnMaxLife in
  let@ DBCallTimeout := parseDuration env "DB_CALL_TIMEOUT" defaultDBCallTimeout in
  let@ StorageCallTimeout := parseDuration env "STORAGE_CALL_TIMEOUT" defaultStorageCallTO in
  let@ DBAutoMigrate := parseBool env "DB_AUTO_MIGRATE" defaultDBAutoMigrate in
  let@ AuthSessionTTL := parseDuration env "AUTH_SESSION_TTL" defaultAuthSessionTTL in
  let@ AuthMaxSessionsPerUser := parsePositiveInt env "AUTH_MAX_SESSIONS_PER_USER" defaultAuthMaxSessionsPerUser in
  let CORSAllowedOrigins := parseCommaSeparated env "CORS_ALLOWED_ORIGINS" in
  let@ HSTSMaxAge := parseNonNegativeDuration env "HSTS_MAX_AGE" defaultHSTSMaxAge in
  let CrierOTLPEndpoint := strings.TrimSpace (Getenv env "CRIER_OTLP_ENDPOINT") in
  let CSRFSecret := Getenv env "CSRF_SECRET" in
  let@ CookieInsecure := parseBool env "COOKIE_INSECURE" defaultCookieInsecure in
  let AttachmentStorageDir := strings.TrimSpace (Getenv env "ATTACHMENT_STORAGE_DIR") in
  let@ S3 := parseAttachmentS3 env in
  if negb (String.eqb AttachmentStorageDir "") && negb (String.eqb S3.(s3_Endpoint) "") then
    Err (Errorf "config: ATTACHMENT_STORAGE_DIR and ATTACHMENT_S3_ENDPOINT are both set; choose one attachment backend")
  else
  let@ AttachmentMaxBytes := parsePositiveInt64 env "ATTACHMENT_MAX_BYTES" defaultAttachmentMaxBytes in
  let@ AttachmentMaxBytesPerUser := parsePositiveInt64 env "ATTACHMENT_MAX_BYTES_PER_USER" defaultAttachmentMaxBytesPerUser in
  let@ AttachmentOrphanMinAge := parseDuration env "ATTACHMENT_ORPHAN_MIN_AGE" defaultAttachmentOrphanMinAge in
  let@ TrustedProxies := parseCIDRList env "TRUSTED_PROXIES" in
  let@ RateLimitBurst := parsePositiveInt env "RATE_LIMIT_BURST" defaultRateLimitBurst in
  let@ RateLimitPerSec := parsePositiveFloat env "RATE_LIMIT_PER_SEC" defaultRateLimitPerSec in
  let@ AuthRateLimitBurst := parsePositiveInt env "AUTH_RATE_LIMIT_BURST" defaultAuthRateLimitBurst in
  let@ AuthRateLimitPerSec := parsePositiveFloat env "AUTH_RATE_LIMIT_PER_SEC" defaultAuthRateLimitPer in
  let@ UserRateLimitBurst := parsePositiveInt env "USER_RATE_LIMIT_BURST" defaultUserRateLimitBurst in
  let@ UserRateLimitPerSec := parsePositiveFloat env "USER_RATE_LIMIT_PER_SEC" defaultUserRateLimitPer in
  let@ LinkShorteningEnabled := parseBool env "LINK_SHORTENING_ENABLED" defaultLinkShorteningEnabled in
  let LinkPublicBaseURL := TrimRight (strings.TrimSpace (Getenv env "LINK_PUBLIC_BASE_URL")) "/" in
  let@ _ := (if LinkShorteningEnabled then
               match validateLinkPublicBaseURL LinkPublicBaseURL with Some err => Err err | None => Ok tt end
             else Ok tt) in
  let RedisAddr := strings.TrimSpace (Getenv env "REDIS_ADDR") in
  let RedisUsername := strings.TrimSpace (Getenv env "REDIS_USERNAME") in
  let RedisPassword := Getenv env "REDIS_PASSWORD" in
  let@ RedisUseTLS := parseBool env "REDIS_USE_TLS" defaultRedisUseTLS in
  let@ RedisCacheTTL := parseDuration env "REDIS_CACHE_TTL" defaultRedisCacheTTL in
  let@ RedisCacheL1TTL := parseDuration env "REDIS_CACHE_L1_TTL" defaultRedisCacheL1TTL in
  if RedisCacheTTL <? RedisCacheL1TTL then
    Err (Errorf ("config: REDIS_CACHE_L1_TTL (" +:+ Duration_String RedisCacheL1TTL +:+
      ") must not exceed REDIS_CACHE_TTL (" +:+ Duration_String RedisCacheTTL +:+ ")"))
  else
  Ok {| cfg_Addr := Addr; cfg_ReadTimeout := ReadTimeout; cfg_WriteTimeout := WriteTimeout;
        cfg_IdleTimeout := IdleTimeout; cfg_ShutdownTimeout := ShutdownTimeout;
        cfg_PreShutdownDelay := PreShutdownDelay; cfg_LogLevel := LogLevel;
        cfg_DatabaseURL := DatabaseURL; cfg_DBMaxOpenConns := DBMaxOpenConns;
        cfg_DBMaxIdleConns := DBMaxIdleConns; cfg_DBConnMaxLifetime := DBConnMaxLifetime;
        cfg_DBCallTimeout := DBCallTimeout; cfg_StorageCallTimeout := StorageCallTimeout;
        cfg_DBAutoMigrate := DBAutoMigrate; cfg_AuthSessionTTL := AuthSessionTTL;
        cfg_AuthMaxSessionsPerUser := AuthMaxSessionsPerUser;
        cfg_CORSAllowedOrigins := CORSAllowedOrigins; cfg_HSTSMaxAge := HSTSMaxAge;
        cfg_TrustedProxies := TrustedProxies; cfg_AttachmentStorageDir := AttachmentStorageDir;
        cfg_AttachmentMaxBytes := AttachmentMaxBytes;
        cfg_AttachmentMaxBytesPerUser := AttachmentMaxBytesPerUser;
        cfg_AttachmentS3Endpoint := S3.(s3_Endpoint); cfg_AttachmentS3Bucket := S3.(s3_Bucket);
        cfg_AttachmentS3AccessKey := S3.(s3_AccessKey); cfg_AttachmentS3SecretKey := S3.(s3_SecretKey);
        cfg_AttachmentS3Region := S3.(s3_Region); cfg_AttachmentS3UseSSL := S3.(s3_UseSSL);
        cfg_AttachmentOrphanMinAge := AttachmentOrphanMinAge; cfg_RateLimitBurst := RateLimitBurst;
        cfg_RateLimitPerSec := RateLimitPerSec; cfg_AuthRateLimitBurst := AuthRateLimitBurst;
        cfg_AuthRateLimitPerSec := AuthRateLimitPerSec; cfg_UserRateLimitBurst := UserRateLimitBurst;
        cfg_UserRateLimitPerSec := UserRateLimitPerSec; cfg_CrierOTLPEndpoint := CrierOTLPEndpoint;
        cfg_CSRFSecret := CSRFSecret; cfg_CookieInsecure := CookieInsecure;
        cfg_LinkShorteningEnabled := LinkShorteningEnabled; cfg_LinkPublicBaseURL := LinkPublicBaseURL;
        cfg_RedisAddr := RedisAddr; cfg_RedisUsername := RedisUsername; cfg_RedisPassword := RedisPassword;
        cfg_RedisUseTLS := RedisUseTLS; cfg_RedisCacheTTL := RedisCacheTTL;
        cfg_RedisCacheL1TTL := RedisCacheL1TTL |}.

(** [Load]: the .env file, then the variables; the environment after it. *)
Definition Load (open : string → result File) (env : environ) : environ * result Config :=
  let raw := Getenv env "DOTENV_PATH" in
  let dotenvPath := if String.eqb raw "" then defaultDotenvPath else raw in
  match loadDotEnv (open dotenvPath) env with
  | (env, Some err) => (env, Err (Errorf_w ("config: failed to load " +:+ dotenvPath +:+ ": ") err))
  | (env, None) => (env, LoadEnv env)
  end.
End Load.
