(* ===== verification/ConfigTheorems.v ===== *)
(** The properties of the configuration as theorems, with their instances. *)

From S2P Require Import Prelude GoStd GoError Uuid Http Config Concrete.
Local Open Scope Z_scope.

(** * Variables *)
Section parse.
Context `{unicode.Tables} `{Parsers} (env : environ).

Lemma Atoi_range s n : strconv.Atoi s = Some n → int64.min ≤ n ≤ int64.max.
Proof.
  unfold strconv.Atoi, strconv.ParseInt. intros Hn. repeat case_hyp Hn; by apply int64.in_range_spec.
Qed.
Lemma parseDuration_ok name def d :
  parseDuration env name def = Ok d → 0 < def ≤ int64.max → 0 < d ≤ int64.max.
Proof.
  unfold parseDuration. intros Hd Hdef. repeat case_hyp Hd; bool_to_prop; [lia|].
  match goal with Hp : ParseDuration _ = Ok _ |- _ => apply ParseDuration_range in Hp end. lia.
Qed.
Lemma parseNonNegativeDuration_ok name def d :
  parseNonNegativeDuration env name def = Ok d → 0 ≤ def ≤ int64.max → 0 ≤ d ≤ int64.max.
Proof.
  unfold parseNonNegativeDuration. intros Hd Hdef. repeat case_hyp Hd; bool_to_prop; [lia|].
  match goal with Hp : ParseDuration _ = Ok _ |- _ => apply ParseDuration_range in Hp end. lia.
Qed.
Lemma parsePositiveInt_ok name def n :
  parsePositiveInt env name def = Ok n → 0 < def ≤ int64.max → 0 < n ≤ int64.max.
Proof.
  unfold parsePositiveInt. intros Hn Hdef. repeat case_hyp Hn; bool_to_prop; [lia|].
  match goal with Hp : strconv.Atoi _ = Some _ |- _ => apply Atoi_range in Hp end. lia.
Qed.
Lemma parsePositiveInt64_ok name def n :
  parsePositiveInt64 env name def = Ok n → 0 < def ≤ int64.max → 0 < n ≤ int64.max.
Proof.
  unfold parsePositiveInt64. intros Hn Hdef. repeat case_hyp Hn; bool_to_prop; [lia|].
  match goal with Hp : strconv.ParseInt _ = Some _ |- _ => apply Atoi_range in Hp end. lia.
Qed.

(** A rate the limiters can work with. *)
Definition positive (f : float64) : Prop := IsNaN f = false ∧ not_positive f = false.
Lemma parsePositiveFloat_ok name def f : parsePositiveFloat env name def = Ok f → positive def → positive f.
Proof.
  unfold parsePositiveFloat, positive. intros Hf Hdef. repeat case_hyp Hf; try done. bool_to_prop. done.
Qed.

Definition listens (addr : string) : Prop :=
  ∃ port p, SplitHostPort addr = Ok port ∧ strconv.Atoi port = Some p ∧ 1 ≤ p ≤ 65535.
Lemma loadAddr_ok addr : loadAddr env = Ok addr → listens addr.
Proof.
  unfold loadAddr, validateAddr. intros Ha. repeat case_hyp Ha.
  - exists "8080", 8080. split_and!; [vm_compute; reflexivity|vm_compute; reflexivity|lia|lia].
  - bool_to_prop. unfold listens. eexists _, _. split_and!; eauto.
Qed.

Definition trustworthy (entry : string) : Prop :=
  entry ≠ "" ∧ match ParsePrefix entry with Ok bits => bits ≠ 0 | Err _ => is_ok (ParseAddr entry) = true end.
Lemma parseCIDRList_ok name l : parseCIDRList env name = Ok l → Forall trustworthy l.
Proof.
  unfold parseCIDRList. destruct (checkCIDRs name (parseCommaSeparated env name)) eqn:Hc; [done|]. intros [= <-].
  assert (∀ entry, entry ∈ parseCommaSeparated env name → entry ≠ "") as Hne.
  { intros entry. unfold parseCommaSeparated. destruct (String.eqb _ _); [set_solver|].
    rewrite list_elem_of_filter. naive_solver. }
  revert Hc Hne. generalize (parseCommaSeparated env name) as l. induction l as [|entry l IH]; [done|].
  cbn [checkCIDRs]. intros Hc Hne. destruct (checkCIDR name entry) eqn:Hentry; [done|].
  constructor; [|apply IH; [done|]; intros e He; apply Hne; by right].
  split; [apply Hne; by left|]. unfold checkCIDR in Hentry. destruct (ParsePrefix entry) as [bits|].
  - destruct (Z.eqb_spec bits 0); done.
  - by destruct (ParseAddr entry).
Qed.

Lemma firstMissing_none required :
  firstMissing required = None → ∀ name value, (name, value) ∈ required → strings.TrimSpace value ≠ "".
Proof.
  induction required as [|[name value] required IH]; [set_solver|]. cbn [firstMissing].
  destruct (String.eqb_spec (strings.TrimSpace value) ""); [done|]. intros Hf name' value' Hin.
  apply elem_of_cons in Hin as [[= -> ->]|Hin]; [done|by eapply IH].
Qed.
Definition complete_s3 (s : S3Settings) : Prop :=
  s.(s3_Endpoint) = "" ∨
  Contains s.(s3_Endpoint) "://" = false ∧ strings.TrimSpace s.(s3_Bucket) ≠ "" ∧
  strings.TrimSpace s.(s3_AccessKey) ≠ "" ∧ strings.TrimSpace s.(s3_SecretKey) ≠ "".
Lemma parseAttachmentS3_ok s : parseAttachmentS3 env = Ok s → complete_s3 s.
Proof.
  unfold parseAttachmentS3, complete_s3. cbv zeta.
  destruct (String.eqb_spec (strings.TrimSpace (Getenv env "ATTACHMENT_S3_ENDPOINT")) ""); [intros [= <-]; by left|].
  destruct (Contains _ _) eqn:Hc; [done|]. destruct (firstMissing _) eqn:Hm; [done|].
  pose proof (firstMissing_none _ Hm) as Hr. destruct (parseBool _ _ _); [|done]. intros [= <-]. right. simpl.
  split; [done|]. split_and!; [eapply Hr; by left|eapply Hr; right; by left|eapply Hr; right; right; by left].
Qed.

Lemma TrimRight_end s c : ∀ s', TrimRight s c ≠ s' +:+ String c "".
Proof.
  intros s' He. unfold TrimRight in He. apply (f_equal String.list_ascii_of_string) in He.
  rewrite String.list_ascii_of_string_of_list_ascii in He.
  apply (f_equal (@rev ascii)) in He. rewrite rev_involutive in He.
  assert (rev (String.list_ascii_of_string (s' +:+ String c "")) = c :: rev (String.list_ascii_of_string s')) as Hr.
  { by rewrite list_ascii_append, rev_app_distr. }
  rewrite Hr in He. clear Hr. revert He. generalize (rev (String.list_ascii_of_string s)) as l.
  induction l as [|d l IH]; [done|]. cbn [drop_leading]. destruct (Ascii.eqb_spec d c); [done|]. by intros [= ->].
Qed.
Definition public_url (url : string) : Prop :=
  (∀ s, url ≠ s +:+ "/") ∧
  ∃ scheme host, url_Parse url = Ok (scheme, host) ∧ (scheme = "http" ∨ scheme = "https") ∧ host ≠ "".
Lemma validateLink_ok url :
  validateLinkPublicBaseURL url = None →
  ∃ scheme host, url_Parse url = Ok (scheme, host) ∧ (scheme = "http" ∨ scheme = "https") ∧ host ≠ "".
Proof.
  unfold validateLinkPublicBaseURL. destruct (String.eqb url ""); [done|].
  destruct (url_Parse url) as [[scheme host]|]; [|done].
  destruct (String.eqb_spec scheme "http"), (String.eqb_spec scheme "https"); cbn [negb andb]; try done;
    destruct (String.eqb_spec host ""); try done; intros _; exists scheme, host; auto.
Qed.
End parse.

(** * The whole *)
Section Load.
Context `{unicode.Tables} `{Parsers}.

Record valid_config (cfg : Config) : Prop := {
  valid_addr : listens cfg.(cfg_Addr);
  valid_durations : Forall (λ d, 0 < d ≤ int64.max)
    [cfg.(cfg_ReadTimeout); cfg.(cfg_WriteTimeout); cfg.(cfg_IdleTimeout); cfg.(cfg_ShutdownTimeout);
     cfg.(cfg_DBConnMaxLifetime); cfg.(cfg_DBCallTimeout); cfg.(cfg_StorageCallTimeout);
     cfg.(cfg_AuthSessionTTL); cfg.(cfg_AttachmentOrphanMinAge); cfg.(cfg_RedisCacheTTL);
     cfg.(cfg_RedisCacheL1TTL)];
  valid_delays : Forall (λ d, 0 ≤ d ≤ int64.max) [cfg.(cfg_PreShutdownDelay); cfg.(cfg_HSTSMaxAge)];
  valid_counts : Forall (λ n, 0 < n ≤ int64.max)
    [cfg.(cfg_DBMaxOpenConns); cfg.(cfg_DBMaxIdleConns); cfg.(cfg_AuthMaxSessionsPerUser);
     cfg.(cfg_AttachmentMaxBytes); cfg.(cfg_AttachmentMaxBytesPerUser); cfg.(cfg_RateLimitBurst);
     cfg.(cfg_AuthRateLimitBurst); cfg.(cfg_UserRateLimitBurst)];
  valid_rates : Forall positive
    [cfg.(cfg_RateLimitPerSec); cfg.(cfg_AuthRateLimitPerSec); cfg.(cfg_UserRateLimitPerSec)];
  valid_backend : cfg.(cfg_AttachmentStorageDir) = "" ∨ cfg.(cfg_AttachmentS3Endpoint) = "";
  valid_s3 : cfg.(cfg_AttachmentS3Endpoint) ≠ "" →
    Contains cfg.(cfg_AttachmentS3Endpoint) "://" = false ∧
    strings.TrimSpace cfg.(cfg_AttachmentS3Bucket) ≠ "" ∧
    strings.TrimSpace cfg.(cfg_AttachmentS3AccessKey) ≠ "" ∧
    strings.TrimSpace cfg.(cfg_AttachmentS3SecretKey) ≠ "";
  valid_proxies : Forall trustworthy cfg.(cfg_TrustedProxies);
  valid_links : cfg.(cfg_LinkShorteningEnabled) = true → public_url cfg.(cfg_LinkPublicBaseURL);
  valid_cache : cfg.(cfg_RedisCacheL1TTL) ≤ cfg.(cfg_RedisCacheTTL);
}.

Ltac next_variable HL :=
  match type of HL with
  | match ?r with Ok _ => _ | Err _ => _ end = _ => let E := fresh "E" in destruct r eqn:E; [|discriminate HL]
  | (if ?b then _ else _) = _ => let E := fresh "E" in destruct b eqn:E; [discriminate HL|]
  end.
Lemma LoadEnv_valid env cfg : LoadEnv env = Ok cfg → valid_config cfg.
Proof.
  unfold LoadEnv. cbv zeta. intros HL. repeat next_variable HL. injection HL as <-.
  repeat match goal with
  | Hd : parseDuration _ _ _ = Ok _ |- _ => apply parseDuration_ok in Hd; [|split; [reflexivity|vm_compute; discriminate]]
  | Hd : parseNonNegativeDuration _ _ _ = Ok _ |- _ =>
      apply parseNonNegativeDuration_ok in Hd; [|split; vm_compute; discriminate]
  | Hn : parsePositiveInt _ _ _ = Ok _ |- _ => apply parsePositiveInt_ok in Hn; [|split; [reflexivity|vm_compute; discriminate]]
  | Hn : parsePositiveInt64 _ _ _ = Ok _ |- _ => apply parsePositiveInt64_ok in Hn; [|split; [reflexivity|vm_compute; discriminate]]
  | Hf : parsePositiveFloat _ _ _ = Ok _ |- _ => apply parsePositiveFloat_ok in Hf; [|split; reflexivity]
  end.
  match goal with Ha : loadAddr _ = Ok _ |- _ => apply loadAddr_ok in Ha end.
  match goal with Hs : parseAttachmentS3 _ = Ok _ |- _ => apply parseAttachmentS3_ok in Hs as Hs3 end.
  match goal with Hp : parseCIDRList _ _ = Ok _ |- _ => apply parseCIDRList_ok in Hp end.
  bool_to_prop. split; cbn [cfg_Addr cfg_ReadTimeout cfg_WriteTimeout cfg_IdleTimeout cfg_ShutdownTimeout
    cfg_DBConnMaxLifetime cfg_DBCallTimeout cfg_StorageCallTimeout cfg_AuthSessionTTL
    cfg_AttachmentOrphanMinAge cfg_RedisCacheTTL cfg_RedisCacheL1TTL cfg_PreShutdownDelay cfg_HSTSMaxAge
    cfg_DBMaxOpenConns cfg_DBMaxIdleConns cfg_AuthMaxSessionsPerUser cfg_AttachmentMaxBytes
    cfg_AttachmentMaxBytesPerUser cfg_RateLimitBurst cfg_AuthRateLimitBurst cfg_UserRateLimitBurst
    cfg_RateLimitPerSec cfg_AuthRateLimitPerSec cfg_UserRateLimitPerSec cfg_AttachmentStorageDir
    cfg_AttachmentS3Endpoint cfg_AttachmentS3Bucket cfg_AttachmentS3AccessKey cfg_AttachmentS3SecretKey
    cfg_TrustedProxies cfg_LinkShorteningEnabled cfg_LinkPublicBaseURL]; try done;
    try (by repeat (apply Forall_cons_2; [assumption|])).
  - match goal with Hb : _ && _ = false |- _ => apply andb_false_iff in Hb; destruct Hb as [Hx|Hx] end;
      apply negb_false_iff, String.eqb_eq in Hx; [by left|by right].
  - intros Hs. by destruct Hs3.
  - intros Hl. split; [apply TrimRight_end|].
    match goal with Hv : (if _ then _ else _) = Ok _ |- _ => rewrite Hl in Hv; revert Hv end.
    destruct (validateLinkPublicBaseURL _) eqn:Hv; [done|]. intros _. by apply validateLink_ok.
Qed.
End Load.

(** * The .env file *)

(** The first assignment of a variable that the environment can hold. *)
Fixpoint first_assignment (lines : list string) (k : string) : option string :=
  match lines with
  | [] => None
  | raw :: lines' =>
      match assignment (drop_cr raw) with
      | Some (key, value) =>
          if String.eqb key k && negb (strings.ContainsByte key nul || strings.ContainsByte value nul)
          then Some value else first_assignment lines' k
      | None => first_assignment lines' k
      end
  end.
Lemma dotenvLoop_spec lines env env' k :
  dotenvLoop lines env = (env', None) →
  env' !! k = match env !! k with Some v => Some v | None => first_assignment lines k end.
Proof.
  revert env; induction lines as [|raw lines IH]; intros env; cbn [dotenvLoop first_assignment].
  - intros [= <-]. by destruct (env !! k).
  - destruct (MaxScanTokenSize <=? len raw); [done|]. intros Hl. rewrite (IH _ Hl). unfold dotenv_line.
    destruct (assignment (drop_cr raw)) as [[key value]|]; [|done].
    destruct (env !! key) as [old|] eqn:Hkey.
    + destruct (String.eqb_spec key k) as [->|]; [by rewrite Hkey|done].
    + unfold Setenv. destruct (strings.ContainsByte key nul || strings.ContainsByte value nul); cbn [negb].
      { by rewrite andb_false_r. }
      rewrite andb_true_r, lookup_insert. destruct (String.eqb_spec key k) as [->|Hne].
      * by rewrite decide_True, Hkey.
      * by rewrite decide_False.
Qed.

(** Text that begins and ends with a printable ASCII character is its own trim. *)
Definition visible (b : Z) : Prop := 32 < b < 127.
Lemma visible_rune b l : visible b → utf8.DecodeRune (b :: l) = (b, 1%nat) ∧ unicode.IsSpace b = false.
Proof.
  intros [H1 H2]. split.
  - unfold utf8.DecodeRune, utf8.lead. by destruct (Z.ltb_spec b 128); [|lia].
  - unfold unicode.IsSpace. rewrite orb_false_iff, bool_decide_eq_false, andb_false_iff, !Z.leb_gt. split; [|lia].
    rewrite !elem_of_cons. intros Hb. repeat (destruct Hb as [Hb|Hb]; [lia|]). by apply elem_of_nil in Hb.
Qed.
Lemma TrimSpace_visible s a b l l' :
  bytes s = a :: l → bytes s = l' ++ [b] → visible a → visible b → strings.TrimSpace s = s.
Proof.
  intros Ha Hb Hva Hvb. unfold strings.TrimSpace.
  assert (strings.trim_left (String.length s) (bytes s) = bytes s) as ->.
  { destruct s as [|c s]; [done|]. cbn [String.length]. rewrite Ha. cbn [strings.trim_left].
    destruct (visible_rune a l Hva) as [-> ->]. done. }
  assert (strings.trim_right (length (bytes s)) (bytes s) = bytes s) as ->; [|apply of_bytes_bytes].
  rewrite Hb, length_app, Nat.add_comm. cbn [length Nat.add]. destruct (l' ++ [b]) as [|x r] eqn:Hx; [by destruct l'|].
  cbn [strings.trim_right]. rewrite <-Hx. unfold utf8.DecodeLastRune. rewrite last_snoc.
  destruct (Z.ltb_spec b 128); [|unfold visible in Hvb; lia]. by destruct (visible_rune b [] Hvb) as [_ ->].
Qed.

(** A variable name: visible characters, none of them an equals sign, the first not
    the sign of a comment. *)
Definition name_char (c : ascii) : Prop := visible (byte_val c) ∧ c ≠ "="%char.
Definition variable_name (k : string) : Prop :=
  k ≠ "" ∧ (∀ c, In c (String.list_ascii_of_string k) → name_char c) ∧ strings.HasPrefix k "#" = false.

Lemma before_byte_at w c s :
  (∀ x, In x (String.list_ascii_of_string w) → x ≠ c) → strings.before_byte (w +:+ String c s) c = w.
Proof.
  induction w as [|x w IH]; intros Hw; [rewrite append_empty; cbn [strings.before_byte]; by rewrite Ascii.eqb_refl|].
  rewrite append_cons. cbn [strings.before_byte].
  destruct (Ascii.eqb_spec c x) as [<-|_]; [by destruct (Hw c); [left|]|].
  by rewrite IH by (intros y Hy; apply Hw; by right).
Qed.
Lemma drop_append w c s : strings.drop_bytes (Datatypes.S (String.length w)) (w +:+ String c s) = s.
Proof. induction w as [|x w IH]; [by destruct s|]. by rewrite append_cons. Qed.
Lemma contains_at w c s : strings.ContainsByte (w +:+ String c s) c = true.
Proof.
  induction w as [|x w IH]; [rewrite append_empty; cbn [strings.ContainsByte]; by rewrite Ascii.eqb_refl|].
  rewrite append_cons. cbn [strings.ContainsByte]. by rewrite IH, orb_true_r.
Qed.
Lemma name_visible k : variable_name k → ∃ a l b l', bytes k = a :: l ∧ bytes k = l' ++ [b] ∧ visible a ∧ visible b.
Proof.
  intros (Hne & Hc & _). assert (Forall visible (bytes k)) as Hv.
  { apply Forall_forall. intros x (c & -> & Hx)%list_elem_of_fmap. apply Hc. by apply list_elem_of_In. }
  destruct (bytes k) as [|a l] eqn:Hb; [by destruct k|]. destruct (exists_last (l := a :: l)) as (l' & b & Hl); [done|].
  exists a, l, b, l'. apply Forall_cons in Hv as Hv'. destruct Hv' as [Ha _]. rewrite Hl in Hv.
  apply Forall_app in Hv as [_ Hv]. apply Forall_cons in Hv as [Hv _]. split_and!; [done|exact Hl|exact Ha|exact Hv].
Qed.
Lemma unquote_quoted v : unquote (quote.dquote +:+ v +:+ quote.dquote) = v.
Proof.
  set (value := quote.dquote +:+ v +:+ quote.dquote).
  assert (bytes value = 34 :: bytes v ++ [34]) as Hb by (unfold value; by rewrite !bytes_append).
  assert (last (bytes value) = Some 34) as Hl.
  { rewrite Hb. change (34 :: bytes v ++ [34]) with ((34 :: bytes v) ++ [34]). apply last_snoc. }
  unfold unquote. cbv zeta. rewrite Hl, Hb. cbn [tail]. rewrite removelast_last, of_bytes_bytes.
  by destruct (bytes v).
Qed.
Lemma assignment_quoted k v :
  variable_name k → assignment (k +:+ "=" +:+ quote.dquote +:+ v +:+ quote.dquote) = Some (k, v).
Proof.
  intros Hk. pose proof Hk as (Hne & Hc & Hhash). destruct (name_visible k Hk) as (a & l & b & l' & Ha & Hb & Hva & Hvb).
  set (q := quote.dquote +:+ v +:+ quote.dquote). assert (bytes q = 34 :: bytes v ++ [34]) as Hq.
  { unfold q. by rewrite !bytes_append. }
  unfold assignment. rewrite (TrimSpace_visible (k +:+ "=" +:+ q) a 34 (l ++ 61 :: bytes q) (bytes k ++ 61 :: 34 :: bytes v));
    [|by rewrite !bytes_append, Ha|by rewrite !bytes_append, Hq, <-app_assoc|done|unfold visible; lia].
  assert ((k +:+ "=" +:+ q =? "")%string = false) as ->. { destruct k; [done|]. by rewrite append_cons. }
  assert (strings.HasPrefix (k +:+ "=" +:+ q) "#" = false) as ->.
  { destruct k as [|c k]; [done|]. rewrite append_cons. revert Hhash. unfold strings.HasPrefix. cbn [String.prefix].
    destruct (ascii_dec "#" c); [by destruct k|done]. }
  change ("=" +:+ q) with (String "=" q). rewrite contains_at. cbn [orb negb].
  rewrite before_byte_at by (intros x Hx; by destruct (Hc x Hx)).
  rewrite (TrimSpace_visible k a b l l') by done. rewrite drop_append.
  rewrite (TrimSpace_visible q 34 34 (bytes v ++ [34]) (34 :: bytes v)); [|done|done|unfold visible; lia|unfold visible; lia].
  unfold q. rewrite unquote_quoted. by destruct (String.eqb_spec k "").
Qed.

(** * Concrete parsers

    Durations are a number and a unit, rates whole numbers; enough to run. *)
Definition unit_of (u : string) : option Z :=
  if String.eqb u "ns" then Some 1 else if String.eqb u "ms" then Some time.Millisecond
  else if String.eqb u "s" then Some time.Second else if String.eqb u "m" then Some time.Minute
  else if String.eqb u "h" then Some time.Hour else None.
Fixpoint number_prefix (s : string) : string :=
  match s with
  | String c s' => match strconv.digit_of c with Some _ => String c (number_prefix s') | None => "" end
  | "" => ""
  end.
Definition toy_duration (s : string) : result Z :=
  let n := number_prefix s in
  match strconv.parse_nonempty n, unit_of (strings.drop_bytes (String.length n) s) with
  | Some k, Some u => if int64.in_range (k * u) then Ok (k * u) else Err (Opaque "time: invalid duration")
  | _, _ => Err (Opaque "time: invalid duration")
  end.
Lemma toy_range s d : toy_duration s = Ok d → int64.min ≤ d ≤ int64.max.
Proof. unfold toy_duration. intros Hd. repeat case_hyp Hd. by apply int64.in_range_spec. Qed.
#[export] Instance toy_parsers : Parsers := {
  ParseDuration := toy_duration; ParseDuration_range := toy_range;
  Duration_String d := strconv.Itoa d +:+ "ns";
  ParseFloat s := match strconv.ParseInt s with Some n => Ok (Finite n 0) | None => Err (Opaque "invalid syntax") end;
  ParsePrefix s :=
    let addr := strings.before_byte s "/" in
    match strconv.parse_nonempty (strings.drop_bytes (Datatypes.S (String.length addr)) s) with
    | Some bits => Ok bits | None => Err (Opaque "netip.ParsePrefix: no '/'") end;
  ParseAddr s := if strings.ContainsByte s "." then Ok tt else Err (Opaque "ParseAddr: unable to parse IP");
  url_Parse s :=
    let scheme := strings.before_byte s ":" in
    Ok (scheme, strings.before_byte (strings.drop_bytes (String.length scheme + 3) s) "/");
}.

(** * The properties *)

(** C29: a configuration that [Load] returns is well formed, whatever the
    environment and the .env file hold: the address has a port between 1 and
    65535; timeouts, pool sizes, byte limits, rates and session limits are positive
    and fit their types; at most one attachment backend is chosen, and an S3 one has
    its bucket and both keys; no trusted proxy is the default route; link
    shortening, when it is on, has an http(s) base URL with a host and without a
    slash at its end; and the cache's first level does not outlive its second. *)
Theorem Load_valid `{unicode.Tables} `{Parsers} (open : string → result File) (env env' : environ) (cfg : Config) :
  Load open env = (env', Ok cfg) → valid_config cfg.
Proof.
  unfold Load. destruct (loadDotEnv _ env) as [env1 [err|]]; intros [= _ HL]. by eapply LoadEnv_valid.
Qed.

Definition dotenv_file : File :=
  {| file_data := "# local" +:+ String newline ("HTTP_ADDR=127.0.0.1:9090" +:+ String newline (
       "TRUSTED_PROXIES = 10.0.0.0/8, 127.0.0.1" +:+ String newline (
       "REDIS_CACHE_TTL='90s'" +:+ String newline "HTTP_ADDR=:1" ))); file_err := None |}.
Definition loaded : environ * result Config := Load (λ _, Ok dotenv_file) {[ "LOG_LEVEL" := "WARN" ]}.

Example Load_valid_witness :
  ∃ cfg, loaded.2 = Ok cfg ∧ valid_config cfg ∧ cfg.(cfg_Addr) = "127.0.0.1:9090" ∧
    cfg.(cfg_TrustedProxies) = ["10.0.0.0/8"; "127.0.0.1"] ∧ cfg.(cfg_RedisCacheTTL) = 90 * time.Second.
Proof.
  pose proof (Load_valid (λ _, Ok dotenv_file) {[ "LOG_LEVEL" := "WARN" ]}) as HL.
  assert (match loaded.2 with
          | Ok cfg => cfg.(cfg_Addr) = "127.0.0.1:9090" ∧ cfg.(cfg_TrustedProxies) = ["10.0.0.0/8"; "127.0.0.1"] ∧
                      cfg.(cfg_RedisCacheTTL) = 90 * time.Second
          | Err _ => False
          end) as Hv by (vm_compute; done).
  unfold loaded in *. destruct (Load _ _) as [env' [cfg|e]]; cbn [snd] in *; [|done].
  exists cfg. split; [done|]. split; [exact (HL env' cfg eq_refl)|exact Hv].
Defined.

(** Where a variable comes from.  The .env file never overrides the
    environment: a variable that is set keeps its value, one that is not gets the
    first assignment of the file that names it, and no other changes.  A missing
    file is no error.  What is written between quotes is read back as it is,
    spaces and equals signs included.  With neither file nor variables the
    configuration is the documented default. *)
Theorem loadDotEnv_correct `{unicode.Tables} `{Parsers} :
  (∀ f env env', loadDotEnv (Ok f) env = (env', None) →
     ∀ k, env' !! k = match env !! k with
                      | Some v => Some v
                      | None => first_assignment (raw_lines f.(file_data)) k
                      end) ∧
  (∀ err env, Is err os_ErrNotExist = true → loadDotEnv (Err err) env = (env, None)) ∧
  (∀ k v, variable_name k →
     assignment (k +:+ "=" +:+ quote.dquote +:+ v +:+ quote.dquote) = Some (k, v)) ∧
  ∃ cfg, Load (λ _, Err os_ErrNotExist) ∅ = (∅, Ok cfg) ∧
    cfg.(cfg_Addr) = ":8080" ∧ cfg.(cfg_DatabaseURL) = "" ∧ cfg.(cfg_HSTSMaxAge) = 365 * 24 * time.Hour ∧
    cfg.(cfg_AttachmentMaxBytes) = 10485760 ∧ cfg.(cfg_CORSAllowedOrigins) = [] ∧ cfg.(cfg_TrustedProxies) = [] ∧
    cfg.(cfg_LinkShorteningEnabled) = false ∧ cfg.(cfg_CookieInsecure) = false.
Proof.
  split_and!.
  - intros f env env' Hl k. unfold loadDotEnv in Hl.
    destruct (dotenvLoop _ env) as [env1 [err|]] eqn:Hd; [done|]. injection Hl as -> _. by apply dotenvLoop_spec.
  - intros err env Hn. unfold loadDotEnv. by rewrite Hn.
  - apply assignment_quoted.
  - eexists. split; [reflexivity|]. split_and!; reflexivity.
Qed.

Definition from_file : environ * option error := loadDotEnv (Ok dotenv_file) {[ "LOG_LEVEL" := "WARN" ]}.
Example loadDotEnv_correct_witness :
  from_file.1 !! "HTTP_ADDR" = Some "127.0.0.1:9090" ∧ from_file.1 !! "LOG_LEVEL" = Some "WARN" ∧
  assignment ("DATABASE_URL" +:+ "=" +:+ quote.dquote +:+ " postgres://u:p=1@db " +:+ quote.dquote) =
    Some ("DATABASE_URL", " postgres://u:p=1@db ").
Proof.
  destruct loadDotEnv_correct as (Hfile & _ & Hquote & _).
  assert (from_file.2 = None) as Hnone by (vm_compute; reflexivity).
  pose proof (Hfile dotenv_file {[ "LOG_LEVEL" := "WARN" ]} from_file.1) as Hf.
  assert (loadDotEnv (Ok dotenv_file) {[ "LOG_LEVEL" := "WARN" ]} = (from_file.1, None)) as Hl.
  { rewrite <-Hnone. unfold from_file. by destruct (loadDotEnv _ _). }
  specialize (Hf Hl). split_and!.
  - rewrite Hf. vm_compute. reflexivity.
  - rewrite Hf. vm_compute. reflexivity.
  - apply Hquote. split_and!; [done| |done]. cbn. intros c Hc.
    repeat (destruct Hc as [<-|Hc]; [split; [split; vm_compute; reflexivity|done]|]). destruct Hc.
Defined.
