(* ===== verification/Drain.v ===== *)
(** How a server of this repository goes down: [cmd/api] and [cmd/web] run the same
    protocol between the goroutine that serves and the one that waits for a signal.
    What differs is how long the drain is, and what is closed at the end. *)

From S2P Require Import Prelude GoStd GoError Http.
Local Open Scope Z_scope.

(** * The protocol *)

(** Where [run] is: at its first [select], at the one of the drain, in
    [srv.Shutdown], at the receive from [serverErr], in the deferred calls with what
    it will return, or back with that. *)
Inductive phase :=
| Serving | Draining | ShuttingDown | Awaiting
| Closing (res : option error)
| Exited (res closed : option error).

Section run.
Context {O : Type} (delay : Z) (deferred : O → O * option error).

(** The channel [serverErr] has room for one message.  [served]: what [ListenAndServe]
    returned, once it has; [shut]: [Shutdown] was called; [shutdown]: what that call
    returned, once it has; [signalled]: the context of the signals is done; what is open. *)
Record process_state := {
  at_ : phase;
  serverErr : option error;
  served : option error;
  shut : bool;
  shutdown : option (option error);
  signalled : bool;
  opened : O;
}.
Definition listening (c : process_state) : bool := match c.(served) with Some _ => false | None => true end.

Definition server_error (e : error) : option error := Some (wrap "server error" e).

(** [go func() { serverErr <- srv.ListenAndServe() }()] *)
Definition server_returns (e : error) (c : process_state) : process_state :=
  {| at_ := c.(at_); serverErr := Some e; served := Some e; shut := c.(shut);
     shutdown := c.(shutdown); signalled := c.(signalled); opened := c.(opened) |}.
Definition signal (c : process_state) : process_state :=
  {| at_ := c.(at_); serverErr := c.(serverErr); served := c.(served); shut := c.(shut);
     shutdown := c.(shutdown); signalled := true; opened := c.(opened) |}.
Definition call_Shutdown (c : process_state) : process_state :=
  {| at_ := ShuttingDown; serverErr := c.(serverErr); served := c.(served); shut := true;
     shutdown := c.(shutdown); signalled := c.(signalled); opened := c.(opened) |}.
(** [case <-ctx.Done():], and the drain if there is one. *)
Definition after_signal (c : process_state) : process_state :=
  if 0 <? delay then
    {| at_ := Draining; serverErr := c.(serverErr); served := c.(served); shut := c.(shut);
       shutdown := c.(shutdown); signalled := c.(signalled); opened := c.(opened) |}
  else call_Shutdown c.
(** [if err := srv.Shutdown(shutdownCtx); err != nil] *)
Definition shutdown_returns (err : option error) (c : process_state) : process_state :=
  {| at_ := match err with Some e => Closing (Some (wrap "shutdown" e)) | None => Awaiting end;
     serverErr := c.(serverErr); served := c.(served); shut := c.(shut);
     shutdown := Some err; signalled := c.(signalled); opened := c.(opened) |}.
(** [err := <-serverErr], in the selects and at the end. *)
Definition receive (res : option error) (c : process_state) : process_state :=
  {| at_ := Closing res; serverErr := None; served := c.(served); shut := c.(shut);
     shutdown := c.(shutdown); signalled := c.(signalled); opened := c.(opened) |}.
Definition receive_last (e : error) (c : process_state) : process_state :=
  receive (if negb (Is e http_ErrServerClosed) then server_error e else None) c.
Definition closed (res err : option error) (o : O) (c : process_state) : process_state :=
  {| at_ := Exited res err; serverErr := c.(serverErr); served := c.(served); shut := c.(shut);
     shutdown := c.(shutdown); signalled := c.(signalled); opened := o |}.

(** [ListenAndServe] returns once: with any error but [ErrServerClosed] at any time, with
    [ErrServerClosed] after [Shutdown] was called.  [Shutdown] returns, at the latest
    when its context is over. *)
Inductive step (c : process_state) : process_state → Prop :=
| ServerFails e : c.(served) = None → Is e http_ErrServerClosed = false → step c (server_returns e c)
| ServerCloses : c.(served) = None → c.(shut) = true → step c (server_returns http_ErrServerClosed c)
| SignalArrives : c.(signalled) = false → step c (signal c)
| SelectFailed e : c.(at_) = Serving ∨ c.(at_) = Draining → c.(serverErr) = Some e →
    step c (receive (server_error e) c)
| SelectSignal : c.(at_) = Serving → c.(signalled) = true → step c (after_signal c)
| DrainOver : c.(at_) = Draining → step c (call_Shutdown c)
| ShutdownReturns err : c.(at_) = ShuttingDown → step c (shutdown_returns err c)
| ReceiveErr e : c.(at_) = Awaiting → c.(serverErr) = Some e → step c (receive_last e c)
| DeferredClose res : c.(at_) = Closing res →
    step c (closed res (deferred c.(opened)).2 (deferred c.(opened)).1 c).

(** As it starts to listen. *)
Definition launched (o : O) : process_state :=
  {| at_ := Serving; serverErr := None; served := None; shut := false; shutdown := None; signalled := false; opened := o |}.
End run.

(** [main]: the status the process exits with. *)
Definition exit_status (res : option error) : Z := match res with Some _ => 1 | None => 0 end.

(** * What holds in every run *)
Section laws.
Context {O : Type} (delay : Z) (deferred : O → O * option error).
Context (Held : O → Prop) (After : O → option error → Prop).
Hypothesis deferred_closes : ∀ o, Held o → After (deferred o).1 (deferred o).2.
Abbreviation step := (Drain.step delay deferred).
Abbreviation state := (process_state (O := O)).

(** No message is lost, and nothing is closed before the end. *)
Definition pending (c : state) : Prop := c.(served) = None ∨ is_Some c.(serverErr).
(** A graceful end: there was a signal, [Shutdown] returned without an error, and the
    listener returned because of it. *)
Definition came_down (c : state) : Prop :=
  c.(signalled) = true ∧ c.(shutdown) = Some None ∧ ∃ e, c.(served) = Some e ∧ Is e http_ErrServerClosed = true.
(** What [run] fails with: the listener's own error, or that of [Shutdown]. *)
Definition went_wrong (e : error) (c : state) : Prop :=
  (∃ e', e = wrap "server error" e' ∧ c.(served) = Some e' ∧ Is e' http_ErrServerClosed = false) ∨
  (∃ e', e = wrap "shutdown" e' ∧ c.(signalled) = true ∧ c.(shutdown) = Some (Some e')).
Definition returned (res : option error) (c : state) : Prop :=
  match res with None => came_down c | Some e => went_wrong e c end.
Definition ended (c : state) : Prop := c.(signalled) = true ∨ listening c = false.
Definition at_inv (c : state) (p : phase) : Prop :=
  match p with
  | Serving => c.(shut) = false ∧ pending c ∧ c.(shutdown) = None ∧ Held c.(opened)
  | Draining => c.(shut) = false ∧ c.(signalled) = true ∧ pending c ∧ c.(shutdown) = None ∧ Held c.(opened)
  | ShuttingDown => c.(shut) = true ∧ c.(signalled) = true ∧ pending c ∧ c.(shutdown) = None ∧ Held c.(opened)
  | Awaiting => c.(shut) = true ∧ c.(signalled) = true ∧ pending c ∧ c.(shutdown) = Some None ∧ Held c.(opened)
  | Closing res => ended c ∧ returned res c ∧ Held c.(opened)
  | Exited res err => ended c ∧ returned res c ∧ After c.(opened) err
  end.
(** What is in the channel is what the listener returned, and it says that it was closed
    only when it was told to. *)
Definition heard (c : state) : Prop :=
  (∀ e, c.(serverErr) = Some e → c.(served) = Some e) ∧
  (∀ e, c.(served) = Some e → c.(shut) = false → Is e http_ErrServerClosed = false).
Definition run_inv (c : state) : Prop := heard c ∧ at_inv c c.(at_).

Lemma launched_inv o : Held o → run_inv (launched o).
Proof. unfold run_inv, heard, pending. cbn. intros Ho. split_and!; (done || by left). Qed.

Lemma listening_served (c : state) : listening c = true ↔ c.(served) = None.
Proof. unfold listening. by destruct c.(served). Qed.
Lemma not_listening (c : state) : listening c = false ↔ is_Some c.(served).
Proof. unfold listening. destruct c.(served); [|rewrite is_Some_alt]; split; (done || eauto). Qed.

Lemma server_returns_inv e c p : c.(served) = None → at_inv c p → at_inv (server_returns e c) p.
Proof.
  intros Hn.
  assert (Hp : pending (server_returns e c)) by (right; by eexists).
  assert (Hd : ∀ res, returned res c → returned res (server_returns e c)).
  { intros [x|]; cbn; unfold went_wrong, came_down; cbn; rewrite Hn; naive_solver. }
  assert (He : ended (server_returns e c)) by by right.
  destruct p; cbn; naive_solver.
Qed.
Lemma signal_inv c p : at_inv c p → at_inv (signal c) p.
Proof.
  assert (Hd : ∀ res, returned res c → returned res (signal c)).
  { intros [x|]; cbn; unfold went_wrong, came_down; cbn; naive_solver. }
  assert (He : ended (signal c)) by by left.
  destruct p; cbn; naive_solver.
Qed.

Lemma run_step_inv c c' : run_inv c → step c c' → run_inv c'.
Proof.
  intros [[Hm Hf] Hat] Hstep. unfold run_inv, heard.
  destruct Hstep as [e Hl Hie|Hl Hsh|Hsi|e Hp Hse|Hp Hsi|Hp|err Hp|e Hp Hse|res Hp].
  - split; [cbn; naive_solver|]. by apply server_returns_inv.
  - split; [cbn; naive_solver congruence|]. by apply server_returns_inv.
  - split; [done|]. by apply signal_inv.
  - split; [done|]. cbn. split; [right; apply not_listening; cbn; rewrite (Hm e Hse); eauto|].
    assert (Hsh : c.(shut) = false ∧ Held c.(opened)) by (destruct Hp as [Hp|Hp]; rewrite Hp in Hat; cbn in Hat; tauto).
    split; [|tauto]. left. exists e. cbn. naive_solver.
  - rewrite Hp in Hat. cbn in Hat. unfold after_signal. destruct (0 <? _); (split; [cbn; naive_solver|cbn; tauto]).
  - rewrite Hp in Hat. split; [cbn; naive_solver|]. cbn in *. tauto.
  - rewrite Hp in Hat. split; [done|]. destruct err as [e|]; cbn in *; [|tauto].
    split; [left; cbn; tauto|]. split; [|tauto]. right. exists e. cbn. tauto.
  - rewrite Hp in Hat. split; [done|]. cbn in *. split; [left; cbn; tauto|]. split; [|tauto].
    destruct (Is e http_ErrServerClosed) eqn:Hie; cbn; [|left; exists e; naive_solver].
    split_and!; cbn; try tauto. exists e. auto.
  - rewrite Hp in Hat. split; [done|]. destruct Hat as (He & Hd & Ho).
    cbn. split_and!; [done|by destruct res|by apply deferred_closes].
Qed.

(** ** It comes down *)
Definition rank (p : phase) : nat :=
  match p with Serving => 5 | Draining => 4 | ShuttingDown => 3 | Awaiting => 2 | Closing _ => 1 | Exited _ _ => 0 end.
Definition left_to_do (c : state) : nat :=
  rank c.(at_) + (if listening c then 1 else 0) + (if c.(signalled) then 0 else 1).
Definition exited (c : state) : Prop := ∃ res err, c.(at_) = Exited res err.

Lemma step_closer c c' : step c c' → (left_to_do c' < left_to_do c)%nat.
Proof.
  intros Hstep. unfold left_to_do, listening.
  destruct Hstep as [e Hl Hie|Hl Hsh|Hsi|e Hp Hse|Hp Hsi|Hp|err Hp|e Hp Hse|res Hp];
    unfold after_signal; try destruct (0 <? _); try destruct Hp as [Hp|Hp]; try destruct err;
    cbn; rewrite ?Hp, ?Hl, ?Hsi; cbn; lia.
Qed.
Lemma step_possible c : run_inv c → ended c → exited c ∨ ∃ c', step c c'.
Proof.
  intros [[Hm _] Hat] Hend. destruct (at_ c) as [| | | |res|res err] eqn:Hp; cbn in Hat.
  - right. destruct Hat as (_ & Hw & _). destruct Hend as [Hs|[e' Hl]%not_listening].
    + eexists. by apply SelectSignal.
    + destruct Hw as [Hw|[e He]]; [congruence|]. eexists. apply (SelectFailed _ _ _ e); auto.
  - right. eexists. by apply DrainOver.
  - right. eexists. by apply (ShutdownReturns _ _ _ None).
  - right. destruct Hat as (Hsh & _ & Hw & _). destruct Hw as [Hl|[e He]].
    + eexists. by apply ServerCloses.
    + eexists. by apply (ReceiveErr _ _ _ e).
  - right. eexists. by apply (DeferredClose _ _ _ res).
  - left. unfold exited. eauto.
Qed.

Lemma reachable_run_inv o c : Held o → rtc step (launched o) c → run_inv c.
Proof.
  intros Ho Hr. pose proof (launched_inv o Ho) as H0. remember (launched o) as c0 eqn:Hc. clear Hc.
  induction Hr as [c|c1 c2 c3 Hs Hr IH]; [done|]. by eapply IH, run_step_inv.
Qed.
Lemma step_ended c c' : ended c → step c c' → ended c'.
Proof.
  unfold ended, listening. intros He Hs.
  destruct Hs; unfold after_signal; cbn; try (destruct (0 <? _); cbn); tauto.
Qed.
Lemma comes_down c : run_inv c → ended c → inevitably step exited c.
Proof.
  intros Hi He. apply (inevitably_by step (λ c, run_inv c ∧ ended c) exited left_to_do); [| |done].
  - intros s s' [Hs Hse] Hstep. split; [by eapply run_step_inv|by eapply step_ended].
  - intros s [Hs Hse]. destruct (step_possible s Hs Hse) as [|Hp]; [by left|right].
    split; [done|]. intros s'. apply step_closer.
Qed.

(** As long as there is no signal and the listener has not failed, it serves; after the
    first of the two every run comes to its end; nothing is closed before that; and what
    it returned says how it ended. *)
Lemma drained o c : Held o → rtc step (launched o) c →
  (¬ exited c → Held c.(opened)) ∧
  (c.(signalled) = false → listening c = true → c.(at_) = Serving) ∧
  (ended c → inevitably step exited c) ∧
  (∀ res err, c.(at_) = Exited res err → returned res c ∧ After c.(opened) err).
Proof.
  intros Ho Hr. pose proof (reachable_run_inv o c Ho Hr) as Hi. pose proof Hi as [Hm Hat]. split_and!.
  - intros Hn. destruct (at_ c) eqn:Hp; cbn in Hat; try tauto. destruct Hn. unfold exited. eauto.
  - intros Hs Hl. destruct (at_ c) eqn:Hp; cbn in Hat; unfold ended in *; intuition congruence.
  - by apply comes_down.
  - intros res err Hp. rewrite Hp in Hat. cbn in Hat. tauto.
Qed.
End laws.

(** The process exits with 0 exactly when it came down as it should, and with 1 otherwise. *)
Lemma returned_status {O : Type} res (c : process_state (O := O)) : returned res c →
  (exit_status res = 0 ↔ came_down c) ∧ (exit_status res = 0 ∨ exit_status res = 1) ∧ ∀ e, res = Some e → went_wrong e c.
Proof.
  destruct res as [e|]; cbn; intros He; [|by split_and!; [tauto|left|]]. split_and!; [|by right|naive_solver].
  split; [done|]. intros (_ & Hn & e1 & Hs & Hi). destruct He as [(e2 & _ & Hs2 & Hi2)|(e2 & _ & _ & Hn2)]; congruence.
Qed.
