(* ===== verification/Web.v ===== *)
(** [cmd/web]: the server of the frontend (main.go): its configuration, the content
    security policy computed from the page, and the handler that serves the built files. *)

From S2P Require Import Prelude GoStd GoError Text Sha256 Path Http Mux Middleware Config Drain.
Local Open Scope Z_scope.

(** * Text *)
Module base64.
Definition alphabet : string := "ABCDEFGHIJKLMNOPQRSTUVWXYZabcdefghijklmnopqrstuvwxyz0123456789+/".
Definition sextet (n i : Z) : string :=
  match String.get (Z.to_nat (Z.land (Z.shiftr n (6 * i)) 63)) alphabet with Some c => String c "" | None => "" end.
(** [StdEncoding.EncodeToString]: three bytes are four characters; what is left at the
    end is padded. *)
Fixpoint EncodeToString (l : list Z) : string :=
  match l with
  | a :: b :: c :: l' =>
      let n := Z.lor (Z.lor (Z.shiftl a 16) (Z.shiftl b 8)) c in
      sextet n 3 +:+ sextet n 2 +:+ sextet n 1 +:+ sextet n 0 +:+ EncodeToString l'
  | [a; b] =>
      let n := Z.lor (Z.shiftl a 16) (Z.shiftl b 8) in sextet n 3 +:+ sextet n 2 +:+ sextet n 1 +:+ "="
  | [a] => let n := Z.shiftl a 16 in sextet n 3 +:+ sextet n 2 +:+ "=="
  | [] => ""
  end.
End base64.

(** [strings.Cut]: around the first occurrence of [sep]. *)
Fixpoint Cut (s sep : string) : option (string * string) :=
  if strings.HasPrefix s sep then Some ("", strings.drop_bytes (String.length sep) s)
  else match s with
       | "" => None
       | String c s' => match Cut s' sep with Some (a, b) => Some (String c a, b) | None => None end
       end.

(** * The policy *)

(** [inlineScriptPattern.FindAllSubmatch(html, -1)]: the leftmost opening tag, the text up
    to the first closing tag after it, and on from there.  Without a closing tag after an
    opening one there is none after a later one. *)
Fixpoint FindAllSubmatch (fuel : nat) (html : string) : list string :=
  match fuel with
  | O => []
  | Datatypes.S fuel =>
      match Cut html "<script>" with
      | None => []
      | Some (_, rest) =>
          match Cut rest "</script>" with
          | None => []
          | Some (m, rest) => m :: FindAllSubmatch fuel rest
          end
      end
  end.

Definition hash_source (m : string) : string :=
  "'sha256-" +:+ base64.EncodeToString (sha256.Sum256 (bytes m)) +:+ "'".
Definition cspScriptHashes (html : string) : list string :=
  map hash_source (FindAllSubmatch (String.length html) html).

Definition buildCSP (indexHTML apiOrigin : string) : string :=
  let hashes := cspScriptHashes indexHTML in
  let scriptSrc := match hashes with [] => "'self'" | _ => "'self'" +:+ " " +:+ strings.Join hashes " " end in
  strings.Join
    ["default-src 'self'"; "script-src " +:+ scriptSrc; "style-src 'self'"; "img-src 'self' data:";
     "font-src 'self'"; "connect-src 'self' " +:+ apiOrigin; "object-src 'none'"; "base-uri 'none'";
     "frame-ancestors 'none'"] "; ".

(** * The configuration *)
Record webConfig := {
  web_addr : string;
  web_distDir : string;
  web_apiOrigin : string;
  web_hstsMaxAge : Z;
  web_shutdownTimeout : Z;
  web_preShutdownDelay : Z;
}.
Definition defaultWebAddr : string := ":8080".
Definition defaultWebDistDir : string := "/dist".
Definition defaultWebHSTSMaxAge : Z := 365 * 24 * time.Hour.
Definition defaultWebShutdownTimeout : Z := 10 * time.Second.

Section config.
Context `{Parsers} (env : environ).
Definition getenvDefault (key def : string) : string :=
  let v := Getenv env key in if negb (String.eqb v "") then v else def.
Definition parseDurationDefault (key : string) (def : Z) : result Z :=
  let raw := Getenv env key in
  if String.eqb raw "" then Ok def
  else match ParseDuration raw with
       | Err err => Err (Errorf_w (key +:+ ": ") err)
       | Ok d => Ok d
       end.
Definition loadConfig : result webConfig :=
  let apiOrigin := strings.TrimSpace (Getenv env "WEB_API_ORIGIN") in
  if String.eqb apiOrigin "" then
    Err (Errorf ("WEB_API_ORIGIN is required — the origin this server's connect-src " +:+
                 "allows, which must match VITE_API_BASE_URL baked into the build"))
  else
    let@ hstsMaxAge := parseDurationDefault "WEB_HSTS_MAX_AGE" defaultWebHSTSMaxAge in
    let@ shutdownTimeout := parseDurationDefault "WEB_SHUTDOWN_TIMEOUT" defaultWebShutdownTimeout in
    let@ preShutdownDelay := parseDurationDefault "WEB_PRE_SHUTDOWN_DELAY" 0 in
    Ok {| web_addr := getenvDefault "WEB_ADDR" defaultWebAddr;
          web_distDir := getenvDefault "WEB_DIST_DIR" defaultWebDistDir;
          web_apiOrigin := apiOrigin; web_hstsMaxAge := hstsMaxAge;
          web_shutdownTimeout := shutdownTimeout; web_preShutdownDelay := preShutdownDelay |}.
End config.

(** * The handler *)

(** [os.Stat]: whether it found a directory. *)
Inductive fileE : Type → Type :=
| os_Stat (name : string) : fileE (result bool).

(** The middleware of moat, [http.serveFile] on the file that [http.Dir] opens under a
    name of the file system, and the query of a URL as it was sent. *)
Class WebLibraries (E : Type → Type) := {
  secureheaders_Middleware : string → Z → Middleware E;
  serveOpened : string → Handler E;
  RawQuery : Request → string;
}.

Definition pathEscapesDir (fsPath dir : string) : bool :=
  if String.eqb fsPath dir then false else negb (strings.HasPrefix fsPath (dir +:+ "/")).

Section handler.
Context {E : Type → Type} `{!Subevent envE E, !Subevent fileE E, !WebLibraries E, !RequestURL, !Redirects}.

(** [http.Dir.Open]: the name it opens. *)
Definition Dir_fullName (dir name : string) : string :=
  let p := strings.drop_bytes 1 (path.Clean ("/" +:+ name)) in
  let p := if String.eqb p "" then "." else p in
  filepath.Join [if String.eqb dir "" then "." else dir; p].
(** [http.FileServer]: a page of a directory is asked for under the directory's name. *)
Definition localRedirect (r : Request) (newPath : string) (w : wire) : wire :=
  let newPath := if negb (String.eqb (RawQuery r) "") then newPath +:+ "?" +:+ RawQuery r else newPath in
  WriteHeader 301 (set_header "Location" newPath w).
Definition FileServer (dir : string) : Handler E := λ r w,
  let upath := if strings.HasPrefix r.(req_Path) "/" then r.(req_Path) else "/" +:+ r.(req_Path) in
  if HasSuffix upath "/index.html" then finish (localRedirect r "./" w)
  else serveOpened (Dir_fullName dir (path.Clean upath)) r w.

Definition spaHandler (distDir indexHTML : string) : Handler E :=
  let cleanDistDir := filepath.Clean distDir in
  λ r w,
    let fsPath := filepath.Join [cleanDistDir; filepath.FromSlash (path.Clean r.(req_Path))] in
    if pathEscapesDir fsPath cleanDistDir then finish (NotFound w)
    else
      info ← trigger (os_Stat fsPath);
      match info with
      | Ok false =>
          let w := if strings.HasPrefix (path.Clean r.(req_Path)) "/assets/"
                   then set_header "Cache-Control" "public, max-age=31536000, immutable" w
                   else set_header "Cache-Control" "no-cache" w in
          FileServer distDir r w
      | _ =>
          let w := set_header "Content-Type" "text/html; charset=utf-8" w in
          let w := set_header "Cache-Control" "no-cache" w in
          finish (Write (CText indexHTML) (WriteHeader 200 w))
      end.

Definition healthz : Handler E := λ _ w, finish (WriteHeader 200 w).
Definition newHandler (distDir indexHTML csp : string) (hstsMaxAge : Z) : Handler E :=
  Chain [RequestID; Logging ∅; secureheaders_Middleware csp hstsMaxAge; Recovery true]
    (λ r, ServeMux [on "GET /healthz" healthz; on "/" (spaHandler distDir indexHTML)]
            (url_segments r) (url_clean r) r).
End handler.

(** * [run] *)
Section run.
Context {E : Type → Type} `{!Subevent envE E, !Subevent fileE E, !WebLibraries E, !RequestURL, !Redirects, !Parsers}.

(** Up to the server that listens: its configuration and its handler. *)
Definition prepare (env : environ) (ReadFile : string → result string) : result (webConfig * Handler E) :=
  match loadConfig env with
  | Err err => Err (wrap "load config" err)
  | Ok cfg =>
      let indexPath := filepath.Join [cfg.(web_distDir); "index.html"] in
      match ReadFile indexPath with
      | Err err => Err (wrap ("read " +:+ indexPath) err)
      | Ok indexHTML =>
          let csp := buildCSP indexHTML cfg.(web_apiOrigin) in
          Ok (cfg, newHandler cfg.(web_distDir) indexHTML csp cfg.(web_hstsMaxAge))
      end
  end.
End run.

(** The rest is the protocol of [Drain]; there is nothing to close. *)
Definition web_step (cfg : webConfig) : process_state (O := unit) → process_state → Prop :=
  Drain.step cfg.(web_preShutdownDelay) (λ o, (o, None)).
