(* ===== verification/WebTheorems.v ===== *)
(** Theorems about the server of the frontend: which files it can name, what it answers,
    and which scripts its policy admits. *)

From S2P Require Import Prelude GoStd GoError Text Sha256 Path Http Mux Middleware Concrete MiddlewareTheorems Config Drain Web.
Local Open Scope Z_scope.

(** * Text *)

(** Each character of a text that is written out. *)
Ltac literal := intros ? Hx; repeat destruct Hx as [<-|Hx]; done.

(** A separator whose first character it does not repeat is found where it is put. *)
Lemma prefix_before p c t u : without c p → String.prefix p (t +:+ String c u) = true → String.prefix p t = true.
Proof.
  revert t; induction p as [|d p IH]; intros t Hp; [by destruct t|].
  assert (Hp' : without c p) by (intros x Hx; apply Hp; by right).
  destruct t as [|e t]; rewrite ?append_empty, ?append_cons; cbn [String.prefix].
  - destruct (ascii_dec d c) as [->|]; [|done]. exfalso. by apply (Hp c); [left|].
  - destruct (ascii_dec d e); [by apply IH|done].
Qed.

Lemma Cut_found c p t u : without c p → Cut t (String c p) = None →
  Cut (t +:+ String c p +:+ u) (String c p) = Some (t, u).
Proof.
  intros Hp. induction t as [|d t IH]; intros Hn.
  - rewrite append_empty. cbn [Cut String.append]. rewrite append_cons. cbn [Cut].
    unfold strings.HasPrefix. rewrite <-append_cons, prefix_append. by rewrite drop_bytes_append.
  - rewrite append_cons. cbn [Cut] in *. destruct (strings.HasPrefix (String d t) (String c p)) eqn:Hd; [done|].
    destruct (strings.HasPrefix (String d (t +:+ _)) (String c p)) eqn:Ho.
    + exfalso. unfold strings.HasPrefix in Ho, Hd. cbn [String.prefix] in Ho, Hd.
      destruct (ascii_dec c d) as [->|]; [|done].
      rewrite append_cons in Ho. apply prefix_before in Ho; [congruence|done].
    + rewrite IH; [done|]. by destruct (Cut t (String c p)) as [[]|].
Qed.

Lemma Cut_spec s sep a b : Cut s sep = Some (a, b) → s = a +:+ sep +:+ b.
Proof.
  revert a; induction s as [|c s IH]; intros a; cbn [Cut].
  { destruct (strings.HasPrefix "" sep) eqn:Hp; [|done]. intros [= <- <-]. rewrite append_empty. by apply prefix_split. }
  destruct (strings.HasPrefix (String c s) sep) eqn:Hp.
  { intros [= <- <-]. rewrite append_empty. by apply prefix_split. }
  destruct (Cut s sep) as [[a' b']|]; [|done]. intros [= <- <-]. by rewrite append_cons, <-(IH a' eq_refl).
Qed.
Lemma Cut_before c p s a b : without c p → Cut s (String c p) = Some (a, b) → Cut a (String c p) = None.
Proof.
  intros Hp. revert a; induction s as [|d s IH]; intros a; cbn [Cut]; [done|].
  destruct (strings.HasPrefix (String d s) (String c p)) eqn:Hd; [by intros [= <- _]|].
  destruct (Cut s (String c p)) as [[a' b']|] eqn:Hs; [|done]. intros [= <- ->]. cbn [Cut].
  rewrite (IH a' eq_refl). destruct (strings.HasPrefix (String d a') (String c p)) eqn:Ha; [|done].
  exfalso. apply Cut_spec in Hs. subst s.
  unfold strings.HasPrefix in *. apply prefix_split in Ha. rewrite <-append_cons, Ha, append_assoc, prefix_append in Hd. done.
Qed.

(** * The policy *)

(** A page: text, an inline script, and so on, up to the text after the last one. *)
Fixpoint page (pieces : list (string * string)) (rest : string) : string :=
  match pieces with
  | [] => rest
  | (t, m) :: pieces => t +:+ "<script>" +:+ m +:+ "</script>" +:+ page pieces rest
  end.
(** Text that opens no script; a script up to its end; text at the end, where an opening
    tag may be left open. *)
Definition plain_text (t : string) : Prop := Cut t "<script>" = None.
Definition script_text (m : string) : Prop := Cut m "</script>" = None.
Definition last_text (t : string) : Prop :=
  match Cut t "<script>" with Some (_, t') => script_text t' | None => True end.
Definition well_cut (pieces : list (string * string)) (rest : string) : Prop :=
  Forall (λ p, plain_text p.1 ∧ script_text p.2) pieces ∧ last_text rest.

Lemma tags_unrepeated : without "<" "script>" ∧ without "<" "/script>".
Proof. split; literal. Qed.

Lemma scripts_of_page pieces rest fuel : well_cut pieces rest → (length pieces ≤ fuel)%nat →
  FindAllSubmatch fuel (page pieces rest) = map snd pieces.
Proof.
  intros [Hp Hl]. destruct tags_unrepeated as [Ho Hc].
  revert fuel; induction Hp as [|[t m] pieces [Ht Hm] Hp IH]; intros [|fuel] Hf; cbn in Hf; try lia; [done|cbn..].
  - unfold last_text, script_text in Hl. destruct (Cut rest "<script>") as [[a b]|]; [|done]. by rewrite Hl.
  - change (String.append t) with (λ u, t +:+ u). cbn beta.
    rewrite (Cut_found "<" "script>" t _ Ho Ht).
    rewrite (Cut_found "<" "/script>" m _ Hc Hm). rewrite IH by lia. done.
Qed.

Lemma page_length pieces rest : (length pieces ≤ String.length (page pieces rest))%nat.
Proof.
  induction pieces as [|[t m] pieces IH]; [cbn; lia|]. cbn [page length]. rewrite !length_append.
  change (String.length "<script>") with 8%nat. lia.
Qed.

(** Every page is cut that way. *)
(** Every page is cut that way. *)
Lemma page_exists html : ∃ pieces rest, html = page pieces rest ∧ well_cut pieces rest.
Proof.
  destruct tags_unrepeated as [Ho Hc]. remember (String.length html) as n eqn:Hn. revert html Hn.
  induction (Nat.lt_wf_0 n) as [n _ IH]. intros html Hn.
  destruct (Cut html "<script>") as [[t u]|] eqn:Ht; [destruct (Cut u "</script>") as [[m v]|] eqn:Hm|].
  - pose proof (Cut_spec _ _ _ _ Ht) as Hh. pose proof (Cut_spec _ _ _ _ Hm) as Hu. subst u.
    destruct (IH (String.length v)) with (html := v) as (pieces & rest & -> & Hp & Hr); [|done|].
    { subst. rewrite !length_append. cbn. lia. }
    exists ((t, m) :: pieces), rest. split; [done|]. split; [|done]. apply Forall_cons. split; [|done].
    split; [by eapply (Cut_before "<" "script>")|by eapply (Cut_before "<" "/script>")].
  - exists [], html. split; [done|]. split; [by apply Forall_nil|]. unfold last_text. by rewrite Ht.
  - exists [], html. split; [done|]. split; [by apply Forall_nil|]. unfold last_text. by rewrite Ht.
Qed.

(** A policy, as a browser reads it: directives between semicolons, words between spaces;
    the first directive of a name counts. *)
Definition directives (policy : string) : list (list string) :=
  map (λ d, base.filter (λ x, x ≠ "") (strings.Split d " ")) (strings.Split policy ";").
Definition sources (policy name : string) : list string :=
  match List.find (λ d, String.eqb (List.hd "" d) name) (directives policy) with
  | Some d => List.tl d
  | None => []
  end.

Lemma sextet_word n i c : c ∈ [" "; ";"]%char → without c (base64.sextet n i).
Proof.
  intros Hc x Hx ->. unfold base64.sextet in Hx.
  destruct (String.get _ base64.alphabet) as [d|] eqn:Hg; [|done]. destruct Hx as [<-|[]].
  assert (Hall : ∀ k, String.get k base64.alphabet ≠ Some " "%char ∧ String.get k base64.alphabet ≠ Some ";"%char).
  { intros k. do 65 (destruct k as [|k]; [done|]). done. }
  destruct (Hall (Z.to_nat (Z.land (Z.shiftr n (6 * i)) 63))) as [H1 H2].
  apply elem_of_cons in Hc as [->|Hc]; [done|]. apply list_elem_of_singleton in Hc as ->. done.
Qed.
Lemma without_app c s t : without c s → without c t → without c (s +:+ t).
Proof.
  intros Hs Ht. induction s as [|d s IH]; [by rewrite append_empty|]. rewrite append_cons.
  intros x [<-|Hx]; [by apply Hs; left|]. apply IH; [|done]. intros y Hy. apply Hs. by right.
Qed.
Ltac split_without := repeat match goal with |- without _ (_ +:+ _) => apply without_app end.
Lemma base64_word l c : c ∈ [" "; ";"]%char → without c (base64.EncodeToString l).
Proof.
  intros Hc. assert (Heq : without c "=" ∧ without c "==").
  { apply elem_of_cons in Hc as [->|Hc]; [|apply list_elem_of_singleton in Hc as ->];
      split; literal. }
  destruct Heq. revert l. fix IH 1. intros [|a [|b [|d l]]]; cbn [base64.EncodeToString];
    split_without; first [apply IH|by apply sextet_word|assumption|by intros x []].
Qed.
Lemma hash_source_word m c : c ∈ [" "; ";"]%char → without c (hash_source m).
Proof.
  intros Hc. unfold hash_source. split_without; [|by apply base64_word|];
    apply elem_of_cons in Hc as [->|Hc]; try apply list_elem_of_singleton in Hc as ->;
    literal.
Qed.
Lemma without_Join c l sep : Forall (without c) l → without c sep → without c (strings.Join l sep).
Proof.
  intros Hl Hs. induction Hl as [|s l H Hl IH]; [by intros x []|]. destruct l as [|s' l]; [done|].
  cbn [strings.Join] in *. by split_without.
Qed.

(** The directive on scripts, as [Split] and then as the browser sees it. *)
Lemma first_directives d0 d1 l : l ≠ [] → without ";" d0 → without ";" d1 →
  strings.Split (strings.Join (d0 :: d1 :: l) "; ") ";" =
    d0 :: (" " +:+ d1) :: strings.Split (" " +:+ strings.Join l "; ") ";".
Proof.
  intros Hl H0 H1. destruct l as [|d2 l]; [done|].
  change (strings.Join (d0 :: d1 :: d2 :: l) "; ")
    with (d0 +:+ "; " +:+ (d1 +:+ "; " +:+ strings.Join (d2 :: l) "; ")).
  generalize (strings.Join (d2 :: l) "; "); intros s.
  rewrite (append_cons ";"), Split_app by done. f_equal.
  rewrite (append_cons ";"), <-append_assoc, Split_app; [done|].
  apply without_app; [by intros x [<-|[]]|done].
Qed.

Lemma script_directive hs : Forall (λ w, w ≠ "" ∧ without " " w) hs →
  base.filter (λ x, x ≠ "") (strings.Split (" " +:+ "script-src " +:+
    (match hs with [] => "'self'" | _ => "'self'" +:+ " " +:+ strings.Join hs " " end)) " ") =
  "script-src" :: "'self'" :: hs.
Proof.
  intros Hh. transitivity (base.filter (λ x, x ≠ "")
    (strings.Split (strings.Join ("" :: "script-src" :: "'self'" :: hs) " ") " ")).
  { by destruct hs. }
  rewrite Split_Join; [|done|].
  - rewrite filter_cons_False, !filter_cons_True by naive_solver. do 2 f_equal.
    induction Hh as [|w hs [Hw _] Hh IH]; [done|]. by rewrite filter_cons_True, IH.
  - rewrite !Forall_cons. split_and!; [literal..|].
    eapply Forall_impl; [exact Hh|by intros ? []].
Qed.

Lemma policy_sources pieces rest apiOrigin : well_cut pieces rest →
  sources (buildCSP (page pieces rest) apiOrigin) "script-src" =
    "'self'" :: map hash_source (map snd pieces).
Proof.
  intros Hw. unfold sources, buildCSP, cspScriptHashes, directives.
  rewrite scripts_of_page by (done || apply page_length).
  assert (Hh : Forall (λ w, w ≠ "" ∧ without ";" w ∧ without " " w) (map hash_source (map snd pieces))).
  { apply Forall_map, Forall_true. intros m. split; [done|]. split; apply hash_source_word; set_solver. }
  set (hs := map hash_source (map snd pieces)) in *. clearbody hs.
  rewrite first_directives; [|done|literal|].
  - cbn [map List.find]. rewrite script_directive; [done|]. eapply Forall_impl; [exact Hh|naive_solver].
  - apply without_app; [literal|].
    assert (Hj : without ";" (strings.Join hs " ")).
    { apply without_Join; [eapply Forall_impl; [exact Hh|naive_solver]|literal]. }
    destruct hs; split_without; try done; literal.
Qed.

(** C37: every page is text with inline scripts between tags, up to the text after the last
    one, in which a tag may be left open; and however it is read that way, the policy
    computed from it lets the browser run the origin's own scripts and, by their hashes,
    exactly those inline scripts, in that order, whatever the origin of the API is. *)
Theorem policy_admits_inline_scripts (indexHTML apiOrigin : string) :
  (∃ pieces rest, indexHTML = page pieces rest ∧ well_cut pieces rest) ∧
  ∀ pieces rest, indexHTML = page pieces rest → well_cut pieces rest →
    sources (buildCSP indexHTML apiOrigin) "script-src" = "'self'" :: map hash_source (map snd pieces).
Proof.
  split; [apply page_exists|]. intros pieces rest -> Hw. by apply policy_sources.
Qed.

Example buildCSP_ex :
  buildCSP "<p></p><script></script><script src=x></script>" "https://api.example" =
  "default-src 'self'; script-src 'self' 'sha256-47DEQpj8HBSa+/TImW+5JCeuQeRkm5NMpJWZG3hSuFU='; style-src 'self'; img-src 'self' data:; font-src 'self'; connect-src 'self' https://api.example; object-src 'none'; base-uri 'none'; frame-ancestors 'none'".
Proof. vm_compute. reflexivity. Qed.

(** * The files *)

(** The file with the given names below a directory. *)
Definition below (dir : string) (names : list string) : string :=
  path.render (path.rooted dir) (path.elements dir ++ names).

Lemma below_nil dir : below dir [] = path.Clean dir.
Proof. unfold below. by rewrite app_nil_r. Qed.

(** What [spaHandler] looks for, and what [http.FileServer] opens. *)
Lemma fsPath_below dir p : path.rooted p = true →
  filepath.Join [filepath.Clean dir; filepath.FromSlash (path.Clean p)] = below dir (path.elements p).
Proof.
  intros Hp. unfold filepath.Clean, filepath.FromSlash, below.
  rewrite Join_rooted by (done || apply Clean_nonempty). by rewrite rooted_Clean, elements_Clean.
Qed.

Lemma Join_names d l : d ≠ "" → Forall name_elem l →
  filepath.Join [d; if String.eqb (strings.Join l "/") "" then "." else strings.Join l "/"] = below d l.
Proof.
  intros Hd Hl. destruct l as [|e l].
  { cbn [strings.Join String.eqb]. rewrite Join_two by done. unfold path.Clean, below.
    rewrite rooted_append, elements_append by done.
    change (path.walk ?b ?o (strings.Split "." path.slash)) with o.
    by rewrite rev_involutive, app_nil_r. }
  assert (Hw : Forall (without path.slash) (e :: l)) by (eapply Forall_impl; [exact Hl|by intros ? (_ & _ & _ & ?)]).
  assert (Hne : String.eqb (strings.Join (e :: l) "/") "" = false).
  { apply Forall_inv in Hl as [He _]. destruct e as [|c e]; [done|]. by destruct l. }
  rewrite Hne, Join_two by done. unfold path.Clean, below.
  rewrite rooted_append, elements_append by done.
  by rewrite Join_elements, walk_names, rev_app_distr, !rev_involutive.
Qed.

Lemma Clean_rooted p : path.rooted p = true → path.Clean ("/" +:+ path.Clean p) = path.Clean p.
Proof.
  intros Hp. pose proof (walk_Clean p) as Hw. rewrite Hp in Hw.
  assert (He : path.elements ("/" +:+ path.Clean p) = path.elements p).
  { unfold path.elements at 1. rewrite append_cons, append_empty.
    change (path.rooted (String "/" (path.Clean p))) with (strings.HasPrefix ("/" +:+ path.Clean p) "/").
    unfold strings.HasPrefix. rewrite prefix_append. cbn [strings.Split path.slash Ascii.eqb Bool.eqb].
    cbn [path.walk String.eqb orb]. by rewrite Hw, rev_involutive. }
  unfold path.Clean at 1. rewrite He. unfold path.Clean. rewrite Hp.
  by f_equal.
Qed.

Lemma below_dot dir l : below (if String.eqb dir "" then "." else dir) l = below dir l.
Proof. by destruct (String.eqb_spec dir "") as [->|]. Qed.
Lemma served_below dir p : path.rooted p = true →
  Dir_fullName dir (path.Clean p) = below dir (path.elements p).
Proof.
  intros Hp. unfold Dir_fullName. rewrite Clean_rooted by done.
  assert (strings.drop_bytes 1 (path.Clean p) = strings.Join (path.elements p) "/") as ->.
  { unfold path.Clean, path.render. by rewrite Hp. }
  rewrite Join_names; [apply below_dot|by destruct (String.eqb_spec dir "")|by apply rooted_names].
Qed.

(** [pathEscapesDir], for a file below. *)
Lemma Join_app l l' : l ≠ [] → l' ≠ [] →
  strings.Join (l ++ l') "/" = strings.Join l "/" +:+ "/" +:+ strings.Join l' "/".
Proof.
  intros Hl Hl'. induction l as [|e l IH]; [done|]. destruct l as [|e' l].
  - by destruct l'.
  - change (strings.Join ((e :: e' :: l) ++ l') "/") with (e +:+ "/" +:+ strings.Join ((e' :: l) ++ l') "/").
    rewrite IH by done. change (strings.Join (e :: e' :: l) "/") with (e +:+ "/" +:+ strings.Join (e' :: l) "/").
    by rewrite !append_assoc.
Qed.
Lemma render_cons r e l : e ≠ "" →
  path.render r (e :: l) = (if r then "/" else "") +:+ strings.Join (e :: l) "/".
Proof.
  intros He. unfold path.render. destruct r; [done|]. rewrite append_empty.
  destruct e as [|c e]; [done|]. by destruct l.
Qed.
Lemma below_cons dir e l : path.elements dir ≠ [] → below dir (e :: l) = path.Clean dir +:+ "/" +:+ strings.Join (e :: l) "/".
Proof.
  intros Hd. unfold below, path.Clean.
  pose proof (elements_without dir) as Hw. destruct (path.elements dir) as [|d ds]; [done|].
  apply Forall_inv in Hw as [Hne _].
  cbn [app]. rewrite !render_cons, app_comm_cons, Join_app by done. by rewrite !append_assoc.
Qed.

Lemma name_no_dot e l : name_elem e →
  strings.HasPrefix (strings.Join (e :: l) "/") "/" = false ∧ strings.HasPrefix (strings.Join (e :: l) "/") "./" = false ∧
  strings.Join (e :: l) "/" ≠ ".".
Proof.
  intros (H1 & H2 & _ & H4). destruct e as [|c e]; [done|].
  assert (Hc : c ≠ path.slash) by (apply H4; by left).
  assert (Hs : ∃ s, strings.Join (String c e :: l) "/" = String c (e +:+ s)).
  { destruct l as [|e' l]; cbn [strings.Join].
    - exists "". by rewrite append_nil_r.
    - exists ("/" +:+ strings.Join (e' :: l) "/"). by rewrite append_cons. }
  destruct Hs as [s ->]. unfold strings.HasPrefix. cbn [String.prefix]. split_and!.
  - destruct (ascii_dec "/" c) as [<-|]; [|done]. by destruct Hc.
  - destruct (ascii_dec "." c) as [<-|]; [|done]. destruct e as [|d e]; [done|].
    rewrite append_cons. cbn [String.prefix]. destruct (ascii_dec "/" d) as [<-|]; [|done].
    exfalso. apply (H4 path.slash); [right; by left|done].
  - intros [= -> He]. by destruct e.
Qed.

Lemma escapes_below dir l : Forall name_elem l →
  pathEscapesDir (below dir l) (filepath.Clean dir) =
    bool_decide (l ≠ [] ∧ filepath.Clean dir ∈ ["/"; "."]).
Proof.
  intros Hl. unfold pathEscapesDir, filepath.Clean. destruct l as [|e l].
  { rewrite below_nil, String.eqb_refl, bool_decide_eq_false_2; naive_solver. }
  destruct (decide (path.elements dir = [])) as [Hd|Hd].
  - apply Forall_inv in Hl. destruct (name_no_dot e l Hl) as (Hl1 & Hl2 & Hdot). destruct Hl as [Hne _].
    unfold below, path.Clean. rewrite Hd. cbn [app]. rewrite render_cons by done.
    rewrite bool_decide_eq_true_2 by (split; [done|destruct (path.rooted dir); set_solver]).
    destruct (path.rooted dir); cbn [path.render].
    + change (path.render true []) with "/". unfold strings.HasPrefix in *. rewrite append_cons, append_empty.
      destruct (String.eqb_spec (String "/" (strings.Join (e :: l) "/")) "/") as [Heq|_].
      { injection Heq as Heq. destruct e; [done|by destruct l]. }
      change ("/" +:+ "/") with "//". cbn [String.prefix]. destruct (ascii_dec "/" "/"); [|done]. by rewrite Hl1.
    + change (path.render false []) with ".". rewrite append_empty.
      destruct (String.eqb_spec (strings.Join (e :: l) "/") ".") as [Heq|_].
      { by destruct (Hdot Heq). }
      change ("." +:+ "/") with "./". by rewrite Hl2.
  - assert (Hroot : path.Clean dir ∉ ["/"; "."]).
    { intros Hin. apply Hd. rewrite <-elements_Clean.
      by apply elem_of_cons in Hin as [->|Hin]; [|apply list_elem_of_singleton in Hin as ->]. }
    rewrite below_cons, bool_decide_eq_false_2 by (done || naive_solver).
    destruct (String.eqb _ _); [done|]. unfold strings.HasPrefix.
    by rewrite <-append_assoc, prefix_append.
Qed.

Lemma Split_nonempty s sep : strings.Split s sep ≠ [].
Proof. destruct s as [|c s]; cbn; [done|]. destruct (Ascii.eqb c sep), (strings.Split s sep); done. Qed.

(** A file in the directory of hashed assets. *)
Definition asset (names : list string) : bool :=
  match names with "assets" :: _ :: _ => true | _ => false end.
Lemma assets_prefix p : path.rooted p = true →
  strings.HasPrefix (path.Clean p) "/assets/" = asset (path.elements p).
Proof.
  intros Hp. pose proof (elements_without p) as Hw. unfold path.Clean. rewrite Hp.
  destruct (path.elements p) as [|e l]; [done|].
  assert (Hs : strings.Split (strings.Join (e :: l) "/") path.slash = e :: l).
  { apply Join_elements; [|done]. eapply Forall_impl; [exact Hw|by intros ? []]. }
  apply Forall_inv in Hw as [Hne _]. rewrite render_cons by done. unfold strings.HasPrefix.
  change "/assets/" with ("/" +:+ "assets/"). rewrite !(append_cons "/" ""), !append_empty. cbn [String.prefix].
  destruct (ascii_dec "/" "/"); [|done].
  assert (Ha : asset (e :: l) = true ↔ e = "assets" ∧ l ≠ []).
  { split; [|by intros [-> Hl]; destruct l]. unfold asset. repeat case_match; try done; naive_solver. }
  destruct (String.prefix "assets/" (strings.Join (e :: l) "/")) eqn:Hpre.
  - symmetry. apply Ha. apply prefix_split in Hpre. rewrite Hpre in Hs.
    change ("assets/" +:+ ?u) with ("assets" +:+ String path.slash u) in Hs.
    rewrite Split_app in Hs by literal. injection Hs as <- Hl.
    split; [done|]. rewrite <-Hl. apply Split_nonempty.
  - symmetry. apply not_true_iff_false. intros [-> Hl]%Ha. destruct l as [|e' l]; [done|].
    cbn [strings.Join] in Hpre.
    change (String.prefix ("assets" +:+ "/") ("assets" +:+ "/" +:+ strings.Join (e' :: l) "/") = false) in Hpre.
    by rewrite <-append_assoc, prefix_append in Hpre.
Qed.

(** A request for a name that leads out of a directory given from the root is refused, one
    that does not names a file below. *)
Lemma stays_below dir p : path.rooted dir = true →
  pathEscapesDir (filepath.Join [filepath.Clean dir; path.Clean p]) (filepath.Clean dir) = false →
  ∃ names, Forall name_elem names ∧ filepath.Join [filepath.Clean dir; path.Clean p] = below dir names.
Proof.
  intros Hr. unfold pathEscapesDir, filepath.Clean. rewrite Join_two by apply Clean_nonempty.
  set (q := path.Clean dir +:+ String path.slash (path.Clean p)).
  destruct (String.eqb_spec (path.Clean q) (path.Clean dir)) as [Heq|_].
  { intros _. exists []. split; [by apply Forall_nil|]. by rewrite below_nil. }
  assert (Hq : path.rooted q = true) by (subst q; by rewrite rooted_append, rooted_Clean by apply Clean_nonempty).
  pose proof (rooted_names q Hq) as Hes. pose proof (rooted_names dir Hr) as Hds.
  intros Hpre%negb_false_iff. unfold strings.HasPrefix in Hpre. apply prefix_split in Hpre.
  rewrite append_assoc in Hpre. revert Hpre. generalize (strings.drop_bytes (String.length (path.Clean dir +:+ "/")) (path.Clean q)).
  intros t Hpre. clearbody q. unfold below.
  assert (Hcq : path.Clean q = path.render true (path.elements q)) by (unfold path.Clean; by rewrite Hq).
  assert (Hcd : path.Clean dir = path.render true (path.elements dir)) by (unfold path.Clean; by rewrite Hr).
  rewrite Hcq, Hcd in Hpre. rewrite Hcq, Hr. clear Hcq Hcd.
  destruct (path.elements q) as [|e es].
  { exfalso. apply (f_equal String.length) in Hpre. rewrite !length_append in Hpre.
    destruct (path.elements dir) as [|d ds]; [done|].
    apply Forall_inv in Hds as [Hd _]. rewrite render_cons, length_append in Hpre by done.
    change (String.length (path.render true [])) with 1%nat in Hpre. change (String.length "/") with 1%nat in Hpre. lia. }
  apply Forall_inv in Hes as He. destruct He as [He _].
  destruct (path.elements dir) as [|d ds].
  { destruct (name_no_dot e es) as [Hn _]; [by apply Forall_inv in Hes|].
    rewrite render_cons in Hpre by done. apply (append_inj_l "/" _ ("/" +:+ t)) in Hpre.
    unfold strings.HasPrefix in Hn. by rewrite Hpre, prefix_append in Hn. }
  apply Forall_inv in Hds as Hd. destruct Hd as [Hd _].
  rewrite !render_cons, append_assoc in Hpre by done. apply append_inj_l in Hpre.
  exists (strings.Split t path.slash).
  assert (Hl : e :: es = (d :: ds) ++ strings.Split t path.slash).
  { rewrite <-(Join_elements (e :: es)), Hpre; [|eapply Forall_impl; [exact Hes|by intros ? (_ & _ & _ & ?)]|done].
    change ("/" +:+ t) with (String path.slash t). rewrite Split_concat, Join_elements; [done| |done].
    eapply Forall_impl; [exact Hds|by intros ? (_ & _ & _ & ?)]. }
  rewrite Hl in *. apply Forall_app in Hes as [_ Hes]. done.
Qed.

(** * The handler *)
Section handler.
Context {E : Type → Type} `{!Subevent envE E, !Subevent fileE E, !WebLibraries E, !RequestURL, !Redirects}.
Context {S : Type} (h : handler E S).

(** The page, served under a path that names no file. *)
Definition shell (indexHTML : string) (w : wire) : wire :=
  Write (CText indexHTML)
    (WriteHeader 200 (set_header "Cache-Control" "no-cache" (set_header "Content-Type" "text/html; charset=utf-8" w))).
(** How long a file may be cached. *)
Definition caching (names : list string) (w : wire) : wire :=
  set_header "Cache-Control" (if asset names then "public, max-age=31536000, immutable" else "no-cache") w.

Lemma FileServer_rooted distDir r w s : path.rooted r.(req_Path) = true →
  run h (FileServer distDir r w) s =
    if HasSuffix r.(req_Path) "/index.html" then (s, (localRedirect r "./" w, Returned))
    else run h (serveOpened (below distDir (path.elements r.(req_Path))) r w) s.
Proof.
  intros Hr. unfold FileServer. unfold path.rooted in Hr. rewrite Hr. rewrite served_below by done.
  by destruct (HasSuffix _ _).
Qed.

(** [http.FileServer] opens a file below, whatever the path. *)
Lemma FileServer_below distDir r w s : ∃ names, Forall name_elem names ∧
  run h (FileServer distDir r w) s ∈
    [(s, (localRedirect r "./" w, Returned)); run h (serveOpened (below distDir names) r w) s].
Proof.
  unfold FileServer. set (upath := if strings.HasPrefix _ _ then _ else _).
  assert (Hu : path.rooted upath = true).
  { subst upath. destruct (strings.HasPrefix (req_Path r) "/") eqn:Hp; [done|]. unfold path.rooted, strings.HasPrefix.
    apply prefix_append. }
  exists (path.elements upath). split; [by apply rooted_names|]. rewrite served_below by done.
  destruct (HasSuffix _ _); set_solver.
Qed.

(** C35: what the frontend's server answers for a path from the root.  Its elements, once
    [.] and [..] are resolved, name a file below the directory it serves; that very file
    is looked for and, when it is there and no directory, is the one the file server opens,
    cacheable for ever below [assets] and to be revalidated elsewhere; an index page is
    sent to its directory; any other path gets the page of the application, with 200.
    That is so unless the directory is given as the root or as the current directory:
    then every path but the root's is answered with 404. *)
Theorem spa_serves (distDir indexHTML : string) (r : Request) (w : wire) (s : S) :
  path.rooted r.(req_Path) = true →
  let names := path.elements r.(req_Path) in
  (path.Clean distDir ∈ ["/"; "."] → names ≠ [] →
     run h (spaHandler distDir indexHTML r w) s = (s, (NotFound w, Returned))) ∧
  (path.Clean distDir ∉ ["/"; "."] →
     run h (spaHandler distDir indexHTML r w) s =
       let '(s', info) := h _ (inject (os_Stat (below distDir names))) s in
       match info with
       | Ok false =>
           if HasSuffix r.(req_Path) "/index.html"
           then (s', (localRedirect r "./" (caching names w), Returned))
           else run h (serveOpened (below distDir names) r (caching names w)) s'
       | _ => (s', (shell indexHTML w, Returned))
       end).
Proof.
  intros Hr names. unfold spaHandler. rewrite (fsPath_below _ _ Hr), (escapes_below _ _ (rooted_names _ Hr)).
  fold names. split.
  - intros Hd Hn. by rewrite bool_decide_eq_true_2 by done.
  - intros Hd. rewrite bool_decide_eq_false_2 by naive_solver. rewrite run_bind, run_trigger.
    destruct (h _ _ s) as [s' [[|]|e]]; [done| |done].
    rewrite FileServer_rooted by done. rewrite assets_prefix by done. fold names. unfold caching.
    by destruct (asset names).
Qed.

(** C36: when the directory is given from the root, no path, whether or not it starts at
    the root itself, makes the server look for or open anything that is not below that
    directory: it answers 404, or asks for the file some names lead to below it and then
    answers with the page, a redirection, or a file below. *)
Theorem spa_stays_below (distDir indexHTML : string) (r : Request) (w : wire) (s : S) :
  path.rooted distDir = true →
  run h (spaHandler distDir indexHTML r w) s = (s, (NotFound w, Returned)) ∨
  ∃ names, Forall name_elem names ∧
    let '(s', info) := h _ (inject (os_Stat (below distDir names))) s in
    run h (spaHandler distDir indexHTML r w) s = (s', (shell indexHTML w, Returned)) ∨
    info = Ok false ∧ ∃ names' w', Forall name_elem names' ∧
      run h (spaHandler distDir indexHTML r w) s ∈
        [(s', (localRedirect r "./" w', Returned)); run h (serveOpened (below distDir names') r w') s'].
Proof.
  intros Hd. unfold spaHandler. destruct (pathEscapesDir _ _) eqn:He; [by left|right].
  destruct (stays_below _ _ Hd He) as (names & Hn & Hq). exists names. split; [done|].
  unfold filepath.FromSlash. rewrite Hq, run_bind, run_trigger.
  destruct (h _ _ s) as [s' [[|]|e]]; [by left| |by left]. right. split; [done|].
  set (w' := if strings.HasPrefix _ _ then _ else _).
  destruct (FileServer_below distDir r w' s') as (names' & Hn' & Hin). eauto.
Qed.

(** ** The headers of every response *)

(** A field that the response has, sent or not yet. *)
Definition carries (k v : string) (w : wire) : Prop :=
  Header_Get w.(w_header) k = v ∧ ∀ code hd, w.(w_sent) = Some (code, hd) → Header_Get hd k = v.

Lemma carries_WriteHeader k v code w : carries k v w → carries k v (WriteHeader code w).
Proof. intros [Hh Hs]. unfold WriteHeader. destruct (w_sent w) eqn:Hw; split; try done; cbn; [by rewrite Hw|by intros ? ? [= <- <-]]. Qed.
Lemma carries_Write k v c w : carries k v w → carries k v (Write c w).
Proof. exact (carries_WriteHeader k v 200 w). Qed.
Lemma carries_log k v l m a w : carries k v w → carries k v (log l m a w).
Proof. done. Qed.
Lemma carries_cell k v u w : carries k v w → carries k v (set_cell u w).
Proof. done. Qed.
Lemma carries_set k v k' v' w : CanonicalHeaderKey k' ≠ CanonicalHeaderKey k →
  carries k v w → carries k v (set_header k' v' w).
Proof.
  intros Hk [Hh Hs]. split; [|done]. unfold set_header, with_header, Header_Get, Header_Set. cbn.
  by rewrite lookup_insert_ne by congruence.
Qed.
Create HintDb carries discriminated.
#[local] Hint Resolve carries_WriteHeader carries_Write carries_log carries_cell carries_set : carries.
#[local] Hint Extern 1 (CanonicalHeaderKey _ ≠ CanonicalHeaderKey _) => discriminate : carries.

(** The fields put in front of the handler; the library and the files leave them alone. *)
Definition policyHeader : string := "Content-Security-Policy".
Class WebLaws := {
  security_headers : string → Z → Headers → Headers;
  secureheaders_sets csp hsts next r w :
    secureheaders_Middleware csp hsts next r w = next r (with_header (security_headers csp hsts) w);
  security_policy csp hsts hd : Header_Get (security_headers csp hsts hd) policyHeader = csp;
  security_id csp hsts hd : Header_Get (security_headers csp hsts hd) HeaderRequestID = Header_Get hd HeaderRequestID;
  serveOpened_keeps k v name r w s : k ∈ [policyHeader; HeaderRequestID] → carries k v w →
    carries k v (run h (serveOpened name r w) s).2.1;
  Redirect_keeps k v r w : k ∈ [policyHeader; HeaderRequestID] → carries k v w → carries k v (Redirect r w);
}.
Context `{Laws : WebLaws}.

(** Handlers that keep a field. *)
Definition keeps (k : string) (hdl : Handler E) : Prop :=
  ∀ v r w s, carries k v w → carries k v (run h (hdl r w) s).2.1.

Section one_field.
Context (k : string) (Hk : k ∈ [policyHeader; HeaderRequestID]).

Lemma carries_set_other v k' v' w : k' ∈ ["Content-Type"; "Cache-Control"; "Location"; "Allow"; "X-Content-Type-Options"] →
  carries k v w → carries k v (set_header k' v' w).
Proof.
  intros Hk'. apply carries_set.
  apply elem_of_cons in Hk as [->|Hk1]; [|apply list_elem_of_singleton in Hk1 as ->];
    rewrite !elem_of_cons in Hk'; by destruct Hk' as [->|[->|[->|[->|[->|[]%elem_of_nil]]]]].
Qed.
#[local] Hint Resolve carries_set_other : carries.
#[local] Hint Extern 1 (_ ∈ _) => set_solver : carries.

Lemma NotFound_keeps v w : carries k v w → carries k v (NotFound w).
Proof. intros Hc. unfold NotFound, Error_. auto 6 with carries. Qed.
Lemma MethodNotAllowed_keeps v allow w : carries k v w → carries k v (MethodNotAllowed allow w).
Proof. intros Hc. unfold MethodNotAllowed, Error_. auto 7 with carries. Qed.

Lemma spaHandler_keeps distDir indexHTML : keeps k (spaHandler distDir indexHTML).
Proof.
  intros v r w s Hc. unfold spaHandler. destruct (pathEscapesDir _ _); [by apply NotFound_keeps|].
  rewrite run_bind, run_trigger. destruct (h _ _ s) as [s' info].
  assert (Hshell : carries k v (shell indexHTML w)) by (unfold shell; auto 6 with carries).
  destruct info as [[|]|e]; [done| |done]. unfold FileServer, localRedirect.
  destruct (HasSuffix _ _), (strings.HasPrefix _ "/assets/"); cbn [finish run snd fst];
    first [apply serveOpened_keeps; [done|]; auto with carries | cbn; auto with carries].
Qed.

Lemma ServeMux_keeps mux path clean : Forall (λ e, keeps k e.(ent_handler)) mux → keeps k (ServeMux mux path clean).
Proof.
  intros Hall v r w s Hc. unfold ServeMux. destruct (_ || _); [by apply Redirect_keeps|].
  destruct (matchMethodAndPath mux (req_Method r) path) as [[e m]|] eqn:Hm.
  - destruct (matchMethodAndPath_sound _ _ _ _ _ Hm) as [Hin _]. rewrite Forall_forall in Hall. by apply (Hall e Hin).
  - destruct (matchingMethods mux path); [by apply NotFound_keeps|by apply MethodNotAllowed_keeps].
Qed.
Lemma Recovery_keeps recorded hdl : keeps k hdl → keeps k (Recovery recorded hdl).
Proof.
  intros Hh v r w s Hc. unfold Recovery. rewrite run_bind. specialize (Hh v r w s Hc).
  destruct (run h (hdl r w) s) as [s' [w' [|[|p]]]]; cbn in Hh; [done|done|].
  destruct (responseStarted _ _); cbn [finish run snd fst]; cbn; auto 7 with carries.
Qed.
Lemma Logging_keeps quiet hdl : keeps k hdl → keeps k (Logging quiet hdl).
Proof.
  intros Hh v r w s Hc. unfold Logging. rewrite run_bind, run_trigger. destruct (h _ _ s) as [s1 start].
  rewrite run_bind. specialize (Hh v (WithContext (with_cell (req_Context r)) r) (set_cell "" w) s1 Hc).
  destruct (run h (hdl _ _) s1) as [s2 [w2 [|p]]]; [|done]. rewrite run_bind, run_trigger. by destruct (h _ _ s2).
Qed.
End one_field.

(** The two fields, from where they are set. *)
Definition below_policy (distDir indexHTML : string) : Handler E :=
  Recovery true (λ r, ServeMux [on "GET /healthz" healthz; on "/" (spaHandler distDir indexHTML)]
                        (url_segments r) (url_clean r) r).
Lemma below_policy_keeps k distDir indexHTML : k ∈ [policyHeader; HeaderRequestID] →
  keeps k (below_policy distDir indexHTML).
Proof.
  intros Hk. apply (Recovery_keeps k Hk). intros v r. apply (ServeMux_keeps k Hk). rewrite !Forall_cons, Forall_nil.
  split_and!; [|by apply spaHandler_keeps|done]. intros v' r' w s. cbn. apply carries_WriteHeader.
Qed.
Lemma secured_keeps csp hsts distDir indexHTML : keeps HeaderRequestID
  (secureheaders_Middleware csp hsts (below_policy distDir indexHTML)).
Proof.
  intros v r w s [Hh Hs]. rewrite secureheaders_sets. apply below_policy_keeps; [set_solver|].
  split; [|done]. cbn. by rewrite security_id.
Qed.
(** A middleware in front may do as it likes with the request. *)
Lemma secured_policy csp hsts distDir indexHTML r w s : w.(w_sent) = None →
  carries policyHeader csp (run h (secureheaders_Middleware csp hsts (below_policy distDir indexHTML) r w) s).2.1.
Proof.
  intros Hw. rewrite secureheaders_sets. apply below_policy_keeps; [set_solver|].
  split; [apply security_policy|]. cbn. by rewrite Hw.
Qed.
Lemma Logging_policy csp quiet hdl r w s :
  (∀ r w s, w.(w_sent) = None → carries policyHeader csp (run h (hdl r w) s).2.1) → w.(w_sent) = None →
  carries policyHeader csp (run h (Logging quiet hdl r w) s).2.1.
Proof.
  intros Hh Hw. unfold Logging. rewrite run_bind, run_trigger. destruct (h _ _ s) as [s1 start].
  rewrite run_bind. specialize (Hh (WithContext (with_cell (req_Context r)) r) (set_cell "" w) s1 Hw).
  destruct (run h (hdl _ _) s1) as [s2 [w2 [|p]]]; [|done]. rewrite run_bind, run_trigger. by destruct (h _ _ s2).
Qed.
End handler.

(** Every response of the frontend's server, whatever the request, the file system and
    the files served, has the policy and an identifier that is safe in a header: also the
    health check, a redirection, a 404, the 500 after a panic and the response that a
    panic cut off. *)
Theorem every_response_has_policy {E S} `{!Subevent envE E, !Subevent fileE E, !WebLibraries E, !RequestURL, !Redirects}
    (h : handler E (Env * S)) `{!WebLaws h} (distDir indexHTML csp : string) (hsts : Z) (r : Request) (env : Env) (s : S) :
  (∀ X (e : envE X) env s, h X (inject e) (env, s) =
     (let '(env', x) := handle_env X e env in ((env', s), x))) →
  Forall (λ t, int64.in_range t = true) (env_clock env) →
  let '(_, (w, _)) := run h (newHandler distDir indexHTML csp hsts r fresh_wire) (env, s) in
  carries policyHeader csp w ∧ ∃ id, isValidRequestID id = true ∧ carries HeaderRequestID id w.
Proof.
  intros Hh Hclk. unfold newHandler, Chain. cbn [fold_right].
  destruct (RequestID_is_safe h (Logging ∅ (secureheaders_Middleware csp hsts (below_policy distDir indexHTML)))
    r fresh_wire env s Hh Hclk) as (id & env' & Hid & Hrun & _).
  fold (below_policy distDir indexHTML). rewrite Hrun.
  set (r' := WithContext _ r). set (w0 := set_header _ id _).
  pose proof (Logging_policy h csp ∅ _ r' w0 (env', s) (secured_policy h csp hsts distDir indexHTML) eq_refl) as Hp.
  assert (Hid0 : carries HeaderRequestID id w0) by (split; [apply Header_Get_Set|done]).
  pose proof (Logging_keeps h HeaderRequestID ∅ _ (secured_keeps h csp hsts distDir indexHTML)
    id r' w0 (env', s) Hid0) as Hi.
  destruct (run h _ (env', s)) as [s' [w o]]. eauto.
Qed.

(** * The process *)

(** C38: the frontend's server always ends once it has been told to stop or its listener has
    returned, whatever the order in which the signal, the drain, the shutdown and the
    listener's return happen; until then it serves; and it exits with 0 exactly if there
    was a signal, the call of [Shutdown] returned without an error and the listener
    returned that it was closed.  Otherwise it exits with 1, and the error is the one the
    listener failed with or the one that [Shutdown] returned. *)
Theorem web_goes_down (cfg : webConfig) (c : process_state) :
  rtc (web_step cfg) (launched tt) c →
  (c.(signalled) = false → listening c = true → c.(at_) = Serving) ∧
  (c.(signalled) = true ∨ listening c = false → inevitably (web_step cfg) exited c) ∧
  (∀ res err, c.(at_) = Exited res err →
     (exit_status res = 0 ↔
        c.(signalled) = true ∧ c.(shutdown) = Some None ∧
        ∃ e, c.(served) = Some e ∧ Is e http_ErrServerClosed = true) ∧
     (exit_status res = 0 ∨ exit_status res = 1) ∧
     (∀ e, res = Some e → went_wrong e c)).
Proof.
  intros Hr. destruct (drained cfg.(web_preShutdownDelay) (λ o : unit, (o, None)) (λ _, True) (λ _ _, True))
    with (o := tt) (c := c) as (_ & Hserve & Hdown & Hexit); [done..|].
  split_and!; [done|exact Hdown|]. intros res err Hp. destruct (Hexit res err Hp) as (Hd & _).
  apply returned_status in Hd. exact Hd.
Qed.

(** * A concrete server *)
Module site.
Definition E : Type → Type := sumE envE fileE.
#[export] Instance of_env : Subevent envE E := λ X e, inl e.
#[export] Instance of_files : Subevent fileE E := λ X e, inr e.
(** A file system: its names, and which of them are directories. *)
Definition stat (X : Type) (e : fileE X) (fs : gmap string bool) : gmap string bool * X :=
  match e in fileE X return gmap string bool * X with
  | os_Stat name => (fs, match fs !! name with Some d => Ok d | None => Err os_ErrNotExist end)
  end.
Definition h : handler E (Env * gmap string bool) := handle_sum handle_env stat.
#[export] Instance libraries : WebLibraries E := {
  secureheaders_Middleware csp _ next r w := next r (set_header policyHeader csp w);
  serveOpened name r w := finish (Write (CText ("the bytes of " +:+ name)) w);
  RawQuery _ := "";
}.
#[export] Instance url : RequestURL := {
  url_segments r := List.tl (strings.Split r.(req_Path) "/");
  url_clean r := String.eqb (path.Clean r.(req_Path)) r.(req_Path);
  url_has_prefix p r := strings.HasPrefix r.(req_Path) p;
  url_of_context _ _ := eq_refl;
  url_of_values _ _ := eq_refl;
}.
#[export] Program Instance redirects : Redirects := { Redirect r w := WriteHeader 301 w }.
Next Obligation. intros r w Hw. unfold WriteHeader. rewrite Hw. cbn. eauto. Qed.
#[export] Program Instance laws : WebLaws h := { security_headers csp _ := Header_Set policyHeader csp }.
Next Obligation. done. Qed.
Next Obligation. intros. apply Header_Get_Set. Qed.
Next Obligation. intros. by apply Header_Get_Set_ne. Qed.
Next Obligation. intros. by apply carries_Write. Qed.
Next Obligation. intros. by apply carries_WriteHeader. Qed.
Definition get (p : string) : Request :=
  {| req_Method := "GET"; req_Path := p; req_Query := ∅; req_Header := ∅; req_Cookies := [];
     req_PathValue := ∅; req_Body := {| body_value := None; body_end := 0 |}; req_Context := background |}.
Definition disk : gmap string bool :=
  {[ "/dist" := true; "/dist/assets" := true; "/dist/assets/app.js" := false; "/dist/icon.svg" := false; "/secret" := false ]}.
Definition start : Env * gmap string bool := (env_at [1; 2; 3] [], disk).
Definition reply (dir p : string) : list chunk * option Z :=
  let w := (run h (spaHandler dir "<html>" (get p) fresh_wire) start).2.1 in (w_body w, status w).
End site.
#[local] Existing Instances site.of_env site.of_files site.libraries site.url site.redirects site.laws.

Example replies :
  map (site.reply "/dist") ["/assets/app.js"; "/../secret"; "/assets/../../secret"; "../secret"; "/tasks/7"; "/assets"] =
    [([CText "the bytes of /dist/assets/app.js"], Some 200); ([CText "<html>"], Some 200); ([CText "<html>"], Some 200);
     ([CText (of_bytes (bytes "404 page not found" ++ [10]))], Some 404); ([CText "<html>"], Some 200); ([CText "<html>"], Some 200)] ∧
  map (λ d, (site.reply d "/tasks/7").2) ["/dist"; "dist"; ".."; "."; "./"; "/"] =
    [Some 200; Some 200; Some 200; Some 404; Some 404; Some 404].
Proof. by vm_compute. Qed.

Lemma asset_reply : site.h _ (inject (os_Stat "/dist/assets/app.js")) site.start = (site.start, Ok false).
Proof. vm_compute. reflexivity. Qed.

Example spa_serves_witness :
  run site.h (spaHandler "/dist" "<html>" (site.get "/x/../assets/app.js") fresh_wire) site.start =
    run site.h (serveOpened "/dist/assets/app.js" (site.get "/x/../assets/app.js") (caching ["assets"; "app.js"] fresh_wire)) site.start.
Proof.
  destruct (spa_serves site.h "/dist" "<html>" (site.get "/x/../assets/app.js") fresh_wire site.start eq_refl) as [_ Hs].
  etransitivity; [apply Hs; vm_compute; by intros [[=]|[[=]|[]%elem_of_nil]%elem_of_cons]%elem_of_cons|].
  change (below "/dist" _) with "/dist/assets/app.js". rewrite asset_reply. reflexivity.
Defined.

Example spa_stays_below_witness :
  let answer := run site.h (spaHandler "/dist" "<html>" (site.get "icon.svg") fresh_wire) site.start in
  path.rooted "/dist" = true ∧
  (answer = (site.start, (NotFound fresh_wire, Returned)) ∨
   ∃ names, Forall name_elem names ∧
     let '(s', info) := site.h _ (inject (os_Stat (below "/dist" names))) site.start in
     answer = (s', (shell "<html>" fresh_wire, Returned)) ∨
     info = Ok false ∧ ∃ names' w', Forall name_elem names' ∧
       answer ∈ [(s', (localRedirect (site.get "icon.svg") "./" w', Returned));
                 run site.h (serveOpened (below "/dist" names') (site.get "icon.svg") w') s']).
Proof.
  split; [reflexivity|].
  exact (spa_stays_below site.h "/dist" "<html>" (site.get "icon.svg") fresh_wire site.start eq_refl).
Defined.

Example every_response_has_policy_witness :
  let '(_, (w, _)) := run site.h (newHandler "/dist" "<html>" "default-src 'self'" 0 (site.get "/tasks/7") fresh_wire) site.start in
  carries policyHeader "default-src 'self'" w ∧ ∃ id, isValidRequestID id = true ∧ carries HeaderRequestID id w.
Proof.
  apply (every_response_has_policy site.h "/dist" "<html>" "default-src 'self'" 0 (site.get "/tasks/7") (env_at [1; 2; 3] []) site.disk).
  - intros X e env s. reflexivity.
  - repeat constructor.
Defined.

Definition web_settings (delay : Z) : webConfig :=
  {| web_addr := ":8080"; web_distDir := "/dist"; web_apiOrigin := "https://api.example"; web_hstsMaxAge := 0;
     web_shutdownTimeout := 10 * time.Second; web_preShutdownDelay := delay |}.
(** A signal, the drain, and then a listener that fails as [Shutdown] is called. *)
Definition lost_listener : error := Opaque "use of closed network connection".
Definition raced : process_state :=
  receive_last lost_listener (shutdown_returns None (server_returns lost_listener
    (call_Shutdown (after_signal 5 (signal (launched tt)))))).
Definition raced_end : process_state := closed (server_error lost_listener) None tt raced.
Lemma raced_runs : rtc (web_step (web_settings 5)) (launched tt) raced_end.
Proof.
  eapply rtc_r; [|exact (DeferredClose 5 (λ o : unit, (o, None)) raced (server_error lost_listener) eq_refl)].
  unfold raced. eapply rtc_r; [|by apply ReceiveErr].
  do 2 (eapply rtc_r; [|first [by apply ShutdownReturns|by apply ServerFails]]).
  eapply rtc_r; [|by apply DrainOver]. eapply rtc_r; [|by apply SelectSignal].
  apply rtc_once. by apply SignalArrives.
Qed.
Example web_goes_down_witness :
  inevitably (web_step (web_settings 5)) exited (signal (launched tt)) ∧ went_wrong (wrap "server error" lost_listener) raced_end.
Proof.
  split.
  - apply (web_goes_down (web_settings 5) (signal (launched tt))); [|by left]. apply rtc_once. by apply SignalArrives.
  - by apply (web_goes_down (web_settings 5) raced_end raced_runs) with (res := server_error lost_listener) (err := None).
Defined.
