(* ===== verification/Sql.v ===== *)
(** The calls of [database/sql] and the statements the PostgreSQL repositories
    send with them: the part of PostgreSQL's language they use, from its text to
    what it does to the rows of the tables, with their keys and references, and the
    class of the databases that do so as documented. *)

From S2P Require Import Prelude GoStd GoError Uuid Text.
Local Open Scope Z_scope.

(** * Statements *)
Inductive cast := Plain | AsUuid | AsBigint | AsTextArray.
(** [$n], perhaps with a cast. *)
Record param := { p_index : Z; p_cast : cast }.

Inductive sexpr := EParam (p : param) | ENumber (n : Z) | ESucc (column : string) | ENow.
Inductive op := OpEq | OpNe | OpLt.
Inductive cond := CCompare (column : string) (o : op) (p : param) | CIn (column : string) (ps : list param).
Inductive item := IColumn (column : string) (as_text : bool) | ICount | INumber (n : Z).

Inductive order_item := Asc (column : string) | Desc (column : string).

Record select := {
  sel_items : list item;
  sel_table : string;
  sel_where : list cond;
  sel_group : option string;
  sel_order : list order_item;
  sel_window : option (param * option param);   (* LIMIT, perhaps with OFFSET *)
  sel_update : bool;                            (* FOR UPDATE *)
}.

(** The last clause of a deletion is [column NOT IN (SELECT ...)]; [SLock] takes the
    transaction's advisory lock on a text. *)
Inductive stmt :=
| SInsert (table : string) (columns : list string) (vals : list sexpr)
| SSelect (q : select)
| SUpdate (table : string) (sets : list (string * sexpr)) (conds : list cond)
| SDelete (table : string) (conds : list cond) (except : option (string * select))
| SLock (p : param).

#[export] Instance cast_eq_dec : EqDecision cast.
Proof. solve_decision. Defined.

(** * Their text *)

(** ** Words: split at white space, brackets and commas *)
Definition is_blank (c : ascii) : bool := let v := byte_val c in (v =? 32) || ((9 <=? v) && (v <=? 13)).
Definition is_punct (c : ascii) : bool := let v := byte_val c in (v =? 40) || (v =? 41) || (v =? 44).
Definition word_char (c : ascii) : bool := negb (is_blank c || is_punct c).

Definition flush (cur : string) (rest : list string) : list string :=
  match cur with "" => rest | _ => cur :: rest end.
Fixpoint scan (cur s : string) : list string :=
  match s with
  | "" => flush cur []
  | String c s' =>
      if is_blank c then flush cur (scan "" s')
      else if is_punct c then flush cur (String c "" :: scan "" s')
      else scan (cur +:+ String c "") s'
  end.
Definition words (s : string) : list string := scan "" s.

(** ** A recursive-descent parser *)
Definition parser (A : Type) : Type := list string → option (A * list string).
Definition pret {A} (a : A) : parser A := λ ts, Some (a, ts).
Definition pbind {A B} (p : parser A) (f : A → parser B) : parser B := λ ts,
  match p ts with Some (a, ts') => f a ts' | None => None end.
Notation "'let%' x := p 'in' k" := (pbind p (λ x, k))
  (at level 10, x pattern, p at level 100, k at level 200).

(** One word, and this word. *)
Definition word : parser string := λ ts, match ts with w :: ts' => Some (w, ts') | [] => None end.
Definition keyword (w : string) : parser unit := λ ts,
  match ts with w' :: ts' => if String.eqb w w' then Some (tt, ts') else None | [] => None end.
Fixpoint keywords (ws : list string) : parser unit :=
  match ws with [] => pret tt | w :: ws' => let% _ := keyword w in keywords ws' end.
Definition lift {A} (o : option A) : parser A := λ ts, match o with Some a => Some (a, ts) | None => None end.
(** An optional clause: present if its first word is next. *)
Definition clause {A} (w : string) (p : parser A) (d : A) : parser A := λ ts,
  match keyword w ts with Some (_, ts') => p ts' | None => Some (d, ts) end.
(** One or more, with a word between them; [fuel] bounds the number of words. *)
Fixpoint separated {A} (fuel : nat) (sep : string) (p : parser A) : parser (list A) :=
  match fuel with
  | O => λ _, None
  | Datatypes.S f => let% x := p in
      λ ts, match keyword sep ts with
            | Some (_, ts') => pbind (separated f sep p) (λ xs, pret (x :: xs)) ts'
            | None => Some ([x], ts)
            end
  end.
Definition commas {A} (p : parser A) : parser (list A) := λ ts, separated (length ts) "," p ts.
Definition ands {A} (p : parser A) : parser (list A) := λ ts, separated (length ts) "AND" p ts.

Definition cast_of (suffix : string) : option cast :=
  if String.eqb suffix "" then Some Plain
  else if String.eqb suffix "::uuid" then Some AsUuid
  else if String.eqb suffix "::bigint" then Some AsBigint
  else if String.eqb suffix "::text[]" then Some AsTextArray
  else None.
Definition param_of (w : string) : option param :=
  match w with
  | String d rest =>
      if Ascii.eqb d "$" then
        let num := strings.before_byte rest ":" in
        match strconv.parse_nonempty num, cast_of (strings.drop_bytes (String.length num) rest) with
        | Some n, Some c => Some {| p_index := n; p_cast := c |}
        | _, _ => None
        end
      else None
  | "" => None
  end.
Definition pparam : parser param := let% w := word in lift (param_of w).

Definition pitem : parser item :=
  let% w := word in
  if String.eqb w "COUNT" then let% _ := keywords ["("; "*"; ")"] in pret ICount
  else
    let column := strings.before_byte w ":" in
    let suffix := strings.drop_bytes (String.length column) w in
    if String.eqb suffix "" then
      pret (match strconv.parse_nonempty column with Some n => INumber n | None => IColumn column false end)
    else if String.eqb suffix "::text" then pret (IColumn column true)
    else lift None.

Definition pexpr : parser sexpr :=
  let% w := word in
  match param_of w with
  | Some p => pret (EParam p)
  | None =>
      match strconv.parse_nonempty w with
      | Some n => pret (ENumber n)
      | None =>
          if String.eqb w "now" then let% _ := keywords ["("; ")"] in pret ENow
          else let% _ := keywords ["+"; "1"] in pret (ESucc w)
      end
  end.

Definition pcond : parser cond :=
  let% column := word in
  let% o := word in
  if String.eqb o "IN" then
    let% _ := keyword "(" in let% ps := commas pparam in let% _ := keyword ")" in pret (CIn column ps)
  else
    let% p := pparam in
    if String.eqb o "=" then pret (CCompare column OpEq p)
    else if String.eqb o "!=" then pret (CCompare column OpNe p)
    else if String.eqb o "<" then pret (CCompare column OpLt p)
    else lift None.
Definition pwhere : parser (list cond) := clause "WHERE" (ands pcond) [].

(** SELECT items FROM table, and what follows the conditions. *)
Definition pfrom : parser (list item * string) :=
  let% items := commas pitem in
  let% _ := keyword "FROM" in
  let% table := word in
  pret (items, table).
Definition porder : parser order_item :=
  let% column := word in clause "DESC" (pret (Desc column)) (Asc column).
Definition ptail (items : list item) (table : string) (conds : list cond) : parser stmt :=
  let% group := clause "GROUP" (let% _ := keyword "BY" in let% c := word in pret (Some c)) None in
  let% order := clause "ORDER" (let% _ := keyword "BY" in commas porder) [] in
  let% window := clause "LIMIT"
    (let% l := pparam in
     let% o := clause "OFFSET" (let% o := pparam in pret (Some o)) None in
     pret (Some (l, o))) None in
  let% update := clause "FOR" (let% _ := keyword "UPDATE" in pret true) false in
  pret (SSelect {| sel_items := items; sel_table := table; sel_where := conds; sel_group := group;
                   sel_order := order; sel_window := window; sel_update := update |}).
Definition pselect : parser stmt :=
  let% (items, table) := pfrom in
  let% conds := pwhere in
  ptail items table conds.
Definition pinsert : parser stmt :=
  let% _ := keyword "INTO" in
  let% table := word in
  let% _ := keyword "(" in
  let% columns := commas word in
  let% _ := keywords [")"; "VALUES"; "("] in
  let% vals := commas pexpr in
  let% _ := keyword ")" in
  pret (SInsert table columns vals).
Definition pupdate : parser stmt :=
  let% table := word in
  let% _ := keyword "SET" in
  let% sets := commas (let% c := word in let% _ := keyword "=" in let% e := pexpr in pret (c, e)) in
  let% conds := pwhere in
  pret (SUpdate table sets conds).
Definition pexcept : parser (string * select) :=
  let% column := word in
  let% _ := keywords ["NOT"; "IN"; "("; "SELECT"] in
  let% st := pselect in
  let% _ := keyword ")" in
  match st with SSelect q => pret (column, q) | _ => lift None end.
Definition pcondition : parser (cond + string * select) := λ ts,
  match pexcept ts with
  | Some (x, ts') => Some (inr x, ts')
  | None => pbind pcond (λ c, pret (inl c)) ts
  end.
Definition pdelete : parser stmt :=
  let% _ := keyword "FROM" in
  let% table := word in
  let% cs := clause "WHERE" (ands pcondition) [] in
  let conds := omap (λ c, match c with inl c => Some c | inr _ => None end) cs in
  match omap (λ c, match c with inl _ => None | inr x => Some x end) cs with
  | [] => pret (SDelete table conds None)
  | [x] => pret (SDelete table conds (Some x))
  | _ => lift None
  end.
Definition plock : parser stmt :=
  let% _ := keywords ["pg_advisory_xact_lock"; "("; "hashtext"; "("] in
  let% p := pparam in
  let% _ := keywords [")"; ")"] in
  pret (SLock p).
Definition pstmt : parser stmt :=
  let% w := word in
  if String.eqb w "SELECT" then
    λ ts, match plock ts with Some x => Some x | None => pselect ts end
  else if String.eqb w "INSERT" then pinsert
  else if String.eqb w "UPDATE" then pupdate
  else if String.eqb w "DELETE" then pdelete
  else lift None.

(** The statement that a text is, if it is one of this part of the language. *)
Definition parse (query : string) : option stmt :=
  match pstmt (words query) with Some (st, []) => Some st | _ => None end.

Example parse_ex :
  parse "UPDATE t SET a = $1, v = v + 1 WHERE id = $2::uuid AND b IN ($3, $10)" =
  Some (SUpdate "t" [("a", EParam {| p_index := 1; p_cast := Plain |}); ("v", ESucc "v")]
    [CCompare "id" OpEq {| p_index := 2; p_cast := AsUuid |};
     CIn "b" [{| p_index := 3; p_cast := Plain |}; {| p_index := 10; p_cast := Plain |}]]).
Proof. vm_compute. reflexivity. Qed.

Example parse_except_ex :
  parse "DELETE FROM t WHERE u = $1::uuid AND k NOT IN (SELECT k FROM t WHERE u = $1::uuid ORDER BY c DESC LIMIT $2)" =
  let u := CCompare "u" OpEq {| p_index := 1; p_cast := AsUuid |} in
  Some (SDelete "t" [u] (Some ("k",
    {| sel_items := [IColumn "k" false]; sel_table := "t"; sel_where := [u]; sel_group := None;
       sel_order := [Desc "c"]; sel_window := Some ({| p_index := 2; p_cast := Plain |}, None);
       sel_update := false |}))).
Proof. vm_compute. reflexivity. Qed.

(** * Values *)

(** The arguments of a call. *)
Inductive arg := ArgString (s : string) | ArgInt (n : Z) | ArgTime (t : Z) | ArgNil.
(** What a column holds; a [uuid] is written in lower case. *)
Inductive value :=
| VText (s : string) | VUuid (s : string) | VInt (n : Z) | VTime (t : Z) | VBool (b : bool) | VNull
| VNumeric (n : Z)               (* [numeric] has no bound *)
| VArray (texts : list string).  (* [text[]] *)
#[export] Instance value_eq_dec : EqDecision value.
Proof. solve_decision. Defined.

Fixpoint lower_hex (s : string) : string :=
  match s with
  | "" => ""
  | String c s' =>
      let v := byte_val c in
      String (if (65 <=? v) && (v <=? 90) then byte_of (v + 32) else c) (lower_hex s')
  end.
(** [timestamptz] keeps microseconds. *)
Definition micros (t : Z) : Z := t - t mod 1000.

(** The text of an array: here elements in quotes, in which a backslash takes the
    next byte as it is. *)
Fixpoint array_element (acc s : string) : option (string * string) :=
  match s with
  | "" => None
  | String c s' =>
      if Ascii.eqb c (byte_of 34) then Some (acc, s')
      else if Ascii.eqb c "\" then
        match s' with "" => None | String d s'' => array_element (acc +:+ String d "") s'' end
      else array_element (acc +:+ String c "") s'
  end.
Fixpoint array_elements (fuel : nat) (s : string) : option (list string) :=
  match fuel, s with
  | Datatypes.S f, String q s' =>
      if Ascii.eqb q (byte_of 34) then
        '(x, rest) ← array_element "" s';
        match rest with
        | "}" => Some [x]
        | String "," rest' => xs ← array_elements f rest'; Some (x :: xs)
        | _ => None
        end
      else None
  | _, _ => None
  end.
Definition array_of (s : string) : option (list string) :=
  match s with
  | "{}" => Some []
  | String "{" s' => array_elements (String.length s') s'
  | _ => None
  end.

(** The server accepts other spellings of a UUID too; nothing is said of them. *)
Definition cast_arg (c : cast) (a : arg) : option value :=
  match c, a with
  | Plain, ArgString s => Some (VText s)
  | Plain, ArgInt n | AsBigint, ArgInt n => Some (VInt n)
  | Plain, ArgTime t => Some (VTime (micros t))
  | Plain, ArgNil | AsBigint, ArgNil => Some VNull
  | AsUuid, ArgString s => if isValidID s then Some (VUuid (lower_hex s)) else None
  | AsTextArray, ArgString s => xs ← array_of s; Some (VArray xs)
  | _, _ => None
  end.
Definition param_value (args : list arg) (p : param) : option value :=
  if p.(p_index) <=? 0 then None
  else a ← args !! Z.to_nat (p.(p_index) - 1); cast_arg p.(p_cast) a.

(** The Go variables a row is scanned into. *)
Inductive dest := DString | DInt | DTime | DBool.
Definition dest_type (d : dest) : Type := match d with DString => string | DBool => bool | _ => Z end.
Fixpoint tuple (ds : list dest) : Type :=
  match ds with [] => unit | d :: ds' => (dest_type d * tuple ds')%type end.

Definition scan_value (d : dest) (v : value) : option (dest_type d) :=
  match d, v with
  | DString, VText s => Some s
  | DInt, VInt n => Some n
  | DInt, VNumeric n => if int64.in_range n then Some n else None
  | DTime, VTime t => Some t
  | DBool, VBool b => Some b
  | _, _ => None
  end.
Fixpoint scan_row (ds : list dest) (vs : list value) : option (tuple ds) :=
  match ds, vs with
  | [], [] => Some tt
  | d :: ds', v :: vs' => x ← scan_value d v; xs ← scan_row ds' vs'; Some (x, xs)
  | _, _ => None
  end.

(** * The calls of [database/sql]

    Each carries the time limit the caller put on its context, if any; a
    statement runs on its own or in the transaction it names. *)
Definition deadline := option Z.
Inductive dbE : Type → Type :=
| ExecContext (ctx : deadline) (tx : option Z) (query : string) (args : list arg)
    : dbE (result (result Z))
| QueryRow (ctx : deadline) (tx : option Z) (query : string) (args : list arg) (ds : list dest)
    : dbE (result (tuple ds))
| Query (ctx : deadline) (query : string) (args : list arg) (ds : list dest)
    : dbE (result (list (result (tuple ds)) * option error))
| BeginTx (ctx : deadline) : dbE (result Z)
| Commit (tx : Z) : dbE (option error)
| Rollback (tx : Z) : dbE (option error).

(** The column of a row given by its columns. *)
Definition text_col (c : string) (cols : list (string * value)) : option string :=
  cv ← List.find (λ cv, String.eqb cv.1 c) cols; match cv.2 with VText s => Some s | _ => None end.
Definition uuid_col (c : string) (cols : list (string * value)) : option string :=
  cv ← List.find (λ cv, String.eqb cv.1 c) cols; match cv.2 with VUuid s => Some s | _ => None end.
Definition time_col (c : string) (cols : list (string * value)) : option Z :=
  cv ← List.find (λ cv, String.eqb cv.1 c) cols; match cv.2 with VTime t => Some t | _ => None end.
Definition int_col (c : string) (cols : list (string * value)) : option Z :=
  cv ← List.find (λ cv, String.eqb cv.1 c) cols; match cv.2 with VInt n => Some n | _ => None end.

(** * What a statement does to the tables *)

(** The rows of the tables of a schema as one type: which table a row is in, its
    columns, the one that identifies it, how a row is made and changed, the columns
    that are unique besides, the row it refers to and is deleted with
    ([REFERENCES ... ON DELETE CASCADE], one level deep), and when the columns are
    wide enough for it.  The keys of different tables are kept apart. *)
Class Relation (R : Type) := {
  rel_tables : list string;
  rel_table : R → string;
  rel_key : R → string;
  rel_get : R → string → option value;
  rel_make : string → list (string * value) → option R;
  rel_set : string → value → R → option R;
  rel_unique : string → list string;
  rel_parent : R → option string;
  rel_fits : R → Prop;
}.

Section meaning.
Context {R : Type} `{Relation R} (args : list arg).
Abbreviation rows := (gmap string R).

(** A condition with its parameters replaced by their values. *)
Inductive bound := BCompare (column : string) (o : op) (v : value) | BIn (column : string) (vs : list value).
Definition bind_cond (c : cond) : option bound :=
  match c with
  | CCompare col o p => v ← param_value args p; Some (BCompare col o v)
  | CIn col ps => vs ← mapM (param_value args) ps; Some (BIn col vs)
  end.
Definition value_less (v w : value) : bool :=
  match v, w with
  | VTime a, VTime b | VInt a, VInt b => a <? b
  | VUuid a, VUuid b => strings.less a b
  | _, _ => false
  end.
Definition test (r : R) (b : bound) : bool :=
  match b with
  | BCompare col o v =>
      match rel_get r col with
      | None => false
      | Some w => match o with
                  | OpEq => bool_decide (w = v)
                  | OpNe => bool_decide (w ≠ v)
                  | OpLt => value_less w v
                  end
      end
  | BIn col vs => match rel_get r col with None => false | Some w => bool_decide (w ∈ vs) end
  end.
Definition tests (bs : list bound) (r : R) : bool := forallb (test r) bs.

(** [now()] is the time the transaction began at, by the server's clock. *)
Context (now : Z).
Definition eval_expr (old : option R) (e : sexpr) : option value :=
  match e with
  | EParam p => param_value args p
  | ENumber n => Some (VInt n)
  | ESucc col => r ← old; v ← rel_get r col;
      match v with VInt n => Some (VInt (n + 1)) | _ => None end
  | ENow => Some (VTime (micros now))
  end.
Definition new_row (table : string) (columns : list string) (vals : list sexpr) : option R :=
  vs ← mapM (eval_expr None) vals;
  if bool_decide (length columns = length vs) then rel_make table (zip columns vs) else None.
Definition changed_row (sets : list (string * sexpr)) (r : R) : option R :=
  vs ← mapM (λ cs : string * sexpr, eval_expr (Some r) cs.2) sets;
  fold_left (λ o cv, r ← o; rel_set cv.1 cv.2 r) (zip (map fst sets) vs) (Some r).

Definition chosen (table : string) (bs : list bound) (r : R) : bool :=
  String.eqb table (rel_table r) && tests bs r.
Definition rows_with (f : R → bool) (m : rows) : rows := filter (λ kr, f kr.2 = true) m.
Definition matching (table : string) (bs : list bound) (m : rows) : rows := rows_with (chosen table bs) m.

(** Two rows that a unique column keeps apart. *)
Definition clash (r r' : R) : bool :=
  String.eqb (rel_table r) (rel_table r') &&
  existsb (λ c, bool_decide (rel_get r c = rel_get r' c)) (rel_unique (rel_table r)).
Definition refers (r : R) (m : rows) : Prop :=
  match rel_parent r with None => True | Some k => is_Some (m !! k) end.
(** A new row that violates no constraint. *)
Definition admissible (r : R) (m : rows) : Prop :=
  m !! rel_key r = None ∧ map_Forall (λ _ r', clash r r' = false) m ∧ refers r m.
(** What the constraints make of all rows. *)
Definition consistent (m : rows) : Prop :=
  map_Forall (λ k r, rel_key r = k ∧ refers r m ∧ map_Forall (λ k' r', clash r r' = true → k = k') m) m.

#[export] Instance refers_dec r m : Decision (refers r m).
Proof. unfold refers. destruct (rel_parent r); apply _. Defined.
#[export] Instance admissible_dec r m : Decision (admissible r m).
Proof. unfold admissible. apply _. Defined.
#[export] Instance consistent_dec m : Decision (consistent m).
Proof. unfold consistent. apply _. Defined.

(** The query inside a statement; [kept] is what it has answered. *)
Definition inner (st : stmt) : option select :=
  match st with SDelete _ _ (Some (_, q)) => Some q | _ => None end.
Context (kept : list (list value)).
Definition doomed (table : string) (bs : list bound) (except : option (string * select)) (r : R) : bool :=
  match except with
  | None => chosen table bs r
  | Some (c, _) => chosen table bs r &&
      match rel_get r c with Some v => bool_decide ([v] ∉ kept) | None => false end
  end.
(** A row is deleted with the one it refers to. *)
Definition orphan (dead : rows) (r : R) : bool :=
  match rel_parent r with Some k => bool_decide (is_Some (dead !! k)) | None => false end.

(** What a writing statement does: nothing is said of it, it fails on a constraint,
    or it leaves these rows, having touched that many. *)
Definition writes (st : stmt) (m : rows) : option (option (rows * Z)) :=
  match st with
  | SInsert t columns vals =>
      if bool_decide (t ∈ rel_tables) then
        r ← new_row t columns vals;
        Some (if bool_decide (admissible r m) then Some (<[rel_key r := r]> m, 1) else None)
      else None
  | SUpdate t sets conds =>
      if bool_decide (t ∈ rel_tables) then
        bs ← mapM bind_cond conds;
        if bool_decide (map_Forall (λ _ r, is_Some (changed_row sets r)) (matching t bs m)) then
          let m' := (λ r, if chosen t bs r then default r (changed_row sets r) else r) <$> m in
          Some (if bool_decide (consistent m') then Some (m', Z.of_nat (size (matching t bs m))) else None)
        else None
      else None
  | SDelete t conds except =>
      if bool_decide (t ∈ rel_tables) then
        bs ← mapM bind_cond conds;
        let dead := rows_with (doomed t bs except) m in
        Some (Some (rows_with (λ r, negb (orphan dead r || doomed t bs except r)) m, Z.of_nat (size dead)))
      else None
  | SLock p =>
      v ← param_value args p; match v with VText _ => Some (Some (m, 1)) | _ => None end
  | SSelect _ => None
  end.
(** The rows that are written fit their columns, as the ones they replace did. *)
Definition write_fits (st : stmt) (m : rows) : Prop :=
  match st with
  | SInsert t columns vals => ∀ r, new_row t columns vals = Some r → rel_fits r
  | SUpdate t sets conds => ∀ bs r', mapM bind_cond conds = Some bs →
      (∃ k r, matching t bs m !! k = Some r ∧ rel_fits r ∧ changed_row sets r = Some r') → rel_fits r'
  | _ => True
  end.

(** Rows in order; text is ordered by a collation, of which nothing is said. *)
Definition order_column (i : order_item) : string := match i with Asc c | Desc c => c end.
Definition precedes (i : order_item) (v w : value) : bool :=
  match i with Asc _ => value_less v w | Desc _ => value_less w v end.
Fixpoint row_le (order : list order_item) (r r' : R) : Prop :=
  match order with
  | [] => True
  | i :: order' =>
      match rel_get r (order_column i), rel_get r' (order_column i) with
      | Some (VText _), _ | _, Some (VText _) => True
      | Some v, Some w => precedes i v w = true ∨ v = w ∧ row_le order' r r'
      | _, _ => True
      end
  end.
Definition as_text (v : value) : option value :=
  match v with VUuid s | VText s => Some (VText s) | _ => None end.
Definition project (r : R) (i : item) : option value :=
  match i with
  | IColumn c false => rel_get r c
  | IColumn c true => v ← rel_get r c; as_text v
  | INumber n => Some (VInt n)
  | ICount => None
  end.

(** LIMIT and OFFSET: [NULL] is no limit. *)
Definition window_of (w : option (param * option param)) : option (option Z * Z) :=
  match w with
  | None => Some (None, 0)
  | Some (l, o) =>
      vl ← param_value args l; vo ← match o with Some o => param_value args o | None => Some (VInt 0) end;
      match vl, vo with
      | VNull, VInt offset => if offset <? 0 then None else Some (None, offset)
      | VInt limit, VInt offset => if (limit <? 0) || (offset <? 0) then None else Some (Some limit, offset)
      | _, _ => None
      end
  end.
Definition in_window (w : option Z * Z) (l : list R) : list R :=
  let l := drop (Z.to_nat w.2) l in
  match w.1 with Some limit => take (Z.to_nat limit) l | None => l end.

(** The rows of an answer, in an order the statement allows; [None] where nothing
    is said. *)
Definition readable (q : select) : option (list bound * (option Z * Z)) :=
  if bool_decide (q.(sel_table) ∈ rel_tables) then
    bs ← mapM bind_cond q.(sel_where); w ← window_of q.(sel_window); Some (bs, w)
  else None.
Definition has_value (col : string) (v : value) (r : R) : Prop := rel_get r col = Some v.
Definition answers (q : select) (bs : list bound) (w : option Z * Z) (m : rows) (l : list (list value)) : Prop :=
  let found := values (map_to_list (matching q.(sel_table) bs m)) in
  match q.(sel_items), q.(sel_group) with
  | [ICount], None => l = [[VInt (Z.of_nat (length found))]]
  | [IColumn c false; ICount], Some c' => c = c' ∧
      ∃ vs, NoDup vs ∧ (∀ v, v ∈ vs ↔ ∃ r, r ∈ found ∧ rel_get r c = Some v) ∧
        l = map (λ v, [v; VInt (Z.of_nat (length (base.filter (λ r, rel_get r c = Some v) found)))]) vs
  | items, None =>
      ∃ sorted, sorted ≡ₚ found ∧ StronglySorted (row_le q.(sel_order)) sorted ∧
        mapM (λ r, mapM (project r) items) (in_window w sorted) = Some l
  | _, _ => False
  end.
End meaning.

(** * A database that behaves as documented *)

(** The sentinels the packages declare themselves. *)
Definition own_sentinels : list sentinel :=
  ErrConflict :: ErrInvalidTransition :: ErrInvalidCredentials :: ErrTaskNotFound :: ErrTooLarge ::
  ErrNotOwner :: ErrNoMigrationsToRevert ::
  concat (map (λ p, [ErrNotFound p; ErrAlreadyExists p; ErrInvalidInput p; ErrDependencyUnavailable p;
                     ErrUnavailable p]) [task_pkg; user_pkg; attachment_pkg]).
(** An error of the driver or of the server: none of the program's own, and the
    codes of the server have five characters. *)
Definition driver_error (e : error) : Prop :=
  (∀ s, s ∈ own_sentinels → Is e s = false) ∧ Is e sql_ErrNoRows = false ∧
  (∀ c, AsPgError e = Some c → String.length c = 5%nat).

(** Committed rows, and what each open transaction has made of them. *)
Record Db (R : Type) := { db_rows : gmap string R; db_txs : gmap Z (gmap string R) }.
Arguments db_rows {R} d.
Arguments db_txs {R} d.

Section database.
Context {R : Type} `{Relation R}.

(** The rows a statement sees. *)
Definition visible (tx : option Z) (d : Db R) : option (gmap string R) :=
  match tx with None => Some d.(db_rows) | Some tx => d.(db_txs) !! tx end.

(** A writing statement that fails has done nothing, unless it ran on its own and
    only the answer was lost. *)
Definition exec_outcome (tx : option Z) (o : option (gmap string R * Z)) (d d' : Db R)
    (r : result (result Z)) : Prop :=
  let done m' := match tx with
                 | None => d'.(db_rows) = m'
                 | Some tx => d'.(db_rows) = d.(db_rows) ∧ d'.(db_txs) !! tx = Some m'
                 end in
  match r with
  | Ok (Ok n) => ∃ m', o = Some (m', n) ∧ done m'
  | Ok (Err e) => driver_error e ∧ ∃ m' n, o = Some (m', n) ∧ done m'
  | Err e => driver_error e ∧
      (AsPgError e = Some "23505" → o = None ∧ d'.(db_rows) = d.(db_rows)) ∧
      (d'.(db_rows) = d.(db_rows) ∨ tx = None ∧ ∃ m' n, o = Some (m', n) ∧ d'.(db_rows) = m')
  end.
(** It was not even tried. *)
Definition refused (d d' : Db R) (r : result (result Z)) : Prop :=
  ∃ e, r = Err e ∧ driver_error e ∧ AsPgError e ≠ Some "23505" ∧ d'.(db_rows) = d.(db_rows).
(** What the query inside a statement can have answered. *)
Definition inner_answer (args : list arg) (st : stmt) (m : gmap string R) (kept : list (list value)) : Prop :=
  ∀ q bs w, inner st = Some q → readable args q = Some (bs, w) → answers q bs w m kept.
Definition exec_spec (tx : option Z) (st : stmt) (args : list arg) (d d' : Db R) (r : result (result Z)) : Prop :=
  ∀ m, visible tx d = Some m →
    refused d d' r ∨
    ∃ now kept, inner_answer args st m kept ∧
      ∀ o, writes args now kept st m = Some o → write_fits args now st m → exec_outcome tx o d d' r.

(** What a reading call returns, given the answers [A] a statement allows: a row is
    scanned, or rows until they end or fail. *)
Definition row_answer {ds} (A : list (list value) → Prop) (r : result (tuple ds)) : Prop :=
  match r with
  | Ok x => ∃ l v, A (v :: l) ∧ scan_row ds v = Some x
  | Err e => e = sql_ErrNoRows ∧ A [] ∨ driver_error e
  end.
Definition rows_answer {ds} (A : list (list value) → Prop)
    (r : result (list (result (tuple ds)) * option error)) : Prop :=
  match r with
  | Ok (rows, err) => ∃ l, A l ∧ (length rows ≤ length l)%nat ∧
      match err with
      | None => length rows = length l
      | Some e => driver_error e
      end ∧
      ∀ i row v, rows !! i = Some row → l !! i = Some v →
        match row with Ok x => scan_row ds v = Some x | Err e => driver_error e end
  | Err e => driver_error e
  end.

Definition db_spec {X} (e : dbE X) (d d' : Db R) : X → Prop :=
  match e in dbE X return X → Prop with
  | ExecContext _ tx query args => λ r,
      ∀ st, parse query = Some st → exec_spec tx st args d d' r
  | QueryRow _ tx query args ds => λ r,
      ∀ q m bs w, parse query = Some (SSelect q) → visible tx d = Some m →
        readable args q = Some (bs, w) →
        d' = d ∧ row_answer (answers q bs w m) r
  | Query _ query args ds => λ r,
      ∀ q bs w, parse query = Some (SSelect q) → readable args q = Some (bs, w) →
        d' = d ∧ rows_answer (answers q bs w d.(db_rows)) r
  | BeginTx _ => λ r, d'.(db_rows) = d.(db_rows) ∧
      match r with
      | Ok tx => d'.(db_txs) !! tx = Some d.(db_rows)
      | Err e => driver_error e
      end
  | Commit tx => λ r, ∀ m, d.(db_txs) !! tx = Some m →
      match r with
      | None => d'.(db_rows) = m
      | Some e => driver_error e ∧ (d'.(db_rows) = d.(db_rows) ∨ d'.(db_rows) = m)
      end
  | Rollback tx => λ r, d'.(db_rows) = d.(db_rows)
  end.

(** A database, seen as the rows of some of its tables. *)
Class Database {S : Type} (h : handler dbE S) := {
  db_view : S → Db R;
  db_inv : S → Prop;
  db_consistent : ∀ s, db_inv s → consistent (db_view s).(db_rows);
  db_step_inv : ∀ X (e : dbE X) s, db_inv s → db_inv (h X e s).1;
  db_sound : ∀ X (e : dbE X) s, db_inv s → db_spec e (db_view s) (db_view (h X e s).1) (h X e s).2;
}.
End database.
#[global] Arguments Database R {_ S} h.

(** The three kinds of call, with the statement that is sent. *)
Section statements.
Context {R S : Type} `{Relation R} (h : handler dbE S) `{!Database R h}.

Lemma dcall_sound X (e : dbE X) s s' r :
  db_inv s → h X e s = (s', r) → db_inv s' ∧ db_spec e (db_view s) (db_view s') r.
Proof.
  intros Hi E. pose proof (db_step_inv X e s Hi). pose proof (db_sound X e s Hi). by rewrite E in *.
Qed.
Lemma refused_outcome tx o (d d' : Db R) r : refused d d' r → exec_outcome tx o d d' r.
Proof. intros (e & -> & He & Hu & Hd). split_and!; [done| |by left]. intros Hc. by destruct Hu. Qed.
Lemma exec_resolved ctx tx query st args s m s' r :
  db_inv s → h _ (ExecContext ctx tx query args) s = (s', r) → parse query = Some st →
  visible tx (db_view s) = Some m →
  (∀ now kept, inner_answer args st m kept →
    ∃ o, writes args now kept st m = Some o ∧ write_fits args now st m) →
  db_inv s' ∧ (refused (db_view s) (db_view s') r ∨
    ∃ now kept o, inner_answer args st m kept ∧ writes args now kept st m = Some o ∧
      exec_outcome tx o (db_view s) (db_view s') r).
Proof.
  intros Hi E Hp Hm Hw. destruct (dcall_sound _ _ _ _ _ Hi E) as [Hi' Hs]. split; [done|].
  destruct (Hs st Hp m Hm) as [Hr|(now & kept & Hk & Ho)]; [by left|right].
  destruct (Hw now kept Hk) as (o & Hwo & Hf). exists now, kept, o. auto.
Qed.
(** A statement in a transaction that was answered, or was not. *)
Lemma exec_in_tx tx o (d d' : Db R) r :
  exec_outcome (Some tx) o d d' r →
  match r with
  | Ok _ => ∃ m' n, o = Some (m', n) ∧ d'.(db_rows) = d.(db_rows) ∧ d'.(db_txs) !! tx = Some m'
  | Err e => driver_error e ∧ d'.(db_rows) = d.(db_rows)
  end.
Proof.
  intros Hr. destruct r as [[n|e]|e].
  - destruct Hr as (m' & Ho & Hd). eauto.
  - destruct Hr as (_ & m' & n & Ho & Hd). eauto.
  - by destruct Hr as (He & _ & [Hd|[? _]]).
Qed.
(** A statement whose effect is determined. *)
Lemma exec_call ctx tx query st args s m o s' r :
  db_inv s → h _ (ExecContext ctx tx query args) s = (s', r) → parse query = Some st →
  visible tx (db_view s) = Some m → (∀ now kept, writes args now kept st m = Some o) →
  (∀ now, write_fits args now st m) →
  db_inv s' ∧ exec_outcome tx o (db_view s) (db_view s') r.
Proof.
  intros Hi E Hp Hm Hw Hf.
  destruct (exec_resolved _ _ _ _ _ _ m _ _ Hi E Hp Hm) as [Hi' [Hr|(now & kept & o' & _ & Ho & Hout)]].
  - intros now kept _. exists o. auto.
  - split; [done|]. by apply refused_outcome.
  - split; [done|]. rewrite Hw in Ho. by injection Ho as <-.
Qed.
Lemma row_call ctx tx query args ds q bs w s m s' r :
  db_inv s → h _ (QueryRow ctx tx query args ds) s = (s', r) → parse query = Some (SSelect q) →
  visible tx (db_view s) = Some m → readable args q = Some (bs, w) →
  db_inv s' ∧ db_view s' = db_view s ∧ row_answer (answers q bs w m) r.
Proof.
  intros Hi E Hp Hm Hr. destruct (dcall_sound _ _ _ _ _ Hi E) as [Hi' Hs]. split; [done|].
  exact (Hs q m bs w Hp Hm Hr).
Qed.
(** Reading all rows: either an error of the driver, or every row of the answer. *)
Definition all_rows {ds} (A : list (list value) → Prop)
    (r : result (list (result (tuple ds)) * option error)) : Prop :=
  match r with
  | Ok (rows, err) =>
      (∀ e, Err e ∈ rows → driver_error e) ∧
      match err with
      | Some e => driver_error e
      | None => ∀ xs, rows = map Ok xs → ∃ l, A l ∧ Forall2 (λ v x, scan_row ds v = Some x) l xs
      end
  | Err e => driver_error e
  end.
Lemma rows_answer_all {ds} A (r : result (list (result (tuple ds)) * option error)) :
  rows_answer A r → all_rows A r.
Proof.
  destruct r as [[rows err]|e]; [|done]. intros (l & Hl & Hle & Herr & Hrows). split.
  - intros e (i & Hi'')%list_elem_of_lookup.
    destruct (lookup_lt_is_Some_2 l i) as [v Hv']; [apply lookup_lt_Some in Hi''; lia|].
    exact (Hrows i _ v Hi'' Hv').
  - destruct err as [e|]; [done|]. intros xs ->. exists l. split; [done|].
    rewrite length_map in Herr. apply Forall2_same_length_lookup_2; [done|]. intros i v x Hl' Hx.
    refine (Hrows i (Ok x) v _ Hl'). by rewrite list_lookup_fmap, Hx.
Qed.
Lemma rows_call ctx query args ds q bs w s s' r :
  db_inv s → h _ (Query ctx query args ds) s = (s', r) → parse query = Some (SSelect q) →
  readable args q = Some (bs, w) →
  db_inv s' ∧ db_view s' = db_view s ∧ all_rows (answers q bs w (db_view s).(db_rows)) r.
Proof.
  intros Hi E Hp Hr. destruct (dcall_sound _ _ _ _ _ Hi E) as [Hi' Hs]. split; [done|].
  destruct (Hs q bs w Hp Hr) as [Hv Hres]. split; [done|]. by apply rows_answer_all.
Qed.
End statements.

(** * Lemmas *)

Lemma mapM_map {A B C} (f : B → option C) (g : A → B) l : mapM f (map g l) = mapM (λ x, f (g x)) l.
Proof. induction l as [|x l IH]; [done|]. cbn. by rewrite IH. Qed.

Lemma mapM_known {A B} (f : A → option B) (g : A → B) l :
  (∀ x, x ∈ l → f x = Some (g x)) → mapM f l = Some (map g l).
Proof.
  induction l as [|x l IH]; intros Hf; [done|]. cbn [mapM map]. rewrite (Hf x) by left.
  cbn [mbind option_bind]. by rewrite IH by (intros y Hy; apply Hf; by right).
Qed.

Lemma all_of_form {A B} (g : A → B) l : (∀ x, x ∈ l → ∃ a, x = g a) → ∃ xs, l = map g xs.
Proof.
  intros Hall. induction l as [|x l IH]; [by exists []|]. destruct (Hall x) as [a ->]; [left|].
  destruct IH as [xs ->]; [intros y Hy; apply Hall; by right|]. by exists (a :: xs).
Qed.

(** ** Parameters *)
Definition plain (i : Z) : param := {| p_index := i; p_cast := Plain |}.
Definition uuid (i : Z) : param := {| p_index := i; p_cast := AsUuid |}.
Lemma param_value_eq args p a v :
  0 < p.(p_index) → args !! Z.to_nat (p.(p_index) - 1) = Some a → cast_arg p.(p_cast) a = Some v →
  param_value args p = Some v.
Proof.
  intros Hp Ha Hv. unfold param_value. destruct (Z.leb_spec (p_index p) 0); [lia|]. by rewrite Ha.
Qed.

Lemma bind_uuid args c o i s :
  0 < i → args !! Z.to_nat (i - 1) = Some (ArgString s) → isValidID s = true →
  bind_cond args (CCompare c o (uuid i)) = Some (BCompare c o (VUuid (lower_hex s))).
Proof.
  intros Hi Ha Hs. cbn [bind_cond]. erewrite param_value_eq; [done|exact Hi|exact Ha|].
  cbn [cast_arg uuid p_cast]. by rewrite Hs.
Qed.
Lemma bind_plain args c o i a v :
  0 < i → args !! Z.to_nat (i - 1) = Some a → cast_arg Plain a = Some v →
  bind_cond args (CCompare c o (plain i)) = Some (BCompare c o v).
Proof. intros Hi Ha Hv. cbn [bind_cond]. by erewrite param_value_eq. Qed.
Lemma bool_decide_text s s' : bool_decide (VText s = VText s') = String.eqb s s'.
Proof. destruct (String.eqb_spec s s') as [->|]; [by apply bool_decide_eq_true_2|apply bool_decide_eq_false_2; congruence]. Qed.
Lemma bool_decide_uuid s s' : bool_decide (VUuid s = VUuid s') = String.eqb s s'.
Proof. destruct (String.eqb_spec s s') as [->|]; [by apply bool_decide_eq_true_2|apply bool_decide_eq_false_2; congruence]. Qed.

(** ** Rows that a query finds *)
Section rows.
Context {R : Type} `{Relation R}.

Lemma consistent_key m k (r : R) : consistent m → m !! k = Some r → rel_key r = k.
Proof. intros Hc Hk. by destruct (Hc k r Hk). Qed.
Lemma lookup_rows_with f m k (r : R) : rows_with f m !! k = Some r ↔ m !! k = Some r ∧ f r = true.
Proof. unfold rows_with. by rewrite map_lookup_filter_Some. Qed.
Lemma lookup_matching t bs m k (r : R) :
  matching t bs m !! k = Some r ↔ m !! k = Some r ∧ rel_table r = t ∧ tests bs r = true.
Proof.
  unfold matching, chosen. rewrite lookup_rows_with, andb_true_iff, String.eqb_eq. naive_solver.
Qed.
Lemma values_matching t bs (m : gmap string R) :
  values (map_to_list (matching t bs m)) ≡ₚ
  base.filter (λ r, chosen t bs r = true) (values (map_to_list m)).
Proof.
  unfold matching, rows_with, values. rewrite map_filter_alt.
  transitivity (map snd (base.filter (λ kr : string * R, chosen t bs kr.2 = true) (map_to_list m))).
  { apply Permutation_map, map_to_list_to_map. apply (sublist_NoDup _ (map_to_list m).*1); [apply NoDup_fst_map_to_list|].
    apply fmap_sublist, sublist_filter. }
  induction (map_to_list m) as [|[k r] l IH]; [done|]. cbn [map snd]. rewrite !filter_cons. cbn [snd].
  case_decide; cbn [map snd]; by rewrite IH.
Qed.
(** Conditions that at most one row meets. *)
Lemma matching_one t bs (m : gmap string R) k r :
  matching t bs m !! k = Some r → (∀ k' r', matching t bs m !! k' = Some r' → k' = k) →
  matching t bs m = {[k := r]}.
Proof.
  intros Hk Hu. apply map_eq. intros k'. rewrite lookup_singleton. case_decide as Hd; [by subst|].
  destruct (matching t bs m !! k') as [r'|] eqn:Hk'; [|done]. by destruct Hd; rewrite (Hu k' r').
Qed.
Lemma matching_none t bs (m : gmap string R) :
  (∀ k r, matching t bs m !! k = Some r → False) → matching t bs m = ∅.
Proof.
  intros Hn. apply map_eq. intros k. rewrite lookup_empty. destruct (matching t bs m !! k) as [r|] eqn:Hk; [|done].
  by destruct (Hn k r).
Qed.

Lemma clash_sym (r r' : R) : clash r r' = clash r' r.
Proof.
  unfold clash. rewrite String.eqb_sym. destruct (String.eqb_spec (rel_table r') (rel_table r)) as [->|]; [|done].
  cbn [andb]. induction (rel_unique (rel_table r)) as [|c cs IH]; [done|]. cbn [existsb]. rewrite IH. f_equal.
  by apply bool_decide_ext.
Qed.
Lemma refers_insert (r r' : R) k (m : gmap string R) : refers r m → refers r (<[k := r']> m).
Proof.
  unfold refers. destruct (rel_parent r) as [k'|]; [|done]. intros Hk. rewrite lookup_insert. by case_decide.
Qed.
(** What is admissible can be added. *)
Lemma consistent_insert (r : R) (m : gmap string R) :
  consistent m → admissible r m → consistent (<[rel_key r := r]> m).
Proof.
  intros Hm (Hk & Hc & Hr). apply map_Forall_insert_2.
  - split; [done|]. split; [by apply refers_insert|]. apply map_Forall_insert_2; [done|].
    intros k' r' Hk' Hcl. specialize (Hc k' r' Hk'). cbn in Hc. congruence.
  - intros k1 r1 Hk1. destruct (Hm k1 r1 Hk1) as (Hkey & Hr1 & Hc1). split; [done|]. split; [by apply refers_insert|].
    apply map_Forall_insert_2; [|done]. intros Hcl. rewrite clash_sym in Hcl. specialize (Hc k1 r1 Hk1). cbn in Hc. congruence.
Qed.

(** The answer to a query that finds at most one row. *)
Lemma answers_one (q : select) bs (m : gmap string R) l (o : option R) :
  q.(sel_group) = None → q.(sel_items) ≠ [ICount] →
  values (map_to_list (matching q.(sel_table) bs m)) = option_list o →
  answers q bs (None, 0) m l →
  match o with Some r => ∃ v, mapM (project r) q.(sel_items) = Some v ∧ l = [v] | None => l = [] end.
Proof.
  intros Hg Hi Hf Ha. unfold answers in Ha. rewrite Hf, Hg in Ha.
  assert (∃ sorted, sorted ≡ₚ option_list o ∧ mapM (λ r, mapM (project r) q.(sel_items)) sorted = Some l) as (sorted & Hp & Hm).
  { destruct (sel_items q) as [|[c b| |z] [|[c' b'| |z'] [|]]]; try done; repeat case_match; try done;
      destruct Ha as (sorted & Hp & _ & Hl); by exists sorted. }
  destruct o as [r|]; cbn in Hp.
  - apply Permutation_singleton_r in Hp as ->. cbn in Hm. destruct (mapM (project r) _) as [v|]; [|done].
    injection Hm as <-. by exists v.
  - apply Permutation_nil_r in Hp as ->. by injection Hm as <-.
Qed.
Lemma found_one t bs (m : gmap string R) k :
  (∀ k' r, matching t bs m !! k' = Some r → k' = k) →
  values (map_to_list (matching t bs m)) = option_list (matching t bs m !! k).
Proof.
  intros Hu. destruct (matching t bs m !! k) as [r|] eqn:Hk.
  - rewrite (matching_one t bs m k r Hk Hu). by rewrite map_to_list_singleton.
  - rewrite matching_none; [by rewrite map_to_list_empty|]. intros k' r Hk'. pose proof (Hu k' r Hk'). congruence.
Qed.
End rows.

Lemma scan_word w s cur :
  (∀ x, In x (String.list_ascii_of_string w) → word_char x = true) →
  scan cur (w +:+ s) = scan (cur +:+ w) s.
Proof.
  revert cur; induction w as [|c w IH]; intros cur Hw; [by rewrite append_empty, append_nil_r|].
  rewrite append_cons. cbn [scan]. assert (word_char c = true) as Hc by (apply Hw; by left).
  unfold word_char in Hc. apply negb_true_iff, orb_false_iff in Hc as [-> ->].
  rewrite IH by (intros x Hx; apply Hw; by right). by rewrite append_assoc.
Qed.

Lemma scan_blank cur p c s : is_blank c = true → scan cur (p +:+ String c s) = scan cur p ++ scan "" s.
Proof.
  intros Hc. revert cur; induction p as [|d p IH]; intros cur.
  - rewrite append_empty. cbn [scan]. rewrite Hc. by destruct cur.
  - rewrite append_cons. cbn [scan]. destruct (is_blank d); [rewrite IH; by destruct cur|].
    destruct (is_punct d); [rewrite IH; by destruct cur|]. by rewrite IH.
Qed.
Lemma scan_punct cur p c s :
  is_punct c = true → scan cur (p +:+ String c s) = scan cur p ++ String c "" :: scan "" s.
Proof.
  intros Hc. assert (is_blank c = false) as Hb.
  { revert Hc. unfold is_punct, is_blank. generalize (byte_val c). intros v Hv.
    repeat (apply orb_true_iff in Hv as [Hv|Hv]); apply Z.eqb_eq in Hv as ->; reflexivity. }
  revert cur; induction p as [|d p IH]; intros cur.
  - rewrite append_empty. cbn [scan]. rewrite Hb, Hc. by destruct cur.
  - rewrite append_cons. cbn [scan]. destruct (is_blank d); [rewrite IH; by destruct cur|].
    destruct (is_punct d); [rewrite IH; by destruct cur|]. by rewrite IH.
Qed.
(** Text that ends in white space. *)
Fixpoint ends_blank (s : string) : bool :=
  match s with "" => false | String c "" => is_blank c | String _ s' => ends_blank s' end.
Lemma ends_blank_split p : ends_blank p = true → ∃ p' c, p = p' +:+ String c "" ∧ is_blank c = true.
Proof.
  induction p as [|c p IH]; [done|]. destruct p as [|d p].
  - intros Hc. by exists "", c.
  - intros Hp. destruct (IH Hp) as (p' & c' & Hp' & Hc'). exists (String c p'), c'. by rewrite Hp'.
Qed.
Lemma scan_ends_blank p s : ends_blank p = true → scan "" (p +:+ s) = words p ++ scan "" s.
Proof.
  intros (p' & c & -> & Hc)%ends_blank_split. rewrite append_assoc, append_cons, append_empty.
  unfold words. rewrite !scan_blank by done. cbn [scan flush]. by rewrite app_nil_r.
Qed.
Lemma words_one w :
  w ≠ "" → (∀ x, In x (String.list_ascii_of_string w) → word_char x = true) → words w = [w].
Proof.
  intros Hw Hc. unfold words. rewrite <-(append_nil_r w) at 1. rewrite scan_word by done.
  rewrite append_empty. cbn [scan]. by destruct w.
Qed.

(** A number is read back. *)
Lemma parse_digits_all s : ∀ acc, all_digits s = true → strconv.parse_digits acc s = Some (val_of acc s).
Proof.
  induction s as [|c s IH]; intros acc; [done|]. cbn [all_digits val_of strconv.parse_digits].
  intros [Hc Hs]%andb_true_iff. unfold strconv.digit_of. unfold is_digit in Hc. rewrite Hc. by apply IH.
Qed.
Lemma Itoa_nonempty n : 0 ≤ n → strconv.Itoa n ≠ "".
Proof.
  intros Hn He. pose proof (val_Itoa n Hn) as Hv. rewrite He in Hv. cbn in Hv. subst n. vm_compute in He. done.
Qed.
Lemma param_of_Itoa n suffix c :
  0 ≤ n → cast_of suffix = Some c → strings.before_byte suffix ":" = "" →
  param_of ("$" +:+ strconv.Itoa n +:+ suffix) = Some {| p_index := n; p_cast := c |}.
Proof.
  intros Hn Hc Hs. rewrite append_cons. cbn [param_of Ascii.eqb Bool.eqb]. rewrite append_empty.
  assert (∀ x, In x (String.list_ascii_of_string (strconv.Itoa n)) → x ≠ ":"%char) as Hcol.
  { intros x Hx ->. pose proof (all_digits_In _ _ (Itoa_digits n Hn) Hx) as Hd. vm_compute in Hd. done. }
  assert (∀ w, (∀ x, In x (String.list_ascii_of_string w) → x ≠ ":"%char) →
    strings.before_byte (w +:+ suffix) ":" = w) as Hbb.
  { induction w as [|x w IH]; intros Hw; [done|]. rewrite append_cons. cbn [strings.before_byte].
    destruct (Ascii.eqb_spec ":" x) as [<-|_]; [exfalso; apply (Hw ":"%char); [by left|done]|].
    by rewrite IH by (intros y Hy; apply Hw; by right). }
  rewrite (Hbb _ Hcol).
  assert (∀ w, strings.drop_bytes (String.length w) (w +:+ suffix) = suffix) as ->.
  { induction w as [|x w IH]; [by destruct suffix|]. by rewrite append_cons. }
  rewrite Hc. unfold strconv.parse_nonempty. pose proof (Itoa_nonempty n Hn) as Hne.
  pose proof (val_Itoa n Hn) as Hv. pose proof (parse_digits_all _ 0 (Itoa_digits n Hn)) as Hp.
  destruct (strconv.Itoa n); [done|]. by rewrite Hp, Hv.
Qed.

(** ** The rows of one kind, whose keys begin with a tag *)
Definition part {R A} (tag : ascii) (f : R → option A) (m : gmap string R) : gmap string A :=
  list_to_map (omap (λ ka, match ka.1 with
                           | String c k => if Ascii.eqb c tag then a ← f ka.2; Some (k, a) else None
                           | "" => None
                           end) (map_to_list m)).
Lemma lookup_part {R A} tag (f : R → option A) m k : part tag f m !! k = m !! String tag k ≫= f.
Proof.
  apply option_eq. intros x. unfold part.
  assert (∀ y, (k, y) ∈ omap (λ ka : string * R, match ka.1 with
      | String c k => if Ascii.eqb c tag then a ← f ka.2; Some (k, a) else None | "" => None end) (map_to_list m) ↔
    m !! String tag k ≫= f = Some y) as Hel.
  { intros y. rewrite list_elem_of_omap. split.
    - intros ([[|c k'] a] & Ha & Hy); [done|]. cbn [fst snd] in Hy. apply elem_of_map_to_list in Ha.
      destruct (Ascii.eqb_spec c tag) as [->|]; [|done]. apply bind_Some in Hy as (z & Hz & [= <- <-]). by rewrite Ha.
    - intros (a & Ha & Hy)%bind_Some. exists (String tag k, a). split; [by apply elem_of_map_to_list|].
      cbn [fst snd]. by rewrite Ascii.eqb_refl, Hy. }
  rewrite <-Hel. symmetry. apply elem_of_list_to_map'. intros y Hy. apply Hel in Hy. intros Hx%Hel. congruence.
Qed.
(** ** Parsing what was put together *)
Definition reads {A} (p : parser A) (ts : list string) (x : A) : Prop := ∀ rest, p (ts ++ rest) = Some (x, rest).

Fixpoint intersperse {A} (sep : A) (ls : list (list A)) : list A :=
  match ls with [] => [] | [l] => l | l :: ls' => l ++ sep :: intersperse sep ls' end.

Lemma separated_reads {A} sep (p : parser A) ls xs rest fuel :
  Forall2 (reads p) ls xs → ls ≠ [] → head rest ≠ Some sep → (length ls ≤ fuel)%nat →
  separated fuel sep p (intersperse sep ls ++ rest) = Some (xs, rest).
Proof.
  intros Hr Hne Hrest. revert fuel. induction Hr as [|l x ls xs Hl Hr IH]; [done|]. clear Hne.
  intros [|fuel] Hf; simpl in Hf; [lia|]. cbn [separated]. unfold pbind at 1.
  destruct ls as [|l' ls].
  - inversion Hr; subst. cbn [intersperse]. rewrite Hl. unfold keyword. destruct rest as [|w rest]; [done|].
    destruct (String.eqb_spec sep w) as [->|]; [done|]. done.
  - change (intersperse sep (l :: l' :: ls)) with (l ++ sep :: intersperse sep (l' :: ls)).
    rewrite <-app_assoc, Hl. unfold keyword. rewrite <-app_comm_cons, String.eqb_refl.
    unfold pbind. rewrite IH; [done|done|lia].
Qed.
Lemma length_intersperse {A} (sep : A) ls : (∀ l, l ∈ ls → l ≠ []) → (length ls ≤ length (intersperse sep ls))%nat.
Proof.
  induction ls as [|l ls IH]; intros Hne; [done|].
  assert (l ≠ []) as Hl by (apply Hne; left). destruct l as [|x l]; [done|].
  destruct ls as [|l' ls]; [simpl; lia|].
  change (intersperse sep ((x :: l) :: l' :: ls)) with ((x :: l) ++ sep :: intersperse sep (l' :: ls)).
  rewrite length_app. simpl length at 1. cbn [length]. specialize (IH ltac:(intros k Hk; apply Hne; by right)).
  cbn [length] in IH. lia.
Qed.

Lemma driver_error_Is e s : driver_error e → s ∈ own_sentinels → Is e s = false.
Proof. intros [Hs _]. apply Hs. Qed.
