(* ===== verification/Postgres.v ===== *)
(** What the three PostgreSQL repositories have in common: the limit on a call,
    the text around a database error, and the loop over the rows of an answer. *)

From S2P Require Import Prelude GoStd GoError Sql Breaker.
Local Open Scope Z_scope.

Record postgresRepository := { callTimeout : Z }.
Definition NewPostgresRepository (callTimeout : Z) : postgresRepository :=
  {| callTimeout := callTimeout |}.

(** [r.withTimeout]: the limit its context gets. *)
Definition withTimeout (r : postgresRepository) : deadline :=
  if r.(callTimeout) <=? 0 then None else Some r.(callTimeout).

(** [fmt.Errorf("msg: %w", wrapDBError(err))]; the classification can panic. *)
Definition db_failed (p : pkg) (msg : string) (err : error) : error :=
  match wrapDBError p err with
  | Some err => wrap msg err
  | None => Panic "slice bounds out of range"
  end.

(** [for rows.Next() { ... rows.Scan ...; out = append(out, f(row)) }]: the first row
    that cannot be scanned ends it. *)
Fixpoint scanRows {A B} (f : A → B) (rows : list (result A)) (out : list B) : result (list B) :=
  match rows with
  | [] => Ok out
  | Err err :: _ => Err err
  | Ok row :: rows' => scanRows f rows' (out ++ [f row])
  end.
(** The same that sets [counts[key] = count]. *)
Fixpoint scanCounts (rows : list (result (string * (Z * unit)))) (counts : gmap string Z)
    : result (gmap string Z) :=
  match rows with
  | [] => Ok counts
  | Err err :: _ => Err err
  | Ok (key, (count, _)) :: rows' => scanCounts rows' (<[key := count]> counts)
  end.

(** The errors that come back are never answers about an entity. *)
Lemma db_failed_Is p msg err s :
  driver_error err → s ∈ own_sentinels → s ≠ ErrDependencyUnavailable p →
  Is (db_failed p msg err) s = false.
Proof.
  intros Hd Hs Hp. pose proof (driver_error_Is err s Hd Hs) as He. unfold db_failed, wrapDBError.
  destruct (IsInfrastructureFailure err) as [[|]|]; simpl; [|done|done].
  rewrite He, orb_false_r. by apply bool_decide_eq_false_2.
Qed.

Lemma not_no_rows err : driver_error err → Is err sql_ErrNoRows = false.
Proof. by intros (_ & ? & _). Qed.

Lemma scanRows_ok {A B} (f : A → B) rows out l :
  scanRows f rows out = Ok l → ∃ xs, rows = map Ok xs ∧ l = out ++ map f xs.
Proof.
  revert out; induction rows as [|[x|e] rows IH]; intros out; simpl; [|intros Hl|done].
  - intros [= <-]. exists []. by rewrite app_nil_r.
  - destruct (IH _ Hl) as (xs & -> & ->). exists (x :: xs). by rewrite <-app_assoc.
Qed.
Lemma scanCounts_ok rows counts m :
  scanCounts rows counts = Ok m →
  ∃ xs, rows = map Ok xs ∧ m = fold_left (λ m '(k, (n, _)), <[k := n]> m) xs counts.
Proof.
  revert counts; induction rows as [|[[k [n u]]|e] rows IH]; intros counts; simpl; [|intros Hl|done].
  - intros [= <-]. by exists [].
  - destruct (IH _ Hl) as (xs & -> & ->). by exists ((k, (n, u)) :: xs).
Qed.
Lemma scan_failed {A B} (f : A → B) rows out e :
  scanRows f rows out = Err e → Err e ∈ rows.
Proof.
  revert out; induction rows as [|[x|e'] rows IH]; intros out; simpl; [done| |].
  - intros Hl. right. by eapply IH.
  - intros [= ->]. left.
Qed.
Lemma scanCounts_failed rows counts e : scanCounts rows counts = Err e → Err e ∈ rows.
Proof.
  revert counts; induction rows as [|[[k [n u]]|e'] rows IH]; intros counts; simpl; [done| |].
  - intros Hl. right. by eapply IH.
  - intros [= ->]. left.
Qed.
