(* ===== verification/TaskPostgres.v ===== *)
(** [internal/task/postgres_repository.go]: the PostgreSQL repository of tasks, as
    programs over the calls of [database/sql]. *)

From S2P Require Import Prelude GoStd GoError Sql Breaker Postgres Task TaskMemory.
Local Open Scope Z_scope.

(** The variables that [scanTask] scans a row into, and the task it returns. *)
Definition task_dests : list dest :=
  [DString; DString; DString; DString; DString; DString; DTime; DTime; DInt].
Definition scanTask (row : tuple task_dests) : Task :=
  let '(id, (user_id, (title, (description, (status, (priority, (created_at, (updated_at, (version, _)))))))))
    := row in
  {| task_ID := id; task_UserID := user_id; task_Title := title; task_Description := description;
     task_Status := status; task_Priority := priority; task_CreatedAt := created_at;
     task_UpdatedAt := updated_at; task_Version := version |}.

(** The WHERE clause that [FindAll], [CountAll] and [CountByStatusAndPriority]
    share, with its arguments; [appendInClause] extends both. *)
Fixpoint placeholderLoop (values : list string) (args : list arg) (placeholders : list string)
    : list arg * list string :=
  match values with
  | [] => (args, placeholders)
  | v :: values' =>
      let args := args ++ [ArgString v] in
      placeholderLoop values' args (placeholders ++ ["$" +:+ strconv.Itoa (Z.of_nat (length args))])
  end.
Definition appendInClause (column : string) (values : list string) (st : string * list arg)
    : string * list arg :=
  let '(whereClause, args) := st in
  match values with
  | [] => (whereClause, args)
  | _ =>
      let '(args, placeholders) := placeholderLoop values args [] in
      (whereClause +:+ " AND " +:+ column +:+ " IN (" +:+ strings.Join placeholders ", " +:+ ")", args)
  end.
Definition buildTaskFilterWhere (userID : string) (statuses : list Status) (priorities : list Priority)
    : string * list arg :=
  appendInClause "priority" priorities
    (appendInClause "status" statuses ("WHERE user_id = $1::uuid", [ArgString userID])).

Section repository.
Context (r : postgresRepository).
Local Open Scope prog_scope.
Abbreviation ctx := (withTimeout r).
Abbreviation failed := (db_failed task_pkg).

Definition pCreate (task : Task) : prog dbE (option error) :=
  let query := "
		INSERT INTO tasks (id, user_id, title, description, status, priority, created_at, updated_at, version)
		VALUES ($1::uuid, $2::uuid, $3, $4, $5, $6, $7, $8, 1)
	" in
  res ← trigger (ExecContext ctx None query
    [ArgString task.(task_ID); ArgString task.(task_UserID); ArgString task.(task_Title);
     ArgString task.(task_Description); ArgString task.(task_Status); ArgString task.(task_Priority);
     ArgTime task.(task_CreatedAt); ArgTime task.(task_UpdatedAt)]);
  match res with
  | Err err =>
      mret (Some (if isUniqueViolation err then Sentinel (ErrAlreadyExists task_pkg)
                  else failed "postgres: create task" err))
  | Ok _ => mret None
  end.

Definition pFindByID (id userID : string) : prog dbE (result Task) :=
  let query := "
		SELECT id::text, user_id::text, title, description, status, priority, created_at, updated_at, version
		FROM tasks
		WHERE id = $1::uuid AND user_id = $2::uuid
	" in
  row ← trigger (QueryRow ctx None query [ArgString id; ArgString userID] task_dests);
  match row with
  | Err err =>
      mret (Err (if Is err sql_ErrNoRows then Sentinel (ErrNotFound task_pkg)
                 else failed "postgres: find task by id" err))
  | Ok row => mret (Ok (scanTask row))
  end.

Definition pFindAll (userID : string) (limit offset : Z) (statuses : list Status)
    (priorities : list Priority) : prog dbE (result (list Task)) :=
  let '(whereClause, args) := buildTaskFilterWhere userID statuses priorities in
  let query := "
		SELECT id::text, user_id::text, title, description, status, priority, created_at, updated_at, version
		FROM tasks
	" +:+ whereClause in
  let limitArg := if 0 <=? limit then ArgInt limit else ArgNil in
  let args := args ++ [limitArg; ArgInt offset] in
  let query := query +:+ " ORDER BY created_at, id LIMIT $" +:+ strconv.Itoa (Z.of_nat (length args) - 1)
    +:+ "::bigint OFFSET $" +:+ strconv.Itoa (Z.of_nat (length args)) +:+ "::bigint" in
  res ← trigger (Query ctx query args task_dests);
  match res with
  | Err err => mret (Err (failed "postgres: find all tasks" err))
  | Ok (rows, rowsErr) =>
      match scanRows scanTask rows [] with
      | Err err => mret (Err (failed "postgres: scan task row" err))
      | Ok tasks =>
          match rowsErr with
          | Some err => mret (Err (failed "postgres: find all tasks" err))
          | None => mret (Ok tasks)
          end
      end
  end.

Definition pCountAll (userID : string) (statuses : list Status) (priorities : list Priority)
    : prog dbE (result Z) :=
  let '(whereClause, args) := buildTaskFilterWhere userID statuses priorities in
  let query := "SELECT COUNT(*) FROM tasks " +:+ whereClause in
  row ← trigger (QueryRow ctx None query args [DInt]);
  match row with
  | Err err => mret (Err (failed "postgres: count tasks" err))
  | Ok (count, _) => mret (Ok count)
  end.

Definition pCountByStatusAndPriority (userID : string) (statuses : list Status)
    (priorities : list Priority) : prog dbE (result (gmap string Z * gmap string Z)) :=
  let '(whereClause, args) := buildTaskFilterWhere userID statuses priorities in
  statusRows ← trigger (Query ctx
    ("SELECT status, COUNT(*) FROM tasks " +:+ whereClause +:+ " GROUP BY status") args [DString; DInt]);
  match statusRows with
  | Err err => mret (Err (failed "postgres: count tasks by status" err))
  | Ok (rows, statusErr) =>
      match scanCounts rows zeroByStatus, statusErr with
      | Err err, _ => mret (Err (failed "postgres: count tasks by status: scan" err))
      | _, Some err => mret (Err (failed "postgres: count tasks by status" err))
      | Ok byStatus, None =>
          priorityRows ← trigger (Query ctx
            ("SELECT priority, COUNT(*) FROM tasks " +:+ whereClause +:+ " GROUP BY priority") args
            [DString; DInt]);
          match priorityRows with
          | Err err => mret (Err (failed "postgres: count tasks by priority" err))
          | Ok (rows, priorityErr) =>
              match scanCounts rows zeroByPriority, priorityErr with
              | Err err, _ => mret (Err (failed "postgres: count tasks by priority: scan" err))
              | _, Some err => mret (Err (failed "postgres: count tasks by priority" err))
              | Ok byPriority, None => mret (Ok (byStatus, byPriority))
              end
          end
      end
  end.

(** The body of [Update] inside its transaction; the deferred rollback is around it. *)
Definition update_in (tx : Z) (task : Task) : prog dbE (option error) :=
  current ← trigger (QueryRow ctx (Some tx)
    "SELECT version FROM tasks WHERE id = $1::uuid AND user_id = $2::uuid FOR UPDATE"
    [ArgString task.(task_ID); ArgString task.(task_UserID)] [DInt]);
  match current with
  | Err err =>
      mret (Some (if Is err sql_ErrNoRows then Sentinel (ErrNotFound task_pkg)
                  else failed "postgres: update task: read current version" err))
  | Ok (currentVersion, _) =>
      if negb (currentVersion =? task.(task_Version)) then mret (Some (Sentinel ErrConflict))
      else
        let query := "
		UPDATE tasks
		SET title = $1, description = $2, status = $3, priority = $4, updated_at = $5, version = version + 1
		WHERE id = $6::uuid AND user_id = $7::uuid
	" in
        res ← trigger (ExecContext ctx (Some tx) query
          [ArgString task.(task_Title); ArgString task.(task_Description);
           ArgString task.(task_Status); ArgString task.(task_Priority);
           ArgTime task.(task_UpdatedAt); ArgString task.(task_ID); ArgString task.(task_UserID)]);
        match res with
        | Err err => mret (Some (failed "postgres: update task" err))
        | Ok _ =>
            err ← trigger (Commit tx);
            mret match err with
                 | Some err => Some (failed "postgres: update task: commit transaction" err)
                 | None => None
                 end
        end
  end.
Definition pUpdate (task : Task) : prog dbE (option error) :=
  tx ← trigger (BeginTx ctx);
  match tx with
  | Err err => mret (Some (failed "postgres: update task: begin transaction" err))
  | Ok tx => res ← update_in tx task; _ ← trigger (Rollback tx); mret res
  end.

Definition pDelete (id userID : string) : prog dbE (option error) :=
  result ← trigger (ExecContext ctx None "DELETE FROM tasks WHERE id = $1::uuid AND user_id = $2::uuid"
    [ArgString id; ArgString userID]);
  match result with
  | Err err | Ok (Err err) => mret (Some (failed "postgres: delete task" err))
  | Ok (Ok affected) =>
      mret (if affected =? 0 then Some (Sentinel (ErrNotFound task_pkg)) else None)
  end.

(** The repository as an implementation of the interface's calls. *)
Definition task_postgres X (e : repoE X) : prog dbE X :=
  match e in repoE X return prog dbE X with
  | Create t => pCreate t
  | FindByID id u => pFindByID id u
  | FindAll u limit offset st pr => pFindAll u limit offset st pr
  | Update t => pUpdate t
  | Delete id u => pDelete id u
  | CountAll u st pr => pCountAll u st pr
  | CountByStatusAndPriority u st pr => pCountByStatusAndPriority u st pr
  end.
End repository.
