(* ===== verification/TaskPostgresSpec.v ===== *)
(** The PostgreSQL repository of tasks over a database that behaves as documented:
    the table as [Task] records, what its queries mean, and what each method does. *)

From S2P Require Import Prelude GoStd GoError Uuid Text Sql Breaker Postgres Task TaskMemory TaskSpec TaskPostgres.
Local Open Scope Z_scope.

(** * The table *)
Definition task_cols (t : Task) : list (string * value) :=
  [("id", VUuid t.(task_ID)); ("user_id", VUuid t.(task_UserID)); ("title", VText t.(task_Title));
   ("description", VText t.(task_Description)); ("status", VText t.(task_Status));
   ("priority", VText t.(task_Priority)); ("created_at", VTime t.(task_CreatedAt));
   ("updated_at", VTime t.(task_UpdatedAt)); ("version", VInt t.(task_Version))].
Definition task_of_cols (cols : list (string * value)) : option Task :=
  i ← uuid_col "id" cols; u ← uuid_col "user_id" cols; t ← text_col "title" cols;
  d ← text_col "description" cols; s ← text_col "status" cols; p ← text_col "priority" cols;
  c ← time_col "created_at" cols; m ← time_col "updated_at" cols; v ← int_col "version" cols;
  Some {| task_ID := i; task_UserID := u; task_Title := t; task_Description := d; task_Status := s;
          task_Priority := p; task_CreatedAt := c; task_UpdatedAt := m; task_Version := v |}.

(** The columns of the migrations, [VARCHAR(n)] counting characters. *)
#[export] Instance task_relation : Relation Task := {|
  rel_tables := ["tasks"];
  rel_table _ := "tasks";
  rel_key := task_ID;
  rel_get t c := cv ← List.find (λ cv, String.eqb cv.1 c) (task_cols t); Some cv.2;
  rel_make _ := task_of_cols;
  rel_set c v t := task_of_cols ((c, v) :: task_cols t);
  rel_unique _ := [];
  rel_parent _ := None;
  rel_fits t := utf8.RuneCountInString t.(task_Title) ≤ 200 ∧
    utf8.RuneCountInString t.(task_Description) ≤ 2000 ∧
    utf8.RuneCountInString t.(task_Status) ≤ 20 ∧ utf8.RuneCountInString t.(task_Priority) ≤ 10;
|}.

(** What a call looks like once PostgreSQL has stored its values: identifiers in
    lower case and times in whole microseconds. *)
Definition stored_task (t : Task) : Task :=
  {| task_ID := lower_hex t.(task_ID); task_UserID := lower_hex t.(task_UserID);
     task_Title := t.(task_Title); task_Description := t.(task_Description);
     task_Status := t.(task_Status); task_Priority := t.(task_Priority);
     task_CreatedAt := micros t.(task_CreatedAt); task_UpdatedAt := micros t.(task_UpdatedAt);
     task_Version := t.(task_Version) |}.
Definition stored_call {X} (e : repoE X) : repoE X :=
  match e with
  | Create t => Create (stored_task t)
  | FindByID id u => FindByID (lower_hex id) (lower_hex u)
  | FindAll u limit offset st pr => FindAll (lower_hex u) limit offset st pr
  | Update t => Update (stored_task t)
  | Delete id u => Delete (lower_hex id) (lower_hex u)
  | CountAll u st pr => CountAll (lower_hex u) st pr
  | CountByStatusAndPriority u st pr => CountByStatusAndPriority (lower_hex u) st pr
  end.
(** The calls [Service] makes: identifiers that are UUIDs, texts within the limits
    it enforces, and a window that starts in the listing. *)
Definition task_call {X} (e : repoE X) : Prop :=
  match e with
  | Create t | Update t => isValidID t.(task_ID) = true ∧ isValidID t.(task_UserID) = true ∧ rel_fits t
  | FindByID id u | Delete id u => isValidID id = true ∧ isValidID u = true
  | FindAll u _ offset _ _ => isValidID u = true ∧ 0 ≤ offset
  | CountAll u _ _ | CountByStatusAndPriority u _ _ => isValidID u = true
  end.

(** * The filter *)
Definition filter_params (from : Z) (n : nat) : list param :=
  map (λ i : nat, {| p_index := from + Z.of_nat i; p_cast := Plain |}) (seq 0 n).
Definition in_cond (column : string) (from : Z) (n : nat) : list cond :=
  match n with O => [] | _ => [CIn column (filter_params from n)] end.
(** The conditions that the clause of a filter reads as, by the number of its values. *)
Definition filter_conds (n k : nat) : list cond :=
  CCompare "user_id" OpEq {| p_index := 1; p_cast := AsUuid |} ::
  in_cond "status" 2 n ++ in_cond "priority" (2 + Z.of_nat n) k.

Definition placeholders (from : Z) (n : nat) : list string :=
  map (λ i : nat, "$" +:+ strconv.Itoa (from + Z.of_nat i)) (seq 0 n).
Definition in_words (column : string) (from : Z) (n : nat) : list string :=
  match n with
  | O => []
  | _ => ["AND"; column; "IN"; "("] ++ intersperse "," (map (λ w, [w]) (placeholders from n)) ++ [")"]
  end.
Definition in_text (column : string) (from : Z) (n : nat) : string :=
  match n with
  | O => ""
  | _ => " AND " +:+ column +:+ " IN (" +:+ strings.Join (placeholders from n) ", " +:+ ")"
  end.

Lemma placeholders_S from n :
  placeholders from (Datatypes.S n) = ("$" +:+ strconv.Itoa from) :: placeholders (from + 1) n.
Proof.
  unfold placeholders. cbn [seq map]. f_equal; [by rewrite Z.add_0_r|].
  rewrite <-seq_shift, map_map. apply map_ext. intros i. f_equal. f_equal. lia.
Qed.

Lemma placeholderLoop_spec values args ps :
  placeholderLoop values args ps =
  (args ++ map ArgString values, ps ++ placeholders (Z.of_nat (length args) + 1) (length values)).
Proof.
  revert args ps; induction values as [|v values IH]; intros args ps.
  { cbn. by rewrite !app_nil_r. }
  cbn [placeholderLoop map length]. rewrite IH, placeholders_S, length_app. cbn [length].
  rewrite <-!app_assoc. cbn [app].
  replace (Z.of_nat (length args + 1)) with (Z.of_nat (length args) + 1) by lia. done.
Qed.

Lemma appendInClause_spec column values w args :
  appendInClause column values (w, args) =
  (w +:+ in_text column (Z.of_nat (length args) + 1) (length values), args ++ map ArgString values).
Proof.
  unfold appendInClause. destruct values as [|v values]; [by rewrite append_nil_r, app_nil_r|].
  by rewrite placeholderLoop_spec.
Qed.

Definition filter_args (u : string) (st pr : list string) : list arg :=
  ArgString u :: map ArgString st ++ map ArgString pr.
Definition filter_text (n k : nat) : string :=
  "WHERE user_id = $1::uuid" +:+ in_text "status" 2 n +:+ in_text "priority" (2 + Z.of_nat n) k.

(** The text depends on the number of values only; the values are arguments. *)
Lemma buildTaskFilterWhere_spec u st pr :
  buildTaskFilterWhere u st pr = (filter_text (length st) (length pr), filter_args u st pr).
Proof.
  unfold buildTaskFilterWhere. rewrite !appendInClause_spec. unfold filter_text, filter_args.
  rewrite length_app, length_map, append_assoc. cbn [length app].
  change (Z.of_nat 1 + 1) with 2.
  match goal with |- context [Z.of_nat (1 + ?l) + 1] => replace (Z.of_nat (1 + l) + 1) with (2 + Z.of_nat l) by lia end.
  reflexivity.
Qed.

(** ** Its words *)
Lemma placeholder_chars n x :
  0 ≤ n → In x (String.list_ascii_of_string ("$" +:+ strconv.Itoa n)) → word_char x = true.
Proof.
  intros Hn. rewrite append_cons, append_empty. intros [<-|Hx]; [reflexivity|].
  pose proof (all_digits_In _ _ (Itoa_digits n Hn) Hx) as Hd. unfold is_digit in Hd.
  apply andb_true_iff in Hd as [H1 H2]. apply Z.leb_le in H1, H2.
  unfold word_char, is_blank, is_punct. rewrite negb_true_iff, !orb_false_iff, andb_false_iff.
  rewrite !Z.eqb_neq, !Z.leb_gt. lia.
Qed.

Lemma join_words ps rest :
  Forall (λ p, p ≠ "" ∧ ∀ x, In x (String.list_ascii_of_string p) → word_char x = true) ps → ps ≠ [] →
  scan "" (strings.Join ps ", " +:+ String ")" rest) =
  intersperse "," (map (λ w, [w]) ps) ++ ")" :: scan "" rest.
Proof.
  induction 1 as [|p ps [Hne Hp] Hps IH]; [done|]. intros _. destruct ps as [|q ps].
  - cbn [strings.Join map intersperse app]. rewrite scan_word by done. rewrite append_empty.
    cbn [scan]. change (is_blank ")") with false. change (is_punct ")") with true. cbn iota. by destruct p.
  - change (strings.Join (p :: q :: ps) ", ") with (p +:+ ", " +:+ strings.Join (q :: ps) ", ").
    rewrite !append_assoc, scan_word by done. rewrite append_empty, append_cons. cbn [scan].
    change (is_blank ",") with false. change (is_punct ",") with true. cbn iota.
    rewrite append_cons. cbn [scan]. change (is_blank " ") with true. cbn iota. rewrite append_empty, IH by done.
    cbn [map intersperse app flush]. by destruct p.
Qed.
Lemma placeholders_words from n :
  0 ≤ from →
  Forall (λ p, p ≠ "" ∧ ∀ x, In x (String.list_ascii_of_string p) → word_char x = true) (placeholders from n).
Proof.
  intros Hf. apply Forall_forall. intros p (i & -> & Hi)%list_elem_of_fmap. split; [done|].
  intros x. apply placeholder_chars. lia.
Qed.

(** A clause that follows ends the word before it. *)
Definition starts_blank (s : string) : Prop := s = "" ∨ ∃ s', s = String " " s'.
Lemma scan_starts_blank p s cur : starts_blank s → scan cur (p +:+ s) = scan cur p ++ words s.
Proof.
  intros [-> |[s' ->]]; [by rewrite append_nil_r, app_nil_r|]. by rewrite scan_blank.
Qed.
Lemma in_text_words column from n s :
  0 ≤ from → column ≠ "" → (∀ x, In x (String.list_ascii_of_string column) → word_char x = true) →
  starts_blank s → words (in_text column from n +:+ s) = in_words column from n ++ words s.
Proof.
  intros Hf Hne Hc Hs. unfold in_text, in_words. destruct n as [|n]; [done|].
  rewrite !append_assoc. change (" AND " +:+ ?x) with ((" AND" : string) +:+ String " " x).
  unfold words. rewrite scan_blank by done. rewrite scan_word by done. rewrite append_empty.
  change (scan "" " AND") with ["AND"].
  change (" IN (" +:+ ?x) with ((" IN " : string) +:+ String "(" x).
  change (" IN " +:+ String "(" ?x) with (String " " (("IN " : string) +:+ String "(" x)).
  cbn [scan]. change (is_blank " ") with true. cbn iota.
  rewrite scan_punct by done. change (scan "" "IN ") with ["IN"].
  change (")" +:+ s) with (String ")" s).
  rewrite join_words; [|by apply placeholders_words|by rewrite placeholders_S].
  cbn [app]. rewrite <-app_assoc. by destruct column.
Qed.
Lemma in_text_blank column from n s : starts_blank s → starts_blank (in_text column from n +:+ s).
Proof. intros Hs. destruct n as [|n]; [done|]. right. by eexists. Qed.

Definition filter_words (n k : nat) : list string :=
  ["WHERE"; "user_id"; "="; "$1::uuid"] ++ in_words "status" 2 n ++ in_words "priority" (2 + Z.of_nat n) k.
Lemma filter_text_words prefix n k s :
  ends_blank prefix = true → starts_blank s →
  words (prefix +:+ filter_text n k +:+ s) = words prefix ++ filter_words n k ++ words s.
Proof.
  intros Hc Hs. unfold words at 1. rewrite scan_ends_blank by done. f_equal. unfold filter_text.
  rewrite !append_assoc, scan_starts_blank by (by apply in_text_blank, in_text_blank).
  rewrite in_text_words; [|lia|done| |by apply in_text_blank].
  2:{ cbn. intros x Hx. by repeat destruct Hx as [<-|Hx]. }
  rewrite in_text_words; [|lia|done| |done].
  2:{ cbn. intros x Hx. by repeat destruct Hx as [<-|Hx]. }
  unfold filter_words. by rewrite <-!app_assoc.
Qed.

(** ** It is read as the conditions *)
Lemma param_of_placeholder n : 0 ≤ n → param_of ("$" +:+ strconv.Itoa n) = Some {| p_index := n; p_cast := Plain |}.
Proof. intros Hn. by rewrite <-(append_nil_r (strconv.Itoa n)), (param_of_Itoa n "" Plain). Qed.

Lemma reads_placeholders from n :
  0 ≤ from → Forall2 (reads pparam) (map (λ w, [w]) (placeholders from n)) (filter_params from n).
Proof.
  intros Hf. unfold placeholders, filter_params. rewrite map_map. apply Forall2_fmap, Forall_Forall2_diag, Forall_forall.
  intros i _ rest. cbn [app]. unfold pparam, pbind, word, lift. by rewrite param_of_placeholder by lia.
Qed.

Definition in_cond_words (column : string) (from : Z) (n : nat) : list (list string) :=
  match n with
  | O => []
  | _ => [[column; "IN"; "("] ++ intersperse "," (map (λ w, [w]) (placeholders from n)) ++ [")"]]
  end.
Lemma reads_in_cond column from n :
  0 ≤ from → Forall2 (reads pcond) (in_cond_words column from n) (in_cond column from n).
Proof.
  intros Hf. destruct n as [|n]; [constructor|]. constructor; [|constructor].
  intros rest. rewrite <-!app_assoc. unfold pcond. unfold pbind at 1, word at 1. cbn [app].
  unfold pbind at 1, word at 1. change (String.eqb "IN" "IN") with true. cbn iota.
  unfold pbind at 1, keyword at 1. change (String.eqb "(" "(") with true. cbn iota.
  unfold pbind at 1, commas. rewrite (separated_reads "," pparam _ (filter_params from (Datatypes.S n))); try done.
  - by apply reads_placeholders.
  - rewrite length_app. etrans; [|apply Nat.le_add_r]. apply length_intersperse.
    intros l (w & -> & _)%list_elem_of_fmap. done.
Qed.

Lemma filter_words_split n k :
  filter_words n k = "WHERE" :: intersperse "AND"
    (["user_id"; "="; "$1::uuid"] :: in_cond_words "status" 2 n ++ in_cond_words "priority" (2 + Z.of_nat n) k).
Proof.
  unfold filter_words, in_words, in_cond_words. destruct n as [|n], k as [|k]; cbn [app intersperse]; try done.
  by rewrite app_nil_r.
Qed.

Lemma pwhere_filter n k rest :
  head rest ≠ Some "AND" → pwhere (filter_words n k ++ rest) = Some (filter_conds n k, rest).
Proof.
  intros Hrest. rewrite filter_words_split. unfold pwhere, clause. rewrite <-app_comm_cons.
  unfold keyword at 1. change (String.eqb "WHERE" "WHERE") with true. cbn iota. unfold ands.
  apply separated_reads; [|done|done|].
  - unfold filter_conds. constructor; [by intros ?|].
    apply Forall2_app; apply reads_in_cond; lia.
  - rewrite length_app. etrans; [|apply Nat.le_add_r]. apply length_intersperse.
    intros l. rewrite elem_of_cons, elem_of_app. unfold in_cond_words.
    intros [->|[Hl|Hl]]; [done|destruct n|destruct k]; apply list_elem_of_singleton in Hl || set_solver; by subst.
Qed.

(** A query around the filter, up to what follows it. *)
Lemma parse_filtered prefix n k s items :
  ends_blank prefix = true → starts_blank s → head (words s) ≠ Some "AND" →
  (∀ rest, pstmt (words prefix ++ rest) = pbind pwhere (ptail items "tasks") rest) →
  parse (prefix +:+ filter_text n k +:+ s) =
  match ptail items "tasks" (filter_conds n k) (words s) with Some (st, []) => Some st | _ => None end.
Proof.
  intros Hc Hs Hand Hp. unfold parse. rewrite filter_text_words, Hp by done.
  unfold pbind. by rewrite pwhere_filter.
Qed.

(** ** The three queries *)
Definition task_items : list item :=
  [IColumn "id" true; IColumn "user_id" true; IColumn "title" false; IColumn "description" false;
   IColumn "status" false; IColumn "priority" false; IColumn "created_at" false;
   IColumn "updated_at" false; IColumn "version" false].
Definition filtered (items : list item) (n k : nat) (group : option string) (order : list order_item)
    (window : option (param * option param)) : select :=
  {| sel_items := items; sel_table := "tasks"; sel_where := filter_conds n k; sel_group := group;
     sel_order := order; sel_window := window; sel_update := false |}.

Lemma parse_count n k :
  parse ("SELECT COUNT(*) FROM tasks " +:+ filter_text n k) = Some (SSelect (filtered [ICount] n k None [] None)).
Proof.
  rewrite <-(append_nil_r (filter_text n k)). rewrite (parse_filtered _ n k "" [ICount]); try done.
  by left.
Qed.
Lemma parse_group column n k :
  column = "status" ∨ column = "priority" →
  parse (("SELECT " +:+ column +:+ ", COUNT(*) FROM tasks ") +:+ filter_text n k +:+ (" GROUP BY " +:+ column)) =
  Some (SSelect (filtered [IColumn column false; ICount] n k (Some column) [] None)).
Proof.
  intros Hc. rewrite (parse_filtered _ n k _ [IColumn column false; ICount]);
    [by destruct Hc as [-> | ->]..|right; by eexists|by destruct Hc as [-> | ->]|by destruct Hc as [-> | ->]].
Qed.
Definition find_text : string := "
		SELECT id::text, user_id::text, title, description, status, priority, created_at, updated_at, version
		FROM tasks
	".
Lemma parse_find n k a b :
  0 ≤ a → 0 ≤ b →
  parse (find_text +:+ filter_text n k +:+ (" ORDER BY created_at, id LIMIT $" +:+ strconv.Itoa a +:+
    "::bigint OFFSET $" +:+ strconv.Itoa b +:+ "::bigint")) =
  Some (SSelect (filtered task_items n k None [Asc "created_at"; Asc "id"]
    (Some ({| p_index := a; p_cast := AsBigint |}, Some {| p_index := b; p_cast := AsBigint |})))).
Proof.
  intros Ha Hb.
  assert (words (" ORDER BY created_at, id LIMIT $" +:+ strconv.Itoa a +:+
    "::bigint OFFSET $" +:+ strconv.Itoa b +:+ "::bigint") =
    ["ORDER"; "BY"; "created_at"; ","; "id"; "LIMIT"; "$" +:+ strconv.Itoa a +:+ "::bigint"; "OFFSET";
     "$" +:+ strconv.Itoa b +:+ "::bigint"]) as Hw.
  { change (" ORDER BY created_at, id LIMIT $" +:+ ?x) with ((" ORDER BY created_at, id LIMIT " : string) +:+ "$" +:+ x).
    unfold words. rewrite scan_ends_blank by done.
    replace ("$" +:+ strconv.Itoa a +:+ "::bigint OFFSET $" +:+ strconv.Itoa b +:+ "::bigint")
      with (("$" +:+ strconv.Itoa a +:+ "::bigint") +:+ String " " (("OFFSET " : string) +:+ ("$" +:+ strconv.Itoa b +:+ "::bigint")))
      by by rewrite !append_assoc.
    rewrite (scan_blank _ _ " ") by done. rewrite (scan_ends_blank "OFFSET ") by done.
    assert (∀ n, 0 ≤ n → scan "" ("$" +:+ strconv.Itoa n +:+ "::bigint") = ["$" +:+ strconv.Itoa n +:+ "::bigint"]) as Hp.
    { intros n' Hn'. apply words_one; [done|]. intros x. rewrite <-append_assoc, list_ascii_append, in_app_iff.
      intros [Hx|Hx]; [by eapply placeholder_chars|]. cbn in Hx. by repeat destruct Hx as [<-|Hx]. }
    by rewrite !Hp. }
  rewrite (parse_filtered _ n k _ task_items); [|done|by right; eexists|by rewrite Hw|done].
  rewrite Hw. unfold ptail.
  assert (∀ n, 0 ≤ n → param_of ("$" +:+ strconv.Itoa n +:+ "::bigint") = Some {| p_index := n; p_cast := AsBigint |}) as Hp.
  { intros n' Hn'. by apply param_of_Itoa. }
  generalize (Hp a Ha), (Hp b Hb). clear Hw Hp.
  generalize ("$" +:+ strconv.Itoa a +:+ "::bigint"), ("$" +:+ strconv.Itoa b +:+ "::bigint").
  intros wa wb Hwa Hwb. cbn -[param_of]. unfold clause, keyword, pparam, pbind, word, lift, pret. cbn -[param_of]. rewrite Hwa. cbn -[param_of]. by rewrite Hwb.
Qed.

(** * What the filter selects *)
Lemma filter_params_S from n :
  filter_params from (Datatypes.S n) = {| p_index := from; p_cast := Plain |} :: filter_params (from + 1) n.
Proof.
  unfold filter_params. cbn [seq map]. f_equal; [by rewrite Z.add_0_r|].
  rewrite <-seq_shift, map_map. apply map_ext. intros i. f_equal. lia.
Qed.
Lemma param_value_at pre a post c :
  param_value (pre ++ a :: post) {| p_index := Z.of_nat (length pre) + 1; p_cast := c |} = cast_arg c a.
Proof.
  unfold param_value. cbn [p_index p_cast]. destruct (Z.leb_spec (Z.of_nat (length pre) + 1) 0); [lia|].
  replace (Z.to_nat (Z.of_nat (length pre) + 1 - 1)) with (length pre) by lia. by rewrite list_lookup_middle.
Qed.
Lemma filter_params_values pre vs post :
  mapM (param_value (pre ++ map ArgString vs ++ post))
    (filter_params (Z.of_nat (length pre) + 1) (length vs)) = Some (map VText vs).
Proof.
  revert pre; induction vs as [|v vs IH]; intros pre; [done|].
  cbn [length map]. rewrite filter_params_S. cbn [mapM]. rewrite <-app_comm_cons, param_value_at.
  specialize (IH (pre ++ [ArgString v])). rewrite length_app in IH. cbn [length] in IH.
  replace (Z.of_nat (length pre + 1)) with (Z.of_nat (length pre) + 1) in IH by lia.
  rewrite <-app_assoc in IH. cbn [app] in IH. cbn [cast_arg mbind option_bind]. by rewrite IH.
Qed.

Definition in_bound (column : string) (vs : list string) : list bound :=
  match vs with [] => [] | _ => [BIn column (map VText vs)] end.
Definition filter_bounds (u : string) (st pr : list string) : list bound :=
  BCompare "user_id" OpEq (VUuid (lower_hex u)) :: in_bound "status" st ++ in_bound "priority" pr.

Lemma bind_in_cond column pre vs post :
  mapM (bind_cond (pre ++ map ArgString vs ++ post)) (in_cond column (Z.of_nat (length pre) + 1) (length vs))
  = Some (in_bound column vs).
Proof.
  destruct vs as [|v vs]; [done|]. cbn [length in_cond mapM bind_cond].
  change (Datatypes.S (length vs)) with (length (v :: vs)). by rewrite filter_params_values.
Qed.
Lemma mapM_app_Some {A B} (f : A → option B) l l' k k' :
  mapM f l = Some k → mapM f l' = Some k' → mapM f (l ++ l') = Some (k ++ k').
Proof. rewrite !mapM_Some. apply Forall2_app. Qed.

Lemma bind_filter u st pr post :
  isValidID u = true →
  mapM (bind_cond (filter_args u st pr ++ post)) (filter_conds (length st) (length pr))
  = Some (filter_bounds u st pr).
Proof.
  intros Hu. unfold filter_conds, filter_args, filter_bounds. cbn [mapM bind_cond].
  assert (∀ l, param_value (ArgString u :: l) {| p_index := 1; p_cast := AsUuid |} = Some (VUuid (lower_hex u))) as Hp.
  { intros l. change (cast_arg AsUuid (ArgString u) = Some (VUuid (lower_hex u))). cbn [cast_arg].
    by rewrite Hu. }
  cbn [app]. rewrite Hp. cbn [mbind option_bind].
  erewrite mapM_app_Some; [reflexivity| |].
  - pose proof (bind_in_cond "status" [ArgString u] st (map ArgString pr ++ post)) as Hb.
    cbn [app] in Hb |- *. by rewrite <-app_assoc.
  - pose proof (bind_in_cond "priority" (ArgString u :: map ArgString st) pr post) as Hb.
    cbn [length] in Hb. rewrite length_map in Hb. cbn [app] in Hb |- *. rewrite <-app_assoc.
    replace (2 + Z.of_nat (length st)) with (Z.of_nat (Datatypes.S (length st)) + 1) by lia. exact Hb.
Qed.

Lemma test_in column vs (t : Task) s :
  rel_get t column = Some (VText s) → forallb (test t) (in_bound column vs) = matchesAny s vs.
Proof.
  intros Hg. destruct vs as [|v vs]; [done|]. unfold in_bound, matchesAny. cbn [forallb test].
  rewrite Hg, andb_true_r. apply eq_iff_eq_true. rewrite bool_decide_eq_true, existsb_exists.
  rewrite list_elem_of_fmap. setoid_rewrite String.eqb_eq. setoid_rewrite <-list_elem_of_In. naive_solver.
Qed.
Lemma tests_filter u st pr t :
  tests (filter_bounds u st pr) t = selects (lower_hex u) st pr t.
Proof.
  unfold tests, filter_bounds, selects. cbn [forallb]. rewrite forallb_app.
  rewrite (test_in "status" st t (task_Status t)), (test_in "priority" pr t (task_Priority t)) by done.
  rewrite andb_assoc. f_equal. f_equal. cbn. destruct (String.eqb_spec (task_UserID t) (lower_hex u)) as [->|Hne].
  - by apply bool_decide_eq_true_2.
  - apply bool_decide_eq_false_2. congruence.
Qed.

(** * Rows *)
Definition task_values (t : Task) : list value :=
  [VText t.(task_ID); VText t.(task_UserID); VText t.(task_Title); VText t.(task_Description);
   VText t.(task_Status); VText t.(task_Priority); VTime t.(task_CreatedAt); VTime t.(task_UpdatedAt);
   VInt t.(task_Version)].
Lemma project_tasks l : mapM (λ t : Task, mapM (project t) task_items) l = Some (map task_values l).
Proof. apply mapM_Some, Forall2_fmap_r, Forall_Forall2_diag, Forall_true. done. Qed.
Lemma scan_task t x : scan_row task_dests (task_values t) = Some x → scanTask x = t.
Proof. destruct t. intros [= <-]. reflexivity. Qed.

(** ** The row of a task and its owner *)
Definition owned_conds (i j : Z) : list cond :=
  [CCompare "id" OpEq {| p_index := i; p_cast := AsUuid |};
   CCompare "user_id" OpEq {| p_index := j; p_cast := AsUuid |}].
Definition owned_bounds (id u : string) : list bound :=
  [BCompare "id" OpEq (VUuid id); BCompare "user_id" OpEq (VUuid u)].
Lemma bind_owned args i j id u :
  0 < i → 0 < j → args !! Z.to_nat (i - 1) = Some (ArgString id) → args !! Z.to_nat (j - 1) = Some (ArgString u) →
  isValidID id = true → isValidID u = true →
  mapM (bind_cond args) (owned_conds i j) = Some (owned_bounds (lower_hex id) (lower_hex u)).
Proof.
  intros Hi Hj Hai Haj Hid Hu. unfold owned_conds. cbn [mapM bind_cond].
  rewrite (param_value_eq args {| p_index := i; p_cast := AsUuid |} (ArgString id) (VUuid (lower_hex id)));
    [|exact Hi|exact Hai|by cbn [cast_arg p_cast]; rewrite Hid].
  rewrite (param_value_eq args {| p_index := j; p_cast := AsUuid |} (ArgString u) (VUuid (lower_hex u)));
    [|exact Hj|exact Haj|by cbn [cast_arg p_cast]; rewrite Hu].
  done.
Qed.
Lemma tests_owned id u t : tests (owned_bounds id u) t = true ↔ t.(task_ID) = id ∧ t.(task_UserID) = u.
Proof.
  unfold tests, owned_bounds. cbn. rewrite !andb_true_iff, !bool_decide_eq_true. naive_solver.
Qed.
Lemma matching_owned m id u :
  wf_store m →
  matching "tasks" (owned_bounds id u) m = match owned m u id with Some t => {[id := t]} | None => ∅ end.
Proof.
  intros Hwf. apply map_eq. intros k. apply option_eq. intros t.
  rewrite lookup_matching, tests_owned. destruct (owned m u id) as [t0|] eqn:Ho.
  - apply owned_Some in Ho as [Hl Hu]. rewrite lookup_singleton_Some. split.
    + intros (Hk & _ & <- & _). specialize (Hwf k t Hk). subst k. split; [done|]. congruence.
    + intros [<- <-]. split_and!; [done|done|by eapply Hwf|done].
  - rewrite lookup_empty. split; [|done]. intros (Hk & _ & <- & <-). specialize (Hwf k t Hk). subst k.
    apply owned_None with (t := t) in Ho; done.
Qed.

(** ** Counting by group *)
Definition occurrences (k : string) (ks : list string) : Z :=
  Z.of_nat (length (base.filter (λ k', k' = k) ks)).
Lemma occurrences_cons k k' ks :
  occurrences k (k' :: ks) = occurrences k ks + (if decide (k' = k) then 1 else 0).
Proof. unfold occurrences. rewrite filter_cons. case_decide; cbn [length]; lia. Qed.
Lemma occurrences_pos k ks : 0 < occurrences k ks ↔ k ∈ ks.
Proof.
  induction ks as [|k' ks IH]; [split; [by unfold occurrences|set_solver]|].
  rewrite occurrences_cons, elem_of_cons. assert (0 ≤ occurrences k ks) by (unfold occurrences; lia).
  case_decide; [subst; split; [by left|lia]|]. rewrite Z.add_0_r, IH. naive_solver.
Qed.
Lemma tally_lookup z ks k :
  tally z ks !! k = if decide (k ∈ ks) then Some (default 0 (z !! k) + occurrences k ks) else z !! k.
Proof.
  revert z; induction ks as [|k' ks IH]; intros z; [by rewrite decide_False by set_solver|].
  cbn [tally fold_left]. change (fold_left _ ks ?x) with (tally x ks). rewrite IH, occurrences_cons.
  unfold incr. rewrite lookup_insert.
  destruct (decide (k' = k)) as [->|Hk].
  - rewrite (decide_True (P := k ∈ k :: ks)) by set_solver. case_decide as Hin; simpl; [f_equal; lia|].
    assert (occurrences k ks = 0) as ->; [|done].
    assert (0 ≤ occurrences k ks) by (unfold occurrences; lia). rewrite <-occurrences_pos in Hin. lia.
  - rewrite Z.add_0_r. by repeat case_decide; set_solver.
Qed.
(** One count per key, set over zeros, is the tally. *)
Lemma set_counts z ks (xs : list (string * (Z * unit))) :
  (∀ k n, z !! k = Some n → n = 0) → NoDup (map fst xs) →
  (∀ k, k ∈ map fst xs ↔ k ∈ ks) → (∀ k n u, (k, (n, u)) ∈ xs → n = occurrences k ks) →
  fold_left (λ m '(k, (n, _)), <[k := n]> m) xs z = tally z ks.
Proof.
  intros Hz Hnd Hks Hn. apply map_eq. intros k. rewrite tally_lookup.
  assert (∀ (xs : list (string * (Z * unit))) (z : gmap string Z), NoDup (map fst xs) → (∀ k n u, (k, (n, u)) ∈ xs → n = occurrences k ks) →
    fold_left (λ m '(k, (n, _)), <[k := n]> m) xs z !! k =
    if decide (k ∈ map fst xs) then Some (occurrences k ks) else z !! k) as Hfold.
  { clear. induction xs as [|[k' [n u]] xs IH]; intros z Hnd Hn; [by rewrite decide_False by set_solver|].
    cbn [fold_left map fst] in *. apply NoDup_cons in Hnd as [Hk' Hnd].
    rewrite IH; [|done|intros; eapply Hn; by right]. rewrite lookup_insert.
    assert (n = occurrences k' ks) as -> by (eapply Hn; by left).
    repeat case_decide; subst; try done; set_solver. }
  rewrite Hfold by done. rewrite (decide_ext _ _ _ _ (Hks k)).
  case_decide as Hin; [|done]. f_equal. destruct (z !! k) as [n|] eqn:Hzk; simpl; [|lia].
  rewrite (Hz k n Hzk). lia.
Qed.

(** * The methods *)
#[local] Arguments foreign : simpl never.
#[local] Arguments db_failed : simpl never.
#[local] Arguments isValidID : simpl never.
#[local] Arguments lower_hex : simpl never.
#[local] Arguments micros : simpl never.

(** The call was answered with a failure although the store has done it. *)
Definition lost {X} (e : repoE X) (m m' : store) (r : X) : Prop :=
  ∃ err ok, failure e r = Some err ∧ foreign err = true ∧ failure e ok = None ∧ repo_spec e m m' ok.

Lemma db_failed_foreign msg err : driver_error err → foreign (db_failed task_pkg msg err) = true.
Proof.
  intros Hd. apply forallb_forall. intros s Hs%list_elem_of_In. apply negb_true_iff, db_failed_Is; [done| |];
    (unfold task_sentinels in Hs; set_solver).
Qed.
#[local] Hint Resolve db_failed_foreign : core.

Section methods.
Context {S : Type} (h : handler dbE S) `{!Database Task h} (repo : postgresRepository).
Abbreviation view s := (db_view s).(db_rows).

Lemma view_wf s : db_inv s → wf_store (view s).
Proof. intros Hi k t Hk. exact (consistent_key _ k t (db_consistent s Hi) Hk). Qed.
(** A table on its own: its constraints are those of its key. *)
Lemma consistent_wf (m : store) : consistent m ↔ wf_store m.
Proof.
  split; [intros Hc k t Hk; exact (consistent_key m k t Hc Hk)|]. intros Hwf k t Hk. split; [by apply Hwf|]. split; [done|].
  intros k' t' _ Hc. done.
Qed.


(** ** Deleting *)
Lemma writes_delete now kept id u m :
  wf_store m → isValidID id = true → isValidID u = true →
  writes [ArgString id; ArgString u] now kept (SDelete "tasks" (owned_conds 1 2) None) m =
  Some (Some match owned m (lower_hex u) (lower_hex id) with
             | Some _ => (delete (lower_hex id) m, 1) | None => (m, 0)
             end).
Proof.
  intros Hwf Hid Hu. unfold writes. rewrite bool_decide_eq_true_2 by (by left).
  rewrite (bind_owned _ 1 2 id u) by done. cbn [mbind option_bind]. cbv zeta.
  set (bs := owned_bounds (lower_hex id) (lower_hex u)).
  change (rows_with (doomed kept "tasks" bs None) m) with (matching "tasks" bs m).
  assert (rows_with (λ r, negb (orphan (matching "tasks" bs m) r || doomed kept "tasks" bs None r)) m
    = m ∖ matching "tasks" bs m) as ->.
  { apply map_eq. intros k. apply option_eq. intros t. rewrite lookup_rows_with, lookup_difference_Some.
    change (negb _) with (negb (tests bs t)). rewrite negb_true_iff. destruct (matching "tasks" bs m !! k) as [t'|] eqn:Hk.
    - apply lookup_matching in Hk as (Hk & _ & Ht). rewrite Hk. split; [|naive_solver]. intros [[= ->] ?]. congruence.
    - split; [naive_solver|]. intros [Hm _]. split; [done|]. apply not_true_iff_false. intros Ht.
      assert (matching "tasks" bs m !! k = Some t) by by apply lookup_matching. congruence. }
  unfold bs. rewrite matching_owned by done. destruct (owned m _ _) as [t|].
  - rewrite map_size_singleton. do 3 f_equal. apply map_eq. intros k.
    rewrite lookup_difference, lookup_delete, lookup_singleton. by case_decide.
  - by rewrite map_size_empty, map_difference_empty.
Qed.
Lemma pDelete_spec id u s :
  db_inv s → task_call (Delete id u) →
  let '(s', r) := run h (pDelete repo id u) s in
  db_inv s' ∧ (repo_spec (stored_call (Delete id u)) (view s) (view s') r ∨
    lost (stored_call (Delete id u)) (view s) (view s') r).
Proof.
  intros Hi [Hid Hu]. unfold pDelete. rewrite run_bind, run_trigger. destruct (h _ _ s) as [s' r] eqn:E.
  edestruct (exec_call h) as [Hi' Hr]; [exact Hi|exact E|vm_compute; reflexivity|reflexivity| |intros now; exact I|].
  { intros now kept. change (CCompare _ _ _ :: _) with (owned_conds 1 2). apply writes_delete; [by apply view_wf|done|done]. }
  set (m := view s) in *. set (i := lower_hex id) in *. set (v := lower_hex u) in *.
  assert (∀ m' n, Some match owned m v i with Some _ => (delete i m, 1) | None => (m, 0) end = Some (m', n) →
    is_Some (owned m v i) ∧ m' = delete i m ∧ n = 1 ∨ owned m v i = None ∧ m' = m ∧ n = 0) as Ho.
  { intros m' n. destruct (owned m v i); intros [= <- <-]; [left|right]; split_and!; eauto. }
  assert (∀ e m' n, driver_error e → Some match owned m v i with Some _ => (delete i m, 1) | None => (m, 0) end
    = Some (m', n) → let r := Some (db_failed task_pkg "postgres: delete task" e) in
    repo_spec (Delete i v) m m' r ∨ lost (Delete i v) m m' r) as Hlost.
  { intros e m' n He Hm. destruct (Ho m' n Hm) as [(Hs & -> & _)|(Hs & -> & _)].
    - right. exists (db_failed task_pkg "postgres: delete task" e), None. cbn. split_and!; auto.
    - left. cbn. auto. }
  destruct r as [[n|e]|e]; cbn in Hr |- *; (split; [done|]).
  - destruct Hr as (m' & Hm & ->). destruct (Ho _ _ Hm) as [(Hs & -> & ->)|(Hs & -> & ->)]; cbn; auto.
  - destruct Hr as (He & m' & n & Hm & ->). by eapply Hlost.
  - destruct Hr as (He & _ & [-> |(_ & m' & n & Hm & ->)]); [left; cbn; auto|]. by eapply Hlost.
Qed.

(** ** Creating *)
Definition task_columns : list string :=
  ["id"; "user_id"; "title"; "description"; "status"; "priority"; "created_at"; "updated_at"; "version"].
Definition insert_vals : list sexpr :=
  [EParam (uuid 1); EParam (uuid 2); EParam (plain 3); EParam (plain 4); EParam (plain 5);
   EParam (plain 6); EParam (plain 7); EParam (plain 8); ENumber 1].
Definition insert_args (t : Task) : list arg :=
  [ArgString t.(task_ID); ArgString t.(task_UserID); ArgString t.(task_Title);
   ArgString t.(task_Description); ArgString t.(task_Status); ArgString t.(task_Priority);
   ArgTime t.(task_CreatedAt); ArgTime t.(task_UpdatedAt)].

Lemma new_task_row now t :
  isValidID t.(task_ID) = true → isValidID t.(task_UserID) = true →
  new_row (insert_args t) now "tasks" task_columns insert_vals = Some (with_version 1 (stored_task t)).
Proof.
  intros Hid Hu. unfold new_row.
  assert (mapM (eval_expr (insert_args t) now None) insert_vals =
    Some (map snd (task_cols (with_version 1 (stored_task t))))) as ->; [|done].
  apply mapM_Some. repeat (apply Forall2_cons_2; [|]); [..|apply Forall2_nil_2]; try done; cbn [eval_expr];
    (eapply param_value_eq; [done|reflexivity|]); cbn [cast_arg p_cast uuid]; by rewrite ?Hid, ?Hu.
Qed.
Lemma writes_create now kept t m :
  isValidID t.(task_ID) = true → isValidID t.(task_UserID) = true →
  writes (insert_args t) now kept (SInsert "tasks" task_columns insert_vals) m =
  Some match m !! lower_hex t.(task_ID) with
       | Some _ => None
       | None => Some (<[lower_hex t.(task_ID) := with_version 1 (stored_task t)]> m, 1)
       end.
Proof.
  intros Hid Hu. unfold writes. rewrite bool_decide_eq_true_2 by (by left).
  rewrite new_task_row by done. cbn [mbind option_bind]. set (t' := with_version 1 (stored_task t)).
  assert (admissible t' m ↔ m !! lower_hex (task_ID t) = None) as Ha by (split; [by intros [? _]|done]).
  destruct (m !! lower_hex (task_ID t)) as [t0|] eqn:Hk.
  - by rewrite bool_decide_eq_false_2 by (by rewrite Ha).
  - by rewrite bool_decide_eq_true_2 by (by apply Ha).
Qed.
Lemma pCreate_spec t s :
  db_inv s → task_call (Create t) →
  let '(s', r) := run h (pCreate repo t) s in
  db_inv s' ∧ (repo_spec (stored_call (Create t)) (view s) (view s') r ∨
    lost (stored_call (Create t)) (view s) (view s') r).
Proof.
  intros Hi (Hid & Hu & Hfit). unfold pCreate. rewrite run_bind, run_trigger.
  change [ArgString (task_ID t); _; _; _; _; _; _; _] with (insert_args t).
  destruct (h _ _ s) as [s' r] eqn:E.
  edestruct (exec_call h (withTimeout repo) None) with (st := SInsert "tasks" task_columns insert_vals) as [Hi' Hr];
    [exact Hi|exact E|vm_compute; reflexivity|reflexivity|intros now kept; by apply writes_create| |].
  { intros now r' Hr'. change (new_row (insert_args t) now "tasks" task_columns insert_vals = Some r') in Hr'.
    rewrite new_task_row in Hr' by done. injection Hr' as <-. exact Hfit. }
  set (m := view s) in *. set (i := lower_hex (task_ID t)) in *.
  destruct r as [r|e]; cbn in Hr |- *; (split; [done|]).
  - left. fold i. destruct r as [n|e]; [destruct Hr as (m' & Hm & ->)|destruct Hr as (_ & m' & n & Hm & ->)];
      (destruct (m !! i); [done|]); by injection Hm as <- <-.
  - fold i. destruct Hr as (He & Hdup & Hm). unfold isUniqueViolation.
    destruct (AsPgError e) as [c|] eqn:Ec; [destruct (String.eqb_spec c "23505") as [->|Hc]|].
    + left. destruct (Hdup eq_refl) as [Ht ->]. split; [done|]. left. split; [done|].
      destruct (m !! i); [by eexists|done].
    + destruct Hm as [-> |(_ & m' & n & Hm & ->)]; [left; auto|]. right. eexists _, None.
      destruct (m !! i) eqn:El; [done|]. injection Hm as <- <-. cbn. fold i. rewrite El. split_and!; eauto.
    + destruct Hm as [-> |(_ & m' & n & Hm & ->)]; [left; auto|]. right. eexists _, None.
      destruct (m !! i) eqn:El; [done|]. injection Hm as <- <-. cbn. fold i. rewrite El. split_and!; eauto.
Qed.

(** ** Reading one task *)
Definition owned_select (items : list item) (update : bool) : select :=
  {| sel_items := items; sel_table := "tasks"; sel_where := owned_conds 1 2; sel_group := None;
     sel_order := []; sel_window := None; sel_update := update |}.
Lemma readable_owned id u items update :
  isValidID id = true → isValidID u = true →
  readable [ArgString id; ArgString u] (owned_select items update) =
  Some (owned_bounds (lower_hex id) (lower_hex u), (None, 0)).
Proof.
  intros Hid Hu. unfold readable. rewrite bool_decide_eq_true_2 by (by left).
  cbn [owned_select sel_where sel_window]. by rewrite (bind_owned _ 1 2 id u) by done.
Qed.
Lemma found_owned m id u :
  wf_store m → values (map_to_list (matching "tasks" (owned_bounds id u) m)) = option_list (owned m u id).
Proof.
  intros Hwf. rewrite matching_owned by done. destruct (owned m u id); [|by rewrite map_to_list_empty].
  by rewrite map_to_list_singleton.
Qed.
(** The row a query for the task of a user finds, if any. *)
Lemma answers_owned (items : list item) update m id u l :
  wf_store m → items = task_items ∨ items = [IColumn "version" false] →
  answers (owned_select items update) (owned_bounds id u) (None, 0) m l →
  match owned m u id with
  | Some t => mapM (project t) items = head l
  | None => l = []
  end.
Proof.
  intros Hwf Hit Ha. unfold answers in Ha. rewrite found_owned in Ha by done. cbn [owned_select sel_items sel_group] in Ha.
  destruct Hit as [-> | ->]; destruct Ha as (sorted & Hp & _ & Hm); cbn in Hp; destruct (owned m u id) as [t|]; cbn in Hp;
    [apply Permutation_singleton_r in Hp|apply Permutation_nil_r in Hp|
     apply Permutation_singleton_r in Hp|apply Permutation_nil_r in Hp]; subst sorted; by injection Hm as <-.
Qed.

Lemma pFindByID_spec id u s :
  db_inv s → task_call (FindByID id u) →
  let '(s', r) := run h (pFindByID repo id u) s in
  db_inv s' ∧ (repo_spec (stored_call (FindByID id u)) (view s) (view s') r ∨
    lost (stored_call (FindByID id u)) (view s) (view s') r).
Proof.
  intros Hi [Hid Hu]. unfold pFindByID. rewrite run_bind, run_trigger. destruct (h _ _ s) as [s' r] eqn:E.
  edestruct (row_call h) with (q := owned_select task_items false) as (Hi' & Hv & Hr);
    [exact Hi|exact E|vm_compute; reflexivity|reflexivity|by apply readable_owned|].
  pose proof (view_wf s Hi) as Hwf.
  destruct r as [x|e]; cbn; rewrite Hv; (split; [done|]); left; (split; [done|]).
  - destruct Hr as (l & v & Ha & Hx). apply answers_owned in Ha; [|done|by left].
    destruct (owned _ _ _) as [t|]; [|done]. injection Ha as <-. by rewrite (scan_task t x).
  - destruct Hr as [[-> Ha]|He].
    + left. split; [done|]. apply answers_owned in Ha; [|done|by left]. by destruct (owned _ _ _).
    + right. rewrite not_no_rows by done. auto.
Qed.

(** ** Updating *)
Definition update_sets : list (string * sexpr) :=
  [("title", EParam (plain 1)); ("description", EParam (plain 2)); ("status", EParam (plain 3));
   ("priority", EParam (plain 4)); ("updated_at", EParam (plain 5)); ("version", ESucc "version")].
Definition update_args (t : Task) : list arg :=
  [ArgString t.(task_Title); ArgString t.(task_Description); ArgString t.(task_Status);
   ArgString t.(task_Priority); ArgTime t.(task_UpdatedAt); ArgString t.(task_ID); ArgString t.(task_UserID)].
Definition edited (t0 t : Task) : Task :=
  {| task_ID := t0.(task_ID); task_UserID := t0.(task_UserID); task_Title := t.(task_Title);
     task_Description := t.(task_Description); task_Status := t.(task_Status);
     task_Priority := t.(task_Priority); task_CreatedAt := t0.(task_CreatedAt);
     task_UpdatedAt := micros t.(task_UpdatedAt); task_Version := t0.(task_Version) + 1 |}.
Lemma changed_task now t0 t : changed_row (update_args t) now update_sets t0 = Some (edited t0 t).
Proof.
  unfold changed_row.
  assert (mapM (λ cs : string * sexpr, eval_expr (update_args t) now (Some t0) cs.2) update_sets =
    Some [VText (task_Title t); VText (task_Description t); VText (task_Status t); VText (task_Priority t);
          VTime (micros (task_UpdatedAt t)); VInt (task_Version t0 + 1)]) as ->.
  { apply mapM_Some. repeat (apply Forall2_cons_2; [|]); [..|apply Forall2_nil_2]; try done; cbn [eval_expr snd];
      by (eapply param_value_eq; [done|reflexivity|]). }
  destruct t0. reflexivity.
Qed.
Lemma writes_update now kept t m t0 :
  wf_store m → isValidID t.(task_ID) = true → isValidID t.(task_UserID) = true →
  owned m (lower_hex t.(task_UserID)) (lower_hex t.(task_ID)) = Some t0 →
  writes (update_args t) now kept (SUpdate "tasks" update_sets (owned_conds 6 7)) m =
  Some (Some (<[lower_hex t.(task_ID) := saved t0 (stored_task t)]> m, 1)).
Proof.
  intros Hwf Hid Hu Ho. unfold writes. rewrite bool_decide_eq_true_2 by (by left).
  rewrite (bind_owned _ 6 7 (task_ID t) (task_UserID t)) by done. cbn [mbind option_bind]. cbv zeta.
  rewrite bool_decide_eq_true_2 by (intros k r _; by rewrite changed_task).
  rewrite matching_owned by done. rewrite Ho, map_size_singleton. apply owned_Some in Ho as [Hl Howner].
  assert ((λ r, if chosen "tasks" (owned_bounds (lower_hex (task_ID t)) (lower_hex (task_UserID t))) r
      then default r (changed_row (update_args t) now update_sets r) else r) <$> m =
    <[lower_hex (task_ID t) := saved t0 (stored_task t)]> m) as ->;
    [|by rewrite bool_decide_eq_true_2 by (apply consistent_wf, map_Forall_insert_2; done)].
  apply map_eq. intros k. change (chosen "tasks" ?bs) with (tests bs). rewrite lookup_fmap, lookup_insert.
  case_decide as Hk.
  - subst k. rewrite Hl. cbn [fmap option_fmap option_map]. rewrite changed_task. cbn [default].
    assert (task_ID t0 = lower_hex (task_ID t)) as Hid0 by by eapply Hwf.
    rewrite (proj2 (tests_owned _ _ t0)) by done. f_equal. unfold edited, saved, stored_task. cbn. by rewrite Hid0, Howner.
  - destruct (m !! k) as [t'|] eqn:Hk'; [|done]. cbn [fmap option_fmap option_map].
    destruct (tests _ t') eqn:Ht; [|done]. apply tests_owned in Ht as [Ht _]. specialize (Hwf k t' Hk'). congruence.
Qed.

Lemma update_in_spec tx t s :
  db_inv s → (db_view s).(db_txs) !! tx = Some (view s) → task_call (Update t) →
  let '(s', r) := run h (update_in repo tx t) s in
  db_inv s' ∧ (repo_spec (stored_call (Update t)) (view s) (view s') r ∨
    lost (stored_call (Update t)) (view s) (view s') r).
Proof.
  intros Hi Htx (Hid & Hu & Hfit). unfold update_in. rewrite run_bind, run_trigger. destruct (h _ _ s) as [s1 r1] eqn:E1.
  edestruct (row_call h) with (q := owned_select [IColumn "version" false] true) (ds := [DInt]) as (Hi1 & Hv1 & Hr1);
    [exact Hi|exact E1|vm_compute; reflexivity|exact Htx|by apply readable_owned|].
  pose proof (view_wf s Hi) as Hwf. set (m := view s) in *.
  destruct r1 as [[current []]|e].
  2:{ cbn. rewrite Hv1. split; [done|]. left. split; [done|]. destruct Hr1 as [[-> Ha]|He].
      - left. split; [done|]. apply answers_owned in Ha; [|done|by right]. by destruct (owned _ _ _).
      - right; right. rewrite not_no_rows by done. auto. }
  destruct Hr1 as (l & v & Ha & Hx). apply answers_owned in Ha; [|done|by right].
  destruct (owned m _ _) as [t0|] eqn:Ho; [|done]. injection Ha as <-. injection Hx as <-.
  destruct (Z.eqb_spec (task_Version t0) (task_Version t)) as [Hver|Hver]; cbn [negb].
  2:{ cbn. rewrite Hv1. split; [done|]. left. split; [done|]. right; left. by eauto. }
  rewrite run_bind, run_trigger. destruct (h _ _ s1) as [s2 r2] eqn:E2.
  edestruct (exec_call h (withTimeout repo) (Some tx)) with (st := SUpdate "tasks" update_sets (owned_conds 6 7))
    as [Hi2 Hr2]; [exact Hi1|exact E2|vm_compute; reflexivity|by rewrite Hv1|intros now kept; exact (writes_update now kept t m t0 Hwf Hid Hu Ho)| |].
  { intros now bs r' _ (k & r & _ & _ & Hr'). change (changed_row (update_args t) now update_sets r = Some r') in Hr'.
    rewrite changed_task in Hr'. injection Hr' as <-. exact Hfit. }
  set (m2 := <[_ := _]> m) in *.
  assert (repo_spec (stored_call (Update t)) m m2 None) as Hok by (cbn; by eauto).
  assert (∀ msg e, driver_error e → repo_spec (stored_call (Update t)) m m (Some (db_failed task_pkg msg e))) as Hfail.
  { intros msg e He. cbn. auto. }
  rewrite Hv1 in Hr2. destruct r2 as [r2|e].
  2:{ destruct Hr2 as (He & _ & [Hv2|[? _]]); [|done]. rewrite run_ret. change (view s) with m in Hv2. rewrite Hv2. auto. }
  assert (view s2 = m ∧ (db_view s2).(db_txs) !! tx = Some m2) as [Hv2 Htx2].
  { destruct r2 as [n|e]; [destruct Hr2 as (m' & [= <- _] & Hd)|destruct Hr2 as (_ & m' & n & [= <- _] & Hd)]; exact Hd. }
  rewrite run_bind, run_trigger. destruct (h _ _ s2) as [s3 r3] eqn:E3.
  destruct (dcall_sound h _ _ _ _ _ Hi2 E3) as [Hi3 Hr3]. specialize (Hr3 _ Htx2).
  destruct r3 as [e|]; cbn [run mret]; (split; [done|]).
  - destruct Hr3 as [He [Hv3|Hv3]]; rewrite Hv3; [rewrite Hv2; left; auto|]. right. eexists _, None.
    split_and!; try done. auto.
  - rewrite Hr3. by left.
Qed.
Lemma pUpdate_spec t s :
  db_inv s → task_call (Update t) →
  let '(s', r) := run h (pUpdate repo t) s in
  db_inv s' ∧ (repo_spec (stored_call (Update t)) (view s) (view s') r ∨
    lost (stored_call (Update t)) (view s) (view s') r).
Proof.
  intros Hi Hcall. unfold pUpdate. rewrite run_bind, run_trigger. destruct (h _ _ s) as [s1 r1] eqn:E1.
  destruct (dcall_sound h _ _ _ _ _ Hi E1) as [Hi1 [Hv1 Hr1]]. destruct r1 as [tx|e].
  2:{ cbn. rewrite Hv1. split; [done|]. left. auto. }
  rewrite run_bind. rewrite <-Hv1 in Hr1.
  pose proof (update_in_spec tx t s1 Hi1 Hr1 Hcall) as Hup. rewrite Hv1 in Hup.
  destruct (run h (update_in repo tx t) s1) as [s2 r2]. destruct Hup as [Hi2 Hup].
  rewrite run_bind, run_trigger. destruct (h _ _ s2) as [s3 r3] eqn:E3.
  destruct (dcall_sound h _ _ _ _ _ Hi2 E3) as [Hi3 Hv3]. cbn in Hv3. rewrite run_ret. by rewrite Hv3.
Qed.

(** ** Reading with a filter *)
Lemma readable_filtered u st pr post items group order window w :
  isValidID u = true → window_of (filter_args u st pr ++ post) window = Some w →
  readable (filter_args u st pr ++ post) (filtered items (length st) (length pr) group order window) =
  Some (filter_bounds u st pr, w).
Proof.
  intros Hu Hw. unfold readable. rewrite bool_decide_eq_true_2 by (by left).
  cbn [filtered sel_where sel_window]. rewrite bind_filter by done. cbn [mbind option_bind]. by rewrite Hw.
Qed.
Lemma found_selected u st pr (m : store) :
  values (map_to_list (matching "tasks" (filter_bounds u st pr) m)) ≡ₚ selected m (lower_hex u) st pr.
Proof.
  rewrite values_matching. unfold selected. erewrite list_filter_iff; [done|]. intros t.
  change (chosen "tasks" ?bs t) with (tests bs t). by rewrite tests_filter.
Qed.

Lemma pCountAll_spec u st pr s :
  db_inv s → task_call (CountAll u st pr) →
  let '(s', r) := run h (pCountAll repo u st pr) s in
  db_inv s' ∧ (repo_spec (stored_call (CountAll u st pr)) (view s) (view s') r ∨
    lost (stored_call (CountAll u st pr)) (view s) (view s') r).
Proof.
  intros Hi Hu. unfold pCountAll. rewrite buildTaskFilterWhere_spec, run_bind, run_trigger.
  destruct (h _ _ s) as [s' r] eqn:E. rewrite <-(app_nil_r (filter_args u st pr)) in E.
  edestruct (row_call h) with (q := filtered [ICount] (length st) (length pr) None [] None) (ds := [DInt])
    as (Hi' & Hv & Hr); [exact Hi|exact E|apply parse_count|reflexivity|by apply readable_filtered|].
  destruct r as [[n []]|e]; cbn; rewrite Hv; (split; [done|]); left; (split; [done|]).
  - destruct Hr as (l & v & [= -> _] & [= <-]). by rewrite found_selected.
  - destruct Hr as [[-> Ha]|He]; [done|auto].
Qed.

(** The window of a listing, as SQL and as Go cut it. *)
Lemma in_window_paginate limit offset (l : list Task) :
  0 ≤ offset →
  paginateTasks l limit offset =
  Some (in_window (if 0 <=? limit then Some limit else None, offset) l).
Proof.
  intros Ho. unfold paginateTasks, in_window. cbn [fst snd].
  destruct (Z.leb_spec (Z.of_nat (length l)) offset).
  - rewrite drop_ge by lia. by destruct (0 <=? limit); rewrite ?take_nil.
  - destruct (Z.ltb_spec offset 0); [lia|]. destruct (Z.leb_spec 0 limit); cbn [andb]; [|done].
    destruct (Z.ltb_spec limit (Z.of_nat (length (drop (Z.to_nat offset) l)))); [done|].
    by rewrite take_ge by lia.
Qed.
Lemma task_order_sorted l : StronglySorted (row_le [Asc "created_at"; Asc "id"]) l → StronglySorted (in_order task_less) l.
Proof.
  induction 1 as [|t l Hl IH Ht]; constructor; [done|]. eapply Forall_impl; [exact Ht|]. intros t' Hle.
  cbn in Hle. unfold in_order, task_less, time.Equal, time.Before.
  destruct (Z.eqb_spec (task_CreatedAt t') (task_CreatedAt t)) as [He|Hne]; cbn [negb].
  - apply less_false. destruct Hle as [Hlt%Z.ltb_lt|[_ [Hlt|[[= ->] _]]]]; [lia| |done].
    unfold strings.less in Hlt. unfold String.le. unfold String.ltb, String.leb in *.
    by destruct (String.compare (task_ID t) (task_ID t')).
  - apply Z.ltb_ge. destruct Hle as [Hlt%Z.ltb_lt|[[= He] _]]; lia.
Qed.

Lemma scanned_tasks l xs :
  Forall2 (λ v x, scan_row task_dests v = Some x) (map task_values l) xs → map scanTask xs = l.
Proof.
  revert xs; induction l as [|t l IH]; intros xs Hx; inversion Hx; subst; [done|].
  cbn [map]. f_equal; [by apply scan_task|by apply IH].
Qed.
Lemma pFindAll_spec u limit offset st pr s :
  db_inv s → task_call (FindAll u limit offset st pr) →
  let '(s', r) := run h (pFindAll repo u limit offset st pr) s in
  db_inv s' ∧ (repo_spec (stored_call (FindAll u limit offset st pr)) (view s) (view s') r ∨
    lost (stored_call (FindAll u limit offset st pr)) (view s) (view s') r).
Proof.
  intros Hi [Hu Ho]. unfold pFindAll. rewrite buildTaskFilterWhere_spec, append_assoc.
  set (limitArg := if 0 <=? limit then ArgInt limit else ArgNil). set (fa := filter_args u st pr).
  assert (Z.of_nat (length (fa ++ [limitArg; ArgInt offset])) - 1 = Z.of_nat (length fa) + 1 ∧
    Z.of_nat (length (fa ++ [limitArg; ArgInt offset])) = Z.of_nat (length (fa ++ [limitArg])) + 1) as [Ha Hb].
  { rewrite !length_app. cbn [length]. lia. }
  rewrite Ha, Hb. set (a := Z.of_nat (length fa) + 1) in *. set (b := Z.of_nat (length (fa ++ [limitArg])) + 1) in *.
  rewrite run_bind, run_trigger. destruct (h _ _ s) as [s' r] eqn:E.
  edestruct (rows_call h) with (q := filtered task_items (length st) (length pr) None [Asc "created_at"; Asc "id"]
    (Some ({| p_index := a; p_cast := AsBigint |}, Some {| p_index := b; p_cast := AsBigint |}))) (ds := task_dests)
    (w := (if 0 <=? limit then Some limit else None, offset)) as (Hi' & Hv & Hr);
    [exact Hi|exact E|apply parse_find; lia|apply readable_filtered; [done|]|].
  { cbn [window_of]. fold fa. unfold a. rewrite param_value_at. unfold b.
    change (fa ++ [limitArg; ArgInt offset]) with (fa ++ [limitArg] ++ [ArgInt offset]). rewrite app_assoc, param_value_at.
    unfold limitArg. destruct (Z.leb_spec 0 limit); cbn [cast_arg mbind option_bind].
    - destruct (Z.ltb_spec limit 0); [lia|]. by destruct (Z.ltb_spec offset 0); [lia|].
    - by destruct (Z.ltb_spec offset 0); [lia|]. }
  clear E. destruct r as [[rows err]|e].
  2:{ rewrite run_ret, Hv. split; [done|]. left. cbn. auto. }
  destruct Hr as [Hbad Hr]. destruct (scanRows scanTask rows []) as [tasks|e] eqn:Hscan.
  2:{ rewrite run_ret, Hv. split; [done|]. left. apply scan_failed, Hbad in Hscan. cbn. auto. }
  destruct err as [e|]; rewrite run_ret, Hv; (split; [done|]); left; cbn; auto.
  apply scanRows_ok in Hscan as (xs & Hrows & ->). destruct (Hr xs Hrows) as (l & Hl & Hx).
  destruct Hl as (sorted & Hp & Hs & Hl). change (mapM _ _) with
    (mapM (λ t : Task, mapM (project t) task_items) (in_window (if 0 <=? limit then Some limit else None, offset) sorted)) in Hl.
  rewrite project_tasks in Hl. injection Hl as <-. apply scanned_tasks in Hx. cbn [app].
  split; [done|]. exists sorted. split; [split; [|by apply task_order_sorted]|].
  - by rewrite Hp, found_selected.
  - by rewrite in_window_paginate, Hx.
Qed.

(** The counts of a grouped query are the tally of the column. *)
Lemma group_counts c (f : Task → string) n k bs m l xs zeros :
  (∀ t, rel_get t c = Some (VText (f t))) → (∀ key count, zeros !! key = Some count → count = 0) →
  answers (filtered [IColumn c false; ICount] n k (Some c) [] None) bs (None, 0) m l →
  Forall2 (λ v x, scan_row [DString; DInt] v = Some x) l xs →
  fold_left (λ m '(key, (count, _)), <[key := count]> m) xs zeros =
  tally zeros (map f (values (map_to_list (matching "tasks" bs m)))).
Proof.
  intros Hf Hz (_ & vs & Hnd & Hvs & ->) Hx. set (found := values (map_to_list (matching "tasks" bs m))) in *.
  assert (∀ v, v ∈ vs ↔ ∃ t, t ∈ found ∧ v = VText (f t)) as Hvs'.
  { intros v. rewrite Hvs. setoid_rewrite Hf. naive_solver. }
  assert (∃ ks, vs = map VText ks) as [ks ->].
  { assert (∀ v, v ∈ vs → ∃ key, v = VText key) as Hall by (intros v (t & _ & ->)%Hvs'; eauto).
    clear -Hall. induction vs as [|v vs IH]; [by exists []|]. destruct (Hall v) as [key ->]; [by left|].
    destruct IH as [ks ->]; [intros; apply Hall; by right|]. by exists (key :: ks). }
  assert (∀ key, key ∈ ks ↔ key ∈ map f found) as Hks.
  { intros key. specialize (Hvs' (VText key)). rewrite !list_elem_of_fmap in Hvs'. rewrite list_elem_of_fmap. naive_solver. }
  assert (∀ key, length (base.filter (λ r, rel_get r c = Some (VText key)) found) =
    length (base.filter (λ key', key' = key) (map f found))) as Hcount.
  { intros key. clear -Hf. induction found as [|t found IH]; [done|]. cbn [map]. rewrite !filter_cons.
    rewrite Hf. repeat case_decide; cbn [length]; rewrite ?IH; congruence. }
  assert (xs = map (λ key, (key, (occurrences key (map f found), ()))) ks) as ->.
  { clear -Hx Hcount. revert xs Hx. induction ks as [|key ks IH]; intros xs Hx; inversion Hx as [|? x ? xs' H1 H2]; subst; [done|].
    cbn [map]. f_equal; [|by apply IH]. injection H1 as <-. by rewrite Hcount. }
  apply NoDup_fmap_1 in Hnd. apply set_counts; [done| | |].
  - rewrite map_map. cbn [fst]. by rewrite map_id.
  - intros key. rewrite map_map. cbn [fst]. by rewrite map_id.
  - intros key count un (key' & [= -> -> ->] & _)%list_elem_of_fmap. done.
Qed.

Lemma zeroByStatus_zero key count : zeroByStatus !! key = Some count → count = 0.
Proof.
  unfold zeroByStatus. rewrite !lookup_insert. repeat (case_decide; [congruence|]). by rewrite lookup_singleton_Some; intros [_ <-].
Qed.
Lemma zeroByPriority_zero key count : zeroByPriority !! key = Some count → count = 0.
Proof.
  unfold zeroByPriority. rewrite !lookup_insert. repeat (case_decide; [congruence|]). by rewrite lookup_singleton_Some; intros [_ <-].
Qed.

(** One of the two queries, with the loop over its rows. *)
Lemma counted c (f : Task → string) zeros u st pr s s' r :
  c = "status" ∨ c = "priority" → (∀ t, rel_get t c = Some (VText (f t))) →
  (∀ key count, zeros !! key = Some count → count = 0) → db_inv s → isValidID u = true →
  h _ (Query (withTimeout repo) (("SELECT " +:+ c +:+ ", COUNT(*) FROM tasks ") +:+
    filter_text (length st) (length pr) +:+ (" GROUP BY " +:+ c)) (filter_args u st pr) [DString; DInt]) s = (s', r) →
  db_inv s' ∧ view s' = view s ∧
  match r with
  | Ok (rows, err) =>
      (∀ e, scanCounts rows zeros = Err e → driver_error e) ∧ (∀ e, err = Some e → driver_error e) ∧
      ∀ counts, scanCounts rows zeros = Ok counts → err = None →
        counts = tally zeros (map f (values (map_to_list (matching "tasks" (filter_bounds u st pr) (view s)))))
  | Err e => driver_error e
  end.
Proof.
  intros Hc Hf Hz Hi Hu E. rewrite <-(app_nil_r (filter_args u st pr)) in E.
  edestruct (rows_call h) with (q := filtered [IColumn c false; ICount] (length st) (length pr) (Some c) [] None)
    (ds := [DString; DInt]) as (Hi' & Hv & Hr); [exact Hi|exact E|by apply parse_group|by apply readable_filtered|].
  rewrite Hv. split_and!; try done. destruct r as [[rows err]|e]; [|done]. destruct Hr as [Hbad Hr]. split_and!.
  - intros e He. by apply Hbad, (scanCounts_failed rows zeros).
  - intros e ->. done.
  - intros counts Hcounts ->. apply scanCounts_ok in Hcounts as (xs & Hrows & ->).
    destruct (Hr xs Hrows) as (l & Hl & Hx). by eapply group_counts.
Qed.

Lemma pCount_spec u st pr s :
  db_inv s → task_call (CountByStatusAndPriority u st pr) →
  let '(s', r) := run h (pCountByStatusAndPriority repo u st pr) s in
  db_inv s' ∧ (repo_spec (stored_call (CountByStatusAndPriority u st pr)) (view s) (view s') r ∨
    lost (stored_call (CountByStatusAndPriority u st pr)) (view s) (view s') r).
Proof.
  intros Hi Hu. unfold pCountByStatusAndPriority. rewrite buildTaskFilterWhere_spec, run_bind, run_trigger.
  destruct (h _ _ s) as [s1 r1] eqn:E1.
  edestruct (counted "status" task_Status zeroByStatus) as (Hi1 & Hv1 & Hr1);
    [by left|done|exact zeroByStatus_zero|exact Hi|exact Hu|exact E1|].
  assert (∀ s' msg e, view s' = view s → driver_error e → repo_spec (stored_call (CountByStatusAndPriority u st pr))
    (view s) (view s') (Err (db_failed task_pkg msg e))) as Hfail by (intros s' msg e -> He; cbn; auto).
  destruct r1 as [[rows err]|e]; [|rewrite run_ret; auto].
  destruct Hr1 as (Hbad & Herr & Hok). destruct (scanCounts rows zeroByStatus) as [bs|e] eqn:Hscan; [|rewrite run_ret; auto].
  destruct err as [e|]; [rewrite run_ret; auto|]. rewrite run_bind, run_trigger. destruct (h _ _ s1) as [s2 r2] eqn:E2.
  edestruct (counted "priority" task_Priority zeroByPriority) as (Hi2 & Hv2 & Hr2);
    [by right|done|exact zeroByPriority_zero|exact Hi1|exact Hu|exact E2|]. rewrite Hv1 in Hv2.
  destruct r2 as [[rows2 err]|e]; [|rewrite run_ret; auto].
  destruct Hr2 as (Hbad2 & Herr2 & Hok2).
  destruct (scanCounts rows2 zeroByPriority) as [bp|e] eqn:Hscan2; [|rewrite run_ret; auto].
  destruct err as [e|]; [rewrite run_ret; auto|]. rewrite run_ret, Hv2. split; [done|]. left. split; [done|].
  exists (values (map_to_list (matching "tasks" (filter_bounds u st pr) (view s)))).
  split; [apply found_selected|]. split; [by apply Hok|]. rewrite <-Hv1. by apply Hok2.
Qed.

(** Every call does what the contract says of it as PostgreSQL stores it, or it did
    so and the answer was lost. *)
Lemma task_postgres_spec X (e : repoE X) s :
  db_inv s → task_call e →
  let '(s', r) := run h (task_postgres repo X e) s in
  db_inv s' ∧ (repo_spec (stored_call e) (view s) (view s') r ∨ lost (stored_call e) (view s) (view s') r).
Proof.
  intros Hi Hc. destruct e; [by apply pCreate_spec|by apply pFindByID_spec|by apply pFindAll_spec|
    by apply pUpdate_spec|by apply pDelete_spec|by apply pCountAll_spec|by apply pCount_spec].
Qed.
End methods.
