(* ===== verification/SqlJoin.v ===== *)
(** Statements over several tables, as the PostgreSQL repository of attachments
    sends them: their text, what they mean, and the class of the databases that
    execute them as documented, over [Sql]. *)

From S2P Require Import Prelude GoStd GoError Uuid Text Sql.
Local Open Scope Z_scope.

(** * Statements *)

(** A column of the row that a name stands for, and a table under a name. *)
Record cref := { cr_alias : string; cr_column : string }.
Record source := { src_table : string; src_alias : string }.

Inductive jcond := JParam (c : cref) (p : param) | JSame (c c' : cref).
Inductive jitem := JColumn (c : cref) (as_text : bool) | JValue (p : param) | JCount | JSum (c : cref).
(** [SELECT items FROM a JOIN b ON ... WHERE ... ORDER BY ...]; the condition of the
    join is one of the conditions. *)
Record jselect := {
  js_items : list jitem;
  js_from : list source;
  js_where : list jcond;
  js_order : list cref;
}.
(** [JInsert] inserts what a query finds, [JDelete] deletes the rows of the first
    table, and [JUnlisted] is the query for the texts of an array that are UUIDs
    and that a column does not hold. *)
Inductive jstmt :=
| JSelect (q : jselect)
| JInsert (table : string) (columns : list string) (q : jselect)
| JDelete (target : source) (others : list source) (conds : list jcond)
| JUnlisted (texts : param) (table : string) (c : cref).

(** * Their text *)
Definition cref_of (w : string) : option cref :=
  let alias := strings.before_byte w "." in
  if String.eqb alias w then None
  else Some {| cr_alias := alias; cr_column := strings.drop_bytes (Datatypes.S (String.length alias)) w |}.
Definition pcref : parser cref := let% w := word in lift (cref_of w).
Definition psource : parser source :=
  let% t := word in let% a := word in pret {| src_table := t; src_alias := a |}.

Definition pjcond : parser jcond :=
  let% c := pcref in
  let% _ := keyword "=" in
  let% w := word in
  match param_of w with
  | Some p => pret (JParam c p)
  | None => let% c' := lift (cref_of w) in pret (JSame c c')
  end.
Definition pjitem : parser jitem :=
  let% w := word in
  if String.eqb w "COALESCE" then
    let% _ := keywords ["("; "SUM"; "("] in
    let% c := pcref in
    let% _ := keywords [")"; ","; "0"; ")"] in
    pret (JSum c)
  else if String.eqb w "COUNT" then let% _ := keywords ["("; "*"; ")"] in pret JCount
  else
    match param_of w with
    | Some p => pret (JValue p)
    | None =>
        let column := strings.before_byte w ":" in
        let suffix := strings.drop_bytes (String.length column) w in
        let% c := lift (cref_of column) in
        if String.eqb suffix "" then pret (JColumn c false)
        else if String.eqb suffix "::text" then pret (JColumn c true)
        else lift None
    end.
Definition pjoin : parser (list source * list jcond) :=
  let% a := psource in
  let% joined := clause "JOIN"
    (let% b := psource in let% _ := keyword "ON" in let% c := pjcond in pret (Some (b, c))) None in
  pret match joined with Some (b, c) => ([a; b], [c]) | None => ([a], []) end.
Definition pjselect : parser jselect :=
  let% items := commas pjitem in
  let% _ := keyword "FROM" in
  let% (sources, on) := pjoin in
  let% conds := clause "WHERE" (ands pjcond) [] in
  let% order := clause "ORDER" (let% _ := keyword "BY" in commas pcref) [] in
  pret {| js_items := items; js_from := sources; js_where := on ++ conds; js_order := order |}.
Definition uuid_pattern : string :=
  "'^[0-9a-fA-F]{8}-[0-9a-fA-F]{4}-[0-9a-fA-F]{4}-[0-9a-fA-F]{4}-[0-9a-fA-F]{12}$'".
Definition punlisted : parser jstmt :=
  let% _ := keywords ["k"; "FROM"; "unnest"; "("] in
  let% p := pparam in
  let% _ := keywords [")"; "AS"; "k"; "WHERE"; "k"; "~"; uuid_pattern; "AND"; "NOT"; "EXISTS"; "("; "SELECT"; "1"; "FROM"] in
  let% a := psource in
  let% _ := keyword "WHERE" in
  let% c := pcref in
  let% _ := keywords ["="; "k::uuid"; ")"] in
  pret (JUnlisted p a.(src_table) c).
Definition pjstmt : parser jstmt :=
  let% w := word in
  if String.eqb w "SELECT" then
    λ ts, match punlisted ts with Some x => Some x | None => pbind pjselect (λ q, pret (JSelect q)) ts end
  else if String.eqb w "INSERT" then
    let% _ := keyword "INTO" in
    let% table := word in
    let% _ := keyword "(" in
    let% columns := commas word in
    let% _ := keywords [")"; "SELECT"] in
    let% q := pjselect in
    pret (JInsert table columns q)
  else if String.eqb w "DELETE" then
    let% _ := keyword "FROM" in
    let% target := psource in
    let% others := clause "USING" (commas psource) [] in
    let% conds := clause "WHERE" (ands pjcond) [] in
    pret (JDelete target others conds)
  else lift None.
(** The statement that a text is, if it is none of [Sql]. *)
Definition jparse (query : string) : option jstmt :=
  match parse query, pjstmt (words query) with None, Some (st, []) => Some st | _, _ => None end.

(** * What they do to the tables *)
Section meaning.
Context {R : Type} `{Relation R} (args : list arg).
Abbreviation rows := (gmap string R).

(** The rows that names stand for. *)
Abbreviation env := (list (string * R)).
Definition col_get (e : env) (c : cref) : option value :=
  ar ← List.find (λ ar, String.eqb ar.1 c.(cr_alias)) e; rel_get ar.2 c.(cr_column).

Inductive jbound := JBValue (c : cref) (v : value) | JBSame (c c' : cref).
Definition jbind (c : jcond) : option jbound :=
  match c with
  | JParam c p => v ← param_value args p; Some (JBValue c v)
  | JSame c c' => Some (JBSame c c')
  end.
Definition jtest (e : env) (b : jbound) : bool :=
  match b with
  | JBValue c v => match col_get e c with Some w => bool_decide (w = v) | None => false end
  | JBSame c c' =>
      match col_get e c, col_get e c' with Some v, Some w => bool_decide (v = w) | _, _ => false end
  end.
Definition jtests (bs : list jbound) (e : env) : bool := forallb (jtest e) bs.

Definition rows_of (table : string) (m : rows) : list R :=
  values (map_to_list (rows_with (λ r, String.eqb table (rel_table r)) m)).
(** Every way to choose a row per table. *)
Fixpoint product (sources : list source) (m : rows) : list env :=
  match sources with
  | [] => [[]]
  | s :: sources' =>
      rows_of s.(src_table) m ≫= λ r, cons (s.(src_alias), r) <$> product sources' m
  end.
Definition jfound (sources : list source) (bs : list jbound) (m : rows) : list env :=
  base.filter (λ e, jtests bs e = true) (product sources m).

Definition jproject (e : env) (i : jitem) : option value :=
  match i with
  | JColumn c false => col_get e c
  | JColumn c true => v ← col_get e c; as_text v
  | JValue p => param_value args p
  | JCount | JSum _ => None
  end.
Fixpoint env_le (order : list cref) (e e' : env) : Prop :=
  match order with
  | [] => True
  | c :: order' =>
      match col_get e c, col_get e' c with
      | Some (VText _), _ | _, Some (VText _) => True
      | Some v, Some w => value_less v w = true ∨ v = w ∧ env_le order' e e'
      | _, _ => True
      end
  end.
Definition int_value (v : value) : option Z := match v with VInt n => Some n | _ => None end.
(** The answers to a query, as in [Sql]. *)
Definition janswers (q : jselect) (bs : list jbound) (m : rows) (l : list (list value)) : Prop :=
  let found := jfound q.(js_from) bs m in
  match q.(js_items) with
  | [JCount] => l = [[VInt (Z.of_nat (length found))]]
  | [JSum c] => ∃ ns, mapM (λ e, v ← col_get e c; int_value v) found = Some ns ∧
      l = [[VNumeric (foldr Z.add 0 ns)]]
  | items => ∃ sorted, sorted ≡ₚ found ∧ StronglySorted (env_le q.(js_order)) sorted ∧
      mapM (λ e, mapM (jproject e) items) sorted = Some l
  end.
(** The texts that are UUIDs and that a column does not hold. *)
Definition unlisted (table column : string) (texts : list string) (m : rows) : list string :=
  base.filter (λ k, isValidID k &&
    forallb (λ r, negb (bool_decide (rel_get r column = Some (VUuid (lower_hex k))))) (rows_of table m) = true) texts.
Definition known (sources : list source) : bool := forallb (λ s, bool_decide (s.(src_table) ∈ rel_tables)) sources.
(** What a reading statement answers; [None] where nothing is said. *)
Definition jreads (st : jstmt) : option (rows → list (list value) → Prop) :=
  match st with
  | JSelect q =>
      if known q.(js_from) then bs ← mapM jbind q.(js_where); Some (janswers q bs) else None
  | JUnlisted p t c =>
      if bool_decide (t ∈ rel_tables) then
        v ← param_value args p;
        match v with
        | VArray texts => Some (λ m l, l ≡ₚ map (λ k, [VText k]) (unlisted t c.(cr_column) texts m))
        | _ => None
        end
      else None
  | _ => None
  end.

(** The rows that are inserted, one for each answer of the query. *)
Definition jnew_rows (table : string) (columns : list string) (q : jselect) (m : rows) : option (list R) :=
  bs ← mapM jbind q.(js_where);
  mapM (λ e, vs ← mapM (jproject e) q.(js_items);
             if bool_decide (length columns = length vs) then rel_make table (zip columns vs) else None)
    (jfound q.(js_from) bs m).
Definition insert_all (rs : list R) (m : rows) : option rows :=
  foldr (λ r o, m ← o; if bool_decide (admissible r m) then Some (<[rel_key r := r]> m) else None) (Some m) rs.
Definition targets (alias : string) (es : list env) : list string :=
  omap (λ e, ar ← List.find (λ ar : string * R, String.eqb ar.1 alias) e; Some (rel_key ar.2)) es.
(** As [Sql.writes]. *)
Definition jwrites (st : jstmt) (m : rows) : option (option (rows * Z)) :=
  match st with
  | JInsert t columns q =>
      if bool_decide (t ∈ rel_tables) && known q.(js_from) then
        rs ← jnew_rows t columns q m;
        Some (m' ← insert_all rs m; Some (m', Z.of_nat (length rs)))
      else None
  | JDelete target others conds =>
      if known (target :: others) then
        bs ← mapM jbind conds;
        let gone := targets target.(src_alias) (jfound (target :: others) bs m) in
        let dead := rows_with (λ r, bool_decide (rel_key r ∈ gone)) m in
        Some (Some (rows_with (λ r, negb (orphan dead r || bool_decide (rel_key r ∈ gone))) m, Z.of_nat (size dead)))
      else None
  | _ => None
  end.
Definition jwrite_fits (st : jstmt) (m : rows) : Prop :=
  match st with JInsert t columns q => ∀ rs, jnew_rows t columns q m = Some rs → Forall rel_fits rs | _ => True end.
(** A new row refers to one that is not there. *)
Definition dangling (st : jstmt) (m : rows) : Prop :=
  match st with
  | JInsert t columns q => ∃ rs, jnew_rows t columns q m = Some rs ∧ Exists (λ r, ¬ refers r m) rs
  | _ => False
  end.
End meaning.

(** * A database that executes them as documented *)
Section database.
Context {R : Type} `{Relation R}.

Definition jdb_spec {X} (e : dbE X) (d d' : Db R) : X → Prop :=
  match e in dbE X return X → Prop with
  | ExecContext _ tx query args => λ r,
      ∀ st m o, jparse query = Some st → visible tx d = Some m → jwrites args st m = Some o → jwrite_fits args st m →
        exec_outcome tx o d d' r ∧
        ∀ e, r = Err e → AsPgError e = Some "23503" → d'.(db_rows) = d.(db_rows) ∧ dangling args st m
  | QueryRow _ tx query args ds => λ r,
      ∀ st m A, jparse query = Some st → visible tx d = Some m → jreads args st = Some A →
        d' = d ∧ row_answer (A m) r
  | Query _ query args ds => λ r,
      ∀ st A, jparse query = Some st → jreads args st = Some A →
        d' = d ∧ rows_answer (A d.(db_rows)) r
  | _ => λ _, True
  end.
Class JoinDatabase {S : Type} (h : handler dbE S) `{!Database R h} := {
  jdb_sound : ∀ X (e : dbE X) s, db_inv s → jdb_spec e (db_view s) (db_view (h X e s).1) (h X e s).2;
}.
End database.
#[global] Arguments JoinDatabase R {_ S} h {_}.

(** ** The calls, with the statement that is sent *)
Section statements.
Context {R S : Type} `{Relation R} (h : handler dbE S) `{!Database R h, !JoinDatabase R h}.

Lemma jcall_sound X (e : dbE X) s s' r :
  db_inv s → h X e s = (s', r) → db_inv s' ∧ jdb_spec e (db_view s) (db_view s') r.
Proof.
  intros Hi E. pose proof (db_step_inv X e s Hi). pose proof (jdb_sound X e s Hi). by rewrite E in *.
Qed.
Lemma jexec_call ctx query st args s o s' r :
  db_inv s → h _ (ExecContext ctx None query args) s = (s', r) → jparse query = Some st →
  jwrites args st (db_view s).(db_rows) = Some o → jwrite_fits args st (db_view s).(db_rows) →
  db_inv s' ∧ exec_outcome None o (db_view s) (db_view s') r ∧
  ∀ e, r = Err e → AsPgError e = Some "23503" →
    (db_view s').(db_rows) = (db_view s).(db_rows) ∧ dangling args st (db_view s).(db_rows).
Proof.
  intros Hi E Hp Hw Hf. destruct (jcall_sound _ _ _ _ _ Hi E) as [Hi' Hs]. split; [done|].
  by apply (Hs st _ o Hp).
Qed.
Lemma jrow_call ctx query args ds st A s s' r :
  db_inv s → h _ (QueryRow ctx None query args ds) s = (s', r) → jparse query = Some st →
  jreads args st = Some A →
  db_inv s' ∧ db_view s' = db_view s ∧ row_answer (A (db_view s).(db_rows)) r.
Proof.
  intros Hi E Hp Hr. destruct (jcall_sound _ _ _ _ _ Hi E) as [Hi' Hs]. split; [done|].
  by apply (Hs st _ A Hp).
Qed.
Lemma jrows_call ctx query args ds st A s s' r :
  db_inv s → h _ (Query ctx query args ds) s = (s', r) → jparse query = Some st → jreads args st = Some A →
  db_inv s' ∧ db_view s' = db_view s ∧ all_rows (A (db_view s).(db_rows)) r.
Proof.
  intros Hi E Hp Hr. destruct (jcall_sound _ _ _ _ _ Hi E) as [Hi' Hs]. split; [done|].
  destruct (Hs st A Hp Hr) as [Hv Hres]. split; [done|]. by apply rows_answer_all.
Qed.
End statements.

(** * Lemmas *)
Section rows.
Context {R : Type} `{Relation R}.

Lemma elem_of_rows_of t (m : gmap string R) r : r ∈ rows_of t m ↔ ∃ k, m !! k = Some r ∧ rel_table r = t.
Proof.
  unfold rows_of. rewrite elem_of_values by by unfold range_of. setoid_rewrite lookup_rows_with.
  setoid_rewrite String.eqb_eq. naive_solver.
Qed.
Lemma NoDup_rows_of t (m : gmap string R) : consistent m → NoDup (rows_of t m).
Proof.
  intros Hm. unfold rows_of, values. apply NoDup_fmap_2_strong; [|apply NoDup_map_to_list].
  intros [k r] [k' r'] Hr Hr' Heq. cbn in Heq. subst r'.
  rewrite elem_of_map_to_list, lookup_rows_with in Hr, Hr'. destruct Hr as [Hr _], Hr' as [Hr' _].
  by rewrite <-(consistent_key m k r Hm Hr), <-(consistent_key m k' r Hm Hr').
Qed.
Lemma NoDup_product sources (m : gmap string R) : consistent m → NoDup (product sources m).
Proof.
  intros Hm. induction sources as [|s sources IH]; [apply NoDup_singleton|]. cbn [product].
  apply NoDup_bind; [| |by apply NoDup_rows_of].
  - intros r r' e _ _ (e1 & -> & _)%list_elem_of_fmap (e2 & [= -> _] & _)%list_elem_of_fmap. done.
  - intros r _. apply NoDup_fmap_2; [|done]. by intros e e' [= ->].
Qed.
Lemma NoDup_jfound sources bs (m : gmap string R) : consistent m → NoDup (jfound sources bs m).
Proof. intros Hm. by apply NoDup_filter, NoDup_product. Qed.
Lemma elem_of_jfound_one s bs (m : gmap string R) e :
  e ∈ jfound [s] bs m ↔ ∃ k r, e = [(s.(src_alias), r)] ∧ m !! k = Some r ∧ rel_table r = s.(src_table) ∧ jtests bs e = true.
Proof.
  unfold jfound. rewrite list_elem_of_filter. cbn [product]. rewrite list_elem_of_bind. split.
  - intros (Ht & r & He & (k & Hk & Hr)%elem_of_rows_of). apply list_elem_of_fmap in He as (e' & -> & ->%list_elem_of_singleton).
    by exists k, r.
  - intros (k & r & -> & Hk & Hr & Ht). split; [done|]. exists r. split; [by left|]. apply elem_of_rows_of. eauto.
Qed.
Lemma elem_of_jfound_two s s' bs (m : gmap string R) e :
  e ∈ jfound [s; s'] bs m ↔ ∃ k r k' r', e = [(s.(src_alias), r); (s'.(src_alias), r')] ∧
    m !! k = Some r ∧ rel_table r = s.(src_table) ∧ m !! k' = Some r' ∧ rel_table r' = s'.(src_table) ∧ jtests bs e = true.
Proof.
  unfold jfound. rewrite list_elem_of_filter. cbn [product]. rewrite list_elem_of_bind. split.
  - intros (Ht & r & He & (k & Hk & Hr)%elem_of_rows_of). apply list_elem_of_fmap in He as (e' & -> & He').
    apply list_elem_of_bind in He' as (r' & He' & (k' & Hk' & Hr')%elem_of_rows_of).
    apply list_elem_of_fmap in He' as (e'' & -> & ->%list_elem_of_singleton). exists k, r, k', r'. by split_and!.
  - intros (k & r & k' & r' & -> & Hk & Hr & Hk' & Hr' & Ht). split; [done|]. exists r. split; [|apply elem_of_rows_of; eauto].
    apply list_elem_of_fmap. eexists. split; [done|]. apply list_elem_of_bind. exists r'. split; [by left|].
    apply elem_of_rows_of. eauto.
Qed.
End rows.
