(* ===== verification/ConcreteDb.v ===== *)
(** A database that can be run: it parses the statements of [Sql] and of [SqlJoin]
    and does what they mean to rows in memory.  Its faults are scripted: a call can
    fail before it has done anything, or after. *)

From S2P Require Import Prelude GoStd GoError Uuid Text Sql SqlJoin.
Local Open Scope Z_scope.

Inductive fault := NoFault | FaultBefore | FaultAfter.

Record server (R : Type) := { srv_db : Db R; srv_next : Z; srv_faults : list fault }.
Arguments srv_db {R} s.
Arguments srv_next {R} s.
Arguments srv_faults {R} s.

Definition bad_connection : error := Opaque "write tcp: broken pipe".
Definition server_error (code msg : string) : error := PgError code msg.

Section server.
Context {R : Type} `{Relation R}.
(** How rows are ordered, for the orders it can produce, and its clock, which
    stands. *)
Context (sort : list order_item → list R → option (list R)).
Context (sort_ok : ∀ order l l', sort order l = Some l' → l' ≡ₚ l ∧ StronglySorted (row_le order) l').
Context (clock : Z).

Definition answer (q : select) (bs : list bound) (w : option Z * Z) (m : gmap string R)
    : option (list (list value)) :=
  let found := values (map_to_list (matching q.(sel_table) bs m)) in
  match q.(sel_items), q.(sel_group) with
  | [ICount], None => Some [[VInt (Z.of_nat (length found))]]
  | [IColumn c false; ICount], Some c' =>
      if String.eqb c c' then
        Some (map (λ v, [v; VInt (Z.of_nat (length (base.filter (λ r, rel_get r c = Some v) found)))])
          (remove_dups (omap (λ r, rel_get r c) found)))
      else None
  | items, None => l ← sort q.(sel_order) found; mapM (λ r, mapM (project r) items) (in_window w l)
  | _, _ => None
  end.
Lemma answer_ok q bs w m l : answer q bs w m = Some l → answers q bs w m l.
Proof.
  unfold answer, answers. set (found := values _).
  assert (∀ items, (l0 ← sort (sel_order q) found; mapM (λ r, mapM (project r) items) (in_window w l0)) = Some l →
    ∃ sorted, sorted ≡ₚ found ∧ StronglySorted (row_le (sel_order q)) sorted ∧
      mapM (λ r, mapM (project r) items) (in_window w sorted) = Some l) as Hitems.
  { intros items (l0 & Hl & Hm)%bind_Some. destruct (sort_ok _ _ _ Hl). by exists l0. }
  repeat case_match; intros Ha; try done; try (by apply Hitems); simplify_eq; [|done].
  split; [by apply String.eqb_eq|]. eexists. split; [apply NoDup_remove_dups|]. split; [|done].
  intros v. rewrite elem_of_remove_dups, list_elem_of_omap. done.
Qed.

(** The answer of the query inside a statement. *)
Definition inner_rows (args : list arg) (st : stmt) (m : gmap string R) : option (list (list value)) :=
  match inner st with
  | None => Some []
  | Some q => '(bs, w) ← readable args q; answer q bs w m
  end.
Lemma inner_rows_ok args st m kept : inner_rows args st m = Some kept → inner_answer args st m kept.
Proof.
  unfold inner_rows. intros Hk q bs w Hq Hr. rewrite Hq, Hr in Hk. by apply answer_ok.
Qed.

(** The constraint that a statement violates: a reference, or a key. *)
Definition violation (args : list arg) (st : stmt) (m : gmap string R) : error :=
  let reference :=
    match st with
    | SInsert t columns vals =>
        match new_row args clock t columns vals with
        | Some r => bool_decide (m !! rel_key r = None ∧ map_Forall (λ _ r', clash r r' = false) m)
        | None => false
        end
    | _ => false
    end in
  if reference then server_error "23503" "insert or update violates foreign key constraint"
  else server_error "23505" "duplicate key value violates unique constraint".

Definition set_db (d : Db R) (s : server R) : server R :=
  {| srv_db := d; srv_next := s.(srv_next); srv_faults := s.(srv_faults) |}.
Definition next_fault (s : server R) : fault * server R :=
  match s.(srv_faults) with
  | [] => (NoFault, s)
  | f :: fs => (f, {| srv_db := s.(srv_db); srv_next := s.(srv_next); srv_faults := fs |})
  end.
Definition store (tx : option Z) (m : gmap string R) (d : Db R) : Db R :=
  match tx with
  | None => {| db_rows := m; db_txs := d.(db_txs) |}
  | Some tx => {| db_rows := d.(db_rows); db_txs := <[tx := m]> d.(db_txs) |}
  end.

Definition handle_server : handler dbE (server R) := λ X e s,
  let '(f, s) := next_fault s in
  match e in dbE X return server R * X with
  | ExecContext _ tx query args =>
      match parse query, visible tx s.(srv_db) with
      | Some st, Some m =>
          match kept ← inner_rows args st m; writes args clock kept st m with
          | Some (Some (m', n)) =>
              if bool_decide (consistent m') then
                match f, tx with
                | NoFault, _ => (set_db (store tx m' s.(srv_db)) s, Ok (Ok n))
                | FaultAfter, None => (set_db (store tx m' s.(srv_db)) s, Err bad_connection)
                | _, _ => (s, Err bad_connection)
                end
              else (s, Err (server_error "23514" "new row violates check constraint"))
          | Some None => (s, Err (violation args st m))
          | None => (s, Err (server_error "42601" "syntax error"))
          end
      | _, _ => (s, Err (server_error "42601" "syntax error"))
      end
  | QueryRow _ tx query args ds =>
      (s, match parse query, visible tx s.(srv_db), f with
          | Some (SSelect q), Some m, NoFault =>
              match readable args q with
              | Some (bs, w) =>
                  match answer q bs w m with
                  | Some [] => Err sql_ErrNoRows
                  | Some (v :: _) =>
                      match scan_row ds v with Some x => Ok x | None => Err (Opaque "sql: Scan error") end
                  | None => Err (server_error "42601" "syntax error")
                  end
              | None => Err (server_error "42601" "syntax error")
              end
          | _, _, _ => Err bad_connection
          end)
  | Query _ query args ds =>
      (s, match parse query, f with
          | Some (SSelect q), NoFault =>
              match readable args q with
              | Some (bs, w) =>
                  match answer q bs w s.(srv_db).(db_rows) with
                  | Some l => Ok (map (λ v, match scan_row ds v with
                                            | Some x => Ok x
                                            | None => Err (Opaque "sql: Scan error")
                                            end) l, None)
                  | None => Err (server_error "42601" "syntax error")
                  end
              | None => Err (server_error "42601" "syntax error")
              end
          | _, _ => Err bad_connection
          end)
  | BeginTx _ =>
      match f with
      | NoFault =>
          let tx := s.(srv_next) in
          ({| srv_db := store (Some tx) s.(srv_db).(db_rows) s.(srv_db); srv_next := tx + 1;
              srv_faults := s.(srv_faults) |}, Ok tx)
      | _ => (s, Err bad_connection)
      end
  | Commit tx =>
      match s.(srv_db).(db_txs) !! tx with
      | Some m =>
          match f with
          | NoFault => (set_db {| db_rows := m; db_txs := delete tx s.(srv_db).(db_txs) |} s, None)
          | FaultBefore => (s, Some bad_connection)
          | FaultAfter => (set_db {| db_rows := m; db_txs := delete tx s.(srv_db).(db_txs) |} s, Some bad_connection)
          end
      | None => (s, Some (Opaque "sql: transaction has already been committed or rolled back"))
      end
  | Rollback tx =>
      (set_db {| db_rows := s.(srv_db).(db_rows); db_txs := delete tx s.(srv_db).(db_txs) |} s, None)
  end.

Definition server_inv (s : server R) : Prop :=
  consistent s.(srv_db).(db_rows) ∧ map_Forall (λ _ m, consistent m) s.(srv_db).(db_txs).

Lemma next_fault_db s : (next_fault s).2.(srv_db) = s.(srv_db).
Proof. unfold next_fault. by destruct (srv_faults s). Qed.

Lemma driver_errors code msg : String.length code = 5%nat → driver_error (server_error code msg).
Proof. intros Hc. split_and!; [done|done|]. by intros c [= <-]. Qed.
Lemma violation_driver args st m : driver_error (violation args st m).
Proof. unfold violation. cbv zeta. by destruct (match st with SInsert _ _ _ => _ | _ => _ end); apply driver_errors. Qed.
Lemma opaque_driver msg : driver_error (Opaque msg).
Proof. by split_and!. Qed.
Lemma bad_driver : driver_error bad_connection.
Proof. apply opaque_driver. Qed.
#[local] Hint Resolve driver_errors violation_driver opaque_driver bad_driver : core.

Lemma store_inv tx m s : consistent m → server_inv s → server_inv (set_db (store tx m s.(srv_db)) s).
Proof.
  intros Hm [Hr Ht]. destruct tx as [tx|]; split; cbn; try done. by apply map_Forall_insert_2.
Qed.

#[local] Arguments store : simpl never.
#[local] Arguments driver_error : simpl never.
Lemma server_step_inv X (e : dbE X) s : server_inv s → server_inv (handle_server X e s).1.
Proof.
  intros Hi. unfold handle_server. pose proof (next_fault_db s) as Hs.
  destruct (next_fault s) as [f s0]. cbn in Hs. assert (server_inv s0) as Hi0 by (unfold server_inv; by rewrite Hs).
  clear Hs Hi s. destruct Hi0 as [Hr Ht] eqn:Hi0'. clear Hi0'.
  destruct e; cbn; try done.
  - repeat case_match; cbn; try done;
      match goal with Hb : bool_decide (consistent _) = true |- _ => apply bool_decide_eq_true in Hb end;
      by apply store_inv.
  - destruct f; cbn; try done. unfold store. split; cbn; [done|]. by apply map_Forall_insert_2.
  - destruct (_ !! tx) as [m|] eqn:Hm; [|done]. assert (consistent m) by by eapply Ht.
    destruct f; cbn; try done; (split; cbn; [done|]); by apply map_Forall_delete.
  - split; cbn; [done|]. by apply map_Forall_delete.
Qed.

Lemma server_sound X (e : dbE X) s :
  server_inv s → db_spec e s.(srv_db) (handle_server X e s).1.(srv_db) (handle_server X e s).2.
Proof.
  intros Hi. unfold handle_server. pose proof (next_fault_db s) as Hs.
  destruct (next_fault s) as [f s0]. cbn in Hs. rewrite <-Hs. clear Hs Hi s. destruct e; cbn.
  - intros st -> m ->.
    assert (∀ e, driver_error e → AsPgError e ≠ Some "23505" → refused (srv_db s0) (srv_db s0) (Err e)) as Href.
    { intros e He Hu. by exists e. }
    destruct (inner_rows args st m) as [kept|] eqn:Hk; cbn [mbind option_bind]; [|left; by apply Href; [auto|]].
    destruct (writes args clock kept st m) as [o|] eqn:Hw; [|left; by apply Href; [auto|]].
    destruct o as [[m' n]|].
    + destruct (bool_decide (consistent m')); [|left; by apply Href; [auto|]].
      assert (∀ d' r, exec_outcome tx (Some (m', n)) (srv_db s0) d' r →
        refused (srv_db s0) d' r ∨ ∃ now kept, inner_answer args st m kept ∧
          ∀ o, writes args now kept st m = Some o → write_fits args now st m →
            exec_outcome tx o (srv_db s0) d' r) as Hdone.
      { intros d' r Hr. right. exists clock, kept. split; [by apply inner_rows_ok|]. intros o Ho _. congruence. }
      destruct f, tx as [tx|]; cbn; unfold store; cbn; try (left; by apply Href; [auto|]); apply Hdone; cbn.
      * exists m'. split; [done|]. split; [done|]. apply lookup_insert_eq.
      * by exists m'.
      * split; [auto|]. split; [done|]. right. split; [done|]. by exists m', n.
    + right. exists clock, kept. split; [by apply inner_rows_ok|]. intros o Ho _. rewrite Hw in Ho.
      injection Ho as <-. cbn. auto.
  - intros q m bs w -> -> ->. split; [done|]. unfold row_answer. destruct f; cbn; auto.
    destruct (answer q bs w m) as [[|v l]|] eqn:Ha; cbn; auto.
    + left. split; [done|]. by apply answer_ok.
    + destruct (scan_row ds v) as [x|] eqn:Hx; [|auto]. exists l, v. split; [by apply answer_ok|done].
  - intros q bs w -> ->. split; [done|]. unfold rows_answer. destruct f; cbn; auto.
    destruct (answer q bs w _) as [l|] eqn:Ha; cbn; auto. exists l.
    split; [by apply answer_ok|]. rewrite length_map. split_and!; [done|done|].
    intros i row v Hrow Hv. rewrite list_lookup_fmap, Hv in Hrow. injection Hrow as <-.
    destruct (scan_row ds v) eqn:Hx; [done|auto].
  - destruct f; cbn; auto. unfold store. cbn. by rewrite lookup_insert_eq.
  - intros m Hm. rewrite Hm. destruct f; cbn; auto.
  - done.
Qed.

#[export] Instance server_database : Database R handle_server.
Proof.
  refine {| db_view := srv_db; db_inv := server_inv |}.
  - by intros s [Hr _].
  - intros. by apply server_step_inv.
  - intros. by apply server_sound.
Defined.
End server.

(** * Statements over several tables *)

(** ** Putting rows in order *)
Section order.
Context {R : Type} `{Relation R}.
Fixpoint env_leb (order : list cref) (e e' : list (string * R)) : bool :=
  match order with
  | [] => true
  | c :: order' =>
      match col_get e c, col_get e' c with
      | Some (VText _), _ | _, Some (VText _) => true
      | Some v, Some w => value_less v w || bool_decide (v = w) && env_leb order' e e'
      | _, _ => true
      end
  end.
Lemma env_leb_le order e e' : env_leb order e e' = true → env_le order e e'.
Proof.
  induction order as [|c order IH]; [done|]. cbn [env_leb env_le].
  destruct (col_get e c) as [v|], (col_get e' c) as [w|]; [|by destruct v|by destruct w|done].
  destruct v, w; try done; intros [Hl|[Hv%bool_decide_eq_true Hr]%andb_true_iff]%orb_true_iff; auto.
Qed.
Fixpoint sortedb (order : list cref) (l : list (list (string * R))) : bool :=
  match l with [] => true | e :: l' => forallb (env_leb order e) l' && sortedb order l' end.
Lemma sortedb_sorted order l : sortedb order l = true → StronglySorted (env_le order) l.
Proof.
  induction l as [|e l IH]; [constructor|]. cbn [sortedb]. intros [He Hl]%andb_true_iff. constructor; [by apply IH|].
  apply Forall_forall. intros e' He'. apply env_leb_le. rewrite forallb_forall in He. by apply He, list_elem_of_In.
Qed.
(** What was put in order is checked to be. *)
Definition in_sequence (order : list cref) (l : list (list (string * R))) : option (list (list (string * R))) :=
  let l' := sort_slice (λ e e', negb (env_leb order e' e)) l in
  if sortedb order l' then Some l' else None.
Lemma in_sequence_ok order l l' : in_sequence order l = Some l' → l' ≡ₚ l ∧ StronglySorted (env_le order) l'.
Proof.
  unfold in_sequence. destruct (sortedb _ _) eqn:Hs; [|done]. intros [= <-]. split; [apply sort_slice_perm|by apply sortedb_sorted].
Qed.
End order.

Section joins.
Context {R : Type} `{Relation R}.
Context (sort : list order_item → list R → option (list R)).
Context (sort_ok : ∀ order l l', sort order l = Some l' → l' ≡ₚ l ∧ StronglySorted (row_le order) l').
Context (clock : Z).

Definition janswer (args : list arg) (q : jselect) (bs : list jbound) (m : gmap string R) : option (list (list value)) :=
  let found := jfound q.(js_from) bs m in
  match q.(js_items) with
  | [JCount] => Some [[VInt (Z.of_nat (length found))]]
  | [JSum c] => ns ← mapM (λ e, v ← col_get e c; int_value v) found; Some [[VNumeric (foldr Z.add 0 ns)]]
  | items => l ← in_sequence q.(js_order) found; mapM (λ e, mapM (jproject args e) items) l
  end.
Lemma janswer_ok args q bs m l : janswer args q bs m = Some l → janswers args q bs m l.
Proof.
  unfold janswer, janswers. set (found := jfound _ _ _).
  assert (∀ items, (l0 ← in_sequence (js_order q) found; mapM (λ e, mapM (jproject args e) items) l0) = Some l →
    ∃ sorted, sorted ≡ₚ found ∧ StronglySorted (env_le (js_order q)) sorted ∧
      mapM (λ e, mapM (jproject args e) items) sorted = Some l) as Hitems.
  { intros items (l0 & Hl & Hm)%bind_Some. destruct (in_sequence_ok _ _ _ Hl). by exists l0. }
  repeat case_match; intros Ha; try done; try (by apply Hitems); [by injection Ha|].
  apply bind_Some in Ha as (ns & Hns & [= <-]). by exists ns.
Qed.
Definition jread (args : list arg) (st : jstmt) (m : gmap string R) : option (list (list value)) :=
  match st with
  | JSelect q => bs ← mapM (jbind args) q.(js_where); janswer args q bs m
  | JUnlisted p t c =>
      v ← param_value args p;
      match v with
      | VArray texts => Some (map (λ k, [VText k]) (unlisted t c.(cr_column) texts m))
      | _ => None
      end
  | _ => None
  end.
Lemma jread_ok args st m l A : jread args st m = Some l → jreads args st = Some A → A m l.
Proof.
  destruct st as [q| | |p t c]; cbn [jread jreads]; [|done|done|].
  - intros (bs & -> & Ha)%bind_Some. destruct (known _); [|done]. intros [= <-]. by apply janswer_ok.
  - intros (v & -> & Hv)%bind_Some. destruct (bool_decide _); [|done]. destruct v; try done. injection Hv as <-.
    intros [= <-]. done.
Qed.

(** The constraint that a statement violates. *)
Definition jviolation (args : list arg) (st : jstmt) (m : gmap string R) : error :=
  let reference :=
    match st with
    | JInsert t columns q =>
        match jnew_rows args t columns q m with
        | Some rs => bool_decide (Exists (λ r, ¬ refers r m) rs)
        | None => false
        end
    | _ => false
    end in
  if reference then server_error "23503" "insert or update violates foreign key constraint"
  else server_error "23505" "duplicate key value violates unique constraint".
Lemma jviolation_driver args st m : driver_error (jviolation args st m).
Proof.
  unfold jviolation. cbv zeta. by destruct (match st with JInsert _ _ _ => _ | _ => _ end); apply driver_errors.
Qed.
Lemma jviolation_dangling args st m : AsPgError (jviolation args st m) = Some "23503" → dangling args st m.
Proof.
  unfold jviolation, dangling. cbv zeta. destruct st as [| |? ? ?|]; try done. intros Hr.
  destruct (jnew_rows args _ _ _ m) as [rs|]; [|done]. destruct (bool_decide _) eqn:Hd; [|done].
  apply bool_decide_eq_true in Hd. eauto.
Qed.

Definition jexec (st : jstmt) (tx : option Z) (args : list arg) (f : fault) (m : gmap string R) (s : server R)
    : server R * result (result Z) :=
  match jwrites args st m with
  | Some (Some (m', n)) =>
      if bool_decide (consistent m') then
        match f, tx with
        | NoFault, _ => (set_db (store tx m' s.(srv_db)) s, Ok (Ok n))
        | FaultAfter, None => (set_db (store tx m' s.(srv_db)) s, Err bad_connection)
        | _, _ => (s, Err bad_connection)
        end
      else (s, Err (server_error "23514" "new row violates check constraint"))
  | Some None => (s, Err (jviolation args st m))
  | None => (s, Err (server_error "42601" "syntax error"))
  end.
Definition scanned {ds} (v : list value) : result (tuple ds) :=
  match scan_row ds v with Some x => Ok x | None => Err (Opaque "sql: Scan error") end.
Definition handle_joins : handler dbE (server R) := λ X e s,
  match e in dbE X return server R * X with
  | ExecContext ctx tx query args =>
      match jparse query, visible tx s.(srv_db) with
      | Some st, Some m => let '(f, s) := next_fault s in jexec st tx args f m s
      | _, _ => handle_server sort clock _ (ExecContext ctx tx query args) s
      end
  | QueryRow ctx tx query args ds =>
      match jparse query, visible tx s.(srv_db) with
      | Some st, Some m =>
          let '(f, s) := next_fault s in
          (s, match f, jread args st m with
              | NoFault, Some [] => Err sql_ErrNoRows
              | NoFault, Some (v :: _) => scanned v
              | _, _ => Err bad_connection
              end)
      | _, _ => handle_server sort clock _ (QueryRow ctx tx query args ds) s
      end
  | Query ctx query args ds =>
      match jparse query with
      | Some st =>
          let '(f, s) := next_fault s in
          (s, match f, jread args st s.(srv_db).(db_rows) with
              | NoFault, Some l => Ok (map scanned l, None)
              | _, _ => Err bad_connection
              end)
      | None => handle_server sort clock _ (Query ctx query args ds) s
      end
  | e => handle_server sort clock _ e s
  end.

#[local] Hint Resolve driver_errors jviolation_driver opaque_driver bad_driver : core.
#[local] Arguments store : simpl never.
#[local] Arguments driver_error : simpl never.
Lemma next_fault_inv s : server_inv s → server_inv (next_fault s).2.
Proof. unfold server_inv. by rewrite next_fault_db. Qed.
Lemma jexec_inv st tx args f m s : server_inv s → server_inv (jexec st tx args f m s).1.
Proof.
  intros Hi. unfold jexec. destruct (jwrites args st m) as [[[m' n]|]|]; [|done|done].
  destruct (bool_decide (consistent m')) eqn:Hm; [|done]. apply bool_decide_eq_true in Hm.
  destruct f, tx; try done; by apply store_inv.
Qed.
Lemma joins_step_inv X (e : dbE X) s : server_inv s → server_inv (handle_joins X e s).1.
Proof.
  intros Hi. pose proof (next_fault_inv s Hi) as Hn.
  destruct e; cbn [handle_joins]; try (by apply server_step_inv).
  - destruct (jparse query), (visible tx (srv_db s)); try (by apply server_step_inv).
    destruct (next_fault s). by apply jexec_inv.
  - destruct (jparse query), (visible tx (srv_db s)); try (by apply server_step_inv). by destruct (next_fault s).
  - destruct (jparse query); [|by apply server_step_inv]. by destruct (next_fault s).
Qed.
Lemma jparse_parse query st : jparse query = Some st → parse query = None.
Proof. unfold jparse. by destruct (parse query). Qed.
Lemma joins_sound X (e : dbE X) s :
  server_inv s → db_spec e s.(srv_db) (handle_joins X e s).1.(srv_db) (handle_joins X e s).2.
Proof.
  intros Hi. destruct e; cbn [handle_joins]; try (by apply (server_sound sort sort_ok clock)).
  - destruct (jparse query) eqn:Hp, (visible tx (srv_db s)); try (by apply (server_sound sort sort_ok clock)).
    intros st'. by rewrite (jparse_parse _ _ Hp).
  - destruct (jparse query) eqn:Hp, (visible tx (srv_db s)); try (by apply (server_sound sort sort_ok clock)).
    intros q m' bs w. by rewrite (jparse_parse _ _ Hp).
  - destruct (jparse query) eqn:Hp; [|by apply (server_sound sort sort_ok clock)].
    intros q bs w. by rewrite (jparse_parse _ _ Hp).
Qed.
#[export] Instance joins_database : Database R handle_joins.
Proof.
  refine {| db_view := srv_db; db_inv := server_inv |}.
  - by intros s [Hr _].
  - intros. by apply joins_step_inv.
  - intros. by apply joins_sound.
Defined.

Lemma jexec_outcome st tx args f m s o :
  jwrites args st m = Some o → exec_outcome tx o s.(srv_db) (jexec st tx args f m s).1.(srv_db) (jexec st tx args f m s).2 ∧
  ∀ e, (jexec st tx args f m s).2 = Err e → AsPgError e = Some "23503" →
    (jexec st tx args f m s).1.(srv_db).(db_rows) = s.(srv_db).(db_rows) ∧ dangling args st m.
Proof.
  intros Hw. unfold jexec. rewrite Hw. destruct o as [[m' n]|].
  - destruct (bool_decide (consistent m')); [|split; [split; [by apply driver_errors|]; split; [done|by left]|by intros e [= <-]]].
    destruct f, tx as [tx|]; cbn; unfold store; cbn; (split; [|by intros e [= <-]]).
    + exists m'. split; [done|]. split; [done|]. apply lookup_insert_eq.
    + by exists m'.
    + split; [auto|]. split; [done|by left].
    + split; [auto|]. split; [done|by left].
    + split; [auto|]. split; [done|by left].
    + split; [auto|]. split; [done|]. right. split; [done|]. by exists m', n.
  - split; [cbn; auto|]. cbn. intros e [= <-] Hd. split; [done|]. by apply jviolation_dangling.
Qed.
Lemma scanned_ok {ds} v (r : result (tuple ds)) :
  scanned v = r → match r with Ok x => scan_row ds v = Some x | Err e => driver_error e end.
Proof. unfold scanned. intros <-. destruct (scan_row ds v); auto. Qed.
Lemma joins_jsound X (e : dbE X) s :
  server_inv s → jdb_spec e s.(srv_db) (handle_joins X e s).1.(srv_db) (handle_joins X e s).2.
Proof.
  intros Hi. pose proof (next_fault_db s) as Hf. destruct e; cbn [handle_joins jdb_spec]; try done.
  - intros st m o -> -> Hw _. destruct (next_fault s) as [f s0]. cbn in Hf. rewrite <-Hf. by apply jexec_outcome.
  - intros st m A -> -> Hr. destruct (next_fault s) as [f s0]. cbn in Hf. cbn. split; [done|]. unfold row_answer.
    destruct f; cbn; auto. destruct (jread args st m) as [[|v l]|] eqn:Hl; cbn; auto.
    + left. split; [done|]. by eapply jread_ok.
    + unfold scanned. destruct (scan_row ds v) as [x|] eqn:Hx; [|auto]. exists l, v. split; [by eapply jread_ok|done].
  - intros st A -> Hr. destruct (next_fault s) as [f s0]. cbn in Hf. cbn. split; [done|]. rewrite <-Hf. unfold rows_answer.
    destruct f; cbn; auto. destruct (jread args st _) as [l|] eqn:Hl; cbn; auto. exists l.
    split; [by eapply jread_ok|]. rewrite length_map. split_and!; [done|done|].
    intros i row v Hrow Hv. rewrite list_lookup_fmap, Hv in Hrow. injection Hrow as <-.
    by apply (scanned_ok v).
Qed.
#[export] Instance joins_join_database : JoinDatabase R handle_joins.
Proof. constructor. intros X e s Hi. by apply joins_jsound. Qed.
End joins.
