(* ===== verification/TaskPostgresTheorems.v ===== *)
(** The properties of the PostgreSQL repository of tasks as theorems, with their
    instances on a database that runs. *)

From S2P Require Import Prelude GoStd GoError Uuid Text Sql Breaker Postgres Task TaskMemory TaskSpec.
From S2P Require Import TaskPostgres TaskPostgresSpec ConcreteDb Concrete.
Local Open Scope Z_scope.

(** * A database of tasks *)
Definition task_sort (order : list order_item) (l : list Task) : option (list Task) :=
  match order with
  | [] => Some l
  | [Asc "created_at"; Asc "id"] => Some (sort_slice task_less l)
  | _ => None
  end.
Lemma task_less_row_le t t' : in_order task_less t t' → row_le [Asc "created_at"; Asc "id"] t t'.
Proof.
  unfold in_order, task_less, time.Equal, time.Before. cbn.
  destruct (Z.eqb_spec (task_CreatedAt t') (task_CreatedAt t)) as [He|Hne]; cbn [negb].
  - rewrite less_false. intros Hle. right. split; [by f_equal|]. unfold strings.less, String.ltb.
    unfold String.le, String.leb in Hle. destruct (String.compare (task_ID t) (task_ID t')) eqn:Hc; [right|by left|done].
    split; [|done]. f_equal. by apply String.compare_eq_iff.
  - intros Hle%Z.ltb_ge. left. apply Z.ltb_lt. lia.
Qed.
Lemma task_sort_ok order l l' :
  task_sort order l = Some l' → l' ≡ₚ l ∧ StronglySorted (row_le order) l'.
Proof.
  unfold task_sort. repeat case_match; intros [= <-]; try done.
  - split; [done|]. clear. induction l as [|t l IH]; constructor; [done|]. by apply Forall_true.
  - split; [apply sort_slice_perm|].
    pose proof (sort_slice_sorted task_less l) as Hs. induction Hs as [|t l' _ IH Ht]; constructor; [done|].
    eapply Forall_impl; [exact Ht|]. apply task_less_row_le.
Qed.
Definition task_server : handler dbE (server Task) := handle_server task_sort 0.
#[export] Instance task_database : Database Task task_server := server_database task_sort task_sort_ok 0.

(** * The filter *)

(** The WHERE clause that the listings and counts share.  Its text depends on
    how many statuses and priorities are asked for and on nothing else, so no value
    of a caller can change the statement; PostgreSQL reads it as conditions whose
    parameters are all supplied, in order, by the arguments beside it; and those
    conditions hold of exactly the tasks that the loop of the in-memory repository
    selects. *)
Theorem filter_clause_selects (u : string) (st : list Status) (pr : list Priority) :
  isValidID u = true →
  let '(clause, args) := buildTaskFilterWhere u st pr in
  (∀ u' st' pr', length st' = length st → length pr' = length pr →
     (buildTaskFilterWhere u' st' pr').1 = clause) ∧
  ∃ q bs, parse ("SELECT COUNT(*) FROM tasks " +:+ clause) = Some (SSelect q) ∧
    readable args q = Some (bs, (None, 0)) ∧
    ∀ t : Task, tests bs t = selects (lower_hex u) st pr t.
Proof.
  intros Hu. rewrite buildTaskFilterWhere_spec. split.
  - intros u' st' pr' Hst Hpr. rewrite buildTaskFilterWhere_spec. cbn [fst]. by rewrite Hst, Hpr.
  - exists (filtered [ICount] (length st) (length pr) None [] None), (filter_bounds u st pr).
    split; [apply parse_count|]. split; [|intros t; apply tests_filter].
    rewrite <-(app_nil_r (filter_args u st pr)). by apply readable_filtered.
Qed.

Example filter_clause_selects_witness :
  (buildTaskFilterWhere alice ["'; DROP TABLE tasks; --"; "done"] ["high"]).1 =
  "WHERE user_id = $1::uuid AND status IN ($2, $3) AND priority IN ($4)".
Proof.
  pose proof (filter_clause_selects alice ["'; DROP TABLE tasks; --"; "done"] ["high"] eq_refl) as Hf.
  destruct (buildTaskFilterWhere alice ["'; DROP TABLE tasks; --"; "done"] ["high"]) as [clause args].
  destruct Hf as [Htext _]. cbn [fst]. rewrite <-(Htext alice ["a"; "b"] ["c"] eq_refl eq_refl).
  vm_compute. reflexivity.
Defined.

(** * The repository *)

(** C24: over a database that executes its statements as documented, every call of
    the PostgreSQL repository of tasks does what the contract of [Repository] says,
    as the in-memory one does, of the values as PostgreSQL stores them (identifiers
    in lower case, times in whole microseconds).  The one exception is a call that
    is answered with a failure of the infrastructure after the database has done
    it: then what it did is what the contract says of a success.  In particular a
    filter, a window, a version conflict, a missing row and the counts by status
    and priority mean the same in SQL as in Go. *)
Theorem task_postgres_refines {S : Type} (h : handler dbE S) `{!Database Task h} (callTimeout : Z)
    {X : Type} (e : repoE X) (s : S) :
  db_inv s → task_call e →
  let '(s', r) := run h (task_postgres (NewPostgresRepository callTimeout) X e) s in
  let m := (db_view s).(db_rows) in
  let m' := (db_view s').(db_rows) in
  repo_spec (stored_call e) m m' r ∨
  ∃ err ok, failure (stored_call e) r = Some err ∧ foreign err = true ∧ failure (stored_call e) ok = None ∧
    repo_spec (stored_call e) m m' ok.
Proof.
  intros Hi Hc. pose proof (task_postgres_spec h (NewPostgresRepository callTimeout) X e s Hi Hc) as Hs.
  destruct (run h _ s) as [s' r]. destruct Hs as [_ Hs]. cbv zeta. exact Hs.
Qed.

Definition server_with (faults : list fault) : server Task :=
  {| srv_db := {| db_rows := two_tasks; db_txs := ∅ |}; srv_next := 7; srv_faults := faults |}.
Lemma server_with_inv faults : server_inv (server_with faults).
Proof. split; [exact (proj2 (consistent_wf _) two_tasks_wf)|]. apply map_Forall_empty. Qed.
Definition pg (X : Type) (e : repoE X) (faults : list fault) : server Task * X :=
  run task_server (task_postgres (NewPostgresRepository time.Second) X e) (server_with faults).

Example task_postgres_refines_witness :
  (pg _ (FindAll alice 10 0 ["pending"; "done"] ["medium"]) []).2 =
    Ok [mk_task id1 alice "write" StatusPending 1 1] ∧
  repo_spec (FindAll alice 10 0 ["pending"; "done"] ["medium"]) two_tasks
    (pg _ (FindAll alice 10 0 ["pending"; "done"] ["medium"]) []).1.(srv_db).(db_rows)
    (Ok [mk_task id1 alice "write" StatusPending 1 1]).
Proof.
  pose proof (task_postgres_refines task_server time.Second (FindAll alice 10 0 ["pending"; "done"] ["medium"])
    (server_with []) (server_with_inv []) ltac:(split; [reflexivity|lia])) as Hr.
  assert ((pg _ (FindAll alice 10 0 ["pending"; "done"] ["medium"]) []).2 =
    Ok [mk_task id1 alice "write" StatusPending 1 1]) as Hres by (vm_compute; reflexivity).
  split; [exact Hres|]. revert Hr Hres. unfold pg.
  destruct (run task_server _ (server_with [])) as [s' r]. cbn [fst snd].
  intros Hr ->. destruct Hr as [Hr|(err & ok & Herr & _)]; [exact Hr|discriminate Herr].
Defined.

(** An update under an old version is refused; one whose commit is answered by a
    broken connection has been made. *)
Example stale_update :
  (pg _ (Update (mk_task id1 alice "stale" StatusPending 1 9)) []).2 = Some (Sentinel ErrConflict).
Proof. vm_compute. reflexivity. Qed.
Example lost_commit :
  let '(s', r) := pg _ (Update (mk_task id1 alice "lost" StatusPending 1 1))
    [NoFault; NoFault; NoFault; FaultAfter] in
  option_map Error r = Some "postgres: update task: commit transaction: write tcp: broken pipe" ∧
  option_map task_Version (s'.(srv_db).(db_rows) !! id1) = Some 2.
Proof. vm_compute. done. Qed.

(** The two repositories differ on an identifier in upper case, which [Service]
    accepts. *)
Example upper_case_identifier :
  let ID := "AAAAAAAA-AAAA-4AAA-8AAA-AAAAAAAAAAAA" in
  isValidID ID = true ∧
  (pg _ (FindByID ID alice) []).2 = Ok (mk_task id1 alice "write" StatusPending 1 1) ∧
  mFindByID None ID alice two_tasks = Err (ErrNotFound task_pkg).
Proof. split_and!; vm_compute; reflexivity. Qed.
