(* ===== verification/UserPostgres.v ===== *)
(** [internal/user/postgres_repository.go]: the PostgreSQL repository of users and
    sessions, as programs over the calls of [database/sql]. *)

From S2P Require Import Prelude GoStd GoError Sql Breaker Postgres User.
Local Open Scope Z_scope.

(** The variables that [scanUser] scans a row into, and the user it returns. *)
Definition user_dests : list dest := [DString; DString; DString; DTime; DTime].
Definition scanUser (row : tuple user_dests) : User :=
  let '(id, (email, (password_hash, (created_at, (updated_at, _))))) := row in
  {| user_ID := id; user_Email := email; user_CreatedAt := created_at; user_UpdatedAt := updated_at;
     user_PasswordHash := password_hash |}.
(** The same for the two methods that scan a session in place. *)
Definition session_dests : list dest := [DString; DString; DTime; DTime].
Definition scanSession (row : tuple session_dests) : Session :=
  let '(token_hash, (user_id, (expires_at, (created_at, _)))) := row in
  {| sess_TokenHash := token_hash; sess_UserID := user_id; sess_ExpiresAt := expires_at;
     sess_CreatedAt := created_at |}.

Section repository.
Context (r : postgresRepository).
Local Open Scope prog_scope.
Abbreviation ctx := (withTimeout r).
Abbreviation failed := (db_failed user_pkg).

Definition pCreateUser (u : User) : prog dbE (option error) :=
  let query := "
		INSERT INTO users (id, email, password_hash, created_at, updated_at)
		VALUES ($1::uuid, $2, $3, $4, $5)
	" in
  res ← trigger (ExecContext ctx None query
    [ArgString u.(user_ID); ArgString u.(user_Email); ArgString u.(user_PasswordHash);
     ArgTime u.(user_CreatedAt); ArgTime u.(user_UpdatedAt)]);
  match res with
  | Err err =>
      mret (Some (if isUniqueViolation err then Sentinel (ErrAlreadyExists user_pkg)
                  else failed "postgres: create user" err))
  | Ok _ => mret None
  end.

Definition pFindUserByEmail (email : string) : prog dbE (result User) :=
  let query := "
		SELECT id::text, email, password_hash, created_at, updated_at
		FROM users
		WHERE email = $1
	" in
  row ← trigger (QueryRow ctx None query [ArgString email] user_dests);
  match row with
  | Err err =>
      mret (Err (if Is err sql_ErrNoRows then Sentinel (ErrNotFound user_pkg)
                 else failed "postgres: find user by email" err))
  | Ok row => mret (Ok (scanUser row))
  end.

Definition pFindUserByID (id : string) : prog dbE (result User) :=
  let query := "
		SELECT id::text, email, password_hash, created_at, updated_at
		FROM users
		WHERE id = $1::uuid
	" in
  row ← trigger (QueryRow ctx None query [ArgString id] user_dests);
  match row with
  | Err err =>
      mret (Err (if Is err sql_ErrNoRows then Sentinel (ErrNotFound user_pkg)
                 else failed "postgres: find user by id" err))
  | Ok row => mret (Ok (scanUser row))
  end.

Definition pUpdateUserPassword (id passwordHash : string) : prog dbE (option error) :=
  let query := "
		UPDATE users
		SET password_hash = $2, updated_at = now()
		WHERE id = $1::uuid
	" in
  result ← trigger (ExecContext ctx None query [ArgString id; ArgString passwordHash]);
  match result with
  | Err err | Ok (Err err) => mret (Some (failed "postgres: update user password" err))
  | Ok (Ok rows) => mret (if rows =? 0 then Some (Sentinel (ErrNotFound user_pkg)) else None)
  end.

Definition pDeleteUser (id : string) : prog dbE (option error) :=
  result ← trigger (ExecContext ctx None "DELETE FROM users WHERE id = $1::uuid" [ArgString id]);
  match result with
  | Err err | Ok (Err err) => mret (Some (failed "postgres: delete user" err))
  | Ok (Ok rows) => mret (if rows =? 0 then Some (Sentinel (ErrNotFound user_pkg)) else None)
  end.

(** The body of [CreateSession] inside its transaction; the deferred rollback is
    around it. *)
Definition session_in (tx : Z) (s : Session) (maxSessions : Z) : prog dbE (option error) :=
  locked ← trigger (ExecContext ctx (Some tx) "SELECT pg_advisory_xact_lock(hashtext($1))"
    [ArgString s.(sess_UserID)]);
  match locked with
  | Err err => mret (Some (failed "postgres: create session: acquire lock" err))
  | Ok _ =>
      let insertQuery := "
		INSERT INTO sessions (token_hash, user_id, expires_at, created_at)
		VALUES ($1, $2::uuid, $3, $4)
	" in
      inserted ← trigger (ExecContext ctx (Some tx) insertQuery
        [ArgString s.(sess_TokenHash); ArgString s.(sess_UserID); ArgTime s.(sess_ExpiresAt);
         ArgTime s.(sess_CreatedAt)]);
      match inserted with
      | Err err => mret (Some (failed "postgres: create session" err))
      | Ok _ =>
          let evictQuery := "
		DELETE FROM sessions
		WHERE user_id = $1::uuid
		  AND token_hash NOT IN (
		      SELECT token_hash FROM sessions
		      WHERE user_id = $1::uuid
		      ORDER BY created_at DESC
		      LIMIT $2
		  )
	" in
          evicted ← trigger (ExecContext ctx (Some tx) evictQuery
            [ArgString s.(sess_UserID); ArgInt maxSessions]);
          match evicted with
          | Err err => mret (Some (failed "postgres: create session: evict oldest" err))
          | Ok _ =>
              err ← trigger (Commit tx);
              mret match err with
                   | Some err => Some (failed "postgres: create session: commit transaction" err)
                   | None => None
                   end
          end
      end
  end.
Definition pCreateSession (s : Session) (maxSessions : Z) : prog dbE (option error) :=
  tx ← trigger (BeginTx ctx);
  match tx with
  | Err err => mret (Some (failed "postgres: create session: begin transaction" err))
  | Ok tx => res ← session_in tx s maxSessions; _ ← trigger (Rollback tx); mret res
  end.

Definition pDeleteSessionsForUser (userID : string) : prog dbE (option error) :=
  res ← trigger (ExecContext ctx None "DELETE FROM sessions WHERE user_id = $1::uuid" [ArgString userID]);
  match res with
  | Err err => mret (Some (failed "postgres: delete sessions for user" err))
  | Ok _ => mret None
  end.

Definition pDeleteSessionsForUserExcept (userID keepTokenHash : string) : prog dbE (option error) :=
  res ← trigger (ExecContext ctx None "DELETE FROM sessions WHERE user_id = $1::uuid AND token_hash != $2"
    [ArgString userID; ArgString keepTokenHash]);
  match res with
  | Err err => mret (Some (failed "postgres: delete sessions for user except" err))
  | Ok _ => mret None
  end.

Definition pFindSessionByTokenHash (tokenHash : string) : prog dbE (result Session) :=
  let query := "
		SELECT token_hash, user_id::text, expires_at, created_at
		FROM sessions
		WHERE token_hash = $1
	" in
  row ← trigger (QueryRow ctx None query [ArgString tokenHash] session_dests);
  match row with
  | Err err =>
      mret (Err (if Is err sql_ErrNoRows then Sentinel (ErrNotFound user_pkg)
                 else failed "postgres: find session" err))
  | Ok row => mret (Ok (scanSession row))
  end.

Definition pDeleteSession (tokenHash : string) : prog dbE (option error) :=
  res ← trigger (ExecContext ctx None "DELETE FROM sessions WHERE token_hash = $1" [ArgString tokenHash]);
  match res with
  | Err err => mret (Some (failed "postgres: delete session" err))
  | Ok _ => mret None
  end.

Definition pFindSessionsForUser (userID : string) : prog dbE (result (list Session)) :=
  let query := "
		SELECT token_hash, user_id::text, expires_at, created_at
		FROM sessions
		WHERE user_id = $1::uuid
		ORDER BY created_at DESC
	" in
  res ← trigger (Query ctx query [ArgString userID] session_dests);
  match res with
  | Err err => mret (Err (failed "postgres: find sessions for user" err))
  | Ok (rows, rowsErr) =>
      match scanRows scanSession rows [] with
      | Err err => mret (Err (failed "postgres: find sessions for user: scan" err))
      | Ok sessions =>
          match rowsErr with
          | Some err => mret (Err (failed "postgres: find sessions for user" err))
          | None => mret (Ok sessions)
          end
      end
  end.

Definition pDeleteExpiredSessions (now : Z) : prog dbE (option error) :=
  res ← trigger (ExecContext ctx None "DELETE FROM sessions WHERE expires_at < $1" [ArgTime now]);
  match res with
  | Err err => mret (Some (failed "postgres: delete expired sessions" err))
  | Ok _ => mret None
  end.

(** The repository as an implementation of the interface's calls. *)
Definition user_postgres X (e : userRepoE X) : prog dbE X :=
  match e in userRepoE X return prog dbE X with
  | CreateUser u => pCreateUser u
  | FindUserByEmail email => pFindUserByEmail email
  | FindUserByID id => pFindUserByID id
  | UpdateUserPassword id hash => pUpdateUserPassword id hash
  | DeleteUser id => pDeleteUser id
  | CreateSession s max => pCreateSession s max
  | FindSessionByTokenHash hash => pFindSessionByTokenHash hash
  | DeleteSession hash => pDeleteSession hash
  | FindSessionsForUser u => pFindSessionsForUser u
  | DeleteSessionsForUser u => pDeleteSessionsForUser u
  | DeleteSessionsForUserExcept u keep => pDeleteSessionsForUserExcept u keep
  | DeleteExpiredSessions now => pDeleteExpiredSessions now
  end.
End repository.
