(* ===== verification/UserPostgresSpec.v ===== *)
(** The PostgreSQL repository of users and sessions over a database that behaves as
    documented: the two tables as [Account] records, what its statements mean, and
    what each method does. *)

From S2P Require Import Prelude GoStd GoError Uuid Sql Breaker Postgres User UserMemory UserSpec UserPostgres.
Local Open Scope Z_scope.

(** * The tables *)
Inductive Account := AUser (u : User) | ASession (s : Session).

Definition user_cols (u : User) : list (string * value) :=
  [("id", VUuid u.(user_ID)); ("email", VText u.(user_Email)); ("password_hash", VText u.(user_PasswordHash));
   ("created_at", VTime u.(user_CreatedAt)); ("updated_at", VTime u.(user_UpdatedAt))].
Definition session_cols (s : Session) : list (string * value) :=
  [("token_hash", VText s.(sess_TokenHash)); ("user_id", VUuid s.(sess_UserID));
   ("expires_at", VTime s.(sess_ExpiresAt)); ("created_at", VTime s.(sess_CreatedAt))].
Definition account_cols (a : Account) : list (string * value) :=
  match a with AUser u => user_cols u | ASession s => session_cols s end.
Definition account_of_cols (table : string) (cols : list (string * value)) : option Account :=
  if String.eqb table "users" then
    i ← uuid_col "id" cols; e ← text_col "email" cols; p ← text_col "password_hash" cols;
    c ← time_col "created_at" cols; m ← time_col "updated_at" cols;
    Some (AUser {| user_ID := i; user_Email := e; user_CreatedAt := c; user_UpdatedAt := m;
                   user_PasswordHash := p |})
  else if String.eqb table "sessions" then
    t ← text_col "token_hash" cols; u ← uuid_col "user_id" cols;
    x ← time_col "expires_at" cols; c ← time_col "created_at" cols;
    Some (ASession {| sess_TokenHash := t; sess_UserID := u; sess_ExpiresAt := x; sess_CreatedAt := c |})
  else None.
Definition account_table (a : Account) : string :=
  match a with AUser _ => "users" | ASession _ => "sessions" end.

Definition user_key (id : string) : string := String "u" id.
Definition session_key (hash : string) : string := String "s" hash.

(** The columns of the migrations, with [users.email UNIQUE] and
    [sessions.user_id REFERENCES users(id) ON DELETE CASCADE]. *)
#[export] Instance account_relation : Relation Account := {|
  rel_tables := ["users"; "sessions"];
  rel_table := account_table;
  rel_key a := match a with AUser u => user_key u.(user_ID) | ASession s => session_key s.(sess_TokenHash) end;
  rel_get a c := cv ← List.find (λ cv, String.eqb cv.1 c) (account_cols a); Some cv.2;
  rel_make := account_of_cols;
  rel_set c v a := account_of_cols (account_table a) ((c, v) :: account_cols a);
  rel_unique t := if String.eqb t "users" then ["email"] else [];
  rel_parent a := match a with AUser _ => None | ASession s => Some (user_key s.(sess_UserID)) end;
  rel_fits a := match a with AUser u => utf8.RuneCountInString u.(user_Email) ≤ 320 | ASession _ => True end;
|}.

(** ** The accounts they hold *)
Definition as_user (a : Account) : option User := match a with AUser u => Some u | _ => None end.
Definition as_session (a : Account) : option Session := match a with ASession s => Some s | _ => None end.
Definition accounts (m : gmap string Account) : Accounts :=
  {| acc_users := part "u" as_user m; acc_sessions := part "s" as_session m |}.

Lemma users_Some m k u : acc_users (accounts m) !! k = Some u ↔ m !! user_key k = Some (AUser u).
Proof.
  cbn. rewrite lookup_part. change (String "u" k) with (user_key k).
  destruct (m !! user_key k) as [[u'|s]|]; cbn; naive_solver.
Qed.
Lemma sessions_Some m k s : acc_sessions (accounts m) !! k = Some s ↔ m !! session_key k = Some (ASession s).
Proof.
  cbn. rewrite lookup_part. change (String "s" k) with (session_key k).
  destruct (m !! session_key k) as [[u|s']|]; cbn; naive_solver.
Qed.
(** Rows that show these accounts. *)
Lemma accounts_eq m a :
  (∀ k u, m !! user_key k = Some (AUser u) ↔ a.(acc_users) !! k = Some u) →
  (∀ k s, m !! session_key k = Some (ASession s) ↔ a.(acc_sessions) !! k = Some s) → accounts m = a.
Proof.
  intros Hu Hs. destruct a as [us ss]. unfold accounts. f_equal; apply map_eq; intros k; apply option_eq; intros x.
  - rewrite <-Hu. apply users_Some.
  - rewrite <-Hs. apply sessions_Some.
Qed.

#[local] Arguments user_key : simpl never.
#[local] Arguments session_key : simpl never.
#[local] Arguments isValidID : simpl never.
#[local] Arguments lower_hex : simpl never.
#[local] Arguments micros : simpl never.

Lemma user_key_inj k k' : user_key k = user_key k' → k = k'.
Proof. by intros [= ->]. Qed.
Lemma session_key_inj k k' : session_key k = session_key k' → k = k'.
Proof. by intros [= ->]. Qed.
Lemma keys_apart k k' : user_key k ≠ session_key k'.
Proof. done. Qed.
#[local] Hint Resolve user_key_inj session_key_inj : core.

Section consistent.
Context (m : gmap string Account) (Hm : consistent m).

Lemma user_row k u : m !! k = Some (AUser u) → k = user_key u.(user_ID).
Proof. intros Hk. symmetry. exact (consistent_key m k (AUser u) Hm Hk). Qed.
Lemma session_row k s : m !! k = Some (ASession s) → k = session_key s.(sess_TokenHash).
Proof. intros Hk. symmetry. exact (consistent_key m k (ASession s) Hm Hk). Qed.
Lemma at_user_key k a : m !! user_key k = Some a → ∃ u, a = AUser u ∧ u.(user_ID) = k.
Proof.
  destruct a as [u|s]; intros Hk; [|by apply session_row in Hk]. exists u. split; [done|].
  symmetry. by apply user_key_inj, user_row.
Qed.
Lemma at_session_key k a : m !! session_key k = Some a → ∃ s, a = ASession s ∧ s.(sess_TokenHash) = k.
Proof.
  destruct a as [u|s]; intros Hk; [by apply user_row in Hk|]. exists s. split; [done|].
  symmetry. by apply session_key_inj, session_row.
Qed.
Lemma no_user k : acc_users (accounts m) !! k = None ↔ m !! user_key k = None.
Proof.
  rewrite !eq_None_not_Some. unfold is_Some. setoid_rewrite users_Some. split; [|naive_solver].
  intros Hn (a & Ha). destruct (at_user_key k a Ha) as (u & -> & _). eauto.
Qed.
Lemma no_session k : acc_sessions (accounts m) !! k = None ↔ m !! session_key k = None.
Proof.
  rewrite !eq_None_not_Some. unfold is_Some. setoid_rewrite sessions_Some. split; [|naive_solver].
  intros Hn (a & Ha). destruct (at_session_key k a Ha) as (s & -> & _). eauto.
Qed.

(** The constraints of the tables are what the contract asks of accounts, and no
    session is without its user. *)
Lemma accounts_wf : wf_accounts (accounts m).
Proof.
  split.
  - intros k u Hk%users_Some. destruct (at_user_key _ _ Hk) as (? & [= <-] & ?). done.
  - intros k k' u u' Hk%users_Some Hk'%users_Some He. apply user_key_inj.
    destruct (Hm _ _ Hk) as (_ & _ & Hc). apply (Hc _ _ Hk'). unfold clash. cbn. by rewrite bool_decide_eq_true_2 by congruence.
  - intros k s Hk%sessions_Some. destruct (at_session_key _ _ Hk) as (? & [= <-] & ?). done.
Qed.
Lemma session_user k s :
  acc_sessions (accounts m) !! k = Some s → is_Some (acc_users (accounts m) !! s.(sess_UserID)).
Proof.
  intros Hk%sessions_Some. destruct (Hm _ _ Hk) as (_ & Hr & _). unfold refers in Hr. cbn in Hr. destruct Hr as [a Ha].
  destruct (at_user_key _ _ Ha) as (u & -> & _). exists u. by apply users_Some.
Qed.
End consistent.
#[local] Hint Resolve accounts_wf : core.

(** * The calls as PostgreSQL stores them *)
Definition stored_user (u : User) : User :=
  {| user_ID := lower_hex u.(user_ID); user_Email := u.(user_Email); user_CreatedAt := micros u.(user_CreatedAt);
     user_UpdatedAt := micros u.(user_UpdatedAt); user_PasswordHash := u.(user_PasswordHash) |}.
Definition stored_session (s : Session) : Session :=
  {| sess_TokenHash := s.(sess_TokenHash); sess_UserID := lower_hex s.(sess_UserID);
     sess_ExpiresAt := micros s.(sess_ExpiresAt); sess_CreatedAt := micros s.(sess_CreatedAt) |}.
Definition stored_ucall {X} (e : userRepoE X) : userRepoE X :=
  match e with
  | CreateUser u => CreateUser (stored_user u)
  | FindUserByEmail email => FindUserByEmail email
  | FindUserByID id => FindUserByID (lower_hex id)
  | UpdateUserPassword id hash => UpdateUserPassword (lower_hex id) hash
  | DeleteUser id => DeleteUser (lower_hex id)
  | CreateSession s max => CreateSession (stored_session s) max
  | FindSessionByTokenHash hash => FindSessionByTokenHash hash
  | DeleteSession hash => DeleteSession hash
  | FindSessionsForUser u => FindSessionsForUser (lower_hex u)
  | DeleteSessionsForUser u => DeleteSessionsForUser (lower_hex u)
  | DeleteSessionsForUserExcept u keep => DeleteSessionsForUserExcept (lower_hex u) keep
  | DeleteExpiredSessions now => DeleteExpiredSessions (micros now)
  end.
(** The calls [Service] makes: identifiers that are UUIDs, and an address within the
    limit it enforces. *)
Definition user_call {X} (e : userRepoE X) : Prop :=
  match e with
  | CreateUser u => isValidID u.(user_ID) = true ∧ rel_fits (AUser u)
  | FindUserByID id | UpdateUserPassword id _ | DeleteUser id | FindSessionsForUser id
  | DeleteSessionsForUser id | DeleteSessionsForUserExcept id _ => isValidID id = true
  | CreateSession s _ => isValidID s.(sess_UserID) = true
  | FindUserByEmail _ | FindSessionByTokenHash _ | DeleteSession _ | DeleteExpiredSessions _ => True
  end.

(** What the repository promises: the contract, except that a deleted user takes
    the sessions along. *)
Definition pg_user_spec {X} (e : userRepoE X) (a a' : Accounts) : X → Prop :=
  match e in userRepoE X return X → Prop with
  | DeleteUser id => λ r,
      match r with
      | None => is_Some (a.(acc_users) !! id) ∧
          a' = {| acc_users := delete id a.(acc_users);
                  acc_sessions := delete_where (λ _ s, String.eqb s.(sess_UserID) id) a.(acc_sessions) |}
      | Some e => a' = a ∧ (e = ErrNotFound user_pkg ∧ a.(acc_users) !! id = None ∨ uforeign e = true)
      end
  | e => user_spec e a a'
  end.
(** The call was answered with a failure although the store has done it. *)
Definition ulost {X} (e : userRepoE X) (a a' : Accounts) (r : X) : Prop :=
  ∃ err ok, failure e r = Some err ∧ uforeign err = true ∧ failure e ok = None ∧ pg_user_spec e a a' ok.
Definition pg_answered {X} (e : userRepoE X) (a a' : Accounts) (r : X) : Prop :=
  pg_user_spec e a a' r ∨ ulost e a a' r.

#[local] Arguments uforeign : simpl never.
#[local] Arguments db_failed : simpl never.
#[local] Arguments accounts : simpl never.

Lemma user_failed_foreign msg err : driver_error err → uforeign (db_failed user_pkg msg err) = true.
Proof.
  intros Hd. apply forallb_forall. intros s Hs%list_elem_of_In. apply negb_true_iff, db_failed_Is; [done| |];
    (unfold user_sentinels in Hs; set_solver).
Qed.
#[local] Hint Resolve user_failed_foreign : core.

(** * What the statements do *)
(** ** Deleting sessions *)
Definition without_sessions (f : Session → bool) (m : gmap string Account) : gmap string Account :=
  rows_with (λ a, match a with AUser _ => true | ASession s => negb (f s) end) m.
Lemma accounts_without f m :
  accounts (without_sessions f m) =
  set_acc_sessions (delete_where (λ _ s, f s) (accounts m).(acc_sessions)) (accounts m).
Proof.
  apply accounts_eq; intros k x; unfold without_sessions; rewrite lookup_rows_with; cbn [acc_users acc_sessions set_acc_sessions].
  - rewrite users_Some. naive_solver.
  - rewrite lookup_delete_where, sessions_Some, negb_true_iff. done.
Qed.
Lemma not_orphan m t bs a : consistent m → t = "sessions" → orphan (matching t bs m) a = false.
Proof.
  intros Hm ->. unfold orphan. destruct a as [u|s]; [done|]. cbn [rel_parent account_relation].
  apply bool_decide_eq_false_2. intros [a Ha]. apply lookup_matching in Ha as (Ha & Ht & _).
  destruct (at_user_key m Hm _ _ Ha) as (u & -> & _). done.
Qed.
Lemma writes_delete_sessions args now kept conds bs f m :
  consistent m → mapM (bind_cond args) conds = Some bs → (∀ s, tests bs (ASession s) = f s) →
  writes args now kept (SDelete "sessions" conds None) m =
  Some (Some (without_sessions f m, Z.of_nat (size (matching "sessions" bs m)))).
Proof.
  intros Hm Hbs Hf. unfold writes. rewrite bool_decide_eq_true_2 by (right; left). rewrite Hbs.
  cbn [mbind option_bind]. cbv zeta. change (rows_with (doomed kept "sessions" bs None) m) with (matching "sessions" bs m).
  do 3 f_equal. unfold without_sessions. apply map_eq. intros k. apply option_eq. intros a. rewrite !lookup_rows_with.
  apply and_iff_compat_l. rewrite not_orphan by done. cbn [orb]. unfold doomed, chosen.
  destruct a as [u|s]; cbn [account_relation rel_table account_table]; [done|]. by rewrite Hf.
Qed.
Lemma delete_where_ext {A} (f g : string → A → bool) m :
  (∀ k x, m !! k = Some x → f k x = g k x) → delete_where f m = delete_where g m.
Proof.
  intros He. apply map_eq. intros k. apply option_eq. intros x. rewrite !lookup_delete_where.
  split; intros [Hk Hf]; (split; [done|]); by rewrite <-Hf, (He k x Hk).
Qed.
Lemma delete_where_key {A} (f : A → string) (m : gmap string A) k :
  (∀ k' x, m !! k' = Some x → f x = k') → delete_where (λ _ x, String.eqb (f x) k) m = delete k m.
Proof.
  intros Hk. apply map_eq. intros k'. apply option_eq. intros x. rewrite lookup_delete_where, lookup_delete_Some.
  split; intros [H1 H2]; pose proof (Hk k' x) as Hx.
  - apply String.eqb_neq in H2. naive_solver.
  - split; [done|]. apply String.eqb_neq. naive_solver.
Qed.

(** * The methods *)
Section methods.
Context {S : Type} (h : handler dbE S) `{!Database Account h} (repo : postgresRepository).
Abbreviation view s := (accounts (db_view s).(db_rows)).
Abbreviation rows s := ((db_view s).(db_rows)).

(** A deletion of sessions whose count nobody looks at. *)
Lemma delete_sessions query args conds bs f msg s :
  db_inv s → parse query = Some (SDelete "sessions" conds None) →
  mapM (bind_cond args) conds = Some bs → (∀ x, tests bs (ASession x) = f x) →
  let '(s', r) := run h (mbind (λ res, match res with Err err => mret (Some (db_failed user_pkg msg err)) | Ok _ => mret None end)
    (trigger (ExecContext (withTimeout repo) None query args))) s in
  db_inv s' ∧
  let done := set_acc_sessions (delete_where (λ _ x, f x) (view s).(acc_sessions)) (view s) in
  match r with
  | None => view s' = done
  | Some e => uforeign e = true ∧ (view s' = view s ∨ view s' = done)
  end.
Proof.
  intros Hi Hq Hbs Hf. rewrite run_bind, run_trigger. destruct (h _ _ s) as [s' r] eqn:E.
  edestruct (exec_call h) as [Hi' Hr]; [exact Hi|exact E|exact Hq|reflexivity| |intros now; exact I|].
  { intros now kept. by apply writes_delete_sessions; [apply db_consistent|..]. }
  destruct r as [[n|e]|e]; rewrite run_ret; (split; [done|]); cbv zeta; rewrite <-accounts_without; cbn in Hr.
  - destruct Hr as (m' & [= <- _] & ->). done.
  - destruct Hr as (_ & m' & n & [= <- _] & ->). done.
  - destruct Hr as (He & _ & Hr). split; [auto|]. destruct Hr as [->|(_ & m' & n & [= <- _] & ->)]; auto.
Qed.
Lemma exec_answered (e : userRepoE (option error)) a b a' r :
  pg_user_spec e a b None → (∀ x, failure e x = x) →
  (∀ err, uforeign err = true → pg_user_spec e a a (Some err)) →
  match r with None => a' = b | Some err => uforeign err = true ∧ (a' = a ∨ a' = b) end →
  pg_answered e a a' r.
Proof.
  intros Hok Hf Herr. destruct r as [err|]; [|intros ->; by left]. intros [He [-> | ->]]; [left; auto|].
  right. exists err, None. auto.
Qed.

Definition meets {X} (e : userRepoE X) (p : prog dbE X) : Prop := ∀ s,
  db_inv s → fresh_call (stored_ucall e) (view s) → user_call e →
  let '(s', r) := run h p s in
  db_inv s' ∧ pg_answered (stored_ucall e) (view s) (view s') r.

Lemma pDeleteSessionsForUser_spec u : meets (DeleteSessionsForUser u) (pDeleteSessionsForUser repo u).
Proof.
  intros s Hi _ Hu. unfold pDeleteSessionsForUser.
  pose proof (delete_sessions "DELETE FROM sessions WHERE user_id = $1::uuid" [ArgString u]
    [CCompare "user_id" OpEq (uuid 1)] [BCompare "user_id" OpEq (VUuid (lower_hex u))]
    (λ x, String.eqb x.(sess_UserID) (lower_hex u)) "postgres: delete sessions for user" s Hi) as Hd.
  destruct (run h _ s) as [s' r]. destruct Hd as [Hi' Hd]; [vm_compute; reflexivity| | |].
  - cbn [mapM]. by rewrite (bind_uuid _ _ _ 1 u).
  - intros x. cbn. by rewrite bool_decide_uuid, andb_true_r.
  - split; [done|]. eapply exec_answered; [..|exact Hd]; cbn; auto.
Qed.
Lemma pDeleteSessionsForUserExcept_spec u keep :
  meets (DeleteSessionsForUserExcept u keep) (pDeleteSessionsForUserExcept repo u keep).
Proof.
  intros s Hi _ Hu. unfold pDeleteSessionsForUserExcept.
  pose proof (delete_sessions "DELETE FROM sessions WHERE user_id = $1::uuid AND token_hash != $2"
    [ArgString u; ArgString keep] [CCompare "user_id" OpEq (uuid 1); CCompare "token_hash" OpNe (plain 2)]
    [BCompare "user_id" OpEq (VUuid (lower_hex u)); BCompare "token_hash" OpNe (VText keep)]
    (λ x, String.eqb x.(sess_UserID) (lower_hex u) && negb (String.eqb x.(sess_TokenHash) keep))
    "postgres: delete sessions for user except" s Hi) as Hd.
  destruct (run h _ s) as [s' r]. destruct Hd as [Hi' Hd]; [vm_compute; reflexivity| | |].
  - cbn [mapM]. rewrite (bind_uuid _ _ _ 1 u) by done. cbn [mbind option_bind].
    by rewrite (bind_plain _ _ _ 2 (ArgString keep) (VText keep)).
  - intros x. cbn. by rewrite bool_decide_uuid, bool_decide_not, bool_decide_text, andb_true_r.
  - split; [done|]. eapply exec_answered; [..|exact Hd]; [|done|cbn; auto]. cbn. f_equal. apply delete_where_ext.
    intros k x Hk. by rewrite (wf_session _ (accounts_wf _ (db_consistent s Hi)) k x Hk).
Qed.
Lemma pDeleteSession_spec hash : meets (DeleteSession hash) (pDeleteSession repo hash).
Proof.
  intros s Hi _ _. unfold pDeleteSession.
  pose proof (delete_sessions "DELETE FROM sessions WHERE token_hash = $1" [ArgString hash]
    [CCompare "token_hash" OpEq (plain 1)] [BCompare "token_hash" OpEq (VText hash)]
    (λ x, String.eqb x.(sess_TokenHash) hash) "postgres: delete session" s Hi) as Hd.
  destruct (run h _ s) as [s' r]. destruct Hd as [Hi' Hd]; [vm_compute; reflexivity|done| |].
  - intros x. cbn. by rewrite bool_decide_text, andb_true_r.
  - split; [done|]. eapply exec_answered; [..|exact Hd]; [|done|cbn; auto]. cbn. f_equal.
    apply delete_where_key, accounts_wf, (db_consistent s Hi).
Qed.
Lemma pDeleteExpiredSessions_spec now : meets (DeleteExpiredSessions now) (pDeleteExpiredSessions repo now).
Proof.
  intros s Hi _ _. unfold pDeleteExpiredSessions.
  pose proof (delete_sessions "DELETE FROM sessions WHERE expires_at < $1" [ArgTime now]
    [CCompare "expires_at" OpLt (plain 1)] [BCompare "expires_at" OpLt (VTime (micros now))]
    (λ x, time.Before x.(sess_ExpiresAt) (micros now)) "postgres: delete expired sessions" s Hi) as Hd.
  destruct (run h _ s) as [s' r]. destruct Hd as [Hi' Hd]; [vm_compute; reflexivity|done| |].
  - intros x. cbn. by rewrite andb_true_r.
  - split; [done|]. eapply exec_answered; [..|exact Hd]; cbn; auto.
Qed.

(** ** Finding one row *)
Definition one_select (items : list item) (table : string) (c : cond) : select :=
  {| sel_items := items; sel_table := table; sel_where := [c]; sel_group := None; sel_order := [];
     sel_window := None; sel_update := false |}.
Definition user_items : list item :=
  [IColumn "id" true; IColumn "email" false; IColumn "password_hash" false; IColumn "created_at" false;
   IColumn "updated_at" false].
Definition session_items : list item :=
  [IColumn "token_hash" false; IColumn "user_id" true; IColumn "expires_at" false; IColumn "created_at" false].
Lemma scan_user u v x :
  mapM (project (AUser u)) user_items = Some v → scan_row user_dests v = Some x → scanUser x = u.
Proof. destruct u. intros [= <-] [= <-]. done. Qed.
Lemma scan_session s v x :
  mapM (project (ASession s)) session_items = Some v → scan_row session_dests v = Some x → scanSession x = s.
Proof. destruct s. intros [= <-] [= <-]. done. Qed.

(** A query on one column that at most one row of the table matches. *)
Lemma one_row query args ds items table c b k s s' r :
  db_inv s → h _ (QueryRow (withTimeout repo) None query args ds) s = (s', r) →
  parse query = Some (SSelect (one_select items table c)) → table ∈ rel_tables → items ≠ [ICount] →
  bind_cond args c = Some b → (∀ k' a, matching table [b] (rows s) !! k' = Some a → k' = k) →
  db_inv s' ∧ view s' = view s ∧
  match r with
  | Ok x => ∃ a v, matching table [b] (rows s) !! k = Some a ∧ mapM (project a) items = Some v ∧ scan_row ds v = Some x
  | Err e => e = sql_ErrNoRows ∧ matching table [b] (rows s) !! k = None ∨ driver_error e
  end.
Proof.
  intros Hi E Hq Ht Hit Hb Hu.
  edestruct (row_call h) with (q := one_select items table c) (bs := [b]) as (Hi' & Hv & Hr);
    [exact Hi|exact E|exact Hq|reflexivity| |].
  { unfold readable. cbn [one_select sel_table sel_where sel_window window_of mapM].
    rewrite bool_decide_eq_true_2 by done. by rewrite Hb. }
  split; [done|]. split; [by rewrite Hv|].
  pose proof (found_one table [b] (rows s) k Hu) as Hf.
  destruct r as [x|e].
  - destruct Hr as (l & v & Ha & Hx). apply (answers_one (one_select items table c) _ _ _ _ eq_refl Hit Hf) in Ha.
    destruct (matching table [b] (rows s) !! k) as [a|]; [|done]. destruct Ha as (v' & Hp & [= -> ->]). eauto.
  - destruct Hr as [[-> Ha]|He]; [|auto]. left. split; [done|].
    apply (answers_one (one_select items table c) _ _ _ _ eq_refl Hit Hf) in Ha.
    destruct (matching table [b] (rows s) !! k) as [a|]; [|done]. by destruct Ha as (v' & _ & ?).
Qed.

(** Which row has an identifier, an address or a token hash. *)
Lemma user_with_id id m k a :
  consistent m → matching "users" [BCompare "id" OpEq (VUuid id)] m !! k = Some a →
  k = user_key id ∧ ∃ u, a = AUser u ∧ acc_users (accounts m) !! id = Some u.
Proof.
  intros Hm (Hk & Ht & Hb)%lookup_matching. destruct a as [u|x]; [|done]. cbn in Hb.
  rewrite bool_decide_uuid, andb_true_r, String.eqb_eq in Hb. pose proof (user_row m Hm k u Hk) as ->.
  rewrite Hb in *. split; [done|]. exists u. split; [done|]. by apply users_Some.
Qed.
Lemma users_id id m :
  matching "users" [BCompare "id" OpEq (VUuid id)] m !! user_key id = None → consistent m →
  acc_users (accounts m) !! id = None.
Proof.
  intros Hn Hm. apply eq_None_not_Some. intros (u & Hu). apply users_Some in Hu.
  destruct (at_user_key m Hm _ _ Hu) as (u' & [= <-] & He). rewrite eq_None_not_Some in Hn. apply Hn. exists (AUser u).
  apply lookup_matching. split_and!; [done|done|]. cbn. by rewrite bool_decide_uuid, He, String.eqb_refl.
Qed.
Lemma session_with_hash hash m k a :
  consistent m → matching "sessions" [BCompare "token_hash" OpEq (VText hash)] m !! k = Some a →
  k = session_key hash ∧ ∃ x, a = ASession x ∧ acc_sessions (accounts m) !! hash = Some x.
Proof.
  intros Hm (Hk & Ht & Hb)%lookup_matching. destruct a as [u|x]; [done|]. cbn in Hb.
  rewrite bool_decide_text, andb_true_r, String.eqb_eq in Hb. pose proof (session_row m Hm k x Hk) as ->.
  rewrite Hb in *. split; [done|]. exists x. split; [done|]. by apply sessions_Some.
Qed.
Lemma sessions_hash hash m :
  matching "sessions" [BCompare "token_hash" OpEq (VText hash)] m !! session_key hash = None → consistent m →
  acc_sessions (accounts m) !! hash = None.
Proof.
  intros Hn Hm. apply eq_None_not_Some. intros (x & Hx). apply sessions_Some in Hx.
  destruct (at_session_key m Hm _ _ Hx) as (x' & [= <-] & He). rewrite eq_None_not_Some in Hn. apply Hn. exists (ASession x).
  apply lookup_matching. split_and!; [done|done|]. cbn. by rewrite bool_decide_text, He, String.eqb_refl.
Qed.
Lemma user_with_email email m k a :
  consistent m → matching "users" [BCompare "email" OpEq (VText email)] m !! k = Some a →
  ∃ u, a = AUser u ∧ k = user_key u.(user_ID) ∧ has_email (accounts m) email u.
Proof.
  intros Hm (Hk & Ht & Hb)%lookup_matching. destruct a as [u|x]; [|done]. cbn in Hb.
  rewrite bool_decide_text, andb_true_r, String.eqb_eq in Hb. pose proof (user_row m Hm k u Hk) as ->.
  exists u. split; [done|]. split; [done|]. split; [by apply users_Some|done].
Qed.
Lemma one_with_email email m :
  consistent m → ∃ k, ∀ k' a, matching "users" [BCompare "email" OpEq (VText email)] m !! k' = Some a → k' = k.
Proof.
  intros Hm. set (found := matching _ _ _). destruct (decide (found = ∅)) as [->|(k & a & Hk)%map_choose].
  - exists "". intros k' a. by rewrite lookup_empty.
  - exists k. intros k' a' Hk'.
    destruct (user_with_email email m k a Hm Hk) as (u & _ & -> & [Hu He]).
    destruct (user_with_email email m k' a' Hm Hk') as (u' & _ & -> & [Hu' He']).
    f_equal. by rewrite (wf_email _ (accounts_wf m Hm) _ _ _ _ Hu Hu') by congruence.
Qed.

Lemma pFindUserByID_spec id : meets (FindUserByID id) (pFindUserByID repo id).
Proof.
  intros s Hi _ Hid. unfold pFindUserByID. rewrite run_bind, run_trigger. destruct (h _ _ s) as [s' r] eqn:E.
  pose proof (db_consistent s Hi) as Hm.
  edestruct one_row with (items := user_items) (table := "users") (c := CCompare "id" OpEq (uuid 1)) (k := user_key (lower_hex id))
    as (Hi' & Hv & Hr); [exact Hi|exact E|vm_compute; reflexivity|left|done|by apply bind_uuid| |].
  { intros k' a Ha. by destruct (user_with_id _ _ _ _ Hm Ha). }
  destruct r as [x|e]; cbn; rewrite Hv; (split; [done|]); left; (split; [done|]).
  - destruct Hr as (a & v & Ha & Hp & Hx). apply user_with_id in Ha as (_ & u & -> & Hu); [|done].
    by rewrite (scan_user u v x Hp Hx).
  - destruct Hr as [[-> Ha]|He]; [left; split; [done|by apply users_id]|]. right. rewrite not_no_rows by done. auto.
Qed.
Lemma pFindUserByEmail_spec email : meets (FindUserByEmail email) (pFindUserByEmail repo email).
Proof.
  intros s Hi _ _. unfold pFindUserByEmail. rewrite run_bind, run_trigger. destruct (h _ _ s) as [s' r] eqn:E.
  pose proof (db_consistent s Hi) as Hm. destruct (one_with_email email (rows s) Hm) as [k Hk].
  edestruct one_row with (items := user_items) (table := "users") (c := CCompare "email" OpEq (plain 1)) (k := k)
    as (Hi' & Hv & Hr); [exact Hi|exact E|vm_compute; reflexivity|left|done|by apply (bind_plain _ _ _ 1 (ArgString email))|exact Hk|].
  destruct r as [x|e]; cbn; rewrite Hv; (split; [done|]); left; (split; [done|]).
  - destruct Hr as (a & v & Ha & Hp & Hx). apply user_with_email in Ha as (u & -> & _ & Hu); [|done].
    by rewrite (scan_user u v x Hp Hx).
  - destruct Hr as [[-> Ha]|He]; [left; split; [done|]|right; rewrite not_no_rows by done; auto].
    intros id u Hu%users_Some He. assert (matching "users" [BCompare "email" OpEq (VText email)] (rows s) !! user_key id
      = Some (AUser u)) as Hmt.
    { apply lookup_matching. split_and!; [done|done|]. cbn. by rewrite bool_decide_text, He, String.eqb_refl. }
    pose proof (Hk _ _ Hmt). congruence.
Qed.
Lemma pFindSessionByTokenHash_spec hash : meets (FindSessionByTokenHash hash) (pFindSessionByTokenHash repo hash).
Proof.
  intros s Hi _ _. unfold pFindSessionByTokenHash. rewrite run_bind, run_trigger. destruct (h _ _ s) as [s' r] eqn:E.
  pose proof (db_consistent s Hi) as Hm.
  edestruct one_row with (items := session_items) (table := "sessions") (c := CCompare "token_hash" OpEq (plain 1)) (k := session_key hash)
    as (Hi' & Hv & Hr); [exact Hi|exact E|vm_compute; reflexivity|right; left|done|by apply (bind_plain _ _ _ 1 (ArgString hash))| |].
  { intros k' a Ha. by destruct (session_with_hash _ _ _ _ Hm Ha). }
  destruct r as [x|e]; cbn; rewrite Hv; (split; [done|]); left; (split; [done|]).
  - destruct Hr as (a & v & Ha & Hp & Hx). apply session_with_hash in Ha as (_ & u & -> & Hu); [|done].
    by rewrite (scan_session u v x Hp Hx).
  - destruct Hr as [[-> Ha]|He]; [left; split; [done|by apply sessions_hash]|]. right. rewrite not_no_rows by done. auto.
Qed.

(** ** The sessions of a user, newest first *)
Definition of_user (u : string) : bound := BCompare "user_id" OpEq (VUuid u).
Definition newest_select (items : list item) (window : option (param * option param)) : select :=
  {| sel_items := items; sel_table := "sessions"; sel_where := [CCompare "user_id" OpEq (uuid 1)];
     sel_group := None; sel_order := [Desc "created_at"]; sel_window := window; sel_update := false |}.
Lemma of_user_row m u k a :
  consistent m → matching "sessions" [of_user u] m !! k = Some a ↔
  ∃ x, a = ASession x ∧ k = session_key x.(sess_TokenHash) ∧
    acc_sessions (accounts m) !! x.(sess_TokenHash) = Some x ∧ x.(sess_UserID) = u.
Proof.
  intros Hm. rewrite lookup_matching. unfold tests, of_user. split.
  - intros (Hk & Ht & Hb). destruct a as [w|x]; [done|]. cbn in Hb. rewrite bool_decide_uuid, andb_true_r, String.eqb_eq in Hb.
    exists x. pose proof (session_row m Hm k x Hk) as ->. split_and!; try done. by apply sessions_Some.
  - intros (x & -> & -> & Hx%sessions_Some & <-). split_and!; [done|done|]. cbn. by rewrite bool_decide_uuid, String.eqb_refl.
Qed.
Lemma found_sessions m u sorted :
  consistent m → sorted ≡ₚ values (map_to_list (matching "sessions" [of_user u] m)) →
  ∃ xs, sorted = map ASession xs ∧ xs ≡ₚ sessions_of (accounts m).(acc_sessions) u.
Proof.
  intros Hm Hp. assert (∀ a, a ∈ sorted ↔ ∃ k, matching "sessions" [of_user u] m !! k = Some a) as Hin.
  { intros a. rewrite Hp. by rewrite elem_of_values by by unfold range_of. }
  assert (NoDup sorted) as Hnd.
  { rewrite Hp. unfold values. apply NoDup_fmap_2_strong; [|apply NoDup_map_to_list].
    intros [k a] [k' a'] Ha Ha' Heq. cbn in Heq. subst a'. rewrite elem_of_map_to_list in Ha, Ha'.
    apply of_user_row in Ha as (x & -> & -> & _), Ha' as (x' & [= <-] & -> & _); done. }
  assert (∃ xs, sorted = map ASession xs) as [xs ->].
  { apply all_of_form. intros a (k & Ha)%Hin. apply of_user_row in Ha as (x & -> & _); eauto. }
  exists xs. split; [done|]. pose proof (accounts_wf m Hm) as [_ _ Hwf].
  apply NoDup_Permutation; [by apply NoDup_fmap_1 in Hnd|by apply NoDup_sessions_of|]. intros x.
  rewrite elem_of_sessions_of by done. transitivity (ASession x ∈ map ASession xs).
  { rewrite list_elem_of_fmap. naive_solver. }
  rewrite Hin. setoid_rewrite of_user_row; [|done]. naive_solver.
Qed.
Lemma sorted_newest xs :
  StronglySorted (row_le [Desc "created_at"]) (map ASession xs) → StronglySorted (in_order newer) xs.
Proof.
  induction xs as [|x xs IH]; intros Hs; [constructor|]. cbn [map] in Hs. apply StronglySorted_inv in Hs as [Hs Hx].
  constructor; [by apply IH|]. rewrite List.Forall_map in Hx. eapply Forall_impl; [exact Hx|]. intros x' Hle.
  cbn in Hle. unfold in_order, newer, time.After. apply Z.ltb_ge. destruct Hle as [Hlt%Z.ltb_lt|[[= He] _]]; lia.
Qed.
Lemma newest_answers m u items window w l :
  consistent m → items ≠ [ICount] → answers (newest_select items window) [of_user u] w m l →
  ∃ xs, xs ≡ₚ sessions_of (accounts m).(acc_sessions) u ∧ StronglySorted (in_order newer) xs ∧
    mapM (λ x, mapM (project (ASession x)) items) (match w.1 with
      | Some limit => take (Z.to_nat limit) (drop (Z.to_nat w.2) xs)
      | None => drop (Z.to_nat w.2) xs
      end) = Some l.
Proof.
  intros Hm Hit Ha.
  assert (∃ sorted, sorted ≡ₚ values (map_to_list (matching "sessions" [of_user u] m)) ∧
    StronglySorted (row_le [Desc "created_at"]) sorted ∧
    mapM (λ r, mapM (project r) items) (in_window w sorted) = Some l) as (sorted & Hp & Hs & Hl).
  { unfold answers in Ha. cbn [newest_select sel_items sel_group sel_order sel_table] in Ha.
    destruct items as [|[c b| |z] [|[c' b'| |z'] [|]]]; try done; by repeat case_match. }
  destruct (found_sessions m u sorted Hm Hp) as (xs & -> & Hxs). exists xs.
  split; [done|]. split; [by apply sorted_newest|]. rewrite <-Hl. unfold in_window.
  destruct w.1 as [limit|]; rewrite skipn_map, ?firstn_map; by rewrite mapM_map.
Qed.
Definition session_values (x : Session) : list value :=
  [VText x.(sess_TokenHash); VText x.(sess_UserID); VTime x.(sess_ExpiresAt); VTime x.(sess_CreatedAt)].
Lemma scanned_sessions l ys :
  Forall2 (λ v y, scan_row session_dests v = Some y) (map session_values l) ys → map scanSession ys = l.
Proof.
  revert ys; induction l as [|x l IH]; intros ys Hy; inversion Hy; subst; [done|].
  cbn [map]. f_equal; [by apply (scan_session x (session_values x))|by apply IH].
Qed.
Lemma pFindSessionsForUser_spec u : meets (FindSessionsForUser u) (pFindSessionsForUser repo u).
Proof.
  intros s Hi _ Hu. unfold pFindSessionsForUser. rewrite run_bind, run_trigger. destruct (h _ _ s) as [s' r] eqn:E.
  edestruct (rows_call h) with (q := newest_select session_items None) (bs := [of_user (lower_hex u)]) (w := (@None Z, 0))
    as (Hi' & Hv & Hr); [exact Hi|exact E|vm_compute; reflexivity| |].
  { unfold readable. cbn [newest_select sel_table sel_where sel_window window_of mapM].
    rewrite bool_decide_eq_true_2 by (right; left). by rewrite (bind_uuid _ _ _ 1 u). }
  clear E. destruct r as [[rows err]|e].
  2:{ rewrite run_ret, Hv. split; [done|]. left. cbn. auto. }
  destruct Hr as [Hbad Hr]. destruct (scanRows scanSession rows []) as [sessions|e] eqn:Hscan.
  2:{ rewrite run_ret, Hv. split; [done|]. left. apply scan_failed, Hbad in Hscan. cbn. auto. }
  destruct err as [e|]; rewrite run_ret, Hv; (split; [done|]); left; cbn; auto.
  apply scanRows_ok in Hscan as (ys & Hrows & ->). destruct (Hr ys Hrows) as (l & Hl & Hy).
  apply newest_answers in Hl as (xs & Hp & Hs & Hl); [|by apply db_consistent|done].
  assert (mapM (λ x, mapM (project (ASession x)) session_items) xs = Some (map session_values xs)) as Hm.
  { apply mapM_Some, Forall2_fmap_r, Forall_Forall2_diag, Forall_true. done. }
  change (mapM (λ x, mapM (project (ASession x)) session_items) xs = Some l) in Hl.
  rewrite Hm in Hl. injection Hl as <-. apply scanned_sessions in Hy as ->. cbn [app]. auto.
Qed.

(** ** Creating a user *)
Definition user_columns : list string := ["id"; "email"; "password_hash"; "created_at"; "updated_at"].
Definition user_vals : list sexpr :=
  [EParam (uuid 1); EParam (plain 2); EParam (plain 3); EParam (plain 4); EParam (plain 5)].
Definition user_args (u : User) : list arg :=
  [ArgString u.(user_ID); ArgString u.(user_Email); ArgString u.(user_PasswordHash);
   ArgTime u.(user_CreatedAt); ArgTime u.(user_UpdatedAt)].
Lemma new_user_row now u :
  isValidID u.(user_ID) = true →
  new_row (user_args u) now "users" user_columns user_vals = Some (AUser (stored_user u)).
Proof.
  intros Hid. unfold new_row.
  assert (mapM (eval_expr (user_args u) now None) user_vals = Some (map snd (user_cols (stored_user u)))) as ->; [|done].
  apply mapM_Some. repeat (apply Forall2_cons_2; [|]); [..|apply Forall2_nil_2]; try done; cbn [eval_expr].
  eapply param_value_eq; [done|reflexivity|]. cbn [cast_arg p_cast uuid]. by rewrite Hid.
Qed.
Lemma clash_users u w : clash (AUser u) (AUser w) = String.eqb u.(user_Email) w.(user_Email).
Proof.
  unfold clash. cbn. rewrite orb_false_r. destruct (String.eqb_spec (user_Email u) (user_Email w)) as [-> |Hne].
  - by apply bool_decide_eq_true_2.
  - apply bool_decide_eq_false_2. congruence.
Qed.
(** A new user is admissible if the address is free. *)
Lemma admissible_user u m :
  consistent m → acc_users (accounts m) !! u.(user_ID) = None →
  admissible (AUser u) m ↔ no_email (accounts m) u.(user_Email).
Proof.
  intros Hm Hid. apply (no_user m Hm) in Hid. unfold admissible, no_email. split.
  - intros (_ & Hc & _) k w Hw%users_Some He. specialize (Hc _ _ Hw).
    change (clash (AUser u) (AUser w) = false) in Hc. by rewrite clash_users, He, String.eqb_refl in Hc.
  - intros Hn. split; [exact Hid|]. split; [|done]. intros k a Hk. destruct a as [w|x]; [|done].
    rewrite clash_users. apply String.eqb_neq. intros He.
    pose proof (user_row m Hm k w Hk) as ->. apply (Hn (user_ID w) w); [by apply users_Some|done].
Qed.
Lemma some_email a email : ¬ no_email a email → wf_accounts a → ∃ u, has_email a email u.
Proof.
  intros Hn Hwf. destruct (decide (map_Forall (λ _ u, user_Email u ≠ email) (acc_users a))) as [Hd|Hd].
  - by destruct Hn.
  - apply map_not_Forall in Hd as (k & u & Hk & He); [|apply _]. exists u. split; [|by apply dec_stable].
    by rewrite (wf_user_id a Hwf k u Hk).
Qed.
Lemma accounts_add_user u m :
  accounts (<[user_key u.(user_ID) := AUser u]> m) =
  {| acc_users := <[u.(user_ID) := u]> (acc_users (accounts m)); acc_sessions := acc_sessions (accounts m) |}.
Proof.
  apply accounts_eq; intros k x; cbn [acc_users acc_sessions]; rewrite !lookup_insert.
  - destruct (decide (user_ID u = k)) as [<-|Hk]; [rewrite !decide_True by done; naive_solver|].
    rewrite !decide_False by auto. by rewrite users_Some.
  - rewrite decide_False by done. by rewrite sessions_Some.
Qed.

Lemma pCreateUser_spec u : meets (CreateUser u) (pCreateUser repo u).
Proof.
  intros s Hi Hfresh (Hid & Hfit). unfold pCreateUser. rewrite run_bind, run_trigger.
  change [ArgString (user_ID u); _; _; _; _] with (user_args u).
  destruct (h _ _ s) as [s' r] eqn:E. pose proof (db_consistent s Hi) as Hm. cbn in Hfresh.
  set (w := stored_user u) in *.
  edestruct (exec_call h (withTimeout repo) None) with (st := SInsert "users" user_columns user_vals)
    (o := if bool_decide (admissible (AUser w) (rows s)) then Some (<[user_key w.(user_ID) := AUser w]> (rows s), 1) else None)
    as [Hi' Hr]; [exact Hi|exact E|vm_compute; reflexivity|reflexivity| | |].
  { intros now kept. unfold writes. rewrite bool_decide_eq_true_2 by left. by rewrite new_user_row. }
  { intros now r' Hr'. change (new_row (user_args u) now "users" user_columns user_vals = Some r') in Hr'.
    rewrite new_user_row in Hr' by done. by injection Hr' as <-. }
  pose proof (admissible_user w (rows s) Hm Hfresh) as Hadm.
  assert (∀ m' n, (if bool_decide (admissible (AUser w) (rows s)) then Some (<[user_key w.(user_ID) := AUser w]> (rows s), 1)
    else None) = Some (m', n) → pg_user_spec (CreateUser w) (view s) (accounts m') None) as Hdone.
  { intros m' n. case_bool_decide as Ha; [|done]. intros [= <- _]. split; [by apply Hadm|]. apply accounts_add_user. }
  assert (∀ e, driver_error e → pg_user_spec (CreateUser w) (view s) (view s)
    (Some (db_failed user_pkg "postgres: create user" e))) as Hfail by (intros e He; cbn; auto).
  destruct r as [r|e]; cbn [run mret]; (split; [done|]).
  - left. destruct r as [n|e]; [destruct Hr as (m' & Hm' & ->)|destruct Hr as (_ & m' & n & Hm' & ->)]; by eapply Hdone.
  - destruct Hr as (He & Hdup & Hv).
    assert (pg_answered (CreateUser w) (view s) (view s') (Some (db_failed user_pkg "postgres: create user" e))) as Hother.
    { destruct Hv as [-> |(_ & m' & n & Hm' & ->)]; [left; auto|]. right. eexists _, None. split_and!; eauto. }
    unfold isUniqueViolation. destruct (AsPgError e) as [c|] eqn:Ec; [|exact Hother].
    destruct (String.eqb_spec c "23505") as [-> |Hc]; [|exact Hother].
    destruct (Hdup eq_refl) as [Hnone ->]. left. split; [done|]. left. split; [done|].
    apply some_email; [|by apply accounts_wf]. intros Hn. apply Hadm in Hn. by rewrite bool_decide_eq_true_2 in Hnone.
Qed.

(** ** The row of one user *)
Definition id_cond : list cond := [CCompare "id" OpEq (uuid 1)].
Definition id_bound (id : string) : list bound := [BCompare "id" OpEq (VUuid id)].
Lemma bind_id args id :
  args !! 0%nat = Some (ArgString id) → isValidID id = true →
  mapM (bind_cond args) id_cond = Some (id_bound (lower_hex id)).
Proof. intros Ha Hid. unfold id_cond. cbn [mapM]. by rewrite (bind_uuid _ _ _ 1 id). Qed.
Lemma chosen_id id a :
  chosen "users" (id_bound id) a = match a with AUser u => String.eqb u.(user_ID) id | ASession _ => false end.
Proof. destruct a as [u|x]; [|done]. unfold chosen. cbn. by rewrite bool_decide_uuid, andb_true_r. Qed.
Lemma matching_id id m :
  consistent m → matching "users" (id_bound id) m =
  match acc_users (accounts m) !! id with Some u => {[user_key id := AUser u]} | None => ∅ end.
Proof.
  intros Hm. destruct (acc_users (accounts m) !! id) as [u|] eqn:Hu.
  - apply matching_one.
    + apply lookup_rows_with. rewrite users_Some in Hu. split; [done|]. rewrite chosen_id.
      destruct (at_user_key m Hm _ _ Hu) as (u' & [= <-] & ->). apply String.eqb_refl.
    + intros k a Ha. by destruct (user_with_id id m k a Hm Ha).
  - apply matching_none. intros k a Ha. destruct (user_with_id id m k a Hm Ha) as (_ & u & _ & Hu'). congruence.
Qed.

(** ** Changing a password *)
Definition password_sets : list (string * sexpr) := [("password_hash", EParam (plain 2)); ("updated_at", ENow)].
Definition password_args (id hash : string) : list arg := [ArgString id; ArgString hash].
Lemma changed_password now id hash u :
  changed_row (password_args id hash) now password_sets (AUser u) = Some (AUser (with_password hash (micros now) u)).
Proof. destruct u. reflexivity. Qed.
Lemma consistent_user u u' m :
  consistent m → m !! user_key u.(user_ID) = Some (AUser u) → u'.(user_ID) = u.(user_ID) →
  u'.(user_Email) = u.(user_Email) → consistent (<[user_key u.(user_ID) := AUser u']> m).
Proof.
  intros Hm Hu Hid He.
  assert (∀ a, clash (AUser u') a = clash (AUser u) a) as Hcl.
  { intros [w|x]; [by rewrite !clash_users, He|done]. }
  apply map_Forall_insert_2.
  - split; [cbn; by rewrite Hid|]. split; [done|]. apply map_Forall_insert_2; [done|].
    intros k a Ha. rewrite Hcl. by apply (Hm _ _ Hu).
  - intros k a Ha. destruct (Hm k a Ha) as (Hk & Hr & Hc). split; [done|]. split; [by apply refers_insert|].
    apply map_Forall_insert_2; [|done]. rewrite clash_sym, Hcl, clash_sym. by apply Hc.
Qed.
Lemma writes_password now kept id hash m :
  consistent m → isValidID id = true →
  writes (password_args id hash) now kept (SUpdate "users" password_sets id_cond) m =
  Some (Some match acc_users (accounts m) !! lower_hex id with
             | Some u => (<[user_key (lower_hex id) := AUser (with_password hash (micros now) u)]> m, 1)
             | None => (m, 0)
             end).
Proof.
  intros Hm Hid. unfold writes. rewrite bool_decide_eq_true_2 by left. rewrite (bind_id _ id) by done.
  cbn [mbind option_bind]. cbv zeta. rewrite bool_decide_eq_true_2.
  2:{ intros k a (Ha & Ht & _)%lookup_matching. destruct a as [u|x]; [|done]. by rewrite changed_password. }
  rewrite matching_id by done. set (i := lower_hex id).
  match goal with |- context [?f <$> m] => set (g := f) end.
  destruct (acc_users (accounts m) !! i) as [u|] eqn:Hu.
  - apply users_Some in Hu. assert (u.(user_ID) = i) as Hi by (by destruct (at_user_key m Hm _ _ Hu) as (? & [= <-] & ?)).
    rewrite map_size_singleton. assert (g <$> m = <[user_key i := AUser (with_password hash (micros now) u)]> m) as ->.
    + apply map_eq. intros k. rewrite lookup_fmap, lookup_insert. case_decide as Hk.
      * subst k. rewrite Hu. cbn [fmap option_fmap option_map]. unfold g. rewrite chosen_id, Hi. fold i.
        by rewrite String.eqb_refl, changed_password.
      * destruct (m !! k) as [a|] eqn:Ha; [|done]. cbn [fmap option_fmap option_map]. unfold g. rewrite chosen_id.
        destruct a as [w|x]; [|done]. fold i. destruct (String.eqb_spec (user_ID w) i) as [Hw|]; [|done].
        destruct Hk. rewrite <-Hw. symmetry. by apply (user_row m Hm).
    + rewrite bool_decide_eq_true_2; [done|]. rewrite <-Hi. apply consistent_user; [done|by rewrite Hi|done|done].
  - assert (g <$> m = m) as ->.
    + apply map_eq. intros k. rewrite lookup_fmap. destruct (m !! k) as [a|] eqn:Ha; [|done].
      cbn [fmap option_fmap option_map]. unfold g. rewrite chosen_id. destruct a as [w|x]; [|done]. fold i.
      destruct (String.eqb_spec (user_ID w) i) as [Hw|]; [|done]. apply eq_None_not_Some in Hu. destruct Hu. exists w.
      apply users_Some. rewrite <-Hw, <-(user_row m Hm k w Ha). done.
    + by rewrite map_size_empty, bool_decide_eq_true_2.
Qed.
Lemma accounts_set_user id u m :
  u.(user_ID) = id →
  accounts (<[user_key id := AUser u]> m) =
  {| acc_users := <[id := u]> (acc_users (accounts m)); acc_sessions := acc_sessions (accounts m) |}.
Proof. intros <-. apply accounts_add_user. Qed.

(** A statement on the row of one user, and the test that it has found one. *)
Lemma on_one_user (e : userRepoE (option error)) id query st args msg s :
  db_inv s → parse query = Some st →
  (∀ now kept, ∃ m' n, writes args now kept st (rows s) = Some (Some (m', n)) ∧
    (n = 0 ∧ acc_users (view s) !! id = None ∧ accounts m' = view s ∨
     n = 1 ∧ pg_user_spec e (view s) (accounts m') None)) →
  (∀ now, write_fits args now st (rows s)) → (∀ x, failure e x = x) →
  (∀ err : error, err = ErrNotFound user_pkg ∧ acc_users (view s) !! id = None ∨ uforeign err = true →
    pg_user_spec e (view s) (view s) (Some err)) →
  let '(s', r) := run h (mbind (λ result, match result with
      | Err err | Ok (Err err) => mret (Some (db_failed user_pkg msg err))
      | Ok (Ok n) => mret (if n =? 0 then Some (Sentinel (ErrNotFound user_pkg)) else None)
      end) (trigger (ExecContext (withTimeout repo) None query args))) s in
  db_inv s' ∧ pg_answered e (view s) (view s') r.
Proof.
  intros Hi Hq Hw Hfit Hf Hspec. rewrite run_bind, run_trigger. destruct (h _ _ s) as [s' r] eqn:E.
  edestruct (exec_resolved h (withTimeout repo) None) as [Hi' Hr]; [exact Hi|exact E|exact Hq|reflexivity| |].
  { intros now kept _. destruct (Hw now kept) as (m' & n & Hm' & _). eauto. }
  assert (∀ err, driver_error err → pg_answered e (view s) (view s) (Some (db_failed user_pkg msg err))) as Hfail.
  { intros err He. left. apply Hspec. auto. }
  destruct Hr as [(err & -> & He & _ & Hv)|(now & kept & o & _ & Ho & Hr)].
  { rewrite run_ret. cbn in Hv. rewrite Hv. auto. }
  destruct (Hw now kept) as (m' & n & Hm' & Hn). rewrite Hm' in Ho. injection Ho as <-.
  assert (∀ err, driver_error err → pg_answered e (view s) (accounts m') (Some (db_failed user_pkg msg err))) as Hlost.
  { intros err He. destruct Hn as [(_ & _ & ->)|(_ & Hok)]; [auto|]. right. eexists _, None. rewrite !Hf. auto. }
  destruct r as [[k|err]|err]; rewrite run_ret; (split; [done|]); cbn in Hr.
  - destruct Hr as (m1 & [= <- <-] & ->). left. destruct Hn as [(-> & Hnone & ->)|(-> & Hok)]; [|done]. apply Hspec. auto.
  - destruct Hr as (He & m1 & n1 & [= <- <-] & ->). auto.
  - destruct Hr as (He & _ & [-> |(_ & m1 & n1 & [= <- <-] & ->)]); auto.
Qed.

Lemma pUpdateUserPassword_spec id hash : meets (UpdateUserPassword id hash) (pUpdateUserPassword repo id hash).
Proof.
  intros s Hi _ Hid. pose proof (db_consistent s Hi) as Hm. unfold pUpdateUserPassword.
  apply (on_one_user _ (lower_hex id) _ (SUpdate "users" password_sets id_cond)); [done|vm_compute; reflexivity| | |done|].
  - intros now kept. change [ArgString id; ArgString hash] with (password_args id hash). rewrite writes_password by done.
    destruct (acc_users (view s) !! lower_hex id) as [u|] eqn:Hu.
    + eexists _, _. split; [done|]. right. split; [done|]. exists u, (micros now). split; [done|]. apply accounts_set_user.
      by apply (accounts_wf _ Hm) in Hu.
    + eexists _, _. split; [done|]. auto.
  - intros now bs r' Hbs (k & a & Ha & Hfit & Hr'). change [ArgString id; ArgString hash] with (password_args id hash) in *.
    rewrite (bind_id _ id) in Hbs by done. injection Hbs as <-.
    destruct (user_with_id _ _ _ _ Hm Ha) as (_ & u & -> & _). rewrite changed_password in Hr'. by injection Hr' as <-.
  - intros err He. split; [done|]. done.
Qed.

(** ** Deleting a user *)
Lemma writes_delete_user now kept id m :
  consistent m → isValidID id = true → ∃ m' n,
    writes [ArgString id] now kept (SDelete "users" id_cond None) m = Some (Some (m', n)) ∧
    (n = 0 ∧ acc_users (accounts m) !! lower_hex id = None ∧ accounts m' = accounts m ∨
     n = 1 ∧ pg_user_spec (DeleteUser (lower_hex id)) (accounts m) (accounts m') None).
Proof.
  intros Hm Hid. unfold writes. rewrite bool_decide_eq_true_2 by left. rewrite (bind_id _ id) by done.
  cbn [mbind option_bind]. cbv zeta. set (i := lower_hex id).
  change (rows_with (doomed kept "users" (id_bound i) None) m) with (matching "users" (id_bound i) m).
  eexists _, _. split; [done|]. rewrite matching_id by done. set (dead := match _ with Some u => _ | None => _ end).
  set (m' := rows_with _ m).
  assert (∀ k u, m' !! user_key k = Some (AUser u) ↔ acc_users (accounts m) !! k = Some u ∧ k ≠ i) as Hu'.
  { intros k u. unfold m'. rewrite lookup_rows_with, users_Some. split; intros [Hk Hx]; (split; [done|]);
      pose proof (wf_user_id _ (accounts_wf m Hm) k u (proj2 (users_Some _ _ _) Hk)) as Hku; revert Hx; cbn [orphan rel_parent account_relation orb doomed];
      rewrite chosen_id, negb_true_iff, String.eqb_neq, Hku; done. }
  assert (∀ k x, m' !! session_key k = Some (ASession x) ↔ acc_sessions (accounts m) !! k = Some x ∧
    dead !! user_key x.(sess_UserID) = None) as Hx'.
  { intros k x. unfold m'. rewrite lookup_rows_with, sessions_Some. apply and_iff_compat_l.
    unfold doomed. rewrite chosen_id, orb_false_r, negb_true_iff. unfold orphan. cbn [rel_parent account_relation].
    rewrite bool_decide_eq_false, eq_None_not_Some. done. }
  destruct (acc_users (accounts m) !! i) as [u|] eqn:Hu.
  - right. split; [unfold dead; by rewrite map_size_singleton|]. split; [by eexists|].
    apply accounts_eq; intros k x; cbn [acc_users acc_sessions].
    + rewrite Hu', lookup_delete_Some. naive_solver.
    + rewrite Hx', lookup_delete_where. apply and_iff_compat_l. unfold dead. rewrite lookup_singleton_None, String.eqb_neq.
      split; intros Hne ?; apply Hne; [by f_equal|symmetry; by apply user_key_inj].
  - left. split_and!; [unfold dead; by rewrite map_size_empty|done|]. apply accounts_eq; intros k x; cbn [acc_users acc_sessions].
    + rewrite Hu'. naive_solver.
    + rewrite Hx'. unfold dead. rewrite lookup_empty. naive_solver.
Qed.
Lemma pDeleteUser_spec id : meets (DeleteUser id) (pDeleteUser repo id).
Proof.
  intros s Hi _ Hid. pose proof (db_consistent s Hi) as Hm. unfold pDeleteUser.
  apply (on_one_user _ (lower_hex id) _ (SDelete "users" id_cond None)); [done|vm_compute; reflexivity| |done|done|].
  - intros now kept. by apply writes_delete_user.
  - intros err He. split; [done|]. done.
Qed.

(** ** Creating a session *)
Definition session_columns : list string := ["token_hash"; "user_id"; "expires_at"; "created_at"].
Definition session_vals : list sexpr := [EParam (plain 1); EParam (uuid 2); EParam (plain 3); EParam (plain 4)].
Definition session_args (x : Session) : list arg :=
  [ArgString x.(sess_TokenHash); ArgString x.(sess_UserID); ArgTime x.(sess_ExpiresAt); ArgTime x.(sess_CreatedAt)].
Lemma new_session_row now x :
  isValidID x.(sess_UserID) = true →
  new_row (session_args x) now "sessions" session_columns session_vals = Some (ASession (stored_session x)).
Proof.
  intros Hu. unfold new_row.
  assert (mapM (eval_expr (session_args x) now None) session_vals = Some (map snd (session_cols (stored_session x)))) as ->; [|done].
  apply mapM_Some. repeat (apply Forall2_cons_2; [|]); [..|apply Forall2_nil_2]; try done; cbn [eval_expr].
  eapply param_value_eq; [done|reflexivity|]. cbn [cast_arg p_cast uuid]. by rewrite Hu.
Qed.
Lemma writes_session now kept x m :
  isValidID x.(sess_UserID) = true →
  writes (session_args x) now kept (SInsert "sessions" session_columns session_vals) m =
  Some (if bool_decide (admissible (ASession (stored_session x)) m)
        then Some (<[session_key x.(sess_TokenHash) := ASession (stored_session x)]> m, 1) else None).
Proof.
  intros Hu. unfold writes. rewrite bool_decide_eq_true_2 by (right; left). by rewrite new_session_row.
Qed.
Lemma accounts_add_session x m :
  accounts (<[session_key x.(sess_TokenHash) := ASession x]> m) =
  set_acc_sessions (<[x.(sess_TokenHash) := x]> (acc_sessions (accounts m))) (accounts m).
Proof.
  apply accounts_eq; intros k y; cbn [acc_users acc_sessions set_acc_sessions]; rewrite !lookup_insert.
  - rewrite decide_False by done. by rewrite users_Some.
  - destruct (decide (sess_TokenHash x = k)) as [<-|Hk]; [rewrite !decide_True by done; naive_solver|].
    rewrite !decide_False by auto. by rewrite sessions_Some.
Qed.

Definition hash_item : list item := [IColumn "token_hash" false].
Definition evict_except : option (string * select) :=
  Some ("token_hash", newest_select hash_item (Some (plain 2, None))).
Definition evict_stmt : stmt := SDelete "sessions" [CCompare "user_id" OpEq (uuid 1)] evict_except.
Definition evict_args (u : string) (max : Z) : list arg := [ArgString u; ArgInt max].
(** The query inside keeps the newest sessions. *)
Lemma evict_kept u max m kept :
  consistent m → isValidID u = true → 0 ≤ max → inner_answer (evict_args u max) evict_stmt m kept →
  ∃ xs, xs ≡ₚ sessions_of (accounts m).(acc_sessions) (lower_hex u) ∧ StronglySorted (in_order newer) xs ∧
    kept = map (λ x, [VText x.(sess_TokenHash)]) (take (Z.to_nat max) xs).
Proof.
  intros Hm Hu Hmax Hk.
  destruct (newest_answers m (lower_hex u) hash_item (Some (plain 2, None)) (Some max, 0) kept Hm) as (xs & Hp & Hs & Hkept).
  { done. }
  { apply (Hk _ _ _ eq_refl). unfold readable. cbn [newest_select sel_table sel_where sel_window window_of mapM].
    rewrite bool_decide_eq_true_2 by (right; left). rewrite (bind_uuid _ _ _ 1 u) by done.
    change (param_value (evict_args u max) (plain 2)) with (Some (VInt max)). cbn [mbind option_bind].
    by destruct (Z.ltb_spec max 0); [lia|]. }
  exists xs. split_and!; [done..|]. set (k := Z.to_nat max).
  change (mapM (λ x, mapM (project (ASession x)) hash_item) (take k xs) = Some kept) in Hkept.
  assert (mapM (λ x, mapM (project (ASession x)) hash_item) (take k xs) =
    Some (map (λ x, [VText x.(sess_TokenHash)]) (take k xs))) as Heq.
  { apply mapM_Some, Forall2_fmap_r, Forall_Forall2_diag, Forall_true. done. }
  rewrite Heq in Hkept. by injection Hkept.
Qed.
Definition evict_dooms (u : string) (k : nat) (xs : list Session) (a : Account) : bool :=
  doomed (map (λ x, [VText x.(sess_TokenHash)]) (take k xs)) "sessions" [of_user u] evict_except a.
Section evicts.
Context (m : gmap string Account) (Hm : consistent m) (u : string) (k : nat) (xs : list Session).
Hypothesis Hp : xs ≡ₚ sessions_of (accounts m).(acc_sessions) u.

Lemma evict_member x :
  x ∈ xs ↔ acc_sessions (accounts m) !! x.(sess_TokenHash) = Some x ∧ x.(sess_UserID) = u.
Proof. rewrite Hp. apply elem_of_sessions_of, (accounts_wf m Hm). Qed.
(** Two sessions under one hash are one. *)
Lemma evict_same x y :
  x ∈ xs → acc_sessions (accounts m) !! y.(sess_TokenHash) = Some y → x.(sess_TokenHash) = y.(sess_TokenHash) → x = y.
Proof. intros [Hx _]%evict_member Hy He. rewrite He, Hy in Hx. by injection Hx. Qed.
Lemma evict_dooms_rest x :
  acc_sessions (accounts m) !! x.(sess_TokenHash) = Some x → evict_dooms u k xs (ASession x) = true ↔ x ∈ drop k xs.
Proof.
  intros Hx. unfold evict_dooms. set (kept := map _ _).
  change ((bool_decide (VUuid x.(sess_UserID) = VUuid u) && true) &&
    bool_decide ([VText x.(sess_TokenHash)] ∉ kept) = true ↔ x ∈ drop k xs).
  rewrite bool_decide_uuid, andb_true_r, andb_true_iff, String.eqb_eq, bool_decide_eq_true.
  assert ([VText x.(sess_TokenHash)] ∈ kept ↔ x ∈ take k xs) as ->.
  { unfold kept. rewrite list_elem_of_fmap. split; [|intros; by exists x]. intros (y & [= Hy] & Hin).
    by rewrite <-(evict_same y x) by (done || by apply (subseteq_take k xs y)). }
  assert (NoDup xs) as Hnd by (rewrite Hp; apply NoDup_sessions_of, (accounts_wf m Hm)).
  rewrite <-(take_drop k xs) in Hnd. apply NoDup_app in Hnd as (_ & Hdisj & _). split.
  - intros [Hux Hn]. assert (x ∈ xs) as Hin by by apply evict_member.
    rewrite <-(take_drop k xs), elem_of_app in Hin. naive_solver.
  - intros Hin. assert (x ∈ xs) as [_ ?]%evict_member by (by apply (subseteq_drop k xs x)).
    split; [done|]. intros Ht. by apply (Hdisj x).
Qed.
(** The rows that stay. *)
Lemma accounts_evicted dead :
  (∀ a, orphan dead a = false) →
  accounts (rows_with (λ a, negb (orphan dead a || evict_dooms u k xs a)) m) =
  set_acc_sessions (fold_left (λ m v, delete v.(sess_TokenHash) m) (drop k xs) (acc_sessions (accounts m))) (accounts m).
Proof.
  intros Ho. apply accounts_eq; intros i y; rewrite lookup_rows_with, Ho; cbn [orb acc_users acc_sessions set_acc_sessions].
  - rewrite users_Some. split; [by intros [? _]|]. intros Hy. by split.
  - rewrite lookup_delete_all, <-sessions_Some, negb_true_iff.
    split; intros [Hy Hn]; (split; [done|]); pose proof (wf_session _ (accounts_wf m Hm) i y Hy) as <-;
      [intros (v & Hv & Hin)%list_elem_of_fmap|].
    + assert (v = y) as -> by (apply evict_same; [by apply (subseteq_drop k xs v)|done|done]).
      apply (evict_dooms_rest y Hy) in Hin. congruence.
    + apply not_true_iff_false. rewrite (evict_dooms_rest y Hy). intros Hin. apply Hn. apply list_elem_of_fmap. eauto.
Qed.
End evicts.
(** So the oldest go. *)
Lemma writes_evict now kept u max m :
  consistent m → isValidID u = true → 0 ≤ max → inner_answer (evict_args u max) evict_stmt m kept →
  ∃ m' n, writes (evict_args u max) now kept evict_stmt m = Some (Some (m', n)) ∧
    acc_users (accounts m') = acc_users (accounts m) ∧
    evicted (acc_sessions (accounts m)) (lower_hex u) max (acc_sessions (accounts m')).
Proof.
  intros Hm Hu Hmax Hk. destruct (evict_kept u max m kept Hm Hu Hmax Hk) as (xs & Hp & Hs & ->). clear Hk.
  unfold writes, evict_stmt. rewrite bool_decide_eq_true_2 by (right; left).
  cbn [mapM]. rewrite (bind_uuid _ _ _ 1 u) by done. cbn [mbind option_bind mret option_ret]. cbv zeta.
  eexists _, _. split; [done|].
  rewrite (accounts_evicted m Hm (lower_hex u) (Z.to_nat max) xs Hp).
  2:{ intros [w|x]; [done|]. unfold orphan. cbn [rel_parent account_relation]. apply bool_decide_eq_false_2.
      intros [a Ha]. apply lookup_rows_with in Ha as [Ha Hd]. by destruct (at_user_key m Hm _ _ Ha) as (w & -> & _). }
  split; [done|]. cbn [acc_sessions set_acc_sessions].
  apply (evicted_rest _ _ _ _ (take (Z.to_nat max) xs)); [apply (accounts_wf m Hm)| | |].
  - by rewrite Permutation_app_comm, take_drop.
  - rewrite length_take, <-Hp. lia.
  - intros v y Hv Hy. rewrite <-(take_drop (Z.to_nat max) xs) in Hs. apply StronglySorted_app in Hs as (Hcross & _ & _).
    specialize (Hcross y v Hy Hv). unfold in_order, newer, time.After in Hcross. by apply Z.ltb_ge.
Qed.

(** *** The statements of the transaction, one by one *)
Definition in_tx (tx : Z) (m : gmap string Account) (s s' : S) : Prop :=
  db_inv s' ∧ rows s' = rows s ∧ (db_view s').(db_txs) !! tx = Some m.
Lemma lock_call tx u s s' r :
  db_inv s → (db_view s).(db_txs) !! tx = Some (rows s) →
  h _ (ExecContext (withTimeout repo) (Some tx) "SELECT pg_advisory_xact_lock(hashtext($1))" [ArgString u]) s = (s', r) →
  match r with Ok _ => in_tx tx (rows s) s s' | Err e => driver_error e ∧ db_inv s' ∧ rows s' = rows s end.
Proof.
  intros Hi Htx E. edestruct (exec_call h (withTimeout repo) (Some tx)) with (o := Some (rows s, 1)) as [Hi' Hr];
    [exact Hi|exact E|vm_compute; reflexivity|exact Htx|reflexivity|intros now; exact I|].
  apply exec_in_tx in Hr. destruct r as [r|e]; [|by destruct Hr].
  destruct Hr as (m' & n & [= <- _] & Hv & Ht). by split_and!.
Qed.
Definition session_insert : string := "
		INSERT INTO sessions (token_hash, user_id, expires_at, created_at)
		VALUES ($1, $2::uuid, $3, $4)
	".
Lemma insert_call tx x m s s' r :
  db_inv s → consistent m → (db_view s).(db_txs) !! tx = Some m → isValidID x.(sess_UserID) = true →
  h _ (ExecContext (withTimeout repo) (Some tx) session_insert (session_args x)) s = (s', r) →
  match r with
  | Ok _ => ∃ m', in_tx tx m' s s' ∧ consistent m' ∧ accounts m' =
      set_acc_sessions (<[x.(sess_TokenHash) := stored_session x]> (acc_sessions (accounts m))) (accounts m)
  | Err e => driver_error e ∧ db_inv s' ∧ rows s' = rows s
  end.
Proof.
  intros Hi Hm Htx Hu E.
  edestruct (exec_call h (withTimeout repo) (Some tx)) with (st := SInsert "sessions" session_columns session_vals)
    as [Hi' Hr]; [exact Hi|exact E|vm_compute; reflexivity|exact Htx|intros now kept; by apply writes_session| |].
  { intros now a Ha. change (new_row (session_args x) now "sessions" session_columns session_vals = Some a) in Ha.
    rewrite new_session_row in Ha by done. by injection Ha as <-. }
  apply exec_in_tx in Hr. destruct r as [r|e]; [|by destruct Hr].
  destruct Hr as (m' & n & Ho & Hv & Ht). case_bool_decide as Hadm; [|done]. injection Ho as <- _.
  eexists. split; [by split_and!|]. split; [exact (consistent_insert _ _ Hm Hadm)|]. apply (accounts_add_session (stored_session x)).
Qed.
Definition session_evict : string := "
		DELETE FROM sessions
		WHERE user_id = $1::uuid
		  AND token_hash NOT IN (
		      SELECT token_hash FROM sessions
		      WHERE user_id = $1::uuid
		      ORDER BY created_at DESC
		      LIMIT $2
		  )
	".
Lemma evict_call tx u max m s s' r :
  db_inv s → consistent m → (db_view s).(db_txs) !! tx = Some m → isValidID u = true → 0 ≤ max →
  h _ (ExecContext (withTimeout repo) (Some tx) session_evict (evict_args u max)) s = (s', r) →
  match r with
  | Ok _ => ∃ m', in_tx tx m' s s' ∧ acc_users (accounts m') = acc_users (accounts m) ∧
      evicted (acc_sessions (accounts m)) (lower_hex u) max (acc_sessions (accounts m'))
  | Err e => driver_error e ∧ db_inv s' ∧ rows s' = rows s
  end.
Proof.
  intros Hi Hm Htx Hu Hmax E.
  edestruct (exec_resolved h (withTimeout repo) (Some tx)) with (st := evict_stmt) as [Hi' Hr];
    [exact Hi|exact E|vm_compute; reflexivity|exact Htx| |].
  { intros now kept Hk. destruct (writes_evict now kept _ _ _ Hm Hu Hmax Hk) as (m' & n & Hw & _).
    exists (Some (m', n)). by split. }
  destruct Hr as [Hr|(now & kept & o & Hk & Ho & Hr)].
  - destruct Hr as (e & -> & He & _ & Hv). done.
  - apply exec_in_tx in Hr. destruct r as [r|e]; [|by destruct Hr].
    destruct Hr as (m1 & n1 & -> & Hv & Ht). destruct (writes_evict now kept _ _ _ Hm Hu Hmax Hk) as (m' & n & Hw & Hev).
    rewrite Hw in Ho. injection Ho as <- _. exists m'. by split; [split_and!|].
Qed.

Lemma session_in_spec tx x max s :
  db_inv s → (db_view s).(db_txs) !! tx = Some (rows s) → 0 ≤ max → isValidID x.(sess_UserID) = true →
  let '(s', r) := run h (session_in repo tx x max) s in
  db_inv s' ∧ pg_answered (CreateSession (stored_session x) max) (view s) (view s') r.
Proof.
  intros Hi Htx Hmax Hu. pose proof (db_consistent s Hi) as Hm. unfold session_in.
  assert (∀ s' msg e, driver_error e ∧ db_inv s' ∧ rows s' = rows s → db_inv s' ∧
    pg_answered (CreateSession (stored_session x) max) (view s) (view s') (Some (db_failed user_pkg msg e))) as Hfail.
  { intros s' msg e (He & Hi' & ->). split; [done|]. left. cbn. auto. }
  rewrite run_bind, run_trigger. destruct (h _ _ s) as [s1 r1] eqn:E1. apply lock_call in E1; [|done|done].
  destruct r1 as [r1|e]; [|rewrite run_ret; by apply Hfail]. destruct E1 as (Hi1 & Hv1 & Htx1).
  rewrite run_bind, run_trigger. destruct (h _ _ s1) as [s2 r2] eqn:E2. apply (insert_call tx x (rows s)) in E2; [|done..].
  rewrite Hv1 in E2. destruct r2 as [r2|e]; [|rewrite run_ret; by apply Hfail].
  destruct E2 as (m2 & (Hi2 & Hv2 & Htx2) & Hm2 & Ha2). rewrite Hv1 in Hv2.
  rewrite run_bind, run_trigger. destruct (h _ _ s2) as [s3 r3] eqn:E3.
  apply (evict_call tx (sess_UserID x) max m2) in E3; [|done..]. rewrite Hv2 in E3.
  destruct r3 as [r3|e]; [|rewrite run_ret; by apply Hfail].
  destruct E3 as (m3 & (Hi3 & Hv3 & Htx3) & Hus & Hev). rewrite Hv2 in Hv3. rewrite Ha2 in Hus, Hev.
  rewrite run_bind, run_trigger. destruct (h _ _ s3) as [s4 r4] eqn:E4.
  destruct (dcall_sound h _ _ _ _ _ Hi3 E4) as [Hi4 Hr4]. specialize (Hr4 _ Htx3). rewrite run_ret.
  assert (pg_user_spec (CreateSession (stored_session x) max) (view s) (accounts m3) None) as Hok by by split.
  destruct r4 as [e|]; [destruct Hr4 as [He [Hv4|Hv4]]|].
  - apply Hfail. rewrite Hv4. auto.
  - split; [done|]. right. rewrite Hv4. eexists _, None. split_and!; auto.
  - split; [done|]. left. by rewrite Hr4.
Qed.
Lemma pCreateSession_spec x max : meets (CreateSession x max) (pCreateSession repo x max).
Proof.
  intros s Hi Hmax Hu. unfold pCreateSession. rewrite run_bind, run_trigger. destruct (h _ _ s) as [s1 r1] eqn:E1.
  destruct (dcall_sound h _ _ _ _ _ Hi E1) as [Hi1 [Hv1 Hr1]]. destruct r1 as [tx|e].
  2:{ rewrite run_ret, Hv1. split; [done|]. left. cbn. auto. }
  rewrite run_bind. rewrite <-Hv1 in Hr1. pose proof (session_in_spec tx x max s1 Hi1 Hr1 Hmax Hu) as Hin. rewrite Hv1 in Hin.
  destruct (run h (session_in repo tx x max) s1) as [s2 r2]. destruct Hin as [Hi2 Hin].
  rewrite run_bind, run_trigger. destruct (h _ _ s2) as [s3 r3] eqn:E3.
  destruct (dcall_sound h _ _ _ _ _ Hi2 E3) as [Hi3 Hv3]. cbn in Hv3. rewrite run_ret. by rewrite Hv3.
Qed.

(** Every call does what the contract says of it as PostgreSQL stores it, or it did
    so and the answer was lost. *)
Lemma user_postgres_spec X (e : userRepoE X) : meets e (user_postgres repo X e).
Proof.
  destruct e; [apply pCreateUser_spec|apply pFindUserByEmail_spec|apply pFindUserByID_spec|
    apply pUpdateUserPassword_spec|apply pDeleteUser_spec|apply pCreateSession_spec|apply pFindSessionByTokenHash_spec|
    apply pDeleteSession_spec|apply pFindSessionsForUser_spec|apply pDeleteSessionsForUser_spec|
    apply pDeleteSessionsForUserExcept_spec|apply pDeleteExpiredSessions_spec].
Qed.
End methods.
