(* ===== verification/UserPostgresTheorems.v ===== *)
(** The property of the PostgreSQL repository of users and sessions as a theorem,
    with its instances on a database that runs. *)

From S2P Require Import Prelude GoStd GoError Uuid Sha256 Sql Breaker Postgres User UserMemory UserSpec.
From S2P Require Import UserPostgres UserPostgresSpec ConcreteDb Concrete ConcreteUser.
Local Open Scope Z_scope.

(** * A database of accounts *)
Definition account_created (a : Account) : Z :=
  match a with AUser u => u.(user_CreatedAt) | ASession s => s.(sess_CreatedAt) end.
Definition account_newer (a b : Account) : bool := time.After (account_created a) (account_created b).
#[export] Instance account_newer_weak : StrictWeak account_newer.
Proof. split; unfold in_order, account_newer, time.After; [intros|intros ???]; rewrite ?Z.ltb_ge; lia. Qed.
Definition account_sort (order : list order_item) (l : list Account) : option (list Account) :=
  match order with
  | [] => Some l
  | [Desc "created_at"] => Some (sort_slice account_newer l)
  | _ => None
  end.
Lemma account_newer_row_le a b : in_order account_newer a b → row_le [Desc "created_at"] a b.
Proof.
  unfold in_order, account_newer, time.After. intros Hle%Z.ltb_ge.
  assert (∀ c, rel_get c "created_at" = Some (VTime (account_created c))) as Hc by by intros [u|x].
  cbn [row_le order_column]. rewrite !Hc. cbn [precedes value_less].
  destruct (Z.eq_dec (account_created b) (account_created a)) as [He|Hne]; [right; by rewrite He|left; apply Z.ltb_lt; lia].
Qed.
Lemma account_sort_ok order l l' :
  account_sort order l = Some l' → l' ≡ₚ l ∧ StronglySorted (row_le order) l'.
Proof.
  unfold account_sort. repeat case_match; intros [= <-]; try done.
  - split; [done|]. clear. induction l as [|t l IH]; constructor; [done|]. by apply Forall_true.
  - split; [apply sort_slice_perm|].
    pose proof (sort_slice_sorted account_newer l) as Hs. induction Hs as [|t l' _ IH Ht]; constructor; [done|].
    eapply Forall_impl; [exact Ht|]. apply account_newer_row_le.
Qed.
Definition account_server (clock : Z) : handler dbE (server Account) := handle_server account_sort clock.
#[export] Instance account_database clock : Database Account (account_server clock) :=
  server_database account_sort account_sort_ok clock.

(** * The repository *)

(** C25: over a database that executes its statements as documented, every call of
    the PostgreSQL repository of users does what the contract of [Repository] says,
    as the in-memory one does, of the values as PostgreSQL stores them (identifiers
    in lower case, times in whole microseconds), or it is answered with a failure
    of the infrastructure after the database has done just that.  So a taken address
    is refused as such, a session that is created leaves the user the newest
    sessions up to the limit and no others, and the listing has the newest first.
    One call does more than the in-memory repository: deleting a user deletes the
    user's sessions.  After every call identifiers, addresses and token hashes still
    name at most one row, and every session has its user. *)
Theorem user_postgres_refines {S : Type} (h : handler dbE S) `{!Database Account h} (callTimeout : Z)
    {X : Type} (e : userRepoE X) (s : S) :
  let a := accounts (db_view s).(db_rows) in
  db_inv s → user_call e → fresh_call (stored_ucall e) a →
  let '(s', r) := run h (user_postgres (NewPostgresRepository callTimeout) X e) s in
  let a' := accounts (db_view s').(db_rows) in
  (pg_user_spec (stored_ucall e) a a' r ∨
   ∃ err ok, failure (stored_ucall e) r = Some err ∧ uforeign err = true ∧ failure (stored_ucall e) ok = None ∧
     pg_user_spec (stored_ucall e) a a' ok) ∧
  wf_accounts a' ∧
  (∀ k x, a'.(acc_sessions) !! k = Some x → is_Some (a'.(acc_users) !! x.(sess_UserID))).
Proof.
  intros a Hi Hc Hf. pose proof (user_postgres_spec h (NewPostgresRepository callTimeout) X e s Hi Hf Hc) as Hs.
  destruct (run h _ s) as [s' r]. destruct Hs as [Hi' Hs]. pose proof (db_consistent s' Hi') as Hm.
  split; [exact Hs|]. split; [by apply accounts_wf|]. by apply session_user.
Qed.

(** Alice, logged in twice. *)
Definition alice_rows : gmap string Account :=
  {[ user_key alice := AUser (stored_user alice_user);
     session_key (hashToken "t1") := ASession (stored_session (mk_session "t1" alice 10000));
     session_key (hashToken "t2") := ASession (stored_session (mk_session "t2" alice 20000)) ]}.
Definition accounts_with (faults : list fault) : server Account :=
  {| srv_db := {| db_rows := alice_rows; db_txs := ∅ |}; srv_next := 7; srv_faults := faults |}.
Lemma accounts_with_inv faults : server_inv (accounts_with faults).
Proof.
  split; [|apply map_Forall_empty]. change (consistent alice_rows). apply (bool_decide_unpack (consistent alice_rows)).
  vm_compute. exact I.
Qed.
Definition third : Session := mk_session "t3" alice 30000.
Definition upg (X : Type) (e : userRepoE X) (faults : list fault) : server Account * X :=
  run (account_server 5) (user_postgres (NewPostgresRepository time.Second) X e) (accounts_with faults).
Definition hashes (s : server Account) : list string :=
  map (λ kx, kx.1) (map_to_list (accounts s.(srv_db).(db_rows)).(acc_sessions)).

Example third_login : (upg _ (CreateSession third 2) []).2 = None ∧
  bool_decide (hashes (upg _ (CreateSession third 2) []).1 ≡ₚ [hashToken "t2"; hashToken "t3"]) = true.
Proof. vm_compute. done. Qed.
Lemma third_created : (upg _ (CreateSession third 2) []).2 = None.
Proof. vm_compute. reflexivity. Qed.

Example user_postgres_refines_witness :
  (upg _ (CreateSession third 2) []).2 = None ∧
  evicted (<[hashToken "t3" := stored_session third]> (accounts alice_rows).(acc_sessions))
    (stored_session third).(sess_UserID) 2
    (accounts (upg _ (CreateSession third 2) []).1.(srv_db).(db_rows)).(acc_sessions).
Proof.
  pose proof (user_postgres_refines (account_server 5) time.Second (CreateSession third 2) (accounts_with [])
    (accounts_with_inv []) eq_refl ltac:(simpl; lia)) as Hr.
  split; [exact third_created|]. pose proof third_created as Hres. revert Hr Hres. unfold upg.
  destruct (run (account_server 5) _ (accounts_with [])) as [s' r]. cbn [fst snd].
  intros Hr ->. destruct Hr as [[Hr|(err & ok & Herr & _)] _]; [exact (proj2 Hr)|discriminate Herr].
Defined.

(** An address that is taken is refused, whoever asks; deleting an account ends its
    sessions; a session for a user who is gone is refused; one whose commit is
    answered by a broken connection has been created. *)
Example taken_address :
  (upg _ (CreateUser {| user_ID := id1; user_Email := "alice@example.com"; user_CreatedAt := 9; user_UpdatedAt := 9;
                        user_PasswordHash := "x" |}) []).2 = Some (Sentinel (ErrAlreadyExists user_pkg)).
Proof. vm_compute. reflexivity. Qed.
Example deleted_with_sessions :
  let '(s', r) := upg _ (DeleteUser alice) [] in r = None ∧ hashes s' = [].
Proof. vm_compute. done. Qed.
Example no_such_user :
  option_map Error (upg _ (CreateSession (mk_session "t4" id1 1) 2) []).2 =
  Some "postgres: create session: insert or update violates foreign key constraint (SQLSTATE 23503)".
Proof. vm_compute. reflexivity. Qed.
