(* ===== verification/AttachmentPostgres.v ===== *)
(** [internal/attachment/postgres_repository.go]: the PostgreSQL repository of
    attachments, as programs over the calls of [database/sql]. *)

From S2P Require Import Prelude GoStd GoError Sql Breaker Postgres Attachment.
Local Open Scope Z_scope.

Definition postgreSQLForeignKeyViolation : string := "23503".
Definition isForeignKeyViolation (err : error) : bool :=
  match AsPgError err with Some code => String.eqb code postgreSQLForeignKeyViolation | None => false end.

Definition attachmentColumns : string := "
	a.id::text, a.task_id::text, a.original_filename,
	a.storage_key::text, a.content_type, a.size_bytes, a.created_at
".
(** The variables that [scanAttachment] scans a row into, and what it returns. *)
Definition attachment_dests : list dest := [DString; DString; DString; DString; DString; DInt; DTime].
Definition scanAttachment (row : tuple attachment_dests) : Attachment :=
  let '(id, (task_id, (original_filename, (storage_key, (content_type, (size_bytes, (created_at, _))))))) := row in
  {| att_ID := id; att_TaskID := task_id; att_OriginalFilename := original_filename;
     att_StorageKey := storage_key; att_ContentType := content_type; att_SizeBytes := size_bytes;
     att_CreatedAt := created_at |}.

(** [pqTextArray]: the text of a PostgreSQL array of texts. *)
Definition writeRune (r : Z) : string :=
  (if (r =? 34) || (r =? 92) then "\" else "") +:+ of_bytes (utf8.EncodeRune r).
Fixpoint writeRunes (rs : list Z) : string :=
  match rs with [] => "" | r :: rs' => writeRune r +:+ writeRunes rs' end.
Definition quote : string := String (byte_of 34) "".
Fixpoint keysLoop (i : Z) (keys : list string) : string :=
  match keys with
  | [] => ""
  | key :: keys' =>
      (if 0 <? i then "," else "") +:+ quote +:+ writeRunes (utf8.runes key) +:+ quote +:+ keysLoop (i + 1) keys'
  end.
Definition pqTextArray (keys : list string) : string := "{" +:+ keysLoop 0 keys +:+ "}".

Section repository.
Context (r : postgresRepository).
Local Open Scope prog_scope.
Abbreviation ctx := (withTimeout r).
Abbreviation failed := (db_failed attachment_pkg).

Definition pCreateAttachment (attachment : Attachment) (userID : string) : prog dbE (option error) :=
  let query := "
		INSERT INTO attachments (id, task_id, original_filename, storage_key, content_type, size_bytes, created_at)
		SELECT $1::uuid, t.id, $3, $4::uuid, $5, $6, $7
		FROM tasks t
		WHERE t.id = $2::uuid AND t.user_id = $8::uuid
	" in
  result ← trigger (ExecContext ctx None query
    [ArgString attachment.(att_ID); ArgString attachment.(att_TaskID);
     ArgString attachment.(att_OriginalFilename); ArgString attachment.(att_StorageKey);
     ArgString attachment.(att_ContentType); ArgInt attachment.(att_SizeBytes);
     ArgTime attachment.(att_CreatedAt); ArgString userID]);
  match result with
  | Err err =>
      mret (Some (if isUniqueViolation err then Sentinel (ErrAlreadyExists attachment_pkg)
                  else if isForeignKeyViolation err then Sentinel ErrTaskNotFound
                  else failed "postgres: create attachment" err))
  | Ok (Err err) => mret (Some (failed "postgres: create attachment" err))
  | Ok (Ok affected) => mret (if affected =? 0 then Some (Sentinel ErrTaskNotFound) else None)
  end.

Definition pFindByStorageKey (storageKey userID : string) : prog dbE (result Attachment) :=
  let query := "
		SELECT " +:+ attachmentColumns +:+ "
		FROM attachments a
		JOIN tasks t ON t.id = a.task_id
		WHERE a.storage_key = $1::uuid AND t.user_id = $2::uuid
	" in
  row ← trigger (QueryRow ctx None query [ArgString storageKey; ArgString userID] attachment_dests);
  match row with
  | Err err =>
      mret (Err (if Is err sql_ErrNoRows then Sentinel (ErrNotFound attachment_pkg)
                 else failed "postgres: find attachment by storage key" err))
  | Ok row => mret (Ok (scanAttachment row))
  end.

Definition pDeleteAttachment (storageKey userID : string) : prog dbE (option error) :=
  let query := "
		DELETE FROM attachments a
		USING tasks t
		WHERE a.task_id = t.id
		  AND a.storage_key = $1::uuid
		  AND t.user_id = $2::uuid
	" in
  result ← trigger (ExecContext ctx None query [ArgString storageKey; ArgString userID]);
  match result with
  | Err err | Ok (Err err) => mret (Some (failed "postgres: delete attachment" err))
  | Ok (Ok affected) =>
      mret (if affected =? 0 then Some (Sentinel (ErrNotFound attachment_pkg)) else None)
  end.

Definition pTotalBytesForUser (userID : string) : prog dbE (result Z) :=
  let query := "
		SELECT COALESCE(SUM(a.size_bytes), 0)
		FROM attachments a
		JOIN tasks t ON t.id = a.task_id
		WHERE t.user_id = $1::uuid
	" in
  row ← trigger (QueryRow ctx None query [ArgString userID] [DInt]);
  match row with
  | Err err => mret (Err (failed "postgres: total bytes for user" err))
  | Ok (total, _) => mret (Ok total)
  end.

Definition pCountByTask (taskID userID : string) : prog dbE (result Z) :=
  let query := "
		SELECT COUNT(*)
		FROM attachments a
		JOIN tasks t ON t.id = a.task_id
		WHERE t.user_id = $1::uuid AND a.task_id = $2::uuid
	" in
  row ← trigger (QueryRow ctx None query [ArgString userID; ArgString taskID] [DInt]);
  match row with
  | Err err => mret (Err (failed "postgres: count by task" err))
  | Ok (count, _) => mret (Ok count)
  end.

Definition pFindByTask (taskID userID : string) : prog dbE (result (list Attachment)) :=
  let ownsQuery := "SELECT 1 FROM tasks WHERE id = $1::uuid AND user_id = $2::uuid" in
  exists_ ← trigger (QueryRow ctx None ownsQuery [ArgString taskID; ArgString userID] [DInt]);
  match exists_ with
  | Err err =>
      mret (Err (if Is err sql_ErrNoRows then Sentinel ErrTaskNotFound
                 else failed "postgres: check task ownership" err))
  | Ok _ =>
      let query := "
		SELECT " +:+ attachmentColumns +:+ "
		FROM attachments a
		WHERE a.task_id = $1::uuid
		ORDER BY a.created_at, a.id
	" in
      res ← trigger (Query ctx query [ArgString taskID] attachment_dests);
      match res with
      | Err err => mret (Err (failed "postgres: find attachments by task" err))
      | Ok (rows, rowsErr) =>
          match scanRows scanAttachment rows [] with
          | Err err => mret (Err (failed "postgres: scan attachment row" err))
          | Ok attachments =>
              match rowsErr with
              | Some err => mret (Err (failed "postgres: find attachments by task" err))
              | None => mret (Ok attachments)
              end
          end
      end
  end.

Definition pUnreferencedKeys (keys : list string) : prog dbE (result (list string)) :=
  match keys with
  | [] => mret (Ok [])
  | _ =>
      let query := "
		SELECT k
		FROM unnest($1::text[]) AS k
		WHERE k ~ '^[0-9a-fA-F]{8}-[0-9a-fA-F]{4}-[0-9a-fA-F]{4}-[0-9a-fA-F]{4}-[0-9a-fA-F]{12}$'
		  AND NOT EXISTS (
		      SELECT 1 FROM attachments a WHERE a.storage_key = k::uuid
		  )
	" in
      res ← trigger (Query ctx query [ArgString (pqTextArray keys)] [DString]);
      match res with
      | Err err => mret (Err (failed "postgres: find unreferenced storage keys" err))
      | Ok (rows, rowsErr) =>
          match scanRows (λ row : tuple [DString], row.1) rows [] with
          | Err err => mret (Err (failed "postgres: scan unreferenced key" err))
          | Ok unreferenced =>
              match rowsErr with
              | Some err => mret (Err (failed "postgres: find unreferenced storage keys" err))
              | None => mret (Ok unreferenced)
              end
          end
      end
  end.

(** The repository as an implementation of the interface's calls. *)
Definition attachment_postgres X (e : attachRepoE X) : prog dbE X :=
  match e in attachRepoE X return prog dbE X with
  | CreateAttachment a u => pCreateAttachment a u
  | FindByStorageKey k u => pFindByStorageKey k u
  | FindByTask t u => pFindByTask t u
  | DeleteAttachment k u => pDeleteAttachment k u
  | TotalBytesForUser u => pTotalBytesForUser u
  | CountByTask t u => pCountByTask t u
  | UnreferencedKeys ks => pUnreferencedKeys ks
  end.
End repository.
