(* ===== verification/AttachmentPostgresSpec.v ===== *)
(** The PostgreSQL repository of attachments over a database that behaves as
    documented: the array of texts as PostgreSQL reads it, the tables of tasks and
    attachments as [Holding] records, what the statements mean, and what each method
    does. *)

From S2P Require Import Prelude GoStd GoError Uuid Text Sql SqlJoin Breaker Postgres Task TaskPostgresSpec.
From S2P Require Import Attachment AttachmentMemory AttachmentSpec AttachmentBreaker AttachmentPostgres.
Local Open Scope Z_scope.

(** * The text of an array *)

(** A key as [range] and [WriteRune] pass it on: a byte that is not UTF-8 becomes
    U+FFFD. *)
Definition rune_text (rs : list Z) : string := of_bytes (concat (map utf8.EncodeRune rs)).
Definition utf8_text (s : string) : string := rune_text (utf8.runes s).

Lemma of_bytes_app l l' : of_bytes (l ++ l') = of_bytes l +:+ of_bytes l'.
Proof.
  unfold of_bytes. rewrite map_app. induction (map byte_of l) as [|c cs IH]; [done|].
  cbn [app String.string_of_list_ascii]. by rewrite IH, append_cons.
Qed.
Lemma array_element_bytes acc l rest :
  Forall (λ b, 0 ≤ b < 256 ∧ b ≠ 34 ∧ b ≠ 92) l →
  array_element acc (of_bytes l +:+ rest) = array_element (acc +:+ of_bytes l) rest.
Proof.
  intros Hl. revert acc. induction Hl as [|b l (Hb & H34 & H92) Hl IH]; intros acc; [by rewrite append_nil_r|].
  change (of_bytes (b :: l)) with (String (byte_of b) (of_bytes l)). rewrite append_cons. cbn [array_element].
  assert (∀ c, byte_of b = c → b = byte_val c) as Hc by (intros c <-; by rewrite byte_val_of).
  destruct (Ascii.eqb_spec (byte_of b) (byte_of 34)) as [He|_]; [apply Hc in He; by rewrite byte_val_of in He by lia|].
  destruct (Ascii.eqb_spec (byte_of b) "\") as [He|_]; [by apply Hc in He|].
  rewrite IH. f_equal. by rewrite append_assoc, append_cons.
Qed.
Lemma array_element_rune acc r rest :
  array_element acc (writeRune r +:+ rest) = array_element (acc +:+ of_bytes (utf8.EncodeRune r)) rest.
Proof.
  unfold writeRune. destruct (Z.eqb_spec r 34) as [->|H34]; [done|]. destruct (Z.eqb_spec r 92) as [->|H92]; [done|].
  cbn [orb]. rewrite append_empty. apply array_element_bytes.
  destruct (decide (0 ≤ r < 128)) as [Hr|Hr].
  - unfold utf8.EncodeRune. rewrite (proj2 (Z.leb_le 0 r)), (proj2 (Z.ltb_lt r 128)) by lia. cbn [andb].
    repeat constructor; lia.
  - eapply Forall_impl; [by apply EncodeRune_high|]. intros z Hz. cbn in Hz. lia.
Qed.
Lemma array_element_runes acc rs rest :
  array_element acc (writeRunes rs +:+ quote +:+ rest) = Some (acc +:+ rune_text rs, rest).
Proof.
  revert acc; induction rs as [|r rs IH]; intros acc; cbn [writeRunes].
  - rewrite append_empty. unfold rune_text. cbn [map concat]. change (of_bytes []) with "". by rewrite append_nil_r.
  - rewrite append_assoc, array_element_rune, IH. unfold rune_text. cbn [map concat].
    by rewrite of_bytes_app, append_assoc.
Qed.
Lemma array_elements_keys fuel i key keys :
  (length keys < fuel)%nat → 0 ≤ i →
  array_elements fuel (quote +:+ writeRunes (utf8.runes key) +:+ quote +:+ keysLoop (i + 1) keys +:+ "}") =
  Some (utf8_text key :: map utf8_text keys).
Proof.
  revert fuel i key; induction keys as [|key' keys IH]; intros [|fuel] i key Hf Hi; simpl in Hf; try lia;
    unfold quote at 1; rewrite append_cons, append_empty; cbn [array_elements]; rewrite Ascii.eqb_refl,
    array_element_runes; cbn [mbind option_bind keysLoop]; rewrite append_empty.
  - done.
  - destruct (Z.ltb_spec 0 (i + 1)); [|lia]. rewrite !append_assoc, append_cons, append_empty.
    cbn iota. by rewrite IH by lia.
Qed.
(** What PostgreSQL reads is the keys. *)
Lemma array_of_keys keys : array_of (pqTextArray keys) = Some (map utf8_text keys).
Proof.
  unfold pqTextArray. destruct keys as [|key keys]; [done|]. cbn [keysLoop Z.ltb Z.compare].
  rewrite append_empty, !append_assoc. set (s := quote +:+ _).
  change (array_elements (String.length s) s = Some (utf8_text key :: map utf8_text keys)). unfold s.
  apply array_elements_keys; [|lia].
  clear. rewrite !length_append. change (String.length quote) with 1%nat.
  enough (∀ i, (length keys ≤ String.length (keysLoop i keys))%nat) as Hl by (specialize (Hl (0 + 1)); lia).
  induction keys as [|key' keys IH]; intros i; [simpl; lia|]. cbn [keysLoop length].
  rewrite !length_append. change (String.length quote) with 1%nat. specialize (IH (i + 1)). lia.
Qed.

(** A key that is a UUID is passed on as it is, and nothing else becomes one. *)
Lemma id_chars_ascii s : isValidID s = true → Forall (λ b, 0 ≤ b < 128) (bytes s).
Proof.
  intros Hs. unfold bytes. apply Forall_fmap, Forall_forall. intros c Hc. cbn.
  pose proof (match_groups_chars idPattern s c Hs (proj1 (list_elem_of_In _ _) Hc)) as Hid.
  destruct c as [[] [] [] [] [] [] [] []]; try discriminate Hid; vm_compute; split; congruence.
Qed.
Lemma rune_text_ascii l : Forall (λ b, 0 ≤ b < 128) l → rune_text l = of_bytes l.
Proof.
  intros Hl. unfold rune_text. f_equal. induction Hl as [|b l Hb Hl IH]; [done|]. cbn [map concat]. rewrite IH.
  unfold utf8.EncodeRune. by rewrite (proj2 (Z.leb_le 0 b)), (proj2 (Z.ltb_lt b 128)) by lia.
Qed.
Lemma utf8_text_ascii s : Forall (λ b, 0 ≤ b < 128) (bytes s) → utf8_text s = s.
Proof. intros Hs. unfold utf8_text. rewrite runes_ascii, rune_text_ascii by done. apply of_bytes_bytes. Qed.
Lemma runes_ascii_back fuel l :
  (length l ≤ fuel)%nat → Forall (λ b, 0 ≤ b < 256) l →
  Forall (λ z, 0 ≤ z < 128) (concat (map utf8.EncodeRune (utf8.runes_fuel fuel l))) → Forall (λ b, 0 ≤ b < 128) l.
Proof.
  revert l; induction fuel as [|fuel IH]; intros [|b l] Hf Hb; [done|simpl in Hf; lia|done|].
  apply Forall_cons in Hb as [Hb Hl]. cbn [utf8.runes_fuel]. destruct (Z.ltb_spec b 128) as [Hlt|Hge].
  - assert (utf8.DecodeRune (b :: l) = (b, 1%nat)) as ->.
    { unfold utf8.DecodeRune, utf8.lead. by rewrite (proj2 (Z.ltb_lt b 128)). }
    cbn [map concat drop]. rewrite drop_0. intros [_ Hrest]%Forall_app. constructor; [lia|].
    apply IH; [simpl in Hf; lia|done|done].
  - pose proof (DecodeRune_high b l ltac:(lia)) as Hh.
    destruct (utf8.DecodeRune (b :: l)) as [r w]. cbn [fst] in Hh. cbn [map concat]. intros [Hr _]%Forall_app.
    pose proof (EncodeRune_high r ltac:(lia)) as Hr'. exfalso.
    destruct (utf8.EncodeRune r) as [|z zs] eqn:Er.
    + revert Er. unfold utf8.EncodeRune. repeat case_match; done.
    + apply Forall_cons in Hr as [? _], Hr' as [? _]. lia.
Qed.
Lemma utf8_text_id s : isValidID (utf8_text s) = true → utf8_text s = s.
Proof.
  intros Hid%id_chars_ascii. apply utf8_text_ascii. unfold utf8_text, rune_text in Hid.
  rewrite bytes_of_bytes in Hid.
  - eapply runes_ascii_back; [|apply bytes_range|exact Hid]. pose proof (length_bytes s). unfold len in *. lia.
  - apply Forall_concat, Forall_fmap, Forall_true. intros r. apply EncodeRune_bytes.
Qed.

(** * The tables *)
Inductive Holding := HTask (t : Task) | HAttachment (a : Attachment).

Definition attachment_cols (a : Attachment) : list (string * value) :=
  [("id", VUuid a.(att_ID)); ("task_id", VUuid a.(att_TaskID)); ("original_filename", VText a.(att_OriginalFilename));
   ("storage_key", VUuid a.(att_StorageKey)); ("content_type", VText a.(att_ContentType));
   ("size_bytes", VInt a.(att_SizeBytes)); ("created_at", VTime a.(att_CreatedAt))].
Definition holding_cols (x : Holding) : list (string * value) :=
  match x with HTask t => task_cols t | HAttachment a => attachment_cols a end.
Definition holding_of_cols (table : string) (cols : list (string * value)) : option Holding :=
  if String.eqb table "tasks" then t ← task_of_cols cols; Some (HTask t)
  else if String.eqb table "attachments" then
    i ← uuid_col "id" cols; t ← uuid_col "task_id" cols; f ← text_col "original_filename" cols;
    k ← uuid_col "storage_key" cols; y ← text_col "content_type" cols;
    n ← int_col "size_bytes" cols; c ← time_col "created_at" cols;
    Some (HAttachment {| att_ID := i; att_TaskID := t; att_OriginalFilename := f; att_StorageKey := k;
                         att_ContentType := y; att_SizeBytes := n; att_CreatedAt := c |})
  else None.
Definition holding_table (x : Holding) : string :=
  match x with HTask _ => "tasks" | HAttachment _ => "attachments" end.
Definition task_key (id : string) : string := String "t" id.
Definition attachment_key (id : string) : string := String "a" id.

(** The columns of the migrations, with [attachments.storage_key UNIQUE],
    [attachments.task_id REFERENCES tasks(id) ON DELETE CASCADE] and the check on
    the size. *)
#[export] Instance holding_relation : Relation Holding := {|
  rel_tables := ["tasks"; "attachments"];
  rel_table := holding_table;
  rel_key x := match x with HTask t => task_key t.(task_ID) | HAttachment a => attachment_key a.(att_ID) end;
  rel_get x c := cv ← List.find (λ cv, String.eqb cv.1 c) (holding_cols x); Some cv.2;
  rel_make := holding_of_cols;
  rel_set c v x := holding_of_cols (holding_table x) ((c, v) :: holding_cols x);
  rel_unique t := if String.eqb t "attachments" then ["storage_key"] else [];
  rel_parent x := match x with HTask _ => None | HAttachment a => Some (task_key a.(att_TaskID)) end;
  rel_fits x :=
    match x with
    | HTask t => rel_fits t
    | HAttachment a => utf8.RuneCountInString a.(att_OriginalFilename) ≤ 255 ∧
        utf8.RuneCountInString a.(att_ContentType) ≤ 255 ∧ 0 ≤ a.(att_SizeBytes) ≤ int64.max
    end;
|}.

(** ** The attachments they hold, and who owns which task *)
Definition as_task (x : Holding) : option Task := match x with HTask t => Some t | _ => None end.
Definition as_attachment (x : Holding) : option Attachment := match x with HAttachment a => Some a | _ => None end.
Definition tasks_in (m : gmap string Holding) : gmap string Task := part "t" as_task m.
Definition attachments_in (m : gmap string Holding) : rows := part "a" as_attachment m.
Definition owns_in (m : gmap string Holding) (taskID userID : string) : bool :=
  match tasks_in m !! taskID with Some t => String.eqb t.(task_UserID) userID | None => false end.

Lemma tasks_Some m k t : tasks_in m !! k = Some t ↔ m !! task_key k = Some (HTask t).
Proof.
  unfold tasks_in. rewrite lookup_part. change (String "t" k) with (task_key k).
  destruct (m !! task_key k) as [[t'|a]|]; cbn; naive_solver.
Qed.
Lemma attachments_Some m k a : attachments_in m !! k = Some a ↔ m !! attachment_key k = Some (HAttachment a).
Proof.
  unfold attachments_in. rewrite lookup_part. change (String "a" k) with (attachment_key k).
  destruct (m !! attachment_key k) as [[t|a']|]; cbn; naive_solver.
Qed.
Lemma attachments_eq m (as' : rows) :
  (∀ k a, m !! attachment_key k = Some (HAttachment a) ↔ as' !! k = Some a) → attachments_in m = as'.
Proof. intros Ha. apply map_eq. intros k. apply option_eq. intros a. rewrite <-Ha. apply attachments_Some. Qed.
Lemma tasks_eq m m' :
  (∀ k t, m !! task_key k = Some (HTask t) ↔ m' !! task_key k = Some (HTask t)) → tasks_in m = tasks_in m'.
Proof. intros Ht. apply map_eq. intros k. apply option_eq. intros t. rewrite !tasks_Some. apply Ht. Qed.

#[local] Arguments task_key : simpl never.
#[local] Arguments attachment_key : simpl never.
#[local] Arguments isValidID : simpl never.
#[local] Arguments lower_hex : simpl never.
#[local] Arguments micros : simpl never.
#[local] Arguments tasks_in : simpl never.
#[local] Arguments attachments_in : simpl never.

Lemma clash_attachments a b : clash (HAttachment a) (HAttachment b) = String.eqb a.(att_StorageKey) b.(att_StorageKey).
Proof.
  unfold clash. cbn. rewrite orb_false_r. destruct (String.eqb_spec (att_StorageKey a) (att_StorageKey b)) as [-> |Hne].
  - by apply bool_decide_eq_true_2.
  - apply bool_decide_eq_false_2. congruence.
Qed.

Section consistent.
Context (m : gmap string Holding) (Hm : consistent m).

Lemma task_row k t : m !! k = Some (HTask t) → k = task_key t.(task_ID).
Proof. intros Hk. symmetry. exact (consistent_key m k (HTask t) Hm Hk). Qed.
Lemma attachment_row k a : m !! k = Some (HAttachment a) → k = attachment_key a.(att_ID).
Proof. intros Hk. symmetry. exact (consistent_key m k (HAttachment a) Hm Hk). Qed.
Lemma at_task_key k x : m !! task_key k = Some x → ∃ t, x = HTask t ∧ t.(task_ID) = k.
Proof.
  destruct x as [t|a]; intros Hk; [|by apply attachment_row in Hk]. exists t. split; [done|].
  apply task_row in Hk. by injection Hk.
Qed.
Lemma at_attachment_key k x : m !! attachment_key k = Some x → ∃ a, x = HAttachment a ∧ a.(att_ID) = k.
Proof.
  destruct x as [t|a]; intros Hk; [by apply task_row in Hk|]. exists a. split; [done|].
  apply attachment_row in Hk. by injection Hk.
Qed.
Lemma task_in k t : tasks_in m !! k = Some t → t.(task_ID) = k.
Proof. intros (t' & [= <-] & Ht)%tasks_Some%at_task_key. done. Qed.
(** The constraints are what the contract asks of attachments, and every one has
    its task. *)
Lemma attachments_wf : wf_rows (attachments_in m).
Proof.
  split.
  - intros k a (a' & [= <-] & Ha)%attachments_Some%at_attachment_key. done.
  - intros k k' a a' Hk%attachments_Some Hk'%attachments_Some He.
    destruct (Hm _ _ Hk) as (_ & _ & Hc). specialize (Hc _ _ Hk'). cbn beta in Hc. rewrite clash_attachments, He, String.eqb_refl in Hc.
    by injection (Hc eq_refl).
Qed.
Lemma NoDup_attachments : NoDup (values (map_to_list (attachments_in m))).
Proof.
  unfold values. apply NoDup_fmap_2_strong; [|apply NoDup_map_to_list].
  intros [k a] [k' a'] Ha Ha' Heq. cbn in Heq. subst a'. rewrite elem_of_map_to_list in Ha, Ha'.
  by rewrite <-(wf_att_id _ attachments_wf k a Ha), <-(wf_att_id _ attachments_wf k' a Ha').
Qed.
Lemma attachment_task k a : attachments_in m !! k = Some a → is_Some (tasks_in m !! a.(att_TaskID)).
Proof.
  intros Hk%attachments_Some. destruct (Hm _ _ Hk) as (_ & Hr & _). unfold refers in Hr. cbn in Hr. destruct Hr as [x Hx].
  destruct (at_task_key _ _ Hx) as (t & -> & _). exists t. by apply tasks_Some.
Qed.
End consistent.

(** * The calls as PostgreSQL stores them *)
Definition stored_attachment (a : Attachment) : Attachment :=
  {| att_ID := lower_hex a.(att_ID); att_TaskID := lower_hex a.(att_TaskID);
     att_OriginalFilename := a.(att_OriginalFilename); att_StorageKey := lower_hex a.(att_StorageKey);
     att_ContentType := a.(att_ContentType); att_SizeBytes := a.(att_SizeBytes);
     att_CreatedAt := micros a.(att_CreatedAt) |}.
Definition stored_acall {X} (e : attachRepoE X) : attachRepoE X :=
  match e with
  | CreateAttachment a u => CreateAttachment (stored_attachment a) (lower_hex u)
  | FindByStorageKey k u => FindByStorageKey (lower_hex k) (lower_hex u)
  | FindByTask t u => FindByTask (lower_hex t) (lower_hex u)
  | DeleteAttachment k u => DeleteAttachment (lower_hex k) (lower_hex u)
  | TotalBytesForUser u => TotalBytesForUser (lower_hex u)
  | CountByTask t u => CountByTask (lower_hex t) (lower_hex u)
  | UnreferencedKeys ks => UnreferencedKeys ks
  end.
(** The calls [Service] makes: identifiers that are UUIDs, and values within the
    limits it enforces. *)
Definition attachment_call {X} (e : attachRepoE X) : Prop :=
  match e with
  | CreateAttachment a u => isValidID a.(att_ID) = true ∧ isValidID a.(att_TaskID) = true ∧
      isValidID a.(att_StorageKey) = true ∧ isValidID u = true ∧ rel_fits (HAttachment a)
  | FindByStorageKey k u | FindByTask k u | DeleteAttachment k u | CountByTask k u =>
      isValidID k = true ∧ isValidID u = true
  | TotalBytesForUser u => isValidID u = true
  | UnreferencedKeys _ => True
  end.
(** What the repository promises: the contract, where keys that differ in the case
    of their digits are one. *)
Definition pg_attach_spec {X} (e : attachRepoE X) (owns : string → string → bool) (m m' : rows) : X → Prop :=
  match e in attachRepoE X return X → Prop with
  | UnreferencedKeys ks => λ r, m' = m ∧
      match r with
      | Ok l => (∀ k, k ∈ l ↔ k ∈ ks ∧ isValidID k = true ∧ no_key m (lower_hex k))
      | Err e => aforeign e = true
      end
  | e => attach_spec e owns m m'
  end.
(** The call was answered with a failure although the store has done it. *)
Definition alost {X} (e : attachRepoE X) (owns : string → string → bool) (m m' : rows) (r : X) : Prop :=
  ∃ err ok, failure e r = Some err ∧ aforeign err = true ∧ failure e ok = None ∧ pg_attach_spec e owns m m' ok.
Definition pg_aanswered {X} (e : attachRepoE X) (owns : string → string → bool) (m m' : rows) (r : X) : Prop :=
  pg_attach_spec e owns m m' r ∨ alost e owns m m' r.

#[local] Arguments aforeign : simpl never.
#[local] Arguments db_failed : simpl never.

Lemma attachment_failed_foreign msg err : driver_error err → aforeign (db_failed attachment_pkg msg err) = true.
Proof.
  intros Hd. apply forallb_forall. intros s Hs%list_elem_of_In. apply negb_true_iff, db_failed_Is; [done| |];
    (unfold attach_sentinels in Hs; set_solver).
Qed.
#[local] Hint Resolve attachment_failed_foreign : core.

(** * Attachments with their tasks *)
Definition a_col (c : string) : cref := {| cr_alias := "a"; cr_column := c |}.
Definition t_col (c : string) : cref := {| cr_alias := "t"; cr_column := c |}.
Definition att_src : source := {| src_table := "attachments"; src_alias := "a" |}.
Definition task_src : source := {| src_table := "tasks"; src_alias := "t" |}.
Definition joined (a : Attachment) (t : Task) : list (string * Holding) := [("a", HAttachment a); ("t", HTask t)].
Definition no_attachment : Attachment :=
  {| att_ID := ""; att_TaskID := ""; att_OriginalFilename := ""; att_StorageKey := ""; att_ContentType := "";
     att_SizeBytes := 0; att_CreatedAt := 0 |}.
Definition att_of (e : list (string * Holding)) : Attachment :=
  match e with (_, HAttachment a) :: _ => a | _ => no_attachment end.

Section joins.
Context (m : gmap string Holding) (Hm : consistent m).
Context (bs : list jbound) (f : Attachment → Task → bool).
Hypothesis Hf : ∀ a t, jtests bs (joined a t) = f a t.
Hypothesis Hid : ∀ a t, f a t = true → t.(task_ID) = a.(att_TaskID).

Lemma joined_found e :
  e ∈ jfound [att_src; task_src] bs m ↔ ∃ a t, e = joined a t ∧ attachments_in m !! a.(att_ID) = Some a ∧
    tasks_in m !! a.(att_TaskID) = Some t ∧ f a t = true.
Proof.
  rewrite elem_of_jfound_two. split.
  - intros (k & r & k' & r' & -> & Hk & Hr & Hk' & Hr' & Ht). destruct r as [?|a]; [done|]. destruct r' as [t|?]; [|done].
    change (jtests bs (joined a t) = true) in Ht. rewrite Hf in Ht. exists a, t. split; [done|].
    rewrite attachments_Some, tasks_Some, <-(Hid a t Ht), <-(attachment_row m Hm k a Hk), <-(task_row m Hm k' t Hk'). done.
  - intros (a & t & -> & Ha%attachments_Some & Ht%tasks_Some & Hft). eexists _, _, _, _. split; [done|].
    split_and!; [exact Ha|done|exact Ht|done|]. change (jtests bs (joined a t) = true). by rewrite Hf.
Qed.
(** The attachments among them. *)
Lemma joined_attachments (g : Attachment → bool) :
  (∀ a t, tasks_in m !! a.(att_TaskID) = Some t → f a t = g a) →
  map att_of (jfound [att_src; task_src] bs m) ≡ₚ
  base.filter (λ a, g a = true) (values (map_to_list (attachments_in m))).
Proof.
  intros Hg. apply NoDup_Permutation.
  - apply NoDup_fmap_2_strong; [|by apply NoDup_jfound].
    intros e e' (a & t & -> & _ & Ht & _)%joined_found (a' & t' & -> & _ & Ht' & _)%joined_found Heq. cbn in Heq. subst a'. congruence.
  - by apply NoDup_filter, NoDup_attachments.
  - intros a. rewrite list_elem_of_filter, elem_of_values by by unfold range_of. rewrite list_elem_of_fmap. split.
    + intros (e & -> & (a' & t & -> & Ha & Ht & Hft)%joined_found). cbn. rewrite <-(Hg a' t Ht). eauto.
    + intros (Hga & k & Hk). destruct (attachment_task m Hm k a Hk) as [t Ht]. exists (joined a t). split; [done|].
      apply joined_found. exists a, t. pose proof (wf_att_id _ (attachments_wf m Hm) k a Hk) as Hka. rewrite Hka.
      split_and!; try done. by rewrite (Hg a t Ht).
Qed.
End joins.

Lemma owns_task m a t u : tasks_in m !! a.(att_TaskID) = Some t → owns_in m a.(att_TaskID) u = String.eqb t.(task_UserID) u.
Proof. intros Ht. unfold owns_in. by rewrite Ht. Qed.
Lemma filter_nothing {A} (P : A → Prop) `{∀ x, Decision (P x)} l :
  (∀ x, x ∈ l → ¬ P x) → base.filter P l = [].
Proof.
  induction l as [|x l IH]; intros Hn; [done|]. rewrite filter_cons_False by (apply Hn; left).
  apply IH. intros y Hy. apply Hn. by right.
Qed.
Lemma foldr_add_perm l l' : l ≡ₚ l' → foldr Z.add 0 l = foldr Z.add 0 l'.
Proof. induction 1; cbn; lia. Qed.
Lemma bytes_owned_sum owns u l :
  bytes_owned owns u l = foldr Z.add 0 (map att_SizeBytes (base.filter (λ a, owns a.(att_TaskID) u = true) l)).
Proof.
  induction l as [|a l IH]; [done|]. cbn [bytes_owned fold_right]. fold (bytes_owned owns u l). rewrite IH, filter_cons.
  destruct (owns (att_TaskID a) u) eqn:Ho; [rewrite decide_True by done|rewrite decide_False by done]; done.
Qed.
Lemma int64_wrap_id n : int64.in_range n = true → int64.wrap n = n.
Proof.
  unfold int64.in_range, int64.wrap, int64.min, int64.max. intros [H1%Z.leb_le H2%Z.leb_le]%andb_true_iff.
  rewrite Z.mod_small by lia. lia.
Qed.

(** * The methods *)
Section methods.
Context {S : Type} (h : handler dbE S) `{!Database Holding h, !JoinDatabase Holding h} (repo : postgresRepository).
Abbreviation stored s := ((db_view s).(db_rows)).
Abbreviation atts s := (attachments_in (stored s)).
Abbreviation owns s := (owns_in (stored s)).

Definition ameets {X} (e : attachRepoE X) (p : prog dbE X) : Prop := ∀ s,
  db_inv s → attachment_call e →
  let '(s', r) := run h p s in
  db_inv s' ∧ tasks_in (stored s') = tasks_in (stored s) ∧
  pg_aanswered (stored_acall e) (owns s) (atts s) (atts s') r.

(** ** Counting and adding up *)
Definition join_query (items : list jitem) (conds : list jcond) : jselect :=
  {| js_items := items; js_from := [att_src; task_src];
     js_where := JSame (t_col "id") (a_col "task_id") :: conds; js_order := [] |}.
Lemma jbind_uuid args c i s :
  0 < i → args !! Z.to_nat (i - 1) = Some (ArgString s) → isValidID s = true →
  jbind args (JParam c (uuid i)) = Some (JBValue c (VUuid (lower_hex s))).
Proof.
  intros Hi Ha Hs. cbn [jbind]. erewrite param_value_eq; [done|exact Hi|exact Ha|].
  cbn [cast_arg uuid p_cast]. by rewrite Hs.
Qed.

Lemma bind_join args c i s cs bs :
  0 < i → args !! Z.to_nat (i - 1) = Some (ArgString s) → isValidID s = true → mapM (jbind args) cs = Some bs →
  mapM (jbind args) (JParam c (uuid i) :: cs) = Some (JBValue c (VUuid (lower_hex s)) :: bs).
Proof. intros Hi Ha Hs Hc. cbn [mapM]. rewrite (jbind_uuid _ _ i s) by done. cbn [mbind option_bind]. by rewrite Hc. Qed.
Definition same_task : jbound := JBSame (t_col "id") (a_col "task_id").
Lemma join_reads args items conds bs :
  mapM (jbind args) conds = Some bs →
  jreads args (JSelect (join_query items conds)) = Some (janswers args (join_query items conds) (same_task :: bs)).
Proof. intros Hc. cbn [jreads join_query js_where js_from mapM jbind mbind option_bind]. by rewrite Hc. Qed.
Lemma jtest_same a t : jtest (joined a t) same_task = String.eqb t.(task_ID) a.(att_TaskID).
Proof. apply bool_decide_uuid. Qed.
Lemma jtest_owner a t u : jtest (joined a t) (JBValue (t_col "user_id") (VUuid u)) = String.eqb t.(task_UserID) u.
Proof. apply bool_decide_uuid. Qed.
Lemma jtest_key a t k : jtest (joined a t) (JBValue (a_col "storage_key") (VUuid k)) = String.eqb a.(att_StorageKey) k.
Proof. apply bool_decide_uuid. Qed.
Lemma jtest_task a t k : jtest (joined a t) (JBValue (a_col "task_id") (VUuid k)) = String.eqb a.(att_TaskID) k.
Proof. apply bool_decide_uuid. Qed.

Lemma joined_form bs m e : e ∈ jfound [att_src; task_src] bs m → ∃ a t, e = joined a t.
Proof.
  intros (k & r & k' & r' & -> & _ & Hr & _ & Hr' & _)%elem_of_jfound_two.
  destruct r as [?|a]; [done|]. destruct r' as [t|?]; [|done]. by exists a, t.
Qed.
(** The attachments of one owner with a property. *)
Lemma joined_owned m bs u (g : Attachment → bool) :
  consistent m → (∀ a t, jtests bs (joined a t) = String.eqb t.(task_ID) a.(att_TaskID) && (String.eqb t.(task_UserID) u && g a)) →
  map att_of (jfound [att_src; task_src] bs m) ≡ₚ
  base.filter (λ a, owns_in m a.(att_TaskID) u && g a = true) (values (map_to_list (attachments_in m))).
Proof.
  intros Hm Hf. eapply joined_attachments; [done|exact Hf| |].
  - intros a t [He _]%andb_true_iff. by apply String.eqb_eq.
  - intros a t Ht. cbv beta. rewrite (task_in m Hm _ t Ht), String.eqb_refl, (owns_task m a t u Ht). done.
Qed.

Lemma pTotalBytesForUser_spec u : ameets (TotalBytesForUser u) (pTotalBytesForUser repo u).
Proof.
  intros s Hi Hu. pose proof (db_consistent s Hi) as Hm. unfold pTotalBytesForUser.
  rewrite run_bind, run_trigger. destruct (h _ _ s) as [s' r] eqn:E. set (v := lower_hex u).
  edestruct (jrow_call h) with (st := JSelect (join_query [JSum (a_col "size_bytes")] [JParam (t_col "user_id") (uuid 1)]))
    (ds := [DInt]) as (Hi' & Hv & Hr); [exact Hi|exact E|vm_compute; reflexivity| |].
  { apply join_reads. by apply (bind_join _ _ 1 u). }
  destruct r as [[n []]|e]; rewrite run_ret, Hv; (split; [done|]); (split; [done|]); left; (split; [done|]).
  - destruct Hr as (l & w & (ns & Hns & [= -> ->]) & Hx). fold v in Hns.
    pose proof (joined_owned (stored s) [same_task; JBValue (t_col "user_id") (VUuid v)] v (λ _, true) Hm) as Hp.
    cbn [join_query js_from] in Hns. set (found := jfound _ _ _) in Hns, Hp.
    assert (ns = map att_SizeBytes (map att_of found)) as ->.
    { rewrite map_map. erewrite mapM_known in Hns; [by injection Hns|]. by intros e (a & t & ->)%joined_form. }
    cbn [scan_row scan_value mbind option_bind] in Hx. destruct (int64.in_range _) eqn:Hrange; [|done]. injection Hx as <-.
    rewrite bytes_owned_sum. rewrite <-(int64_wrap_id _ Hrange). f_equal. apply foldr_add_perm, Permutation_map.
    rewrite Hp.
    + erewrite list_filter_iff; [done|]. intros a. by rewrite andb_true_r.
    + intros a t. unfold jtests. cbn [forallb]. by rewrite jtest_same, jtest_owner, andb_true_r.
  - destruct Hr as [[-> (ns & _ & ?)]|He]; [done|]. auto.
Qed.

Lemma pCountByTask_spec t u : ameets (CountByTask t u) (pCountByTask repo t u).
Proof.
  intros s Hi [Ht Hu]. pose proof (db_consistent s Hi) as Hm. unfold pCountByTask.
  rewrite run_bind, run_trigger. destruct (h _ _ s) as [s' r] eqn:E. set (v := lower_hex u). set (i := lower_hex t).
  edestruct (jrow_call h) with (st := JSelect (join_query [JCount] [JParam (t_col "user_id") (uuid 1); JParam (a_col "task_id") (uuid 2)]))
    (ds := [DInt]) as (Hi' & Hv & Hr); [exact Hi|exact E|vm_compute; reflexivity| |].
  { apply join_reads. apply (bind_join _ _ 1 u); [done..|]. by apply (bind_join _ _ 2 t). }
  destruct r as [[n []]|e]; rewrite run_ret, Hv; (split; [done|]); (split; [done|]); left; (split; [done|]).
  - destruct Hr as (l & w & [= -> ->] & [= <-]). fold v i.
    pose proof (joined_owned (stored s) [same_task; JBValue (t_col "user_id") (VUuid v); JBValue (a_col "task_id") (VUuid i)]
      v (λ a, String.eqb a.(att_TaskID) i) Hm) as Hp.
    cbn [join_query js_from]. rewrite <-(length_map att_of), Hp.
    + unfold of_task. destruct (owns_in (stored s) i v) eqn:Ho; f_equal.
      * f_equal. erewrite list_filter_iff; [done|]. intros a. rewrite andb_true_iff. split; [by intros [_ ?]|].
        intros Ha. split; [|done]. apply String.eqb_eq in Ha. by rewrite Ha.
      * rewrite filter_nothing; [done|]. intros a _ [Hb Ha%String.eqb_eq]%andb_true_iff. rewrite Ha in Hb. congruence.
    + intros a x. unfold jtests. cbn [forallb]. by rewrite jtest_same, jtest_owner, jtest_task, andb_true_r.
  - destruct Hr as [[-> ?]|He]; [done|]. auto.
Qed.

(** ** Finding one *)
Definition attachment_items : list jitem :=
  [JColumn (a_col "id") true; JColumn (a_col "task_id") true; JColumn (a_col "original_filename") false;
   JColumn (a_col "storage_key") true; JColumn (a_col "content_type") false; JColumn (a_col "size_bytes") false;
   JColumn (a_col "created_at") false].
Definition attachment_values (a : Attachment) : list value :=
  [VText a.(att_ID); VText a.(att_TaskID); VText a.(att_OriginalFilename); VText a.(att_StorageKey);
   VText a.(att_ContentType); VInt a.(att_SizeBytes); VTime a.(att_CreatedAt)].
Lemma scan_attachment a x : scan_row attachment_dests (attachment_values a) = Some x → scanAttachment x = a.
Proof. destruct a. intros [= <-]. reflexivity. Qed.
(** The attachment under a key, if its task is the user's. *)
Lemma joined_key m bs k u :
  consistent m →
  (∀ a t, jtests bs (joined a t) = String.eqb t.(task_ID) a.(att_TaskID) && (String.eqb t.(task_UserID) u && String.eqb a.(att_StorageKey) k)) →
  (∃ a t, jfound [att_src; task_src] bs m = [joined a t] ∧ has_key (attachments_in m) k a ∧ owns_in m a.(att_TaskID) u = true) ∨
  jfound [att_src; task_src] bs m = [] ∧ ∀ a, has_key (attachments_in m) k a → owns_in m a.(att_TaskID) u = false.
Proof.
  intros Hm Hf. pose proof (joined_owned m bs u _ Hm Hf) as Hp. pose proof (attachments_wf m Hm) as Hwf.
  assert (∀ a, a ∈ map att_of (jfound [att_src; task_src] bs m) ↔ has_key (attachments_in m) k a ∧ owns_in m a.(att_TaskID) u = true) as Hin.
  { intros a. rewrite Hp, list_elem_of_filter, elem_of_values by by unfold range_of.
    rewrite andb_true_iff, String.eqb_eq. split.
    - intros ([Ho Hk] & i & Hi). destruct (has_key_of _ k i a Hwf Hi Hk). done.
    - intros [[Ha Hk] Ho]. eauto. }
  destruct (jfound _ bs m) as [|e l] eqn:Hfound.
  - right. split; [done|]. intros a Ha. apply not_true_iff_false. intros Ho. specialize (Hin a). set_solver.
  - left. assert (e ∈ jfound [att_src; task_src] bs m) as (a & t & ->)%joined_form by (rewrite Hfound; left).
    destruct (proj1 (Hin a)) as [Ha Ho]; [left|]. exists a, t. split_and!; [|done|done].
    destruct l as [|e' l]; [done|]. exfalso.
    assert (e' ∈ jfound [att_src; task_src] bs m) as (a' & t' & ->)%joined_form by (rewrite Hfound; right; left).
    destruct (proj1 (Hin a')) as [Ha' _]; [right; left|]. pose proof (has_key_unique _ _ _ _ Hwf Ha Ha') as <-.
    assert (NoDup (map att_of (joined a t :: joined a t' :: l))) as Hnd.
    { rewrite Hp. by apply NoDup_filter, NoDup_attachments. }
    cbn in Hnd. apply NoDup_cons in Hnd as [Hn _]. apply Hn. left.
Qed.
Lemma key_tests k u a t :
  jtests [same_task; JBValue (a_col "storage_key") (VUuid k); JBValue (t_col "user_id") (VUuid u)] (joined a t) =
  String.eqb t.(task_ID) a.(att_TaskID) && (String.eqb t.(task_UserID) u && String.eqb a.(att_StorageKey) k).
Proof. unfold jtests. cbn [forallb]. rewrite jtest_same, jtest_key, jtest_owner, andb_true_r. f_equal. apply andb_comm. Qed.

Lemma pFindByStorageKey_spec k u : ameets (FindByStorageKey k u) (pFindByStorageKey repo k u).
Proof.
  intros s Hi [Hk Hu]. pose proof (db_consistent s Hi) as Hm. unfold pFindByStorageKey.
  rewrite run_bind, run_trigger. destruct (h _ _ s) as [s' r] eqn:E. set (v := lower_hex u). set (i := lower_hex k).
  edestruct (jrow_call h) with (st := JSelect (join_query attachment_items [JParam (a_col "storage_key") (uuid 1); JParam (t_col "user_id") (uuid 2)]))
    (ds := attachment_dests) as (Hi' & Hv & Hr); [exact Hi|exact E|vm_compute; reflexivity| |].
  { apply join_reads. apply (bind_join _ _ 1 k); [done..|]. by apply (bind_join _ _ 2 u). }
  fold v i in Hr. pose proof (joined_key (stored s) _ i v Hm (key_tests i v)) as Hfound.
  destruct r as [x|e]; rewrite run_ret, Hv; (split; [done|]); (split; [done|]); left; (split; [done|]).
  - destruct Hr as (l & w & (sorted & Hp & _ & Hl) & Hx). cbn [join_query js_from js_items] in Hp, Hl.
    destruct Hfound as [(a & t & Hf & Ha & Ho)|[Hf _]]; rewrite Hf in Hp.
    + apply Permutation_singleton_r in Hp as ->. injection Hl as <- <-. by rewrite (scan_attachment a x).
    + apply Permutation_nil_r in Hp as ->. done.
  - destruct Hr as [[-> (sorted & Hp & _ & Hl)]|He]; [|right; rewrite not_no_rows by done; auto]. left. split; [done|].
    cbn [join_query js_from js_items] in Hp, Hl.
    destruct Hfound as [(a & t & Hf & Ha & Ho)|[Hf Hn]]; rewrite Hf in Hp; [|exact Hn].
    apply Permutation_singleton_r in Hp as ->. done.
Qed.

(** ** Listing *)
Definition single (a : Attachment) : list (string * Holding) := [("a", HAttachment a)].
Definition list_query : jselect :=
  {| js_items := attachment_items; js_from := [att_src]; js_where := [JParam (a_col "task_id") (uuid 1)];
     js_order := [a_col "created_at"; a_col "id"] |}.
Definition list_bound (i : string) : list jbound := [JBValue (a_col "task_id") (VUuid i)].
Lemma single_found m i xs :
  consistent m → map single xs ≡ₚ jfound [att_src] (list_bound i) m → xs ≡ₚ of_task (attachments_in m) i.
Proof.
  intros Hm Hp. pose proof (attachments_wf m Hm) as Hwf.
  assert (NoDup (map single xs)) as Hnd by (rewrite Hp; by apply NoDup_jfound).
  apply NoDup_Permutation; [by apply NoDup_fmap_1 in Hnd|by apply NoDup_filter, NoDup_attachments|]. intros a.
  transitivity (single a ∈ map single xs).
  { rewrite list_elem_of_fmap. split; [by exists a|]. by intros (a' & [= ->] & ?). }
  rewrite Hp, elem_of_jfound_one. unfold of_task. rewrite list_elem_of_filter, elem_of_values by by unfold range_of.
  assert (jtests (list_bound i) (single a) = String.eqb a.(att_TaskID) i) as Ht.
  { change (bool_decide (VUuid a.(att_TaskID) = VUuid i) && true = String.eqb a.(att_TaskID) i).
    by rewrite bool_decide_uuid, andb_true_r. }
  rewrite Ht. split.
  - intros (k & r & [= <-] & Hk & _ & Hi). split; [done|]. exists a.(att_ID). apply attachments_Some.
    by rewrite <-(attachment_row m Hm k a Hk).
  - intros (Hi & k & Hk%attachments_Some). eexists _, (HAttachment a). by split_and!.
Qed.
Lemma env_le_att xs :
  StronglySorted (env_le [a_col "created_at"; a_col "id"]) (map single xs) → StronglySorted (in_order att_less) xs.
Proof.
  induction xs as [|a xs IH]; intros Hs; [constructor|]. cbn [map] in Hs. apply StronglySorted_inv in Hs as [Hs Ha].
  constructor; [by apply IH|]. rewrite List.Forall_map in Ha. eapply Forall_impl; [exact Ha|]. intros b Hle.
  cbn in Hle. unfold in_order, att_less, time.Equal, time.Before.
  destruct (Z.eqb_spec (att_CreatedAt b) (att_CreatedAt a)) as [He|Hne]; cbn [negb].
  - apply less_false. destruct Hle as [Hlt%Z.ltb_lt|[_ [Hlt|[[= ->] _]]]]; [lia| |done].
    unfold strings.less in Hlt. unfold String.le. unfold String.ltb, String.leb in *.
    by destruct (String.compare (att_ID a) (att_ID b)).
  - apply Z.ltb_ge. destruct Hle as [Hlt%Z.ltb_lt|[[= He] _]]; lia.
Qed.
Lemma list_answers m i l :
  consistent m → janswers [] list_query (list_bound i) m l →
  ∃ xs, xs ≡ₚ of_task (attachments_in m) i ∧ StronglySorted (in_order att_less) xs ∧ l = map attachment_values xs.
Proof.
  intros Hm (sorted & Hp & Hs & Hl). cbn [list_query js_from js_order js_items] in Hp, Hs, Hl.
  assert (∃ xs, sorted = map single xs) as [xs ->].
  { apply all_of_form. intros e He. rewrite Hp in He. apply elem_of_jfound_one in He as (k & r & -> & _ & Hr & _).
    destruct r as [?|a]; [done|]. by exists a. }
  exists xs. split; [by apply single_found|]. split; [by apply env_le_att|].
  rewrite mapM_map in Hl. rewrite (mapM_known _ attachment_values) in Hl by done. by injection Hl.
Qed.
Lemma scanned_attachments l ys :
  Forall2 (λ v y, scan_row attachment_dests v = Some y) (map attachment_values l) ys → map scanAttachment ys = l.
Proof.
  revert ys; induction l as [|a l IH]; intros ys Hy; inversion Hy; subst; [done|].
  cbn [map]. f_equal; [by apply scan_attachment|by apply IH].
Qed.

(** The question whether the task is the user's. *)
Definition owner_select : select :=
  {| sel_items := [INumber 1]; sel_table := "tasks"; sel_where := owned_conds 1 2; sel_group := None; sel_order := [];
     sel_window := None; sel_update := false |}.
Lemma owner_matching m i v :
  consistent m → values (map_to_list (matching "tasks" (owned_bounds i v) m)) =
  option_list (if owns_in m i v then m !! task_key i else None).
Proof.
  intros Hm. assert (∀ k x, matching "tasks" (owned_bounds i v) m !! k = Some x ↔
    k = task_key i ∧ m !! k = Some x ∧ owns_in m i v = true) as Hmt.
  { intros k x. rewrite lookup_matching. split.
    - intros (Hk & Ht & Hb). destruct x as [t|?]; [|done]. unfold tests, owned_bounds in Hb. cbn in Hb.
      rewrite !bool_decide_uuid, andb_true_r, andb_true_iff, !String.eqb_eq in Hb. destruct Hb as [<- <-].
      pose proof (task_row m Hm k t Hk) as ->. split_and!; [done..|]. unfold owns_in.
      rewrite (proj2 (tasks_Some _ _ _) Hk). apply String.eqb_refl.
    - intros (-> & Hk & Ho). split; [done|]. destruct (at_task_key m Hm _ _ Hk) as (t & -> & Hi). split; [done|].
      unfold owns_in in Ho. rewrite (proj2 (tasks_Some _ _ _) Hk) in Ho. unfold tests, owned_bounds. cbn.
      by rewrite !bool_decide_uuid, Hi, String.eqb_refl, Ho. }
  rewrite (found_one _ _ _ (task_key i)) by (intros k x Hk; by apply Hmt in Hk as [-> _]). f_equal.
  apply option_eq. intros x. rewrite Hmt. destruct (owns_in m i v); naive_solver.
Qed.
Lemma owned_task m i v : owns_in m i v = true → ∃ t, m !! task_key i = Some (HTask t) ∧ t.(task_UserID) = v.
Proof.
  unfold owns_in. destruct (tasks_in m !! i) as [t|] eqn:Ht; [|done]. intros Hv%String.eqb_eq. exists t.
  split; [by apply tasks_Some|done].
Qed.

Lemma pFindByTask_spec t u : ameets (FindByTask t u) (pFindByTask repo t u).
Proof.
  intros s Hi [Ht Hu]. pose proof (db_consistent s Hi) as Hm. unfold pFindByTask.
  rewrite run_bind, run_trigger. destruct (h _ _ s) as [s1 r1] eqn:E1. set (v := lower_hex u). set (i := lower_hex t).
  edestruct (row_call h) with (q := owner_select) (ds := [DInt]) (bs := owned_bounds i v) (w := (@None Z, 0)) as (Hi1 & Hv1 & Hr1);
    [exact Hi|exact E1|vm_compute; reflexivity|reflexivity| |].
  { unfold readable. rewrite bool_decide_eq_true_2 by left. cbn [owner_select sel_where sel_window]. by rewrite (bind_owned _ 1 2 t u). }
  assert (∀ l, answers owner_select (owned_bounds i v) (None, 0) (stored s) l → l = [] ∧ owns s i v = false ∨ owns s i v = true) as Hown.
  { intros l Ha. apply (answers_one owner_select _ _ _ _ eq_refl ltac:(done) (owner_matching _ i v Hm)) in Ha.
    destruct (owns_in (stored s) i v); auto. }
  destruct r1 as [[n []]|e].
  2:{ rewrite run_ret, Hv1. split; [done|]. split; [done|]. left. split; [done|].
      destruct Hr1 as [[-> Ha]|He]; [|right; rewrite not_no_rows by done; auto]. left. split; [done|].
      apply (answers_one owner_select _ _ _ _ eq_refl ltac:(done) (owner_matching _ i v Hm)) in Ha.
      destruct (owns_in (stored s) i v) eqn:Ho; [|done]. destruct (owned_task _ _ _ Ho) as (x & Hx & _). rewrite Hx in Ha.
      by destruct Ha as (w & _ & ?). }
  assert (owns s i v = true) as Ho by (destruct Hr1 as (l & w & [[? _]|?]%Hown & _); done). clear Hr1 E1.
  rewrite run_bind, run_trigger. destruct (h _ _ s1) as [s2 r2] eqn:E2.
  edestruct (jrows_call h) with (st := JSelect list_query) (ds := attachment_dests) as (Hi2 & Hv2 & Hr2);
    [exact Hi1|exact E2|vm_compute; reflexivity| |].
  { cbn [jreads list_query js_where js_from]. by rewrite (bind_join _ _ 1 t [] []). }
  rewrite Hv1 in Hr2, Hv2. clear E2.
  assert (∀ msg e, driver_error e → pg_aanswered (FindByTask i v) (owns s) (atts s) (atts s) (Err (db_failed attachment_pkg msg e))) as Hfail.
  { intros msg e He. left. cbn. auto. }
  destruct r2 as [[rows err]|e]; [|rewrite run_ret, Hv2; auto]. destruct Hr2 as [Hbad Hr2].
  destruct (scanRows scanAttachment rows []) as [found|e] eqn:Hscan.
  2:{ rewrite run_ret, Hv2. apply scan_failed, Hbad in Hscan. auto. }
  destruct err as [e|]; rewrite run_ret, Hv2; [auto|]. split; [done|]. split; [done|]. left. split; [done|]. split; [done|].
  apply scanRows_ok in Hscan as (ys & Hrows & ->). destruct (Hr2 ys Hrows) as (l & Hl & Hy).
  destruct (list_answers (stored s) i l Hm Hl) as (xs & Hp & Hs & ->). apply scanned_attachments in Hy as ->. done.
Qed.

(** ** Deleting *)
Definition delete_stmt : jstmt :=
  JDelete att_src [task_src] [JSame (a_col "task_id") (t_col "id"); JParam (a_col "storage_key") (uuid 1);
    JParam (t_col "user_id") (uuid 2)].
Definition delete_bounds (k u : string) : list jbound :=
  [JBSame (a_col "task_id") (t_col "id"); JBValue (a_col "storage_key") (VUuid k); JBValue (t_col "user_id") (VUuid u)].
Lemma delete_tests k u a t :
  jtests (delete_bounds k u) (joined a t) =
  String.eqb t.(task_ID) a.(att_TaskID) && (String.eqb t.(task_UserID) u && String.eqb a.(att_StorageKey) k).
Proof.
  unfold jtests, delete_bounds. cbn [forallb]. rewrite jtest_key, jtest_owner, andb_true_r.
  change (jtest (joined a t) (JBSame (a_col "task_id") (t_col "id"))) with
    (bool_decide (VUuid a.(att_TaskID) = VUuid t.(task_ID))).
  rewrite bool_decide_uuid, String.eqb_sym. f_equal. apply andb_comm.
Qed.
(** What is left without one attachment, or without none. *)
Lemma rows_without m (gone : list string) :
  consistent m → (∀ k, k ∈ gone → ∃ i, k = attachment_key i) →
  let dead := rows_with (λ r, bool_decide (rel_key r ∈ gone)) m in
  let m' := rows_with (λ r, negb (orphan dead r || bool_decide (rel_key r ∈ gone))) m in
  tasks_in m' = tasks_in m ∧
  ∀ i a, attachments_in m' !! i = Some a ↔ attachments_in m !! i = Some a ∧ attachment_key i ∉ gone.
Proof.
  intros Hm Hg dead m'.
  assert (∀ r, orphan dead r = false) as Ho.
  { intros [t|a]; [done|]. unfold orphan. cbn [rel_parent holding_relation]. apply bool_decide_eq_false_2.
    intros [x Hx]. apply lookup_rows_with in Hx as [Hx Hd]. apply bool_decide_eq_true in Hd.
    destruct (at_task_key m Hm _ _ Hx) as (t & -> & _). by destruct (Hg _ Hd). }
  assert (∀ k r, m' !! k = Some r ↔ m !! k = Some r ∧ rel_key r ∉ gone) as Hl.
  { intros k r. unfold m'. rewrite lookup_rows_with, Ho. cbn [orb]. by rewrite negb_true_iff, bool_decide_eq_false. }
  split.
  - apply tasks_eq. intros k t. rewrite Hl. split; [by intros [? _]|]. intros Hk. split; [done|]. intros Hd.
    by destruct (Hg _ Hd).
  - intros i a. rewrite !attachments_Some, Hl. split; intros [Hk Hn]; (split; [done|]);
      pose proof (consistent_key m _ _ Hm Hk) as Hki; cbn [rel_key holding_relation] in *; congruence.
Qed.
Lemma jwrites_delete k u m :
  consistent m → isValidID k = true → isValidID u = true → ∃ m' n,
    jwrites [ArgString k; ArgString u] delete_stmt m = Some (Some (m', n)) ∧ tasks_in m' = tasks_in m ∧
    (n = 0 ∧ attachments_in m' = attachments_in m ∧
       (∀ a, has_key (attachments_in m) (lower_hex k) a → owns_in m a.(att_TaskID) (lower_hex u) = false) ∨
     n = 1 ∧ ∃ a, has_key (attachments_in m) (lower_hex k) a ∧ owns_in m a.(att_TaskID) (lower_hex u) = true ∧
       attachments_in m' = delete a.(att_ID) (attachments_in m)).
Proof.
  intros Hm Hk Hu. unfold jwrites, delete_stmt. change (known _) with true. cbn iota.
  assert (∀ args bs, mapM (jbind args) [JParam (a_col "storage_key") (uuid 1); JParam (t_col "user_id") (uuid 2)] = Some bs →
    mapM (jbind args) [JSame (a_col "task_id") (t_col "id"); JParam (a_col "storage_key") (uuid 1); JParam (t_col "user_id") (uuid 2)] =
    Some (JBSame (a_col "task_id") (t_col "id") :: bs)) as Hb.
  { intros args bs Hbs. change (mapM (jbind args) (?c :: ?cs)) with (b ← jbind args c; bs ← mapM (jbind args) cs; Some (b :: bs)).
    rewrite Hbs. done. }
  erewrite Hb; [|apply (bind_join _ _ 1 k); [done..|]; by apply (bind_join _ _ 2 u)]. cbn [mbind option_bind]. cbv zeta.
  fold (delete_bounds (lower_hex k) (lower_hex u)). change (src_alias att_src) with "a".
  set (gone := targets "a" _).
  assert (∀ g, (∀ x, x ∈ g → ∃ i, x = attachment_key i) → _) as Hw by exact (λ g, rows_without m g Hm).
  eexists _, _. split; [done|].
  destruct (joined_key m _ (lower_hex k) (lower_hex u) Hm (delete_tests (lower_hex k) (lower_hex u))) as [(a & t & Hf & Ha & Ho)|[Hf Hn]].
  - assert (gone = [attachment_key a.(att_ID)]) as -> by (unfold gone; by rewrite Hf).
    destruct (Hw [attachment_key a.(att_ID)]) as [Ht Hatt]; [intros x ->%list_elem_of_singleton; eauto|].
    split; [exact Ht|]. right. split.
    + assert (rows_with (λ r, bool_decide (rel_key r ∈ [attachment_key a.(att_ID)])) m =
        {[attachment_key a.(att_ID) := HAttachment a]}) as ->; [|by rewrite map_size_singleton].
      apply map_eq. intros i. apply option_eq. intros r. rewrite lookup_rows_with, bool_decide_eq_true, list_elem_of_singleton,
        lookup_singleton_Some. destruct Ha as [Ha _]. apply attachments_Some in Ha. split.
      * intros [Hi Hr]. pose proof (consistent_key m _ _ Hm Hi) as Hir. split; [congruence|]. rewrite <-Hir, Hr, Ha in Hi. by injection Hi.
      * by intros [<- <-].
    + exists a. split_and!; [done|done|]. apply map_eq. intros i. apply option_eq. intros b.
      rewrite Hatt, list_elem_of_singleton, lookup_delete_Some. split; intros [H1 H2]; naive_solver.
  - assert (gone = []) as -> by (unfold gone; by rewrite Hf).
    destruct (Hw []) as [Ht Hatt]; [set_solver|]. split; [exact Ht|]. left. split; [|split; [|done]].
    + assert (rows_with (λ r, bool_decide (rel_key r ∈ [])) m = ∅) as ->; [|by rewrite map_size_empty].
      apply map_eq. intros i. apply option_eq. intros r. rewrite lookup_rows_with, lookup_empty, bool_decide_eq_true. set_solver.
    + apply map_eq. intros i. apply option_eq. intros b. rewrite Hatt. set_solver.
Qed.
Lemma owns_same m m' : tasks_in m' = tasks_in m → ∀ t u, owns_in m' t u = owns_in m t u.
Proof. intros He t u. unfold owns_in. by rewrite He. Qed.
Lemma pDeleteAttachment_spec k u : ameets (DeleteAttachment k u) (pDeleteAttachment repo k u).
Proof.
  intros s Hi [Hk Hu]. pose proof (db_consistent s Hi) as Hm. unfold pDeleteAttachment.
  rewrite run_bind, run_trigger. destruct (h _ _ s) as [s' r] eqn:E. set (v := lower_hex u). set (i := lower_hex k).
  destruct (jwrites_delete k u (stored s) Hm Hk Hu) as (m' & n & Hw & Ht & Hn). fold i v in Hn.
  edestruct (jexec_call h) with (st := delete_stmt) as (Hi' & Hr & _); [exact Hi|exact E|vm_compute; reflexivity|exact Hw|exact I|].
  assert (∀ err, driver_error err → pg_aanswered (DeleteAttachment i v) (owns s) (atts s) (atts s)
    (Some (db_failed attachment_pkg "postgres: delete attachment" err))) as Hfail by (intros err He; left; cbn; auto).
  assert (∀ err, driver_error err → pg_aanswered (DeleteAttachment i v) (owns s) (atts s) (attachments_in m')
    (Some (db_failed attachment_pkg "postgres: delete attachment" err))) as Hlost.
  { intros err He. destruct Hn as [(_ & -> & _)|(_ & Hok)]; [auto|]. right. eexists _, None. split_and!; auto. }
  destruct r as [[c|err]|err]; rewrite run_ret; (split; [done|]).
  - destruct Hr as (m1 & [= <- <-] & Hd). cbn in Hd. rewrite Hd. split; [done|]. left.
    destruct Hn as [(-> & Ha & Hnone)|(-> & Hok)]; [|exact Hok]. cbn. split; [done|]. left. done.
  - destruct Hr as (He & m1 & n1 & [= <- <-] & Hd). cbn in Hd. rewrite Hd. auto.
  - destruct Hr as (He & _ & [Hd|(_ & m1 & n1 & [= <- <-] & Hd)]); rewrite Hd; auto.
Qed.

(** ** Creating *)
Definition create_query : jselect :=
  {| js_items := [JValue (uuid 1); JColumn (t_col "id") false; JValue (plain 3); JValue (uuid 4); JValue (plain 5);
                  JValue (plain 6); JValue (plain 7)];
     js_from := [task_src]; js_where := [JParam (t_col "id") (uuid 2); JParam (t_col "user_id") (uuid 8)]; js_order := [] |}.
Definition create_stmt : jstmt :=
  JInsert "attachments" ["id"; "task_id"; "original_filename"; "storage_key"; "content_type"; "size_bytes"; "created_at"]
    create_query.
Definition create_args (a : Attachment) (u : string) : list arg :=
  [ArgString a.(att_ID); ArgString a.(att_TaskID); ArgString a.(att_OriginalFilename); ArgString a.(att_StorageKey);
   ArgString a.(att_ContentType); ArgInt a.(att_SizeBytes); ArgTime a.(att_CreatedAt); ArgString u].
Lemma owner_found m i v :
  consistent m →
  let found := jfound [task_src] [JBValue (t_col "id") (VUuid i); JBValue (t_col "user_id") (VUuid v)] m in
  (∃ t, found = [[("t", HTask t)]] ∧ t.(task_ID) = i ∧ owns_in m i v = true) ∨ found = [] ∧ owns_in m i v = false.
Proof.
  intros Hm found.
  assert (∀ e, e ∈ found ↔ ∃ t, e = [("t", HTask t)] ∧ tasks_in m !! i = Some t ∧ owns_in m i v = true) as Hin.
  { intros e. unfold found. rewrite elem_of_jfound_one.
    assert (∀ t, jtests [JBValue (t_col "id") (VUuid i); JBValue (t_col "user_id") (VUuid v)] [("t", HTask t)] =
      String.eqb t.(task_ID) i && String.eqb t.(task_UserID) v) as Ht.
    { intros t. unfold jtests. cbn. by rewrite !bool_decide_uuid, andb_true_r. }
    split.
    - intros (k & [t|?] & -> & Hk & Hr & Hb); [|done]. cbn [task_src src_alias] in Hb.
      rewrite Ht, andb_true_iff, !String.eqb_eq in Hb. destruct Hb as [<- <-].
      pose proof (task_row m Hm k t Hk) as ->. exists t. unfold owns_in. rewrite (proj2 (tasks_Some _ _ _) Hk).
      split_and!; [done|done|apply String.eqb_refl].
    - intros (t & -> & Hk & Ho). exists (task_key i), (HTask t). split_and!; [done|by apply tasks_Some|done|].
      unfold owns_in in Ho. rewrite Hk in Ho. cbn [task_src src_alias]. by rewrite Ht, (task_in m Hm i t Hk), String.eqb_refl. }
  pose proof (NoDup_jfound [task_src] [JBValue (t_col "id") (VUuid i); JBValue (t_col "user_id") (VUuid v)] m Hm) as Hnd.
  fold found in Hnd. destruct found as [|e l].
  - right. split; [done|]. apply not_true_iff_false. intros Ho. destruct (owned_task _ _ _ Ho) as (t & Ht%tasks_Some & _).
    apply (not_elem_of_nil [("t", HTask t)]), Hin. eauto.
  - left. destruct (proj1 (Hin e)) as (t & -> & Ht & Ho); [left|]. exists t. split_and!; [|by eapply task_in|done].
    destruct l as [|e' l]; [done|]. destruct (proj1 (Hin e')) as (t' & -> & Ht' & _); [right; left|].
    simplify_eq. apply NoDup_cons in Hnd as [[] _]. left.
Qed.
Lemma new_attachment m a u :
  consistent m → attachment_call (CreateAttachment a u) →
  jnew_rows (create_args a u) "attachments" ["id"; "task_id"; "original_filename"; "storage_key"; "content_type"; "size_bytes"; "created_at"]
    create_query m =
  Some (if owns_in m (lower_hex a.(att_TaskID)) (lower_hex u) then [HAttachment (stored_attachment a)] else []).
Proof.
  intros Hm (Hid & Ht & Hk & Hu & _). unfold jnew_rows. cbn [create_query js_where].
  assert (mapM (jbind (create_args a u)) [JParam (t_col "id") (uuid 2); JParam (t_col "user_id") (uuid 8)] =
    Some [JBValue (t_col "id") (VUuid (lower_hex a.(att_TaskID))); JBValue (t_col "user_id") (VUuid (lower_hex u))]) as ->.
  { apply (bind_join _ _ 2 a.(att_TaskID)); [done..|]. by apply (bind_join _ _ 8 u). }
  cbn [mbind option_bind js_from js_items create_query].
  destruct (owner_found m (lower_hex a.(att_TaskID)) (lower_hex u) Hm) as [(t & -> & Hi & ->)|[-> ->]]; [|done].
  assert (∀ e i s, 0 < i → create_args a u !! Z.to_nat (i - 1) = Some (ArgString s) → isValidID s = true →
    jproject (create_args a u) e (JValue (uuid i)) = Some (VUuid (lower_hex s))) as Huuid.
  { intros e i s Hpos Ha Hs. apply (param_value_eq _ (uuid i) _ _ Hpos Ha). cbn [cast_arg uuid p_cast]. by rewrite Hs. }
  cbn [mapM]. rewrite (Huuid _ 1 _ ltac:(lia) eq_refl Hid), (Huuid _ 4 _ ltac:(lia) eq_refl Hk).
  destruct t. cbn in Hi. subst. reflexivity.
Qed.
Lemma jwrites_create m a u :
  consistent m → attachment_call (CreateAttachment a u) →
  let x := HAttachment (stored_attachment a) in
  jwrites (create_args a u) create_stmt m =
  Some (if owns_in m (lower_hex a.(att_TaskID)) (lower_hex u) then
          if bool_decide (admissible x m) then Some (<[rel_key x := x]> m, 1) else None
        else Some (m, 0)).
Proof.
  intros Hm Hc x. unfold jwrites, create_stmt. change (bool_decide _ && known _) with true. cbn iota.
  rewrite (new_attachment m a u Hm Hc). cbn [mbind option_bind]. fold x.
  destruct (owns_in m _ _); [|done]. unfold insert_all. cbn [foldr mbind option_bind].
  by destruct (bool_decide (admissible x m)).
Qed.
(** What it means for the attachments that a new one is admissible, or not. *)
Lemma admissible_attachment m a :
  consistent m → admissible (HAttachment a) m →
  attachments_in m !! a.(att_ID) = None ∧ no_key (attachments_in m) a.(att_StorageKey) ∧
  tasks_in (<[attachment_key a.(att_ID) := HAttachment a]> m) = tasks_in m ∧
  attachments_in (<[attachment_key a.(att_ID) := HAttachment a]> m) = <[a.(att_ID) := a]> (attachments_in m).
Proof.
  intros Hm (Hk & Hc & _). cbn [rel_key holding_relation] in Hk. split_and!.
  - apply eq_None_not_Some. intros [b Hb%attachments_Some]. congruence.
  - intros k b Hb%attachments_Some He. specialize (Hc _ _ Hb). cbn beta in Hc. rewrite clash_attachments, He in Hc.
    by rewrite String.eqb_refl in Hc.
  - apply tasks_eq. intros k t. by rewrite lookup_insert_ne.
  - apply attachments_eq. intros k b. destruct (decide (k = a.(att_ID))) as [-> |Hne].
    + rewrite !lookup_insert_eq. naive_solver.
    + rewrite !lookup_insert_ne by (done || by intros [= ?]). symmetry. apply attachments_Some.
Qed.
Lemma inadmissible_attachment m a :
  consistent m → is_Some (tasks_in m !! a.(att_TaskID)) → ¬ admissible (HAttachment a) m →
  is_Some (attachments_in m !! a.(att_ID)) ∨ ∃ a', has_key (attachments_in m) a.(att_StorageKey) a'.
Proof.
  intros Hm [t Ht%tasks_Some] Hn. destruct (m !! attachment_key a.(att_ID)) as [x|] eqn:Hx.
  - left. destruct (at_attachment_key m Hm _ _ Hx) as (b & -> & _). exists b. by apply attachments_Some.
  - right. destruct (decide (map_Forall (λ _ r', clash (HAttachment a) r' = false) m)) as [Hc|Hc].
    + destruct Hn. split; [done|]. split; [done|]. by exists (HTask t).
    + apply map_not_Forall in Hc as (k & [t'|b] & Hb & Hne%not_false_iff_true); [discriminate Hne| |apply _].
      rewrite clash_attachments in Hne. apply String.eqb_eq in Hne. exists b. split; [|done].
      apply attachments_Some. by rewrite <-(attachment_row m Hm k b Hb).
Qed.
Lemma create_fits m a u rs :
  consistent m → attachment_call (CreateAttachment a u) →
  jnew_rows (create_args a u) "attachments" ["id"; "task_id"; "original_filename"; "storage_key"; "content_type"; "size_bytes"; "created_at"]
    create_query m = Some rs → Forall rel_fits rs.
Proof.
  intros Hm Hc. rewrite (new_attachment m a u Hm Hc). destruct Hc as (_ & _ & _ & _ & Hfits). intros [= <-].
  destruct (owns_in m _ _); [by apply Forall_singleton|by constructor].
Qed.
Lemma create_refers m a u :
  consistent m → attachment_call (CreateAttachment a u) → ¬ dangling (create_args a u) create_stmt m.
Proof.
  intros Hm Hc (rs & Hrs & Hex). rewrite (new_attachment m a u Hm Hc) in Hrs. injection Hrs as <-.
  destruct (owns_in m _ _) eqn:Ho; [|by apply Exists_nil in Hex].
  destruct (owned_task _ _ _ Ho) as (t & Ht & _). apply Exists_cons in Hex as [Hn|Hn%Exists_nil]; [|done].
  apply Hn. by exists (HTask t).
Qed.
(** What the statement leaves, as the contract has it. *)
Lemma created a u m m' :
  consistent m → attachment_call (CreateAttachment a u) →
  jwrites (create_args a u) create_stmt m = Some (Some (m', 1)) →
  tasks_in m' = tasks_in m ∧
  pg_attach_spec (stored_acall (CreateAttachment a u)) (owns_in m) (attachments_in m) (attachments_in m') None.
Proof.
  intros Hm Hc. rewrite (jwrites_create m a u Hm Hc). destruct (owns_in m _ _) eqn:Ho; [|done].
  destruct (bool_decide _) eqn:Had; [|done]. apply bool_decide_eq_true in Had. intros [= <-].
  destruct (admissible_attachment m _ Hm Had) as (Hid & Hk & Ht & Ha). split; [exact Ht|]. by split_and!.
Qed.

Lemma pCreateAttachment_spec a u : ameets (CreateAttachment a u) (pCreateAttachment repo a u).
Proof.
  intros s Hi Hc. pose proof (db_consistent s Hi) as Hm. unfold pCreateAttachment.
  rewrite run_bind, run_trigger. change [ArgString a.(att_ID); _; _; _; _; _; _; _] with (create_args a u).
  destruct (h _ _ s) as [s' r] eqn:E. pose proof (jwrites_create (stored s) a u Hm Hc) as Hw.
  edestruct (jexec_call h) with (st := create_stmt) as (Hi' & Hr & Hfk);
    [exact Hi|exact E|vm_compute; reflexivity|exact Hw|intros rs; by apply create_fits|].
  set (ok := owns_in (stored s) _ _) in *. set (o := if ok then _ else _) in *.
  assert (∀ m' n, o = Some (m', n) → tasks_in m' = tasks_in (stored s) ∧
    (n = 0 ∧ ok = false ∧ m' = stored s ∨
     n = 1 ∧ pg_attach_spec (stored_acall (CreateAttachment a u)) (owns s) (atts s) (attachments_in m') None)) as Ho.
  { intros m' n Ho. unfold ok, o in *. destruct (owns_in (stored s) _ _) eqn:Hown; [|injection Ho as <- <-; auto].
    assert (n = 1) as -> by (destruct (bool_decide _); [by injection Ho|discriminate Ho]).
    destruct (created a u (stored s) m' Hm Hc) as [? ?]; [rewrite Hw; by f_equal|]. auto. }
  assert (∀ err, aforeign err = true →
    pg_aanswered (stored_acall (CreateAttachment a u)) (owns s) (atts s) (atts s) (Some err)) as Hfail by (intros err He; left; cbn; auto).
  assert (∀ msg e m' n, driver_error e → o = Some (m', n) → tasks_in m' = tasks_in (stored s) ∧
    pg_aanswered (stored_acall (CreateAttachment a u)) (owns s) (atts s) (attachments_in m')
      (Some (db_failed attachment_pkg msg e))) as Hlost.
  { intros msg e m' n He Hmn. destruct (Ho m' n Hmn) as [Ht [(_ & _ & ->)|(_ & Hok)]]; [auto|].
    split; [done|]. right. eexists _, None. split_and!; auto. }
  destruct r as [[n|e]|e].
  - destruct Hr as (m' & Hmn & Hd). cbn in Hd. destruct (Ho m' n Hmn) as [Ht [(-> & Hown & ->)|(-> & Hok)]];
      rewrite run_ret, Hd; (split; [done|]); (split; [done|]); left; [|exact Hok]. cbn. auto.
  - destruct Hr as (He & m' & n & Hmn & Hd). cbn in Hd. rewrite run_ret, Hd. split; [done|]. by eapply Hlost.
  - destruct Hr as (He & Hdup & Hd). rewrite run_ret. split; [done|].
    unfold isUniqueViolation, isForeignKeyViolation. destruct (AsPgError e) as [c|] eqn:Ec.
    2:{ destruct Hd as [-> |(_ & m' & n & Hmn & ->)]; [auto|]. by eapply Hlost. }
    destruct (String.eqb_spec c "23505") as [-> |_].
    { destruct (Hdup eq_refl) as [Hnone ->]. split; [done|]. left. split; [done|]. right. left. split; [done|].
      unfold o in Hnone. destruct ok eqn:Hown; [|done]. destruct (bool_decide _) eqn:Had; [done|].
      apply bool_decide_eq_false in Had. apply (inadmissible_attachment (stored s) _ Hm); [|exact Had].
      destruct (owned_task _ _ _ Hown) as (t & Ht%tasks_Some & _). by exists t. }
    destruct (String.eqb_spec c postgreSQLForeignKeyViolation) as [-> |_].
    { destruct (Hfk e eq_refl Ec) as [_ []%create_refers]; done. }
    destruct Hd as [-> |(_ & m' & n & Hmn & ->)]; [auto|]. by eapply Hlost.
Qed.

(** ** The keys that no attachment has *)
Definition unlisted_stmt : jstmt :=
  JUnlisted {| p_index := 1; p_cast := AsTextArray |} "attachments" (a_col "storage_key").
Lemma elem_of_unlisted m ks k :
  consistent m →
  k ∈ unlisted "attachments" "storage_key" (map utf8_text ks) m ↔
  k ∈ ks ∧ isValidID k = true ∧ no_key (attachments_in m) (lower_hex k).
Proof.
  intros Hm. unfold unlisted. rewrite list_elem_of_filter, andb_true_iff, list_elem_of_fmap.
  assert (forallb (λ r, negb (bool_decide (rel_get r "storage_key" = Some (VUuid (lower_hex k))))) (rows_of "attachments" m) = true ↔
    no_key (attachments_in m) (lower_hex k)) as Hno.
  { rewrite forallb_forall. split.
    - intros Hall i a Hi%attachments_Some He. specialize (Hall (HAttachment a)).
      rewrite <-list_elem_of_In, elem_of_rows_of in Hall. specialize (Hall (ex_intro _ _ (conj Hi eq_refl))).
      apply negb_true_iff, bool_decide_eq_false in Hall. apply Hall. cbn. by rewrite He.
    - intros Hn r Hr%list_elem_of_In. apply elem_of_rows_of in Hr as (i & Hi & Ht). destruct r as [?|a]; [done|].
      apply negb_true_iff, bool_decide_eq_false. cbn. intros [= He]. apply (Hn a.(att_ID) a); [|done].
      apply attachments_Some. by rewrite <-(attachment_row m Hm i a Hi). }
  rewrite Hno. split.
  - intros ([Hid Hn] & k' & -> & Hk'). pose proof (utf8_text_id k' Hid) as Hu. rewrite Hu in *. auto.
  - intros (Hk & Hid & Hn). split; [done|]. exists k. split; [|done]. symmetry. by apply utf8_text_ascii, id_chars_ascii.
Qed.
Lemma scanned_keys l ys :
  Forall2 (λ v y, scan_row [DString] v = Some y) (map (λ k, [VText k]) l) ys → map (λ y : tuple [DString], y.1) ys = l.
Proof.
  revert ys; induction l as [|k l IH]; intros ys Hy; inversion Hy as [|? y ? ? Hk Hl]; subst; [done|].
  injection Hk as <-. cbn [map]. f_equal. by apply IH.
Qed.
Lemma pUnreferencedKeys_spec ks : ameets (UnreferencedKeys ks) (pUnreferencedKeys repo ks).
Proof.
  intros s Hi _. pose proof (db_consistent s Hi) as Hm. unfold pUnreferencedKeys. destruct ks as [|k0 ks0].
  { rewrite run_ret. split; [done|]. split; [done|]. left. split; [done|]. set_solver. }
  set (ks := k0 :: ks0). rewrite run_bind, run_trigger. destruct (h _ _ s) as [s' r] eqn:E.
  edestruct (jrows_call h) with (st := unlisted_stmt) (ds := [DString]) as (Hi' & Hv & Hr);
    [exact Hi|exact E|vm_compute; reflexivity| |].
  { unfold jreads, unlisted_stmt. change (bool_decide _) with true. cbn iota.
    change (param_value _ _) with (xs ← array_of (pqTextArray ks); Some (VArray xs)).
    rewrite array_of_keys. cbn [mbind option_bind]. reflexivity. }
  clear E.
  assert (∀ msg e, driver_error e → pg_aanswered (UnreferencedKeys ks) (owns s) (atts s) (atts s) (Err (db_failed attachment_pkg msg e))) as Hfail.
  { intros msg e He. left. cbn. auto. }
  destruct r as [[rows err]|e]; [|rewrite run_ret, Hv; auto]. destruct Hr as [Hbad Hr].
  destruct (scanRows _ rows []) as [found|e] eqn:Hscan.
  2:{ rewrite run_ret, Hv. apply scan_failed, Hbad in Hscan. auto. }
  destruct err as [e|]; rewrite run_ret, Hv; [auto|]. split; [done|]. split; [done|]. left. split; [done|].
  apply scanRows_ok in Hscan as (ys & Hrows & ->). destruct (Hr ys Hrows) as (l & Hl & Hy).
  intros k. rewrite <-(elem_of_unlisted (stored s) ks k Hm).
  cbv beta in Hl. set (free := unlisted _ _ _ _) in *.
  assert (∃ free', l = map (λ k, [VText k]) free' ∧ free' ≡ₚ free) as (free' & -> & Hp).
  { apply Permutation_map_inv in Hl as (free' & -> & ?). by exists free'. }
  apply scanned_keys in Hy as ->. by rewrite Hp.
Qed.

Lemma attachment_postgres_spec X (e : attachRepoE X) : ameets e (attachment_postgres repo X e).
Proof.
  destruct e; [apply pCreateAttachment_spec|apply pFindByStorageKey_spec|apply pFindByTask_spec|apply pDeleteAttachment_spec|
    apply pTotalBytesForUser_spec|apply pCountByTask_spec|apply pUnreferencedKeys_spec].
Qed.
End methods.
