(* ===== verification/AttachmentPostgresTheorems.v ===== *)
(** The properties of the PostgreSQL repository of attachments as theorems, with
    their instances on a database that runs. *)

From S2P Require Import Prelude GoStd GoError Uuid Text Sql SqlJoin Breaker Postgres Task TaskPostgresSpec.
From S2P Require Import Attachment AttachmentMemory AttachmentSpec AttachmentBreaker AttachmentPostgres AttachmentPostgresSpec.
From S2P Require Import ConcreteDb Concrete.
Local Open Scope Z_scope.

(** * A database of tasks and attachments *)
Definition holding_sort (order : list order_item) (l : list Holding) : option (list Holding) :=
  match order with [] => Some l | _ => None end.
Lemma holding_sort_ok order l l' :
  holding_sort order l = Some l' → l' ≡ₚ l ∧ StronglySorted (row_le order) l'.
Proof.
  destruct order; [|done]. intros [= <-]. split; [done|].
  induction l as [|x l IH]; constructor; [done|]. by apply Forall_true.
Qed.
Definition holding_server : handler dbE (server Holding) := handle_joins holding_sort 0.
#[export] Instance holding_database : Database Holding holding_server := joins_database holding_sort holding_sort_ok 0.
#[export] Instance holding_joins : JoinDatabase Holding holding_server := joins_join_database holding_sort holding_sort_ok 0.

(** * The repository *)

(** C26: over a database that executes its statements as documented, every call of
    the PostgreSQL repository of attachments does what the contract of [Repository]
    says, of the values as PostgreSQL stores them (identifiers in lower case, times
    in whole microseconds), or it is answered with a failure of the infrastructure
    after the database has done just that.  So an attachment is stored, found,
    counted and deleted only through a task of the user's, a taken identifier or
    storage key is refused as such, a listing is in order, and of the names in the
    blob store exactly those are reported as unreferenced that are UUIDs and that
    no attachment has, whatever the names contain.  No call touches a task; after
    it identifiers and storage keys still name at most one attachment, and every
    attachment has its task. *)
Theorem attachment_postgres_refines {S : Type} (h : handler dbE S) `{!Database Holding h, !JoinDatabase Holding h}
    (callTimeout : Z) {X : Type} (e : attachRepoE X) (s : S) :
  let m := (db_view s).(db_rows) in
  db_inv s → attachment_call e →
  let '(s', r) := run h (attachment_postgres (NewPostgresRepository callTimeout) X e) s in
  let m' := (db_view s').(db_rows) in
  (pg_attach_spec (stored_acall e) (owns_in m) (attachments_in m) (attachments_in m') r ∨
   ∃ err ok, failure (stored_acall e) r = Some err ∧ aforeign err = true ∧ failure (stored_acall e) ok = None ∧
     pg_attach_spec (stored_acall e) (owns_in m) (attachments_in m) (attachments_in m') ok) ∧
  tasks_in m' = tasks_in m ∧ wf_rows (attachments_in m') ∧
  (∀ k a, attachments_in m' !! k = Some a → is_Some (tasks_in m' !! a.(att_TaskID))).
Proof.
  intros m Hi Hc. pose proof (attachment_postgres_spec h (NewPostgresRepository callTimeout) X e s Hi Hc) as Hs.
  destruct (run h _ s) as [s' r]. destruct Hs as (Hi' & Ht & Hs). pose proof (db_consistent s' Hi') as Hm.
  split; [exact Hs|]. split; [exact Ht|]. split; [by apply attachments_wf|]. by apply attachment_task.
Qed.

(** A task of Alice's with an attachment, and one of Bob's. *)
Definition file (id task key : string) (size created : Z) : Attachment :=
  {| att_ID := id; att_TaskID := task; att_OriginalFilename := "notes.txt"; att_StorageKey := key;
     att_ContentType := "text/plain"; att_SizeBytes := size; att_CreatedAt := created |}.
Definition file1 : string := "cccccccc-cccc-4ccc-8ccc-cccccccccccc".
Definition file2 : string := "dddddddd-dddd-4ddd-8ddd-dddddddddddd".
Definition file3 : string := "eeeeeeee-eeee-4eee-8eee-eeeeeeeeeeee".
Definition stored_rows : gmap string Holding :=
  {[ task_key id1 := HTask (mk_task id1 alice "write" StatusPending 1000 1);
     task_key id2 := HTask (mk_task id2 bob "read" StatusDone 2000 3);
     attachment_key file1 := HAttachment (file file1 id1 file1 7 5000);
     attachment_key file2 := HAttachment (file file2 id1 file2 4 3000) ]}.
Definition holding_with (faults : list fault) : server Holding :=
  {| srv_db := {| db_rows := stored_rows; db_txs := ∅ |}; srv_next := 7; srv_faults := faults |}.
Lemma holding_with_inv faults : server_inv (holding_with faults).
Proof.
  split; [|apply map_Forall_empty]. change (consistent stored_rows). apply (bool_decide_unpack (consistent stored_rows)).
  vm_compute. exact I.
Qed.
Definition apg (X : Type) (e : attachRepoE X) (faults : list fault) : server Holding * X :=
  run holding_server (attachment_postgres (NewPostgresRepository time.Second) X e) (holding_with faults).

(** Deleting somebody else's attachment. *)
Lemma not_bobs : (apg _ (DeleteAttachment file1 bob) []).2 = Some (Sentinel (ErrNotFound attachment_pkg)).
Proof. vm_compute. reflexivity. Qed.
Example attachment_postgres_refines_witness :
  (apg _ (DeleteAttachment file1 bob) []).2 = Some (Sentinel (ErrNotFound attachment_pkg)) ∧
  attachments_in (apg _ (DeleteAttachment file1 bob) []).1.(srv_db).(db_rows) = attachments_in stored_rows.
Proof.
  pose proof (attachment_postgres_refines holding_server time.Second (DeleteAttachment file1 bob) (holding_with [])
    (holding_with_inv []) (conj eq_refl eq_refl)) as Hr.
  split; [exact not_bobs|]. pose proof not_bobs as Hres. revert Hr Hres. unfold apg.
  destruct (run holding_server _ (holding_with [])) as [s' r]. cbn [fst snd].
  intros Hr ->. destruct Hr as [[Hr|(err & ok & [= <-] & Herr & _)] _]; [exact (proj1 Hr)|discriminate Herr].
Defined.

(** What the statements do, run. *)
Definition keys_of (r : result (list Attachment)) : option (list string) :=
  match r with Ok l => Some (map att_StorageKey l) | Err _ => None end.
Example listed : keys_of (apg _ (FindByTask id1 alice) []).2 = Some [file2; file1].
Proof. vm_compute. reflexivity. Qed.
Example listed_for_bob : (apg _ (FindByTask id1 bob) []).2 = Err (Sentinel ErrTaskNotFound).
Proof. vm_compute. reflexivity. Qed.
Example stored_for_alice :
  let '(s', r) := apg _ (CreateAttachment (file file3 id1 file3 5 9000) alice) [] in
  r = None ∧ (run holding_server (pTotalBytesForUser (NewPostgresRepository time.Second) alice) s').2 = Ok 16.
Proof. vm_compute. done. Qed.
Example refused_to_bob :
  (apg _ (CreateAttachment (file file3 id1 file3 5 9000) bob) []).2 = Some (Sentinel ErrTaskNotFound) ∧
  (apg _ (CreateAttachment (file file3 id1 file1 5 9000) alice) []).2 = Some (Sentinel (ErrAlreadyExists attachment_pkg)).
Proof. vm_compute. done. Qed.
Example deleted :
  let '(s', r) := apg _ (DeleteAttachment file1 alice) [] in
  r = None ∧ (run holding_server (pCountByTask (NewPostgresRepository time.Second) id1 alice) s').2 = Ok 1.
Proof. vm_compute. done. Qed.
Example unreferenced : (apg _ (UnreferencedKeys [file1; file3; "lost+found"; "a,b"]) []).2 = Ok [file3].
Proof. vm_compute. reflexivity. Qed.
Example deleted_and_lost :
  let '(s', r) := apg _ (DeleteAttachment file1 alice) [FaultAfter] in
  option_map Error r = Some "postgres: delete attachment: write tcp: broken pipe" ∧
  attachments_in s'.(srv_db).(db_rows) !! file1 = None.
Proof. vm_compute. done. Qed.

(** * The text of an array *)

(** PostgreSQL reads the text that [pqTextArray] writes as the array of the
    keys, whatever characters a key has: quotes, backslashes, commas and braces included;
    only bytes that are not UTF-8 are replaced by U+FFFD.  A UUID is read as it was,
    and no other key is read as a UUID, so none can be taken for another key of the
    store. *)
Theorem pqTextArray_reads_back (keys : list string) :
  array_of (pqTextArray keys) = Some (map utf8_text keys) ∧
  (∀ key, Forall (λ b, 0 ≤ b < 128) (bytes key) → utf8_text key = key) ∧
  (∀ key, isValidID (utf8_text key) = true ↔ isValidID key = true).
Proof.
  split; [apply array_of_keys|]. split; [apply utf8_text_ascii|]. intros key. split; intros Hk.
  - by rewrite <-(utf8_text_id key Hk).
  - by rewrite utf8_text_ascii by by apply id_chars_ascii.
Qed.
