(* ===== verification/Migrate.v ===== *)
(** [internal/platform/migrate] and [cmd/migrate]: the migrations of the database, as
    programs over the calls of [database/sql]. *)

From S2P Require Import Prelude GoStd GoError Sql Path Config.
Local Open Scope Z_scope.

(** * migrate.go *)

(** The embedded files, by name; the pattern [migrations/*.up.sql] of [fs.Glob]. *)
Definition embedFS := gmap string string.
Definition glob_up (name : string) : bool :=
  let rest := strings.drop_bytes (String.length "migrations/") name in
  strings.HasPrefix name "migrations/" && HasSuffix rest ".up.sql" && negb (strings.ContainsByte rest "/").
Definition Glob (files : embedFS) : list string := base.filter (λ n, glob_up n = true) (map fst (map_to_list files)).

Definition ensure_query : string := "
		CREATE TABLE IF NOT EXISTS schema_migrations (
			version    TEXT PRIMARY KEY,
			applied_at TIMESTAMPTZ NOT NULL DEFAULT now()
		)
	".
Definition applied_query : string := "SELECT EXISTS (SELECT 1 FROM schema_migrations WHERE version = $1)".
Definition latest_query : string := "SELECT version FROM schema_migrations ORDER BY applied_at DESC LIMIT 1".
Definition record_query : string := "INSERT INTO schema_migrations (version) VALUES ($1)".
Definition forget_query : string := "DELETE FROM schema_migrations WHERE version = $1".

Section migrate.
Context (migrationFiles : embedFS) (ctx : deadline).
Local Open Scope prog_scope.

Definition ensureMigrationsTable : prog dbE (option error) :=
  res ← trigger (ExecContext ctx None ensure_query []);
  mret match res with Err err => Some err | Ok _ => None end.

Definition migrationApplied (version : string) : prog dbE (result bool) :=
  row ← trigger (QueryRow ctx None applied_query [ArgString version] [DBool]);
  mret match row with Err err => Err err | Ok (exists_, _) => Ok exists_ end.

Definition latestAppliedMigration : prog dbE (result string) :=
  row ← trigger (QueryRow ctx None latest_query [] [DString]);
  mret match row with
       | Err err => if Is err sql_ErrNoRows then Ok "" else Err err
       | Ok (version, _) => Ok version
       end.

(** The two statements of a migration in one transaction; the deferred rollback is
    around it. *)
Definition in_transaction (body : Z → prog dbE (option error)) : prog dbE (option error) :=
  tx ← trigger (BeginTx ctx);
  match tx with
  | Err err => mret (Some (wrap "begin transaction" err))
  | Ok tx => res ← body tx; _ ← trigger (Rollback tx); mret res
  end.
Definition applyMigration (version stmt : string) : prog dbE (option error) :=
  in_transaction (λ tx,
    res ← trigger (ExecContext ctx (Some tx) stmt []);
    match res with
    | Err err => mret (Some (wrap "execute migration DDL" err))
    | Ok _ =>
        res ← trigger (ExecContext ctx (Some tx) record_query [ArgString version]);
        match res with
        | Err err => mret (Some (wrap "record migration version" err))
        | Ok _ =>
            err ← trigger (Commit tx);
            mret match err with Some err => Some (wrap "commit transaction" err) | None => None end
        end
    end).
Definition revertMigration (version stmt : string) : prog dbE (option error) :=
  in_transaction (λ tx,
    res ← trigger (ExecContext ctx (Some tx) stmt []);
    match res with
    | Err err => mret (Some (wrap "execute down migration DDL" err))
    | Ok _ =>
        res ← trigger (ExecContext ctx (Some tx) forget_query [ArgString version]);
        match res with
        | Err err => mret (Some (wrap "remove migration record" err))
        | Ok _ =>
            err ← trigger (Commit tx);
            mret match err with Some err => Some (wrap "commit transaction" err) | None => None end
        end
    end).

Definition ReadFile (name : string) : result string :=
  match migrationFiles !! name with Some text => Ok text | None => Err os_ErrNotExist end.

(** [for _, p := range paths]. *)
Definition version_of (p : string) : string := TrimSuffix (path.Base p) ".up.sql".
Fixpoint applyLoop (paths : list string) : prog dbE (option error) :=
  match paths with
  | [] => mret None
  | p :: paths =>
      let version := version_of p in
      applied ← migrationApplied version;
      match applied with
      | Err err => mret (Some (wrap ("postgres: check migration " +:+ version) err))
      | Ok true => applyLoop paths
      | Ok false =>
          match ReadFile p with
          | Err err => mret (Some (wrap ("postgres: read migration " +:+ version) err))
          | Ok stmt =>
              err ← applyMigration version stmt;
              match err with
              | Some err => mret (Some (wrap ("postgres: apply migration " +:+ version) err))
              | None => applyLoop paths
              end
          end
      end
  end.
Definition RunMigrations : prog dbE (option error) :=
  err ← ensureMigrationsTable;
  match err with
  | Some err => mret (Some (wrap "postgres: ensure schema_migrations table" err))
  | None => applyLoop (sort_slice strings.less (Glob migrationFiles))
  end.

Definition RunMigrationsDown : prog dbE (option error) :=
  err ← ensureMigrationsTable;
  match err with
  | Some err => mret (Some (wrap "postgres: ensure schema_migrations table" err))
  | None =>
      version ← latestAppliedMigration;
      match version with
      | Err err => mret (Some (wrap "postgres: find latest applied migration" err))
      | Ok version =>
          if String.eqb version "" then mret (Some (Sentinel ErrNoMigrationsToRevert))
          else
            match ReadFile ("migrations/" +:+ version +:+ ".down.sql") with
            | Err err => mret (Some (wrap ("postgres: read down migration for " +:+ version) err))
            | Ok stmt =>
                err ← revertMigration version stmt;
                mret match err with
                     | Some err => Some (wrap ("postgres: revert migration " +:+ version) err)
                     | None => None
                     end
            end
      end
  end.
End migrate.

(** * cmd/migrate *)
Inductive cmdE : Type → Type :=
| sql_Open (url : string) : cmdE (option error)
| db_Ping : cmdE (option error)
| db_Close : cmdE unit
| Println (line : string) : cmdE unit.
Definition migrateE : Type → Type := sumE cmdE dbE.

Section main.
Context `{unicode.Tables} (migrationFiles : embedFS).
Local Open Scope prog_scope.

(** [loaded]: what [config.Load] returned; thirty seconds for all of it. *)
Definition migrate_timeout : deadline := Some (30 * time.Second).
Definition migrate_in (direction : string) : prog migrateE (option error) :=
  err ← trigger db_Ping;
  match err with
  | Some err => mret (Some (wrap "ping database" err))
  | None =>
      if String.eqb direction "up" then
        err ← Prelude.lift (λ X e, inr e) (RunMigrations migrationFiles migrate_timeout);
        match err with
        | Some err => mret (Some (wrap "apply migrations" err))
        | None => _ ← trigger (Println "migrations applied"); mret None
        end
      else
        err ← Prelude.lift (λ X e, inr e) (RunMigrationsDown migrationFiles migrate_timeout);
        match err with
        | Some err =>
            if Is err ErrNoMigrationsToRevert then _ ← trigger (Println "no migrations to revert"); mret None
            else mret (Some (wrap "revert migration" err))
        | None => _ ← trigger (Println "last migration reverted"); mret None
        end
  end.
Definition migrate_run (loaded : result Config) (direction : string) : prog migrateE (option error) :=
  if negb (String.eqb direction "up") && negb (String.eqb direction "down") then
    mret (Some (Errorf ("invalid -direction " +:+ quote.Quote direction +:+ ": want " +:+ quote.Quote "up" +:+
                        " or " +:+ quote.Quote "down")))
  else
    match loaded with
    | Err err => mret (Some (wrap "load config" err))
    | Ok cfg =>
        if String.eqb cfg.(cfg_DatabaseURL) "" then mret (Some (Errorf "DATABASE_URL must be set"))
        else
          err ← trigger (sql_Open cfg.(cfg_DatabaseURL));
          match err with
          | Some err => mret (Some (wrap "open database" err))
          | None => res ← migrate_in direction; _ ← trigger db_Close; mret res
          end
    end.
End main.
