(* ===== verification/MigrateTheorems.v ===== *)
(** Theorems about the migrations: whatever fails, and whenever, the schema is the one
    that the recorded migrations make of an empty database, a run resumes where the one
    before it stopped, and reverting undoes the last one. *)

From S2P Require Import Prelude GoStd GoError Text Sql Path Config Migrate.
Local Open Scope Z_scope.

(** * Names *)
Lemma take_drop_bytes n s : s = of_bytes (take n (bytes s)) +:+ strings.drop_bytes n s.
Proof.
  revert s; induction n as [|n IH]; intros s; [by rewrite append_empty|]. destruct s as [|c s]; [done|].
  cbn. change (of_bytes (byte_val c :: take n (bytes s)) +:+ strings.drop_bytes n s = String c s) || idtac.
  unfold of_bytes. cbn [map String.string_of_list_ascii]. rewrite append_cons, byte_of_val. f_equal. apply IH.
Qed.
Lemma suffix_split s suffix : HasSuffix s suffix = true → ∃ w, s = w +:+ suffix ∧ TrimSuffix s suffix = w.
Proof.
  intros Hs. unfold TrimSuffix. rewrite Hs. unfold HasSuffix in Hs. apply andb_true_iff in Hs as [_ Hs%String.eqb_eq].
  set (n := (String.length s - String.length suffix)%nat) in *. eexists. split; [|done].
  rewrite <-Hs at 1. apply take_drop_bytes.
Qed.

Definition up_file (v : string) : string := "migrations/" +:+ v +:+ ".up.sql".
Lemma ContainsByte_without c s : strings.ContainsByte s c = false → without c s.
Proof.
  induction s as [|d s IH]; [by intros _ x []|]. cbn. intros [Hd Hs]%orb_false_iff.
  intros x [<-|Hx]; [by apply Ascii.eqb_neq in Hd|by apply IH].
Qed.
(** A file of the pattern is that of its version. *)
Lemma up_file_version p : glob_up p = true → up_file (version_of p) = p.
Proof.
  unfold glob_up. set (rest := strings.drop_bytes _ p). intros [[Hp Hs]%andb_true_iff Hn]%andb_true_iff.
  apply negb_true_iff, ContainsByte_without in Hn.
  assert (Hpr : p = "migrations/" +:+ rest) by (by apply prefix_split).
  destruct (suffix_split rest ".up.sql" Hs) as (w & Hr & Hw).
  assert (version_of p = w) as ->; [|by rewrite Hpr, Hr].
  unfold version_of. rewrite <-Hw. f_equal. unfold path.Base. rewrite Hpr.
  change ("migrations/" +:+ rest) with ("migrations" +:+ String path.slash rest).
  rewrite Split_app by (intros ? Hx; repeat destruct Hx as [<-|Hx]; done). rewrite Split_without by done.
  assert (Hne : rest ≠ "") by (rewrite Hr; by destruct w).
  change (String.eqb ("migrations" +:+ String path.slash rest) "") with false. cbn iota.
  by rewrite !filter_cons_True.
Qed.

(** * The database *)

(** A schema and the table of the applied migrations, in the order they were recorded,
    with their times; [None] before there is such a table. *)
Record catalog (Schema : Type) := { cat_schema : Schema; cat_log : option (list (string * Z)) }.
Arguments cat_schema {Schema} c.
Arguments cat_log {Schema} c.
Record catalogs (Schema : Type) := { cat_main : catalog Schema; cat_txs : gmap Z (catalog Schema) }.
Arguments cat_main {Schema} c.
Arguments cat_txs {Schema} c.

Section database.
Context {Schema : Type} (ddl : string → Schema → option Schema).
Abbreviation catalog := (catalog Schema).
Abbreviation catalogs := (catalogs Schema).

Definition with_table (c : catalog) : catalog :=
  {| cat_schema := c.(cat_schema); cat_log := Some (default [] c.(cat_log)) |}.
(** What a statement that succeeded has done; [DDL] leaves the table of the migrations
    alone. *)
Definition effect (query : string) (args : list arg) (c c' : catalog) : Prop :=
  if String.eqb query record_query then
    ∃ v t l, args = [ArgString v] ∧ c.(cat_log) = Some l ∧ (v ∉ map fst l) ∧
      c' = {| cat_schema := c.(cat_schema); cat_log := Some (l ++ [(v, t)]) |}
  else if String.eqb query forget_query then
    ∃ v l, args = [ArgString v] ∧ c.(cat_log) = Some l ∧
      c' = {| cat_schema := c.(cat_schema); cat_log := Some (base.filter (λ e, e.1 ≠ v) l) |}
  else args = [] ∧ ddl query c.(cat_schema) = Some c'.(cat_schema) ∧ c'.(cat_log) = c.(cat_log).
(** The latest of the recorded times. *)
Definition latest (l : list (string * Z)) (v : string) : Prop :=
  ∃ t, (v, t) ∈ l ∧ ∀ v' t', (v', t') ∈ l → t' ≤ t.

(** What each call may have done and answered.  A call may fail at any time; a commit
    whose answer was lost may have happened. *)
Definition catalog_spec {X} (e : dbE X) (d d' : catalogs) : X → Prop :=
  match e in dbE X return X → Prop with
  | ExecContext _ None query _ => λ r,
      query = ensure_query →
      match r with
      | Ok _ => d'.(cat_main) = with_table d.(cat_main)
      | Err _ => d'.(cat_main) = d.(cat_main) ∨ d'.(cat_main) = with_table d.(cat_main)
      end
  | ExecContext _ (Some tx) query args => λ r,
      d'.(cat_main) = d.(cat_main) ∧
      match r with
      | Ok _ => ∀ c, d.(cat_txs) !! tx = Some c → ∃ c', d'.(cat_txs) !! tx = Some c' ∧ effect query args c c'
      | Err _ => True
      end
  | QueryRow _ tx query args ds => λ r,
      d' = d ∧ ∀ l, tx = None → d.(cat_main).(cat_log) = Some l →
      (∀ v, query = applied_query → args = [ArgString v] →
         match ds return result (tuple ds) → Prop with
         | [DBool] => λ r, ∀ b u, r = Ok (b, u) → b = bool_decide (v ∈ map fst l)
         | _ => λ _, True
         end r) ∧
      (query = latest_query →
         match ds return result (tuple ds) → Prop with
         | [DString] => λ r,
             match r with
             | Ok (v, _) => latest l v
             | Err e => Is e sql_ErrNoRows = true → l = []
             end
         | _ => λ _, True
         end r)
  | Query _ _ _ _ => λ _, d' = d
  | BeginTx _ => λ r, d'.(cat_main) = d.(cat_main) ∧ ∀ tx, r = Ok tx → d'.(cat_txs) !! tx = Some d.(cat_main)
  | Commit tx => λ r, ∀ c, d.(cat_txs) !! tx = Some c →
      match r with
      | None => d'.(cat_main) = c
      | Some _ => d'.(cat_main) = d.(cat_main) ∨ d'.(cat_main) = c
      end
  | Rollback _ => λ _, d'.(cat_main) = d.(cat_main)
  end.

Class CatalogDb {S : Type} (h : handler dbE S) := {
  cat_view : S → catalogs;
  cat_sound : ∀ X (e : dbE X) s, catalog_spec e (cat_view s) (cat_view (h X e s).1) (h X e s).2;
}.

(** The calls that succeed when nothing fails outside the program: a statement that can
    be executed, a query of the table once it is there, the begin and the commit of a
    transaction. *)
Definition succeeds {X} (e : dbE X) (d : catalogs) : X → Prop :=
  match e in dbE X return X → Prop with
  | ExecContext _ None query _ => λ r, query = ensure_query → ∃ x, r = Ok x
  | ExecContext _ (Some tx) query args => λ r, ∀ c c', d.(cat_txs) !! tx = Some c → effect query args c c' → ∃ x, r = Ok x
  | QueryRow _ None query args ds => λ r, ∀ l, d.(cat_main).(cat_log) = Some l →
      (∀ v, query = applied_query → args = [ArgString v] → ds = [DBool] → ∃ x, r = Ok x) ∧
      (query = latest_query → ds = [DString] →
         (l = [] → ∃ e, r = Err e ∧ Is e sql_ErrNoRows = true) ∧ (l ≠ [] → ∃ x, r = Ok x))
  | BeginTx _ => λ r, ∃ tx, r = Ok tx
  | Commit tx => λ r, is_Some (d.(cat_txs) !! tx) → r = None
  | _ => λ _, True
  end.
(** The states from which nothing fails outside the program. *)
Class WorkingDb {S : Type} (h : handler dbE S) `{!CatalogDb h} := {
  works : S → Prop;
  works_call : ∀ X (e : dbE X) s, works s → works (h X e s).1 ∧ succeeds e (cat_view s) (h X e s).2;
}.

(** * Migrations that were applied *)
Context (files : embedFS) (ctx : deadline) (empty : Schema).

(** The schema that some migrations make, one after the other, of the empty one. *)
Fixpoint migrated (hist : list string) (s : Schema) : option Schema :=
  match hist with
  | [] => Some s
  | v :: hist => stmt ← files !! up_file v; s' ← ddl stmt s; migrated hist s'
  end.
(** The schema is what the recorded migrations made, and they are recorded once. *)
Record consistent (hist : list string) (c : catalog) : Prop := {
  cons_schema : migrated hist empty = Some c.(cat_schema);
  cons_log : map fst (default [] c.(cat_log)) = hist;
  cons_once : NoDup hist;
}.

Lemma migrated_app hist hist' s : migrated (hist ++ hist') s = s' ← migrated hist s; migrated hist' s'.
Proof.
  revert s; induction hist as [|v hist IH]; intros s; [done|]. cbn.
  destruct (files !! up_file v) as [stmt|]; [|done]. cbn. destruct (ddl stmt s) as [s'|]; [|done]. apply IH.
Qed.
Lemma consistent_table hist c : consistent hist c → consistent hist (with_table c).
Proof. intros [H1 H2 H3]. by split. Qed.

(** The migrations, in the order they are applied. *)
Definition paths : list string := sort_slice strings.less (Glob files).
Definition versions : list string := map version_of paths.

Lemma paths_up : Forall (λ p, glob_up p = true ∧ is_Some (files !! p)) paths.
Proof.
  unfold paths. rewrite sort_slice_perm. apply Forall_forall. intros p Hp. unfold Glob in Hp.
  apply list_elem_of_filter in Hp as [Hg Hp]. split; [done|].
  apply list_elem_of_fmap in Hp as ([k v] & -> & Hk). apply elem_of_map_to_list in Hk. by exists v.
Qed.
Lemma paths_once : NoDup paths.
Proof.
  unfold paths. rewrite sort_slice_perm. apply NoDup_filter. apply NoDup_fst_map_to_list.
Qed.
Lemma versions_once l : Forall (λ p, glob_up p = true ∧ is_Some (files !! p)) l → NoDup l → NoDup (map version_of l).
Proof.
  intros Hl Hn. induction Hn as [|p l Hp Hn IH]; [constructor|]. apply Forall_cons in Hl as [[Hg _] Hl].
  cbn. constructor; [|by apply IH]. intros (q & Hq & Hin)%list_elem_of_fmap. rewrite Forall_forall in Hl.
  destruct (Hl q Hin) as [Hgq _]. apply Hp. by rewrite <-(up_file_version p Hg), Hq, (up_file_version q Hgq).
Qed.

(** Those that are not recorded yet. *)
Definition pending (hist : list string) (l : list string) : list string := base.filter (λ v, v ∉ hist) (map version_of l).

Lemma pending_other hist v l : v ∉ map version_of l → pending (hist ++ [v]) l = pending hist l.
Proof.
  unfold pending. induction (map version_of l) as [|w ws IH]; intros Hv; [done|].
  apply not_elem_of_cons in Hv as [Hvw Hv]. destruct (decide (w ∈ hist)) as [Hw|Hw].
  - rewrite !filter_cons_False by set_solver. by apply IH.
  - rewrite !filter_cons_True by set_solver. f_equal. by apply IH.
Qed.

(** * What the programs do *)
Context {S : Type} (h : handler dbE S) `{!CatalogDb h, !WorkingDb h}.
Abbreviation main s := (cat_main (cat_view s)).

Lemma catalog_call X (e : dbE X) s s' r : h X e s = (s', r) → catalog_spec e (cat_view s) (cat_view s') r.
Proof. intros E. pose proof (cat_sound X e s) as Hs. by rewrite E in Hs. Qed.

Lemma working_call X (e : dbE X) s s' r : h X e s = (s', r) → works s → works s' ∧ succeeds e (cat_view s) r.
Proof. intros E Hs. pose proof (works_call X e s Hs) as Hw. by rewrite E in Hw. Qed.
Lemma works_run {A} (p : prog dbE A) s : works s → works (run h p s).1.
Proof. apply run_invariant. intros X e s0 Hs. by apply works_call. Qed.

Lemma ensure_spec s :
  let '(s', r) := run h (ensureMigrationsTable ctx) s in
  match r with
  | None => main s' = with_table (main s)
  | Some _ => main s' = main s ∨ main s' = with_table (main s)
  end ∧ (works s → r = None).
Proof.
  unfold ensureMigrationsTable. rewrite run_bind, run_trigger. destruct (h _ _ s) as [s' r] eqn:E.
  pose proof (catalog_call _ _ _ _ _ E eq_refl) as Hs. rewrite run_ret. split; [by destruct r|].
  intros Hw. by destruct (proj2 (working_call _ _ _ _ _ E Hw) eq_refl) as [x ->].
Qed.

Lemma applied_spec v s l : (main s).(cat_log) = Some l →
  let '(s', r) := run h (migrationApplied ctx v) s in
  main s' = main s ∧ (∀ b, r = Ok b → b = bool_decide (v ∈ map fst l)) ∧ (works s → ∃ b, r = Ok b).
Proof.
  intros Hl. unfold migrationApplied. rewrite run_bind, run_trigger. destruct (h _ _ s) as [s' r] eqn:E.
  destruct (catalog_call _ _ _ _ _ E) as [Hv Hs]. rewrite run_ret, Hv. split; [done|].
  destruct (Hs l eq_refl Hl) as [Ha _]. specialize (Ha v eq_refl eq_refl). split.
  - destruct r as [[b []]|e]; [|done]. intros ? [= <-]. by apply (Ha b tt).
  - intros Hw. destruct (proj2 (working_call _ _ _ _ _ E Hw) l Hl) as [Hx _].
    destruct (Hx v eq_refl eq_refl eq_refl) as [[b []] ->]. by exists b.
Qed.

Lemma latest_spec s l : (main s).(cat_log) = Some l →
  let '(s', r) := run h (latestAppliedMigration ctx) s in
  main s' = main s ∧ (∀ v, r = Ok v → v = "" ∧ l = [] ∨ latest l v) ∧
  (works s → (l = [] → r = Ok "") ∧ (l ≠ [] → ∃ v, r = Ok v ∧ latest l v)).
Proof.
  intros Hl. unfold latestAppliedMigration. rewrite run_bind, run_trigger. destruct (h _ _ s) as [s' r] eqn:E.
  destruct (catalog_call _ _ _ _ _ E) as [Hv Hs]. rewrite run_ret, Hv. split; [done|].
  destruct (Hs l eq_refl Hl) as [_ Ha]. specialize (Ha eq_refl). split.
  - intros v Hr. destruct r as [[w []]|e]; [injection Hr as ->; by right|]. left.
    destruct (Is e sql_ErrNoRows) eqn:Hi; [|done]. injection Hr as <-. auto.
  - intros Hw. destruct (proj2 (working_call _ _ _ _ _ E Hw) l Hl) as [_ Hx]. destruct (Hx eq_refl eq_refl) as [Hn Hc]. split.
    + intros Hl0. destruct (Hn Hl0) as (e & -> & Hi). by rewrite Hi.
    + intros Hl0. destruct (Hc Hl0) as [[w []] ->]. by exists w.
Qed.

(** Two statements in a transaction: their effect, or none; and their effect if they can
    be executed and nothing else fails. *)
Definition transacted (P : catalog → catalog → Prop) (can : catalog → Prop) (s s' : S) (r : option error) : Prop :=
  (main s' = main s ∨ P (main s) (main s')) ∧ (r = None → P (main s) (main s')) ∧ (works s → can (main s) → r = None).
Lemma transaction_spec (step : Z → prog dbE (option error)) P can s :
  (∀ tx s, (cat_view s).(cat_txs) !! tx = Some (main s) →
     let '(s', r) := run h (step tx) s in transacted P can s s' r) →
  let '(s', r) := run h (in_transaction ctx step) s in transacted P can s s' r.
Proof.
  intros Hstep. unfold in_transaction. rewrite run_bind, run_trigger. destruct (h _ _ s) as [s1 r1] eqn:E1.
  destruct (catalog_call _ _ _ _ _ E1) as [Hm1 Htx]. pose proof (working_call _ _ _ _ _ E1) as Hw1. destruct r1 as [tx|e].
  2: { rewrite run_ret. split_and!; [by left|done|]. intros Hw. by destruct (proj2 (Hw1 Hw)). }
  specialize (Htx tx eq_refl). rewrite <-Hm1 in Htx. specialize (Hstep tx s1 Htx).
  rewrite run_bind. destruct (run h (step tx) s1) as [s2 r2]. rewrite run_bind, run_trigger.
  destruct (h _ _ s2) as [s3 r3] eqn:E3. pose proof (catalog_call _ _ _ _ _ E3) as Hm3. cbn in Hm3.
  cbv beta. rewrite run_ret. destruct Hstep as (H1 & H2 & H3). unfold transacted. rewrite Hm3, <-Hm1.
  split_and!; [done|done|]. intros Hw. apply H3, Hw1, Hw.
Qed.

(** A migration whose text is not one of the two statements about the table. *)
Definition plain_ddl (stmt : string) : Prop := stmt ≠ record_query ∧ stmt ≠ forget_query.
Hypothesis files_plain : map_Forall (λ _ stmt, plain_ddl stmt) files.

Lemma ddl_effect stmt c c' : plain_ddl stmt → effect stmt [] c c' →
  ddl stmt c.(cat_schema) = Some c'.(cat_schema) ∧ c'.(cat_log) = c.(cat_log).
Proof. intros [H1%String.eqb_neq H2%String.eqb_neq]. unfold effect. rewrite H1, H2. tauto. Qed.
Lemma effect_ddl stmt c s : plain_ddl stmt → ddl stmt c.(cat_schema) = Some s →
  effect stmt [] c {| cat_schema := s; cat_log := c.(cat_log) |}.
Proof. intros [H1%String.eqb_neq H2%String.eqb_neq]. unfold effect. by rewrite H1, H2. Qed.

(** A statement in a transaction, then the next one, then the commit. *)
Lemma exec_tx tx query args s s' r c :
  h _ (ExecContext ctx (Some tx) query args) s = (s', r) → (cat_view s).(cat_txs) !! tx = Some c →
  main s' = main s ∧ (∀ x, r = Ok x → ∃ c', (cat_view s').(cat_txs) !! tx = Some c' ∧ effect query args c c') ∧
  (works s → works s' ∧ ((∃ c', effect query args c c') → ∃ x, r = Ok x)).
Proof.
  intros E Hc. destruct (catalog_call _ _ _ _ _ E) as [Hm Hr]. split_and!; [done|by intros x ->; apply Hr|].
  intros Hw. destruct (working_call _ _ _ _ _ E Hw) as [Hw' Hx]. split; [done|]. intros [c' He]. by apply (Hx c c').
Qed.
Lemma commit_tx tx s s' r c : h _ (Commit tx) s = (s', r) → (cat_view s).(cat_txs) !! tx = Some c →
  (main s' = main s ∨ main s' = c) ∧ (r = None → main s' = c) ∧ (works s → r = None).
Proof.
  intros E Hc. pose proof (catalog_call _ _ _ _ _ E c Hc) as Hr. split_and!; [by destruct r; auto|by intros ->|].
  intros Hw. apply (working_call _ _ _ _ _ E Hw). by exists c.
Qed.

(** What the two statements of a transaction do to what it started from. *)
Definition two_effects (q1 q2 : string) (a2 : list arg) (c c' : catalog) : Prop :=
  ∃ c1, effect q1 [] c c1 ∧ effect q2 a2 c1 c'.
Definition can_do (q1 q2 : string) (a2 : list arg) (c : catalog) : Prop :=
  (∃ c1, effect q1 [] c c1) ∧ ∀ c1, effect q1 [] c c1 → ∃ c2, effect q2 a2 c1 c2.
Lemma two_statements (w1 w2 w3 : error → error) q1 q2 a2 s :
  let '(s', r) := run h (in_transaction ctx (λ tx,
    (res ← trigger (ExecContext ctx (Some tx) q1 []);
     match res with
     | Err err => mret (Some (w1 err))
     | Ok _ =>
         res ← trigger (ExecContext ctx (Some tx) q2 a2);
         match res with
         | Err err => mret (Some (w2 err))
         | Ok _ => err ← trigger (Commit tx); mret match err with Some err => Some (w3 err) | None => None end
         end
     end)%prog)) s in
  transacted (two_effects q1 q2 a2) (can_do q1 q2 a2) s s' r.
Proof.
  apply transaction_spec. clear s. intros tx s Htx. unfold transacted.
  rewrite run_bind, run_trigger. destruct (h _ _ s) as [s1 r1] eqn:E1.
  destruct (exec_tx _ _ _ _ _ _ _ E1 Htx) as (Hm1 & Hr1 & Hw1). destruct r1 as [x|e].
  2: { rewrite run_ret. split_and!; [by left|done|]. intros Hw [Hcan _]. by destruct (proj2 (Hw1 Hw) Hcan). }
  destruct (Hr1 x eq_refl) as (c1 & Hc1 & He1). rewrite run_bind, run_trigger.
  destruct (h _ _ s1) as [s2 r2] eqn:E2. destruct (exec_tx _ _ _ _ _ _ _ E2 Hc1) as (Hm2 & Hr2 & Hw2). rewrite Hm1 in Hm2.
  destruct r2 as [y|e].
  2: { rewrite run_ret. split_and!; [by left|done|]. intros Hw [_ Hcan].
       by destruct (proj2 (Hw2 (proj1 (Hw1 Hw))) (Hcan c1 He1)). }
  destruct (Hr2 y eq_refl) as (c2 & Hc2 & He2). rewrite run_bind, run_trigger.
  destruct (h _ _ s2) as [s3 r3] eqn:E3. destruct (commit_tx _ _ _ _ _ E3 Hc2) as (Hm3 & Hr3 & Hw3). rewrite Hm2 in Hm3.
  rewrite run_ret. assert (Hdone : two_effects q1 q2 a2 (main s) c2) by by exists c1.
  split_and!.
  - destruct Hm3 as [-> | ->]; auto.
  - destruct r3; [done|]. intros _. by rewrite Hr3.
  - intros Hw _. by rewrite (Hw3 (proj1 (Hw2 (proj1 (Hw1 Hw))))).
Qed.

Lemma apply_effects v stmt hist c c' : consistent hist c → v ∉ hist → files !! up_file v = Some stmt →
  two_effects stmt record_query [ArgString v] c c' → consistent (hist ++ [v]) c' ∧ is_Some c'.(cat_log).
Proof.
  intros [Hs Hl Hn] Hv Hf (c1 & He1 & He2). destruct (ddl_effect _ _ _ (files_plain _ _ Hf) He1) as [Hd1 Hl1].
  unfold effect in He2. rewrite String.eqb_refl in He2. destruct He2 as (v' & t & l & [= <-] & Hc1 & Hvl & ->). cbn.
  rewrite Hl1 in Hc1. rewrite Hc1 in Hl. cbn in Hl. split; [|by eexists]. split; cbn.
  - rewrite migrated_app, Hs. cbn. rewrite Hf. cbn. by rewrite Hd1.
  - by rewrite map_app, Hl.
  - apply NoDup_app. split_and!; [done|set_solver|apply NoDup_singleton].
Qed.

(** A migration that is not recorded can be applied if its text can be executed. *)
Lemma can_apply v stmt hist c : consistent hist c → v ∉ hist → is_Some c.(cat_log) → files !! up_file v = Some stmt →
  is_Some (migrated (hist ++ [v]) empty) → can_do stmt record_query [ArgString v] c.
Proof.
  intros [Hs Hl _] Hv [l Hlog] Hf Hm. rewrite migrated_app, Hs in Hm. cbn in Hm. rewrite Hf in Hm. cbn in Hm.
  rewrite Hlog in Hl. cbn in Hl. destruct (ddl stmt (cat_schema c)) as [s'|] eqn:Hd; [|by destruct Hm].
  split; [eexists; exact (effect_ddl _ _ _ (files_plain _ _ Hf) Hd)|]. intros c1 He. destruct (ddl_effect _ _ _ (files_plain _ _ Hf) He) as [_ Hl1].
  eexists {| cat_schema := c1.(cat_schema); cat_log := Some (l ++ [(v, 0)]) |}. unfold effect. rewrite String.eqb_refl.
  exists v, 0, l. by rewrite Hl, Hl1, Hlog.
Qed.
Lemma apply_spec v stmt s hist : consistent hist (main s) → v ∉ hist → is_Some (main s).(cat_log) → files !! up_file v = Some stmt →
  let '(s', r) := run h (applyMigration ctx v stmt) s in
  (main s' = main s ∨ consistent (hist ++ [v]) (main s') ∧ is_Some (main s').(cat_log)) ∧
  (r = None → consistent (hist ++ [v]) (main s') ∧ is_Some (main s').(cat_log)) ∧
  (works s → is_Some (migrated (hist ++ [v]) empty) → r = None).
Proof.
  intros Hc Hv Hlog Hf. unfold applyMigration.
  pose proof (two_statements (wrap "execute migration DDL") (wrap "record migration version") (wrap "commit transaction")
    stmt record_query [ArgString v] s) as Ht.
  destruct (run h _ s) as [s' r]. destruct Ht as (Ht & Hr & Hw).
  pose proof (apply_effects v stmt hist (main s) (main s') Hc Hv Hf). split_and!; [tauto|tauto|].
  intros Hws Hm. by eapply Hw, can_apply.
Qed.

(** What a run over some files leaves, from what was recorded before: it records more, in
    order; all if it succeeds; and it succeeds if the migrations can be applied and
    nothing else fails. *)
Definition loop_done (l : list string) (hist : list string) (s s' : S) (r : option error) : Prop :=
  ∃ n, consistent (hist ++ take n (pending hist l)) (main s') ∧ is_Some (main s').(cat_log) ∧
    (r = None → take n (pending hist l) = pending hist l) ∧
    (works s → is_Some (migrated (hist ++ pending hist l) empty) → r = None).
Lemma stopped_there l hist s s' r : consistent hist (main s) → is_Some (main s).(cat_log) → main s' = main s → r ≠ None →
  ¬ (works s ∧ is_Some (migrated (hist ++ pending hist l) empty)) → loop_done l hist s s' r.
Proof. intros Hc Hl Hm Hr Hw. exists 0%nat. rewrite take_0, app_nil_r, Hm. split_and!; try done. intros. tauto. Qed.

Lemma pending_recorded hist p l : version_of p ∈ hist → pending hist (p :: l) = pending hist l.
Proof. intros Hp. unfold pending. cbn [map]. by rewrite filter_cons_False by auto. Qed.
Lemma pending_next hist p l : version_of p ∉ hist → version_of p ∉ map version_of l →
  pending hist (p :: l) = version_of p :: pending (hist ++ [version_of p]) l.
Proof. intros Hp Hl. rewrite pending_other by done. unfold pending. cbn [map]. by rewrite filter_cons_True. Qed.

Lemma loop_spec l s hist :
  Forall (λ p, glob_up p = true ∧ is_Some (files !! p)) l → NoDup l →
  consistent hist (main s) → is_Some (main s).(cat_log) →
  let '(s', r) := run h (applyLoop files ctx l) s in loop_done l hist s s' r.
Proof.
  revert s hist; induction l as [|p l IH]; intros s hist Hup Hnd Hc Hl.
  { cbn. exists 0%nat. by rewrite app_nil_r. }
  pose proof (versions_once _ Hup Hnd) as Hvs. cbn [map] in Hvs. apply NoDup_cons in Hvs as [Hpl _].
  apply Forall_cons in Hup as [[Hg [stmt Hf]] Hup]. apply NoDup_cons in Hnd as [_ Hnd].
  cbn [applyLoop]. pose proof Hl as [log Hlog]. pose proof (works_run (migrationApplied ctx (version_of p)) s) as Hws.
  pose proof (applied_spec (version_of p) s log Hlog) as Ha. rewrite run_bind.
  destruct (run h (migrationApplied _ _) s) as [s1 r1]. destruct Ha as (Hm1 & Hb & Hw1). cbn [fst] in Hws.
  assert (Hh : map fst log = hist) by (destruct Hc as [_ Hcl _]; by rewrite Hlog in Hcl).
  destruct r1 as [b|e]; cbv beta; [|rewrite run_ret; apply stopped_there; try done; intros [Hw _]; by destruct (Hw1 Hw)].
  specialize (Hb b eq_refl). rewrite Hh in Hb. rewrite <-Hm1 in Hc, Hl.
  destruct b.
  { symmetry in Hb. apply bool_decide_eq_true in Hb. cbv beta iota. unfold loop_done. rewrite (pending_recorded _ _ _ Hb).
    specialize (IH s1 hist Hup Hnd Hc Hl). destruct (run h (applyLoop _ _ _) s1) as [s3 r3].
    destruct IH as (n & H1 & H2 & H3 & H4). exists n. split_and!; auto. }
  symmetry in Hb. apply bool_decide_eq_false in Hb. cbv beta iota. unfold ReadFile. rewrite Hf. rewrite run_bind.
  rewrite <-(up_file_version p Hg) in Hf.
  pose proof (works_run (applyMigration ctx (version_of p) stmt) s1) as Hws1.
  pose proof (apply_spec (version_of p) stmt s1 hist Hc Hb Hl Hf) as Ha.
  destruct (run h (applyMigration _ _ _) s1) as [s2 r2]. destruct Ha as (Ha & Hr & Hw2). cbn [fst] in Hws1.
  unfold loop_done. rewrite (pending_next _ _ _ Hb Hpl).
  assert (Hcons : ∀ x, hist ++ version_of p :: x = (hist ++ [version_of p]) ++ x) by (intros x; by rewrite <-app_assoc).
  destruct r2 as [e|]; cbv beta iota.
  - rewrite run_ret. assert (Hno : works s → is_Some (migrated (hist ++ version_of p :: pending (hist ++ [version_of p]) l) empty) → False).
    { intros Hw [x Hx]. assert (Some e = None); [|done]. apply Hw2; [by apply Hws|]. rewrite Hcons, migrated_app in Hx.
      destruct (migrated (hist ++ [version_of p]) empty) eqn:He; [by eexists|done]. }
    destruct Ha as [Hm2|[Hc2 Hl2]].
    + exists 0%nat. rewrite take_0, app_nil_r, Hm2. split_and!; try done. intros Hw Hx. by destruct (Hno Hw Hx).
    + exists 1%nat. cbn [take]. split_and!; try done. intros Hw Hx. by destruct (Hno Hw Hx).
  - destruct (Hr eq_refl) as [Hc2 Hl2].
    specialize (IH s2 (hist ++ [version_of p]) Hup Hnd Hc2 Hl2). destruct (run h (applyLoop _ _ _) s2) as [s3 r3].
    destruct IH as (n & Hc3 & Hl3 & Hall & Hw3). exists (Datatypes.S n). cbn [take].
    rewrite (Hcons (take _ _)), (Hcons (pending _ _)). split_and!; [done|done|intros Hn; by rewrite Hall|auto].
Qed.

(** C39: the migrations can be run again after any failure, and again after a success.
    Whatever fails, at whichever call, and also when the answer of a commit is lost, it stays
    true that the schema is the one that the recorded migrations, in the order they were
    recorded, make of an empty database, and that none is recorded twice; a run only adds migrations to the
    record, those that were missing, in the order of their names and without a gap; and
    when it returns without an error none is missing.  And it does return without an
    error, whatever is recorded already, if the missing migrations can be executed and no
    call fails for a reason of its own: those that are recorded are not executed again.
    (No migration is one of the program's own two statements about the record.) *)
Theorem RunMigrations_resumes s hist :
  consistent hist (main s) →
  let '(s', r) := run h (RunMigrations files ctx) s in
  ∃ n, consistent (hist ++ take n (pending hist paths)) (main s') ∧
    (r = None → take n (pending hist paths) = pending hist paths) ∧
    (works s → is_Some (migrated (hist ++ pending hist paths) empty) → r = None).
Proof.
  intros Hc. unfold RunMigrations. rewrite run_bind. pose proof (ensure_spec s) as He.
  pose proof (works_run (ensureMigrationsTable ctx) s) as Hws. destruct (run h (ensureMigrationsTable ctx) s) as [s1 [e|]]; cbv beta iota.
  { rewrite run_ret. exists 0%nat. rewrite take_0, app_nil_r. destruct He as [He Hw]. split_and!; [|done|].
    - destruct He as [-> | ->]; [done|by apply consistent_table].
    - intros Hs. by specialize (Hw Hs). }
  destruct He as [He _]. fold paths. pose proof (loop_spec paths s1 hist paths_up paths_once) as Hl. rewrite He in Hl.
  specialize (Hl (consistent_table hist _ Hc) ltac:(by eexists)).
  destruct (run h (applyLoop _ _ _) s1) as [s2 r]. destruct Hl as (n & H1 & _ & H2 & H3). exists n. auto.
Qed.

(** ** Reverting *)
Definition down_file (v : string) : string := "migrations/" +:+ v +:+ ".down.sql".
(** The record as it is written: versions that are not empty, once each, and the times in
    the order of the record. *)
Record ordered (c : catalog) : Prop := {
  ord_once : NoDup (map fst (default [] c.(cat_log)));
  ord_named : "" ∉ map fst (default [] c.(cat_log));
  ord_times : StronglySorted (λ a b : string * Z, a.2 < b.2) (default [] c.(cat_log));
}.
(** The down file of the migration recorded last was executed, and its record removed. *)
Definition reverted (c c' : catalog) : Prop :=
  ∃ l v t down s', c.(cat_log) = Some (l ++ [(v, t)]) ∧ files !! down_file v = Some down ∧
    ddl down c.(cat_schema) = Some s' ∧ c' = {| cat_schema := s'; cat_log := Some l |}.
(** A down file that undoes its migration, where that was applied. *)
Definition undoes (hist : list string) (v : string) : Prop :=
  ∀ up down s0 s1, migrated hist empty = Some s0 → files !! up_file v = Some up → ddl up s0 = Some s1 →
    files !! down_file v = Some down → ddl down s1 = Some s0.

Lemma reverted_consistent hist v c c' : consistent (hist ++ [v]) c → undoes hist v → reverted c c' → consistent hist c'.
Proof.
  intros [Hs Hl Hn] Hu (l & w & t & down & s1 & Hc & Hf & Hd & ->).
  rewrite Hc in Hl. cbn in Hl. rewrite map_app in Hl. apply app_inj_tail in Hl as [Hl [= ->]].
  rewrite migrated_app in Hs. destruct (migrated hist empty) as [s0|] eqn:Hm; [|done]. cbn in Hs.
  destruct (files !! up_file v) as [up|] eqn:Hup; [|done]. cbn in Hs.
  destruct (ddl up s0) as [s2|] eqn:Hd2; [|done]. injection Hs as ->.
  rewrite (Hu up down s0 _ Hm Hup Hd2 Hf) in Hd. injection Hd as <-. apply NoDup_app in Hn as (Hn & _).
  by split.
Qed.

Lemma filter_last (l : list (string * Z)) v t : v ∉ map fst l → base.filter (λ e, e.1 ≠ v) (l ++ [(v, t)]) = l.
Proof.
  induction l as [|[w u] l IH]; intros Hv; [cbn [app]; by rewrite filter_cons_False by (by intros [])|].
  apply not_elem_of_cons in Hv as [Hw Hv]. cbn [app]. rewrite filter_cons_True by (cbn in *; congruence). f_equal. by apply IH.
Qed.
Lemma revert_effects c c' l v t down : ordered c → c.(cat_log) = Some (l ++ [(v, t)]) → files !! down_file v = Some down →
  two_effects down forget_query [ArgString v] c c' → reverted c c'.
Proof.
  intros [Hn _ _] Hl Hf (c1 & He1 & He2). destruct (ddl_effect _ _ _ (files_plain _ _ Hf) He1) as [Hd1 Hl1].
  unfold effect in He2. destruct He2 as (v' & l' & [= <-] & Hc1 & ->).
  rewrite Hl1, Hl in Hc1. injection Hc1 as <-. rewrite Hl in Hn. cbn in Hn. rewrite map_app in Hn.
  apply NoDup_app in Hn as (_ & Hv & _). assert (Hvl : v ∉ map fst l) by (intros Hin; apply (Hv v Hin); by left).
  exists l, v, t, down, c1.(cat_schema). split_and!; [done..|]. by rewrite filter_last.
Qed.
Lemma can_revert c l v t down : c.(cat_log) = Some (l ++ [(v, t)]) → files !! down_file v = Some down →
  is_Some (ddl down c.(cat_schema)) → can_do down forget_query [ArgString v] c.
Proof.
  intros Hl Hf [s' Hd]. split; [eexists; exact (effect_ddl _ _ _ (files_plain _ _ Hf) Hd)|].
  intros c1 He. destruct (ddl_effect _ _ _ (files_plain _ _ Hf) He) as [_ Hl1].
  eexists. unfold effect. cbn. exists v, (l ++ [(v, t)]). split_and!; [done|congruence|reflexivity].
Qed.

(** The latest one is the last one. *)
Lemma latest_last l v : latest l v → StronglySorted (λ a b : string * Z, a.2 < b.2) l → ∃ l' t, l = l' ++ [(v, t)].
Proof.
  intros (t & Hin & Hmax) Hs. induction Hs as [|[w u] l Hl IH Hall]; [by apply elem_of_nil in Hin|].
  destruct l as [|[w' u'] l].
  - apply list_elem_of_singleton in Hin as [= -> ->]. by exists [], u.
  - apply elem_of_cons in Hin as [[= -> ->]|Hin].
    + exfalso. apply Forall_inv in Hall. cbn in Hall. specialize (Hmax w' u' ltac:(right; by left)). lia.
    + destruct (IH Hin) as (l' & t' & Hh); [intros v' t1 Hin'; apply (Hmax v'); by right|].
      exists ((w, u) :: l'), t'. by rewrite Hh.
Qed.

Definition kept (c c' : catalog) : Prop := c' = c ∨ c' = with_table c.
Lemma reverted_table c c' : reverted (with_table c) c' → reverted c c'.
Proof.
  intros (l & v & t & down & s' & Hl & H). exists l, v, t, down, s'. split; [|done].
  cbn in Hl. destruct (cat_log c); [done|]. by destruct l.
Qed.

(** What reverting leaves, from a table that is there. *)
Definition down_done (s s' : S) (r : option error) : Prop :=
  match r with
  | None => reverted (main s) (main s')
  | Some e => (e = ErrNoMigrationsToRevert → default [] (main s).(cat_log) = []) ∧ (kept (main s) (main s') ∨ reverted (main s) (main s'))
  end ∧
  (works s → default [] (main s).(cat_log) = [] → r = Some (Sentinel ErrNoMigrationsToRevert)) ∧
  (works s → ∀ l v t down, (main s).(cat_log) = Some (l ++ [(v, t)]) → files !! down_file v = Some down →
     is_Some (ddl down (main s).(cat_schema)) → r = None).
Lemma stays_there s s' (e : error) : kept (main s) (main s') → e ≠ ErrNoMigrationsToRevert → ¬ works s → down_done s s' (Some e).
Proof. intros Hm He Hw. split_and!; [by intros|by left|by intros|by intros]. Qed.

Lemma revert_spec l v t down s : ordered (main s) → (main s).(cat_log) = Some (l ++ [(v, t)]) → files !! down_file v = Some down →
  let '(s', r) := run h (revertMigration ctx v down) s in
  transacted reverted (λ c, is_Some (ddl down c.(cat_schema))) s s' r.
Proof.
  intros Ho Hl Hf. unfold revertMigration.
  pose proof (two_statements (wrap "execute down migration DDL") (wrap "remove migration record") (wrap "commit transaction")
    down forget_query [ArgString v] s) as Ht.
  destruct (run h (in_transaction _ _) s) as [s' r]. destruct Ht as (Ht & Hr & Hw).
  pose proof (revert_effects (main s) (main s') l v t down Ho Hl Hf) as He. split_and!; [tauto|tauto|].
  intros Hs Hd. apply Hw; [done|]. by eapply can_revert.
Qed.

(** The part after the table was made sure of. *)
Definition revert_latest : prog dbE (option error) := (
  version ← latestAppliedMigration ctx;
  match version with
  | Err err => mret (Some (wrap "postgres: find latest applied migration" err))
  | Ok version =>
      if String.eqb version "" then mret (Some (Sentinel ErrNoMigrationsToRevert))
      else
        match ReadFile files ("migrations/" +:+ version +:+ ".down.sql") with
        | Err err => mret (Some (wrap ("postgres: read down migration for " +:+ version) err))
        | Ok stmt =>
            err ← revertMigration ctx version stmt;
            mret match err with
                 | Some err => Some (wrap ("postgres: revert migration " +:+ version) err)
                 | None => None
                 end
        end
  end)%prog.
Lemma revert_latest_spec s : ordered (main s) → is_Some (main s).(cat_log) →
  let '(s', r) := run h revert_latest s in down_done s s' r.
Proof.
  intros Ho [l Hl]. unfold revert_latest. pose proof (works_run (latestAppliedMigration ctx) s) as Hws.
  pose proof (latest_spec s l Hl) as Hlat. rewrite run_bind. destruct (run h (latestAppliedMigration ctx) s) as [s2 r2].
  destruct Hlat as (Hm2 & Hlat & Hwk). cbn [fst] in Hws. destruct r2 as [v|e]; cbv beta iota.
  2: { rewrite run_ret. apply stays_there; [by left|done|]. intros Hw. destruct (Hwk Hw) as [H1 H2].
       destruct l; [by specialize (H1 eq_refl)|by destruct (H2 ltac:(done)) as (? & ? & _)]. }
  specialize (Hlat v eq_refl). destruct (String.eqb_spec v "") as [->|Hv].
  { rewrite run_ret. assert (l = []) as ->; [|unfold down_done; rewrite Hl, Hm2; split_and!; try done; [by left; left|]].
    - destruct Hlat as [[_ Hn]|(t & Hin & _)]; [done|]. destruct Ho as [_ Hnm _]. rewrite Hl in Hnm.
      exfalso. apply Hnm, list_elem_of_fmap. by exists ("", t).
    - intros _ [|? ?]; done. }
  destruct Hlat as [[-> _]|Hlat]; [done|]. pose proof (ord_times _ Ho) as Hsort. rewrite Hl in Hsort.
  destruct (latest_last _ _ Hlat Hsort) as (l' & t & ->).
  unfold ReadFile. change ("migrations/" +:+ v +:+ ".down.sql") with (down_file v).
  destruct (files !! down_file v) as [down|] eqn:Hf; cbv beta iota.
  2: { rewrite run_ret. unfold down_done. rewrite Hl, Hm2. split_and!; [done|by left; left|by destruct l'|].
       intros _ l0 w u down [= [-> [= -> ->]]%app_inj_tail]. congruence. }
  rewrite <-Hm2 in Ho, Hl. pose proof (revert_spec l' v t down s2 Ho Hl Hf) as Hr. rewrite run_bind.
  destruct (run h (revertMigration _ _ _) s2) as [s3 r3]. destruct Hr as (H1 & H2 & H3). rewrite run_ret.
  unfold down_done. rewrite <-Hm2, Hl. split_and!.
  - destruct r3; [|by apply H2]. split; [done|]. unfold kept. tauto.
  - cbn. by destruct l'.
  - intros Hw l0 w u d [= [-> [= -> ->]]%app_inj_tail] Hd Hx. assert (d = down) as -> by congruence.
    by rewrite (H3 (Hws Hw) Hx).
Qed.

(** C40: reverting undoes the migration recorded last and only that one, of a record whose
    times are those of its order and that has no version twice and no empty one; as above,
    no file is one of the program's own statements about the record.  If it returns without an error, the down file of
    that migration has been executed on the schema and its record removed; if it says that
    there is nothing to revert, nothing is recorded; and after any other error either
    nothing has happened, but that the table was made, or all of it, with the answer of the
    commit lost.  When no call fails for a reason of its own, it says that there is nothing
    to revert if nothing is recorded, and reverts if there is a down file that can be
    executed.  And if that file undoes its migration on the schema the migration was
    applied to, the schema and the record are those from before the migration. *)
Theorem RunMigrationsDown_reverts s :
  ordered (main s) →
  let '(s', r) := run h (RunMigrationsDown files ctx) s in
  match r with
  | None => reverted (main s) (main s')
  | Some e => (e = ErrNoMigrationsToRevert → default [] (main s).(cat_log) = []) ∧ (kept (main s) (main s') ∨ reverted (main s) (main s'))
  end ∧
  (works s → default [] (main s).(cat_log) = [] → r = Some (Sentinel ErrNoMigrationsToRevert)) ∧
  (works s → ∀ l v t down, (main s).(cat_log) = Some (l ++ [(v, t)]) → files !! down_file v = Some down →
     is_Some (ddl down (main s).(cat_schema)) → r = None) ∧
  (∀ hist v, consistent (hist ++ [v]) (main s) → undoes hist v → r = None → consistent hist (main s')).
Proof.
  intros Ho. unfold RunMigrationsDown. rewrite run_bind. fold revert_latest. pose proof (ensure_spec s) as Hen.
  pose proof (works_run (ensureMigrationsTable ctx) s) as Hws.
  destruct (run h (ensureMigrationsTable ctx) s) as [s1 [e|]]; destruct Hen as [Hen Hw]; cbn [fst] in Hws; cbv beta iota.
  { rewrite run_ret. split_and!; [done|by left|by intros Hs; specialize (Hw Hs)..|done]. }
  pose proof (revert_latest_spec s1 ltac:(by rewrite Hen; destruct Ho; split) ltac:(by rewrite Hen; eexists)) as Hd.
  destruct (run h revert_latest s1) as [s2 r]. unfold down_done in Hd. rewrite Hen in Hd. cbn [with_table cat_log cat_schema default] in Hd.
  destruct Hd as (H1 & H2 & H3). assert (Hr : match r with
    | None => reverted (main s) (main s2)
    | Some e => (e = ErrNoMigrationsToRevert → default [] (main s).(cat_log) = []) ∧ (kept (main s) (main s2) ∨ reverted (main s) (main s2))
    end).
  { destruct r as [e|]; [|by apply reverted_table]. destruct H1 as [He H1]. split; [done|].
    destruct H1 as [[-> | ->]|H1%reverted_table]; [left; by right|left; by right|by right]. }
  split_and!; [done|auto| |].
  - intros Hs l v t down Hl. rewrite Hl in H3. exact (H3 (Hws Hs) l v t down eq_refl).
  - intros hist v Hc Hu ->. by eapply reverted_consistent.
Qed.
End database.

(** * A database that can be run *)
Module little_db.
(** The tables and indexes, each with its table, as the lines of a migration that begin
    with CREATE and DROP make them; the other lines are not looked at. *)
Definition objects : Type := gset (string * string).
Definition statement (line : string) (s : objects) : option objects :=
  let w n := nth n (strings.Split line " ") "" in
  let create o := if bool_decide (o ∈ s) then None else Some ({[o]} ∪ s) in
  if strings.HasPrefix line "CREATE TABLE " then create (w 2%nat, w 2%nat)
  else if strings.HasPrefix line "CREATE INDEX " then create (w 2%nat, w 4%nat)
  else if strings.HasPrefix line "DROP TABLE IF EXISTS " then Some (base.filter (λ o, o.2 +:+ ";" ≠ w 4%nat) s)
  else if strings.HasPrefix line "DROP INDEX IF EXISTS " then Some (base.filter (λ o, o.1 +:+ ";" ≠ w 4%nat) s)
  else Some s.
Definition ddl (text : string) (s : objects) : option objects :=
  foldl (λ acc line, s ← acc; statement line s) (Some s) (strings.Split text "010"%char).
(** A call can fail before or after it has done its work. *)
Inductive fault := Fine | Before | After.
Record state := { st_db : catalogs objects; st_clock : Z; st_faults : list fault }.

Definition exec (now : Z) (query : string) (args : list arg) (c : catalog objects) : option (catalog objects) :=
  if String.eqb query record_query then
    match args, c.(cat_log) with
    | [ArgString v], Some l =>
        if bool_decide (v ∈ map fst l) then None
        else Some {| cat_schema := c.(cat_schema); cat_log := Some (l ++ [(v, now)]) |}
    | _, _ => None
    end
  else if String.eqb query forget_query then
    match args, c.(cat_log) with
    | [ArgString v], Some l =>
        Some {| cat_schema := c.(cat_schema); cat_log := Some (base.filter (λ e, e.1 ≠ v) l) |}
    | _, _ => None
    end
  else match args, ddl query c.(cat_schema) with
       | [], Some s => Some {| cat_schema := s; cat_log := c.(cat_log) |}
       | _, _ => None
       end.
Definition newest (l : list (string * Z)) : option string :=
  fst <$> last (sort_slice (λ a b : string * Z, a.2 <? b.2) l).
Definition failed : error := Opaque "connection lost".

Definition answer (query : string) (args : list arg) (ds : list dest) (l : list (string * Z)) : result (tuple ds) :=
  match ds return result (tuple ds) with
  | [DBool] =>
      match args with
      | [ArgString v] => Ok (bool_decide (v ∈ map fst l), tt)
      | _ => Err failed
      end
  | [DString] => match newest l with Some v => Ok (v, tt) | None => Err sql_ErrNoRows end
  | _ => Err failed
  end.

Definition handle : handler dbE state := λ X e s,
  let f := List.hd Fine s.(st_faults) in
  let d := s.(st_db) in
  let next d := {| st_db := d; st_clock := s.(st_clock) + 1; st_faults := List.tl s.(st_faults) |} in
  match e in dbE X return state * X with
  | ExecContext _ None query args =>
      let d' := if String.eqb query ensure_query
                then {| cat_main := with_table d.(cat_main); cat_txs := d.(cat_txs) |} else d in
      match f with
      | Fine => (next d', Ok (Ok 0))
      | Before => (next d, Err failed)
      | After => (next d', Err failed)
      end
  | ExecContext _ (Some tx) query args =>
      match f, c ← d.(cat_txs) !! tx; exec s.(st_clock) query args c with
      | Fine, Some c' => (next {| cat_main := d.(cat_main); cat_txs := <[tx := c']> d.(cat_txs) |}, Ok (Ok 1))
      | _, _ => (next d, Err failed)
      end
  | QueryRow _ _ query args ds =>
      (next d, match f, d.(cat_main).(cat_log) with
               | Fine, Some l => answer query args ds l
               | _, _ => Err failed
               end)
  | Query _ _ _ _ => (next d, Err failed)
  | BeginTx _ =>
      match f with
      | Fine => (next {| cat_main := d.(cat_main); cat_txs := <[s.(st_clock) := d.(cat_main)]> d.(cat_txs) |}, Ok s.(st_clock))
      | _ => (next d, Err failed)
      end
  | Commit tx =>
      match d.(cat_txs) !! tx with
      | None => (next d, Some failed)
      | Some c =>
          match f with
          | Fine => (next {| cat_main := c; cat_txs := d.(cat_txs) |}, None)
          | Before => (next d, Some failed)
          | After => (next {| cat_main := c; cat_txs := d.(cat_txs) |}, Some failed)
          end
      end
  | Rollback _ => (next d, None)
  end.

Lemma exec_effect now query args c c' : exec now query args c = Some c' → effect ddl query args c c'.
Proof.
  unfold exec, effect. destruct (String.eqb query record_query); [|destruct (String.eqb query forget_query)].
  - destruct args as [|[v| | |] [|]]; try done. destruct (cat_log c) as [l|]; [|done].
    case_bool_decide; [done|]. intros [= <-]. by exists v, now, l.
  - destruct args as [|[v| | |] [|]]; try done. destruct (cat_log c) as [l|]; [|done].
    intros [= <-]. by exists v, l.
  - destruct args; [|done]. destruct (ddl query (cat_schema c)) eqn:Hd; [|done]. by intros [= <-].
Qed.

Lemma newest_latest l : match newest l with Some v => latest l v | None => l = [] end.
Proof.
  unfold newest. pose proof (sort_slice_perm (λ a b : string * Z, a.2 <? b.2) l) as Hp.
  assert (StrictWeak (λ a b : string * Z, a.2 <? b.2)) as Hw.
  { split; [intros x y; rewrite !Z.ltb_ge; lia|]. intros x y z. unfold in_order. rewrite !Z.ltb_ge. lia. }
  pose proof (sort_slice_sorted (λ a b : string * Z, a.2 <? b.2) l) as Hs.
  destruct (last (sort_slice _ l)) as [[v t]|] eqn:Hl; cbn.
  - apply last_Some in Hl as [l' Hl]. exists t. rewrite <-Hp, Hl. split; [set_solver|].
    intros v' t' Hin. rewrite <-Hp, Hl in Hin. apply elem_of_app in Hin as [Hin|Hin].
    + rewrite Hl in Hs. apply StronglySorted_app in Hs as (Hs & _).
      specialize (Hs _ _ Hin ltac:(by left)). unfold in_order in Hs. cbn in Hs. lia.
    + apply list_elem_of_singleton in Hin as [= -> ->]. lia.
  - apply last_None in Hl. rewrite Hl in Hp. by apply Permutation_nil_l in Hp.
Qed.

#[export] Program Instance database : CatalogDb ddl handle := { cat_view := st_db }.
Next Obligation.
  intros X e s. unfold handle. destruct s as [d clock faults]. cbn [st_db st_clock st_faults].
  destruct e as [ctx [tx|] query args|ctx tx query args ds|ctx query args ds|ctx|tx|tx]; cbn.
  - destruct (List.hd Fine faults), (d.(cat_txs) !! tx) as [c|] eqn:Hc; cbn; try (by split).
    destruct (exec clock query args c) as [c'|] eqn:He; cbn; (split; [done|]); [|done].
    intros c0 [= <-]. exists c'. split; [apply lookup_insert_eq|by eapply exec_effect].
  - intros ->. rewrite String.eqb_refl. destruct (List.hd Fine faults); cbn; auto.
  - split; [done|]. intros l -> Hl. rewrite Hl. split.
    + intros v _ ->. destruct ds as [|[] []]; try done. intros b [].
      destruct (List.hd Fine faults); cbn; [|done..]. by intros [= <-].
    + intros _. destruct ds as [|[] []]; try done. pose proof (newest_latest l) as Hn.
      destruct (List.hd Fine faults); cbn; [|done..]. by destruct (newest l).
  - done.
  - destruct (List.hd Fine faults); cbn; (split; [done|]); [|done..]. intros tx [= <-]. apply lookup_insert_eq.
  - intros c Hc. rewrite Hc. destruct (List.hd Fine faults); cbn; auto.
  - done.
Qed.

(** What is open to the program goes well once no fault is left. *)
Lemma effect_exec now query args c c' : effect ddl query args c c' → is_Some (exec now query args c).
Proof.
  unfold exec, effect. destruct (String.eqb query record_query); [|destruct (String.eqb query forget_query)].
  - intros (v & t & l & -> & -> & Hv & _). rewrite bool_decide_eq_false_2 by done. by eexists.
  - intros (v & l & -> & -> & _). by eexists.
  - intros (-> & -> & _). by eexists.
Qed.
#[export] Program Instance working : WorkingDb ddl handle := { works s := s.(st_faults) = [] }.
Next Obligation.
  intros X e [d clock faults]. cbn [st_faults]. intros ->. unfold handle. cbn [st_db st_clock st_faults cat_view database].
  destruct e as [ctx [tx|] query args|ctx [tx|] query args ds|ctx query args ds|ctx|tx|tx]; cbn.
  - destruct (d.(cat_txs) !! tx) as [c|] eqn:Hc; cbn; [|done].
    destruct (exec clock query args c) as [c'|] eqn:He; cbn; (split; [done|]); [by eexists|].
    intros c0 c' [= <-] Hx. destruct (effect_exec clock _ _ _ _ Hx). congruence.
  - split; [done|]. by eexists.
  - by split.
  - split; [done|]. intros l Hl. rewrite Hl. split; [intros v -> -> ->; by eexists|].
    intros -> ->. cbn. pose proof (newest_latest l) as Hn. split; [intros ->; by eexists|].
    destruct (newest l); [by eexists|done].
  - by split.
  - split; [done|]. by eexists.
  - destruct (d.(cat_txs) !! tx); cbn; (split; [done|]); [done|by intros []].
  - by split.
Qed.

(** Four of the migrations of the repository, without their comments. *)
Definition files : embedFS :=
  {[ "migrations/0001_create_tasks_table.up.sql" := "CREATE TABLE tasks (
    id          UUID PRIMARY KEY,
    title       VARCHAR(200) NOT NULL,
    description VARCHAR(2000) NOT NULL DEFAULT '',
    status      VARCHAR(20) NOT NULL DEFAULT 'pending',
    created_at  TIMESTAMPTZ NOT NULL DEFAULT now(),
    updated_at  TIMESTAMPTZ NOT NULL DEFAULT now(),
    version     INTEGER NOT NULL DEFAULT 1,
    CONSTRAINT tasks_status_check CHECK (status IN ('pending', 'done'))
);

CREATE INDEX idx_tasks_created_at_id ON tasks (created_at, id);
";
     "migrations/0001_create_tasks_table.down.sql" := "DROP TABLE IF EXISTS tasks;
";
     "migrations/0002_create_users_table.up.sql" := "CREATE TABLE users (
    id            UUID PRIMARY KEY,
    email         VARCHAR(320) NOT NULL UNIQUE,
    password_hash TEXT NOT NULL,
    created_at    TIMESTAMPTZ NOT NULL DEFAULT now(),
    updated_at    TIMESTAMPTZ NOT NULL DEFAULT now()
);
";
     "migrations/0002_create_users_table.down.sql" := "DROP TABLE IF EXISTS users;
";
     "migrations/0003_create_sessions_table.up.sql" := "CREATE TABLE sessions (
    token_hash TEXT PRIMARY KEY,
    user_id    UUID NOT NULL REFERENCES users(id) ON DELETE CASCADE,
    expires_at TIMESTAMPTZ NOT NULL,
    created_at TIMESTAMPTZ NOT NULL DEFAULT now()
);
";
     "migrations/0003_create_sessions_table.down.sql" := "DROP TABLE IF EXISTS sessions;
";
     "migrations/0004_add_user_id_to_tasks.up.sql" := "ALTER TABLE tasks ADD COLUMN user_id UUID NOT NULL REFERENCES users(id);

DROP INDEX IF EXISTS idx_tasks_created_at_id;
CREATE INDEX idx_tasks_user_id_created_at_id ON tasks (user_id, created_at, id);
";
     "migrations/0004_add_user_id_to_tasks.down.sql" := "DROP INDEX IF EXISTS idx_tasks_user_id_created_at_id;
CREATE INDEX idx_tasks_created_at_id ON tasks (created_at, id);
ALTER TABLE tasks DROP COLUMN user_id;
" ]}.
Definition fresh (faults : list fault) : state :=
  {| st_db := {| cat_main := {| cat_schema := ∅; cat_log := None |}; cat_txs := ∅ |}; st_clock := 0; st_faults := faults |}.
Definition again (faults : list fault) (s : state) : state :=
  {| st_db := s.(st_db); st_clock := s.(st_clock); st_faults := faults |}.
(** Two calls, the first of which ends with a commit whose answer is lost, a third one,
    and the last migration reverted. *)
Definition interrupted : state := (run handle (RunMigrations files None) (fresh [Fine; Fine; Fine; Fine; Fine; After])).1.
Definition resuming : state * option error := run handle (RunMigrations files None) (again [] interrupted).
Definition repeated : state * option error := run handle (RunMigrations files None) resuming.1.
Definition reverting : state * option error := run handle (RunMigrationsDown files None) repeated.1.
Definition versions_of (s : state) : list string := map fst (default [] s.(st_db).(cat_main).(cat_log)).
Definition indexes_of (s : state) : list string :=
  map fst (base.filter (λ o : string * string, o.1 ≠ o.2) (elements s.(st_db).(cat_main).(cat_schema))).
End little_db.

(** A decidable statement about concrete runs; only its decision is evaluated. *)
Ltac evaluated := apply (bool_decide_eq_true_1 _); vm_compute; reflexivity.

Definition four : list string :=
  ["0001_create_tasks_table"; "0002_create_users_table"; "0003_create_sessions_table"; "0004_add_user_id_to_tasks"].
Example runs_ex :
  little_db.versions_of little_db.interrupted = take 1 four ∧
  (little_db.versions_of little_db.resuming.1, little_db.indexes_of little_db.resuming.1, little_db.resuming.2) =
    (four, ["idx_tasks_user_id_created_at_id"], None) ∧
  little_db.repeated.2 = None ∧
  little_db.repeated.1.(little_db.st_db).(cat_main).(cat_schema) = little_db.resuming.1.(little_db.st_db).(cat_main).(cat_schema) ∧
  little_db.repeated.1.(little_db.st_db).(cat_main).(cat_log) = little_db.resuming.1.(little_db.st_db).(cat_main).(cat_log) ∧
  (little_db.versions_of little_db.reverting.1, little_db.indexes_of little_db.reverting.1, little_db.reverting.2) =
    (take 3 four, ["idx_tasks_created_at_id"], None).
Proof. split_and!; evaluated. Qed.

#[local] Existing Instances little_db.database little_db.working.
Lemma little_files_plain : map_Forall (λ _ stmt, plain_ddl stmt) little_db.files.
Proof. evaluated. Qed.

(** The down file of the last one undoes it where it was applied, but not everywhere: it
    always makes the index that the other only drops if it is there. *)
Lemma little_undoes : undoes little_db.ddl little_db.files ∅ (take 3 four) "0004_add_user_id_to_tasks".
Proof.
  intros up down s0 s1 Hs0 Hup Hd Hdown. assert (Hall : match migrated little_db.ddl little_db.files (take 3 four) ∅,
      little_db.files !! up_file "0004_add_user_id_to_tasks", little_db.files !! down_file "0004_add_user_id_to_tasks" with
    | Some s0, Some up, Some down => bool_decide ((s1 ← little_db.ddl up s0; little_db.ddl down s1) = Some s0)
    | _, _, _ => false
    end = true) by (vm_compute; reflexivity).
  rewrite Hs0, Hup, Hdown in Hall. apply bool_decide_eq_true in Hall. by rewrite Hd in Hall.
Qed.
Example not_undone_everywhere :
  (up ← little_db.files !! up_file "0004_add_user_id_to_tasks"; down ← little_db.files !! down_file "0004_add_user_id_to_tasks";
   s1 ← little_db.ddl up ∅; little_db.ddl down s1) = Some {[("idx_tasks_created_at_id", "tasks")]}.
Proof. evaluated. Qed.

(** Another run finds the database as the one before left it. *)
Definition next_run : little_db.state := little_db.again [] little_db.interrupted.
Abbreviation little_main s := (cat_main (cat_view little_db.ddl s)).
Lemma next_run_consistent : consistent little_db.ddl little_db.files ∅ (take 1 four) (little_main next_run).
Proof. split; [evaluated..|]. apply NoDup_singleton. Qed.
Lemma next_run_pending : pending (take 1 four) (paths little_db.files) = drop 1 four.
Proof. vm_compute. reflexivity. Qed.
Lemma four_apply : is_Some (migrated little_db.ddl little_db.files four ∅).
Proof. evaluated. Qed.

Example RunMigrations_resumes_witness :
  let '(s', r) := run little_db.handle (RunMigrations little_db.files None) next_run in
  r = None ∧ consistent little_db.ddl little_db.files ∅ four (little_main s').
Proof.
  pose proof (RunMigrations_resumes little_db.ddl little_db.files None ∅ little_db.handle little_files_plain next_run
    (take 1 four) next_run_consistent) as Hr.
  rewrite next_run_pending in Hr. destruct (run little_db.handle (RunMigrations little_db.files None) next_run) as [s' r].
  destruct Hr as (n & Hc & Hall & Hw). specialize (Hw eq_refl four_apply). split; [exact Hw|].
  rewrite (Hall Hw) in Hc. exact Hc.
Defined.

Definition all_run : little_db.state := little_db.repeated.1.
Lemma all_run_ordered : ordered (little_main all_run).
Proof. split; [evaluated..|]. vm_compute. repeat constructor. Qed.
Lemma all_run_consistent : consistent little_db.ddl little_db.files ∅ (take 3 four ++ ["0004_add_user_id_to_tasks"]) (little_main all_run).
Proof. split; evaluated. Qed.
Lemma all_run_last : ∃ l t down, (little_main all_run).(cat_log) = Some (l ++ [("0004_add_user_id_to_tasks", t)]) ∧
  little_db.files !! down_file "0004_add_user_id_to_tasks" = Some down ∧ is_Some (little_db.ddl down (little_main all_run).(cat_schema)).
Proof.
  exists [("0001_create_tasks_table", 4); ("0002_create_users_table", 12); ("0003_create_sessions_table", 18)], 24.
  eexists. split_and!; [vm_compute; reflexivity..|evaluated].
Qed.

Example RunMigrationsDown_reverts_witness :
  let '(s', r) := run little_db.handle (RunMigrationsDown little_db.files None) all_run in
  r = None ∧ consistent little_db.ddl little_db.files ∅ (take 3 four) (little_main s').
Proof.
  pose proof (RunMigrationsDown_reverts little_db.ddl little_db.files None ∅ little_db.handle little_files_plain all_run
    all_run_ordered) as Hr.
  destruct (run little_db.handle (RunMigrationsDown little_db.files None) all_run) as [s' r].
  destruct Hr as (_ & _ & Hw & Hc). destruct all_run_last as (l & t & down & Hl & Hf & Hd).
  assert (Hr : r = None) by exact (Hw eq_refl l _ t down Hl Hf Hd). split; [exact Hr|].
  exact (Hc _ _ all_run_consistent little_undoes Hr).
Defined.
