(* ===== verification/Seed.v ===== *)
(** [cmd/seed]: the tool that fills a database with demo users and tasks (main.go,
    data.go), through the services of both packages. *)

From S2P Require Import Prelude GoStd GoError Uuid Text Sql Task TaskMemory User Config Migrate.
Local Open Scope Z_scope.

(** * Chance *)

(** [math/rand/v2]: a number below [n], and a [float64] in [[0,1)], which is a multiple
    of [2^-53] and given by its numerator. *)
Inductive randE : Type → Type :=
| IntN (n : Z) : randE Z
| Float64 : randE Z.

(** Positive [float64]s up to 2 are their multiples of [2^-60]: 53 bits of a quotient,
    to nearest, ties to even. *)
Definition nearest (num den : Z) : Z :=
  let ulp := 2 ^ Z.max 0 (Z.log2 (num / den) - 52) in
  let d := den * ulp in
  let q := num / d in
  let r := num mod d in
  (if (d <? 2 * r) || (2 * r =? d) && Z.odd q then q + 1 else q) * ulp.
Definition hundredths (n : Z) : Z := nearest (n * 2 ^ 60) 100.
Definition float_add (a b : Z) : Z := nearest (a + b) 1.
Definition roll_value (k : Z) : Z := k * 2 ^ 7.

(** * The database *)
Record seedOptions := {
  opt_users : Z;
  opt_password : string;
  opt_tasksPerUser : Z;
  opt_reset : bool;
  opt_allowRemoteReset : bool;
}.

(** [url.Parse]: the scheme and [Hostname()]. *)
Class DatabaseURLs := url_Hostname : string → result (string * string).

Definition isLocalDatabase `{DatabaseURLs} (databaseURL : string) : bool :=
  match url_Hostname databaseURL with
  | Err _ => false
  | Ok (scheme, host) =>
      if negb (String.eqb scheme "postgres") && negb (String.eqb scheme "postgresql") then false
      else String.eqb host "localhost" || String.eqb host "127.0.0.1" || String.eqb host "::1"
  end.

(** * data.go *)
Definition verbs : list string :=
  ["Buy"; "Fix"; "Review"; "Schedule"; "Write"; "Clean"; "Renew"; "Update";
   "Call"; "Plan"; "Organize"; "Back up"; "Test"; "Deploy"; "Refactor";
   "Document"; "Research"; "Cancel"; "Book"; "Return"].
Definition subjects : list string :=
  ["groceries"; "the leaking faucet"; "the pull request"; "a dentist appointment";
   "unit tests for the payment service"; "the garage"; "the passport";
   "project dependencies"; "the plumber"; "the team offsite";
   "the quarterly report"; "the database backups"; "the staging environment";
   "the onboarding docs"; "the API rate limits"; "the client meeting";
   "the car insurance"; "the flight tickets"; "the birthday gift";
   "the home office setup"].
Definition descriptions : list string :=
  [""; ""; "";
   "Needs to be done before Friday.";
   "Low priority — whenever there's time.";
   "Follow up with the team before starting.";
   "Double-check with the manager first.";
   "Blocked until the previous step is done.";
   "Reminder from last week's meeting.";
   "High priority.";
   "Can be delegated if needed."].
Definition statusWeights : list (Status * Z) :=
  [(StatusPending, hundredths 35); (StatusInProgress, hundredths 25);
   (StatusDone, hundredths 30); (StatusCancelled, hundredths 10)].

Section random.
Context {E : Type → Type} `{!Subevent randE E}.
Local Open Scope prog_scope.

(** [l[rand.IntN(len(l))]]. *)
Definition pick (l : list string) : prog E string :=
  i ← trigger (IntN (Z.of_nat (length l))); mret (default "" (l !! Z.to_nat i)).
Definition randomTask : prog E (string * string) :=
  verb ← pick verbs;
  subject ← pick subjects;
  description ← pick descriptions;
  mret (verb +:+ " " +:+ subject, description).

(** The loop over the weights; [None] where it ends. *)
Fixpoint weightLoop (roll cumulative : Z) (weights : list (Status * Z)) : option Status :=
  match weights with
  | [] => None
  | (status, weight) :: weights =>
      let cumulative := float_add cumulative weight in
      if roll <? cumulative then Some status else weightLoop roll cumulative weights
  end.
Definition randomStatus : prog E Status :=
  roll ← trigger Float64;
  mret (default StatusPending (weightLoop (roll_value roll) 0 statusWeights)).
Definition randomPriority : prog E Priority := pick [PriorityLow; PriorityMedium; PriorityHigh].
End random.

(** * main.go *)
Definition seedE : Type → Type := sumE randE (sumE cmdE (sumE dbE (sumE userE repoE))).
Definition user_call X (e : userE X) : seedE X := inr (inr (inr (inl e))).
Definition task_call X (e : taskE X) : seedE X :=
  match e with inl e => inr (inr (inr (inl (inl e)))) | inr e => inr (inr (inr (inr e))) end.

Section run.
Context `{unicode.Tables, Sanitize, Validate, DatabaseURLs}.
Local Open Scope prog_scope.

(** What is added up: [tasksCreated] and [statusCounts]. *)
Abbreviation summary := (Z * gmap string Z)%type.

Definition progress (j tasksPerUser : Z) (email : string) : string :=
  strconv.Itoa (j + 1) +:+ "/" +:+ strconv.Itoa tasksPerUser +:+ " for " +:+ email.

(** The body of the loop over a user's tasks. *)
Definition seedTask (j tasksPerUser : Z) (email userID : string) (counted : summary) : prog seedE (result summary) :=
  '(title, description) ← randomTask;
  priority ← randomPriority;
  created ← Prelude.lift task_call (CreateTask userID title description priority);
  match created with
  | Err err => mret (Err (wrap ("create task " +:+ progress j tasksPerUser email) err))
  | Ok created =>
      let tasksCreated := counted.1 + 1 in
      target ← randomStatus;
      moved ← (if negb (String.eqb target StatusPending) then
                 Prelude.lift task_call (TransitionStatus userID created.(task_ID) target)
               else mret (Ok created));
      match moved with
      | Err err => mret (Err (wrap ("transition task " +:+ progress j tasksPerUser email +:+ " to " +:+ target) err))
      | Ok _ => mret (Ok (tasksCreated, incr target counted.2))
      end
  end.
(** [for j := range opts.tasksPerUser], of which [turns] are to come. *)
Fixpoint taskLoop (turns : nat) (j tasksPerUser : Z) (email userID : string) (counted : summary)
    : prog seedE (result summary) :=
  match turns with
  | O => mret (Ok counted)
  | Datatypes.S turns =>
      res ← seedTask j tasksPerUser email userID counted;
      match res with
      | Err err => mret (Err err)
      | Ok counted => taskLoop turns (j + 1) tasksPerUser email userID counted
      end
  end.

Definition demo_email (i : Z) : string := "demo-user-" +:+ strconv.Itoa i +:+ "@example.com".
(** The user at the address: registered, or already there with this password. *)
Definition demoUser (userSvc : User.Service) (email password : string) : prog seedE (result User) :=
  u ← Prelude.lift user_call (Register email password);
  match u with
  | Ok u => mret (Ok u)
  | Err err =>
      if negb (Is err (ErrAlreadyExists user_pkg)) then mret (Err (wrap ("register " +:+ email) err))
      else
        u ← Prelude.lift user_call (Authenticate userSvc email password);
        mret match u with
             | Err err => Err (wrap (email +:+ " already exists with a different password than -password=" +:+
                 quote.Quote password +:+ " (run with -reset to start over)") err)
             | Ok u => Ok u
             end
  end.
(** [for i := 1; i <= opts.users; i++]. *)
Fixpoint userLoop (turns : nat) (i : Z) (userSvc : User.Service) (opts : seedOptions) (counted : summary)
    : prog seedE (result summary) :=
  match turns with
  | O => mret (Ok counted)
  | Datatypes.S turns =>
      let email := demo_email i in
      u ← demoUser userSvc email opts.(opt_password);
      match u with
      | Err err => mret (Err err)
      | Ok u =>
          res ← taskLoop (Z.to_nat opts.(opt_tasksPerUser)) 0 opts.(opt_tasksPerUser) email u.(user_ID) counted;
          match res with
          | Err err => mret (Err err)
          | Ok counted => userLoop turns (i + 1) userSvc opts counted
          end
      end
  end.

Definition summary_line (opts : seedOptions) (counted : summary) : string :=
  let count st := strconv.Itoa (default 0 (counted.2 !! st)) in
  "seeded " +:+ strconv.Itoa opts.(opt_users) +:+ " demo users (password: " +:+ quote.Quote opts.(opt_password) +:+
  ") and " +:+ strconv.Itoa counted.1 +:+ " tasks (pending=" +:+ count StatusPending +:+ " in_progress=" +:+
  count StatusInProgress +:+ " done=" +:+ count StatusDone +:+ " cancelled=" +:+ count StatusCancelled +:+ ")".
Definition seedUsers (userSvc : User.Service) (opts : seedOptions) : prog seedE (option error) :=
  res ← userLoop (Z.to_nat opts.(opt_users)) 1 userSvc opts (0, ∅);
  match res with
  | Err err => mret (Some err)
  | Ok counted => _ ← trigger (Println (summary_line opts counted)); mret None
  end.

Definition truncate_query : string := "TRUNCATE TABLE sessions, tasks, users CASCADE".
(** From the ping on, with the database open; [dummy] is the hash the user service
    makes when it is built. *)
Definition seed_in (migrationFiles : embedFS) (cfg : Config) (dummy : string) (opts : seedOptions) : prog seedE (option error) :=
  err ← trigger db_Ping;
  match err with
  | Some err => mret (Some (wrap "ping database" err))
  | None =>
      err ← Prelude.lift (λ X e, inr (inr (inl e))) (RunMigrations migrationFiles migrate_timeout);
      match err with
      | Some err => mret (Some (wrap "apply migrations" err))
      | None =>
          err ← (if opts.(opt_reset) then
                   res ← trigger (ExecContext migrate_timeout None truncate_query []);
                   match res with
                   | Err err => mret (Some (wrap "reset database" err))
                   | Ok _ => _ ← trigger (Println "users, sessions and tasks tables emptied"); mret None
                   end
                 else mret None);
          match err with
          | Some err => mret (Some err)
          | None =>
              if opts.(opt_users) =? 0 then
                _ ← trigger (Println "no users requested (-users=0); nothing seeded"); mret None
              else
                seedUsers {| sessionTTL := cfg.(cfg_AuthSessionTTL); maxSessionsPerUser := cfg.(cfg_AuthMaxSessionsPerUser);
                             dummyPasswordHash := dummy |} opts
          end
      end
  end.
Definition refusal : error :=
  Errorf ("refusing -reset against a non-local DATABASE_URL: " +:+
    "-reset irreversibly TRUNCATEs users, sessions and tasks. " +:+
    "Re-run with -allow-remote-reset if this really is the database you meant").
(** [run]; [loaded] is what [config.Load] returned. *)
Definition seed_run (migrationFiles : embedFS) (loaded : result Config) (dummy : string) (opts : seedOptions)
    : prog seedE (option error) :=
  if opts.(opt_users) <? 0 then
    mret (Some (Errorf ("invalid -users " +:+ strconv.Itoa opts.(opt_users) +:+ ": must not be negative")))
  else if opts.(opt_tasksPerUser) <? 0 then
    mret (Some (Errorf ("invalid -tasks-per-user " +:+ strconv.Itoa opts.(opt_tasksPerUser) +:+ ": must not be negative")))
  else
    match loaded with
    | Err err => mret (Some (wrap "load config" err))
    | Ok cfg =>
        if String.eqb cfg.(cfg_DatabaseURL) "" then
          mret (Some (Errorf "DATABASE_URL must be set — seeding the in-memory store has no observable effect"))
        else if opts.(opt_reset) && negb opts.(opt_allowRemoteReset) && negb (isLocalDatabase cfg.(cfg_DatabaseURL)) then
          mret (Some refusal)
        else
          err ← trigger (sql_Open cfg.(cfg_DatabaseURL));
          match err with
          | Some err => mret (Some (wrap "open database" err))
          | None => res ← seed_in migrationFiles cfg dummy opts; _ ← trigger db_Close; mret res
          end
    end.
End run.
