(* ===== verification/SeedTheorems.v ===== *)
(** Theorems about the tool that seeds a database: what it adds, that its summary is
    what it added, and when it empties the tables. *)

From S2P Require Import Prelude GoStd GoError Uuid Text Sql Task TaskMemory TaskSpec TaskService.
From S2P Require Import User UserMemory UserSpec UserService Config Migrate Seed Concrete ConcreteUser.
Local Open Scope Z_scope.

(** * The fixtures *)
Definition title_char (b : Z) : bool := (b =? 32) || (65 <=? b) && (b <=? 90) || (97 <=? b) && (b <=? 122).
Definition no_control (r : Z) : bool := (32 <=? r) && negb ((127 <=? r) && (r <=? 159)).
(** What is relied on of the sanitizers: of words and spaces they only trim the ends,
    and the descriptions, which hold no control character, they leave alone. *)
Class PlainTexts `{Sanitize} := {
  plain_title : ∀ s, forallb title_char (bytes s) = true → PlainText s = strings.TrimSpace s;
  plain_description : ∀ s, s ∈ descriptions → forallb no_control (utf8.runes s) = true → StripControlChars s = s;
}.

Definition title_ok (t : string) : bool :=
  forallb title_char (bytes t) && negb (String.eqb (strings.TrimSpace t) "") &&
  (utf8.RuneCountInString (strings.TrimSpace t) <=? maxTitleLen).
Definition description_ok (d : string) : bool :=
  forallb no_control (utf8.runes d) && (utf8.RuneCountInString (strings.TrimSpace d) <=? maxDescriptionLen).
Lemma titles_ok : forallb (λ v, forallb (λ s, title_ok (v +:+ " " +:+ s)) subjects) verbs = true.
Proof. vm_compute. reflexivity. Qed.
Lemma descriptions_ok : forallb description_ok descriptions = true.
Proof. vm_compute. reflexivity. Qed.
Lemma fixtures_valid `{PlainTexts} v s d :
  v ∈ verbs → s ∈ subjects → d ∈ descriptions →
  ∃ t d', validateTitleAndDescription (v +:+ " " +:+ s) d = Ok (t, d').
Proof.
  intros Hv Hs Hd. pose proof (plain_description d Hd) as Hplain. pose proof titles_ok as Ht. rewrite forallb_forall in Ht. specialize (Ht v).
  rewrite forallb_forall in Ht. apply list_elem_of_In in Hv, Hs, Hd. specialize (Ht Hv s Hs).
  pose proof descriptions_ok as Hds. rewrite forallb_forall in Hds. specialize (Hds d Hd).
  apply andb_true_iff in Ht as [[Hc Hne%negb_true_iff]%andb_true_iff Hl], Hds as [Hp Hdl].
  unfold validateTitleAndDescription. rewrite (plain_title _ Hc), (Hplain Hp), Hne.
  rewrite (proj2 (Z.ltb_ge _ _)) by by apply Z.leb_le. rewrite (proj2 (Z.ltb_ge _ _)) by by apply Z.leb_le. eauto.
Qed.

(** The weights add up to less than one: the greatest roll is none of theirs. *)
Lemma weights_fall_short :
  fold_left float_add (map snd statusWeights) 0 = roll_value (2 ^ 53 - 1) ∧
  weightLoop (roll_value (2 ^ 53 - 1)) 0 statusWeights = None ∧
  ∀ k, 0 ≤ k < 2 ^ 53 - 1 → is_Some (weightLoop (roll_value k) 0 statusWeights).
Proof.
  split; [vm_compute; reflexivity|]. split; [vm_compute; reflexivity|]. intros k Hk.
  set (total := float_add (float_add (float_add (float_add 0 (hundredths 35)) (hundredths 25)) (hundredths 30)) (hundredths 10)).
  assert (total = ((2 ^ 53 - 1) * 2 ^ 7)%Z) as Ht by (vm_compute; reflexivity).
  cbn [statusWeights weightLoop]. fold total. clearbody total. subst total.
  assert ((roll_value k <? (2 ^ 53 - 1) * 2 ^ 7) = true) as Hlast by (apply Z.ltb_lt; unfold roll_value; lia).
  rewrite Hlast. clear Hlast. repeat case_match; by eexists.
Qed.
Lemma weightLoop_in roll c ws st : weightLoop roll c ws = Some st → st ∈ map fst ws.
Proof.
  revert c; induction ws as [|[st' w] ws IH]; intros c; [done|]. cbn [weightLoop map fst].
  destruct (_ <? _); [intros [= ->]; left|]. intros Hw. right. by eapply IH.
Qed.

#[local] Arguments weightLoop : simpl never.
#[local] Arguments hundredths : simpl never.
#[local] Arguments roll_value : simpl never.

(** * What is added *)
Definition stored_in (m : store) (new : list Task) : store := foldr (λ t, <[t.(task_ID) := t]>) m new.
(** The tasks are new, and their identifiers their own. *)
Definition new_to (m : store) (new : list Task) : Prop :=
  NoDup (map task_ID new) ∧ ∀ t, t ∈ new → m !! t.(task_ID) = None.
Lemma new_to_nil m : new_to m [].
Proof. split; [apply NoDup_nil_2|by intros t ?%not_elem_of_nil]. Qed.
Lemma stored_in_other m new k : (∀ t, t ∈ new → t.(task_ID) ≠ k) → stored_in m new !! k = m !! k.
Proof.
  induction new as [|t new IH]; intros Hk; [done|]. cbn. rewrite lookup_insert_ne by (apply Hk; left).
  apply IH. intros t' Ht'. apply Hk. by right.
Qed.
Lemma stored_in_keeps m new : new_to m new → m ⊆ stored_in m new.
Proof.
  intros [_ Hn]. apply map_subseteq_spec. intros k t Hk. rewrite stored_in_other; [done|].
  intros t' Ht' <-. by rewrite (Hn t' Ht') in Hk.
Qed.
Lemma stored_in_size m new : new_to m new → size (stored_in m new) = (length new + size m)%nat.
Proof.
  intros [Hd Hn]. induction new as [|t new IH]; [done|]. change (map task_ID (t :: new)) with (task_ID t :: map task_ID new) in Hd.
  apply NoDup_cons in Hd as [Ht Hd]. change (stored_in m (t :: new)) with (<[t.(task_ID) := t]> (stored_in m new)).
  rewrite map_size_insert_None.
  - rewrite IH; [done|done|]. intros t' Ht'. apply Hn. by right.
  - rewrite stored_in_other; [apply Hn; left|]. intros t' Ht' He. apply Ht. rewrite <-He. by apply list_elem_of_fmap_2.
Qed.
Lemma stored_in_elem m new t : new_to m new → t ∈ new → stored_in m new !! t.(task_ID) = Some t.
Proof.
  intros [Hd _]. induction new as [|t' new IH]; cbn; [by intros ?%not_elem_of_nil|]. apply NoDup_cons in Hd as [Ht Hd].
  rewrite elem_of_cons. intros [->|Hin]; [apply lookup_insert_eq|]. rewrite lookup_insert_ne; [by apply IH|].
  intros He. apply Ht. rewrite He. by apply list_elem_of_fmap_2.
Qed.
Lemma new_to_app m new new' : new_to m new → new_to (stored_in m new) new' → new_to m (new' ++ new).
Proof.
  intros [Hd Hn] [Hd' Hn']. split.
  - rewrite map_app. apply NoDup_app. split_and!; [done| |done].
    intros k (t' & -> & Ht')%list_elem_of_fmap (t & He & Ht)%list_elem_of_fmap. specialize (Hn' t' Ht'). rewrite He in Hn'.
    by rewrite (stored_in_elem m new t (conj Hd Hn) Ht) in Hn'.
  - intros t [Ht|Ht]%elem_of_app; [|by apply Hn]. apply eq_None_not_Some. intros [x Hx].
    pose proof (stored_in_keeps m new (conj Hd Hn)) as Hsub. rewrite map_subseteq_spec in Hsub. apply Hsub in Hx. by rewrite (Hn' t Ht) in Hx.
Qed.

(** Chance, as documented. *)
Section loops.
Context `{unicode.Tables, Sanitize, Validate}.
(** The loops only draw numbers and call the two services. *)
Lemma userLoop_only (P : ∀ X, seedE X → Prop) :
  (∀ X (e : randE X), P X (inl e)) → (∀ X (e : userE X), P X (user_call X e)) → (∀ X (e : taskE X), P X (Seed.task_call X e)) →
  ∀ turns i sv opts counted, only P (userLoop turns i sv opts counted).
Proof.
  intros Hr Hu Ht. assert (∀ l, only P (pick l)) as Hp by (intros l; split; [apply Hr|done]).
  assert (∀ turns j k email uid c, only P (taskLoop turns j k email uid c)) as Hloop.
  { induction turns as [|turns IH]; intros j k email uid c; [done|]. cbn [taskLoop]. apply only_bind.
    - unfold seedTask. apply only_bind; [repeat (apply only_bind; [apply Hp|intros ?]); done|]. intros [title description].
      apply only_bind; [apply Hp|]. intros pr. apply only_bind; [by apply only_lift, only_all|]. intros [ct|e]; [|done]. cbv zeta.
      apply only_bind; [split; [apply Hr|done]|]. intros target. apply only_bind; [|by intros [x|e]].
      destruct (negb _); [by apply only_lift, only_all|done].
    - intros [c'|e]; [apply IH|done]. }
  induction turns as [|n IH]; intros i sv opts c; [done|]. cbn [userLoop]. cbv zeta. apply only_bind.
  - unfold demoUser. apply only_bind; [by apply only_lift, only_all|]. intros [u|e]; [done|]. destruct (negb _); [done|].
    apply only_bind; [by apply only_lift, only_all|]. by intros [u|e'].
  - intros [u|e]; [|done]. apply only_bind; [apply Hloop|]. intros [c'|e]; [apply IH|done].
Qed.

(** The lines a call prints. *)
Definition printed (c : sigT seedE) : option string :=
  match projT2 c with inr (inl (Println line)) => Some line | _ => None end.
Lemma userLoop_silent {S} (h : handler seedE S) turns i sv opts counted s :
  omap printed (calls h (userLoop turns i sv opts counted) s) = [].
Proof.
  pose proof (userLoop_only (λ X e, printed (existT X e) = None)) as Ho.
  specialize (Ho ltac:(done) ltac:(done) ltac:(by intros X [e|e]) turns i sv opts counted).
  assert (∀ l : list (sigT seedE), (∀ c, c ∈ l → printed c = None) → omap printed l = []) as Hl.
  { induction l as [|c l IH]; intros Hc; [done|]. cbn. rewrite (Hc c) by (by left). apply IH. intros c' Hin. apply Hc. by right. }
  apply Hl. intros [X e] Hin. exact (only_calls _ h _ s _ Ho Hin).
Qed.
End loops.

Class Randomness {W : Type} (h : handler randE W) :=
  intn_range : ∀ n w, 0 < n → 0 ≤ (h _ (IntN n) w).2 < n.

Section seed.
Context `{unicode.Tables, Validate, PlainTexts, Bcrypt, DatabaseURLs}.
Context {W C D U T : Type} (hr : handler randE W) `{!Randomness hr} (hc : handler cmdE C) (hd : handler dbE D).
Context (hu : handler userRepoE U) (ht : handler repoE T) `{!TaskRepository ht}.

Definition handle_seed : handler seedE (W * (C * (D * ((Proc * U) * T)))) :=
  handle_sum hr (handle_sum hc (handle_sum hd (handle_sum (handle_user hu) ht))).
Abbreviation stored σ := (repo_view σ.2.2.2.2).
Abbreviation sound σ := (repo_inv σ.2.2.2.2).

(** Whatever else happens, a program only adds tasks, which are those that [Q] says
    of its answer. *)
Definition adds {A} (p : prog seedE A) (Q : list Task → A → Prop) : Prop := ∀ σ, sound σ →
  let '(σ', a) := run handle_seed p σ in
  sound σ' ∧ ∃ new, stored σ' = stored_in (stored σ) new ∧ new_to (stored σ) new ∧ Q new a.

Lemma adds_ret {A} (a : A) (Q : list Task → A → Prop) : Q [] a → adds (mret a) Q.
Proof. intros HQ σ Hσ. rewrite run_ret. split; [done|]. exists []. split_and!; [done|apply new_to_nil|done]. Qed.
Lemma adds_bind {A B} (p : prog seedE A) (f : A → prog seedE B) P Q :
  adds p P → (∀ a new, P new a → adds (f a) (λ new', Q (new' ++ new))) → adds (p ≫= f) Q.
Proof.
  intros Hp Hf σ Hσ. rewrite run_bind. specialize (Hp σ Hσ). destruct (run _ p σ) as [σ1 a].
  destruct Hp as (Hσ1 & new & Hm & Hn & HP). specialize (Hf a new HP σ1 Hσ1). destruct (run _ (f a) σ1) as [σ2 b].
  destruct Hf as (Hσ2 & new' & Hm' & Hn' & HQ). split; [done|]. exists (new' ++ new). rewrite Hm in Hm', Hn'. split_and!; [|by apply new_to_app|done].
  rewrite Hm'. unfold stored_in. by rewrite foldr_app.
Qed.
(** A program that does not touch the tasks. *)
Definition elsewhere {A} (p : prog seedE A) (Q : A → Prop) : Prop := ∀ σ,
  let '(σ', a) := run handle_seed p σ in σ'.2.2.2.2 = σ.2.2.2.2 ∧ Q a.
Lemma elsewhere_adds {A} (p : prog seedE A) (Q : A → Prop) : elsewhere p Q → adds p (λ new a, new = [] ∧ Q a).
Proof.
  intros Hp σ Hσ. specialize (Hp σ). destruct (run _ p σ) as [σ' a]. destruct Hp as [-> HQ]. split; [done|].
  exists []. split_and!; [done|apply new_to_nil|done|done].
Qed.
Lemma elsewhere_bind {A B} (p : prog seedE A) (f : A → prog seedE B) P Q :
  elsewhere p P → (∀ a, P a → elsewhere (f a) Q) → elsewhere (p ≫= f) Q.
Proof.
  intros Hp Hf σ. rewrite run_bind. specialize (Hp σ). destruct (run _ p σ) as [σ1 a]. destruct Hp as [He HP].
  specialize (Hf a HP σ1). destruct (run _ (f a) σ1) as [σ2 b]. destruct Hf as [-> HQ]. done.
Qed.
Lemma elsewhere_ret {A} (a : A) (Q : A → Prop) : Q a → elsewhere (mret a) Q.
Proof. intros HQ σ. by rewrite run_ret. Qed.

(** ** Chance *)
Lemma pick_spec l : l ≠ [] → elsewhere (pick l) (λ s, s ∈ l).
Proof.
  intros Hl [w rest]. unfold pick. rewrite run_bind, run_trigger. cbn.
  assert (0 < Z.of_nat (length l)) as Hlen by (destruct l; [done|cbn [length]; lia]).
  pose proof (intn_range (h := hr) _ w Hlen) as Hi. destruct (hr _ (IntN _) w) as [w' i]. cbn in *. split; [done|].
  destruct (lookup_lt_is_Some_2 l (Z.to_nat i)) as [s Hs]; [lia|]. rewrite Hs. cbn. by eapply list_elem_of_lookup_2.
Qed.
Lemma randomTask_spec : elsewhere randomTask (λ td, ∃ t d, validateTitleAndDescription td.1 td.2 = Ok (t, d)).
Proof.
  eapply elsewhere_bind; [by apply pick_spec|]. intros v Hv. cbv beta.
  eapply elsewhere_bind; [by apply pick_spec|]. intros s Hs. cbv beta.
  eapply elsewhere_bind; [by apply pick_spec|]. intros d Hd. cbv beta. apply elsewhere_ret. by apply fixtures_valid.
Qed.
Lemma randomStatus_spec :
  elsewhere (A := string) randomStatus (λ st, st ∈ [StatusPending; StatusInProgress; StatusDone; StatusCancelled]).
Proof.
  intros [w rest]. unfold randomStatus. rewrite run_bind, run_trigger. cbn. destruct (hr _ Float64 w) as [w' k]. cbn.
  split; [done|]. destruct (weightLoop (roll_value k) 0 statusWeights) as [st|] eqn:Hst; cbn; [by apply weightLoop_in in Hst|left].
Qed.

(** ** The two services, inside *)
Lemma run_seed_task {A} (p : prog taskE A) w c d q u t :
  run handle_seed (Prelude.lift task_call p) (w, (c, (d, ((q, u), t)))) =
  let '((v, t'), a) := run (handle_sum handle_env ht) p (proc_env q, t) in ((w, (c, (d, ((set_env v q, u), t')))), a).
Proof.
  rewrite (run_lift (handle_sum handle_env ht) handle_seed task_call
    (λ σ : W * (C * (D * ((Proc * U) * T))), (proc_env σ.2.2.2.1.1, σ.2.2.2.2))
    (λ (s : Env * T) (σ : W * (C * (D * ((Proc * U) * T)))),
      (σ.1, (σ.2.1, (σ.2.2.1, ((set_env s.1 σ.2.2.2.1.1, σ.2.2.2.1.2), s.2)))))).
  - cbn. by destruct (run (handle_sum handle_env ht) p (proc_env q, t)) as [[v t'] a].
  - split.
    + intros X [e|e] (w' & c' & d' & [q' u'] & t'); cbn.
      * by destruct (handle_env X e (proc_env q')) as [v x].
      * destruct (ht X e t') as [t1 x]. by destruct q'.
    + by intros [v t1] (w' & c' & d' & [q' u'] & t').
    + by intros [v t1] [v' t1'] (w' & c' & d' & [q' u'] & t').
    + intros (w' & c' & d' & [q' u'] & t'). by destruct q'.
Qed.
Lemma run_seed_user {A} (p : prog userE A) w c d q t :
  run handle_seed (Prelude.lift user_call p) (w, (c, (d, (q, t)))) =
  let '(q', a) := run (handle_user hu) p q in ((w, (c, (d, (q', t)))), a).
Proof.
  rewrite (run_lift (handle_user hu) handle_seed user_call
    (λ σ : W * (C * (D * ((Proc * U) * T))), σ.2.2.2.1)
    (λ (s : Proc * U) (σ : W * (C * (D * ((Proc * U) * T)))), (σ.1, (σ.2.1, (σ.2.2.1, (s, σ.2.2.2.2)))))).
  - cbn. by destruct (run (handle_user hu) p q) as [q' a].
  - split.
    + intros X e (w' & c' & d' & q' & t'). cbn. by destruct (handle_user hu X e q').
    + done.
    + done.
    + by intros (w' & c' & d' & q' & t').
Qed.
Lemma user_elsewhere {A} (p : prog userE A) : elsewhere (Prelude.lift user_call p) (λ _, True).
Proof. intros (w & c & d & q & t). rewrite run_seed_user. by destruct (run (handle_user hu) p q). Qed.

(** ** One task *)
Definition cnt (c : gmap string Z) (st : Status) : Z := default 0 (c !! st).
Lemma cnt_incr c st st' : cnt (incr st c) st' = cnt c st' + (if String.eqb st st' then 1 else 0).
Proof.
  unfold cnt, incr. destruct (String.eqb_spec st st') as [-> |Hne]; [by rewrite lookup_insert_eq|].
  rewrite lookup_insert_ne by done. lia.
Qed.
(** How many of the tasks have a status. *)
Definition having (st : Status) (ts : list Task) : Z :=
  Z.of_nat (length (base.filter (λ t, String.eqb t.(task_Status) st = true) ts)).
Lemma having_app st ts ts' : having st (ts ++ ts') = having st ts + having st ts'.
Proof. unfold having. rewrite filter_app, length_app. lia. Qed.
Lemma having_one st t : having st [t] = if String.eqb t.(task_Status) st then 1 else 0.
Proof. unfold having. cbn. destruct (String.eqb _ st) eqn:E; [by rewrite decide_True|by rewrite decide_False]. Qed.

(** Why a task could not be added or moved: the store, the source of randomness, or
    an identifier that is taken; neither a check of the service nor its table of
    transitions. *)
Definition bad_luck (e : error) : Prop :=
  ∃ ctx err, e = wrap ctx err ∧ (foreign err = true ∨ Is err (ErrAlreadyExists task_pkg) = true).
(** What has been counted is what has been added. *)
Definition counts (counted counted' : Z * gmap string Z) (new : list Task) : Prop :=
  counted'.1 = counted.1 + Z.of_nat (length new) ∧ ∀ st, cnt counted'.2 st = cnt counted.2 st + having st new.
Definition task_result (uid : string) (n : nat) (counted : Z * gmap string Z) (new : list Task)
    (r : result (Z * gmap string Z)) : Prop :=
  Forall (λ t, t.(task_UserID) = uid) new ∧
  match r with
  | Ok counted' => length new = n ∧ counts counted counted' new
  | Err e => bad_luck e
  end.

Lemma create_fails env t uid title description priority td e :
  repo_inv t → validateTitleAndDescription title description = Ok td → mem validPriorities priority = true →
  (run (handle_sum handle_env ht) (CreateTask uid title description priority) (env, t)).2 = Err e →
  foreign e = true ∨ Is e (ErrAlreadyExists task_pkg) = true.
Proof.
  intros Hi Hv Hp. unfold CreateTask, validatePriority. rewrite Hv, Hp. destruct td as [tt d].
  destruct (String.eqb priority ""); cbn;
    (destruct (pop None (env_rand env)) as [[b|] l]; cbn; [|by intros [= <-]; left]);
    (destruct (pop 0 (env_clock env)) as [now clk]; cbn);
    (match goal with |- context [ht _ ?c t] => pose proof (repo_sound _ c t Hi) as Hs; destruct (ht _ c t) as [t' [err|]] end;
     cbn in *; [intros [= <-]; destruct Hs as [_ [[-> _]|Hs]]; [by right|by left]|discriminate]).
Qed.

(** Moving a task that has just been created. *)
Lemma move_created env t m0 ct uid target :
  repo_inv t → repo_view t = <[ct.(task_ID) := with_version 1 ct]> m0 → isValidID ct.(task_ID) = true →
  ct.(task_UserID) = uid → ct.(task_Status) = StatusPending →
  target ∈ [StatusPending; StatusInProgress; StatusDone; StatusCancelled] → target ≠ StatusPending →
  let '(w, r) := run (handle_sum handle_env ht) (TransitionStatus uid ct.(task_ID) target) (env, t) in
  repo_inv w.2 ∧
  match r with
  | Ok _ => ∃ t', t'.(task_ID) = ct.(task_ID) ∧ t'.(task_UserID) = uid ∧ t'.(task_Status) = target ∧
      repo_view w.2 = <[t'.(task_ID) := t']> m0
  | Err e => repo_view w.2 = repo_view t ∧ foreign e = true
  end.
Proof.
  intros Hi Hm Hid Hu Hst Hin Hne. pose proof (TransitionStatus_spec ht env t uid ct.(task_ID) target Hi) as Hs.
  destruct (run _ _ _) as [w r]. destruct Hs as [Hi' Hs]. split; [done|].
  assert (owned (repo_view t) uid ct.(task_ID) = Some (with_version 1 ct)) as Ho.
  { apply owned_Some. by rewrite Hm, lookup_insert_eq. }
  assert (legal StatusPending target = true ∧ mem validStatuses target = true) as [Hl Hvs].
  { repeat (apply elem_of_cons in Hin as [-> |Hin]; [done|]). by apply not_elem_of_nil in Hin. }
  destruct r as [x|e].
  - destruct Hs as (_ & t0 & Ho0 & Hs). rewrite Ho in Ho0. injection Ho0 as <-. cbn in Hs.
    destruct Hs as [(Heq & _ & _)|(_ & _ & now & -> & Hm')]; [congruence|]. rewrite Hm', Hm, insert_insert_eq.
    by exists (with_version (1 + 1) (moved (with_version 1 ct) target now)).
  - destruct Hs as [Hm' Hs]. split; [done|]. destruct Hs as [Hf|[[_ [Hf|Hf]]|[[_ Hf]|(_ & t0 & Ho0 & _ & Hf)]]]; try congruence.
    rewrite Ho in Ho0. injection Ho0 as <-. cbn in Hf. congruence.
Qed.

Lemma seedTask_spec j k email uid counted : adds (seedTask j k email uid counted) (task_result uid 1 counted).
Proof.
  eapply adds_bind; [apply elsewhere_adds, randomTask_spec|]. intros [title description] ? [-> (tt & d & Hv)]. cbn beta iota.
  eapply adds_bind; [apply elsewhere_adds; by apply pick_spec|]. intros priority ? [-> Hpr]. cbn [app].
  assert (mem validPriorities priority = true) as Hp.
  { repeat (apply elem_of_cons in Hpr as [-> |Hpr]; [done|]). by apply not_elem_of_nil in Hpr. }
  intros (w & c & dd & [q u] & t) Hi. cbn [snd] in Hi. rewrite run_bind, run_seed_task.
  pose proof (CreateTask_spec ht (proc_env q) t uid title description priority Hi) as Hs.
  pose proof (create_fails (proc_env q) t uid title description priority (tt, d)) as Hfail.
  destruct (run (handle_sum handle_env ht) _ _) as [[v t1] [ct|e]].
  2:{ rewrite run_ret. destruct Hs as (Hi1 & Hm & _). cbn [snd] in Hi1, Hm |- *. split; [done|]. exists [].
      split_and!; [done|apply new_to_nil|split; [constructor|]]. eexists _, _. split; [done|]. by apply Hfail. }
  clear Hfail. destruct Hs as (Hi1 & _ & _ & Hid & Hu & Hst & _ & Hn & Hm). cbn [snd] in Hi1, Hm. cbv zeta.
  rewrite run_bind. set (σ1 := (w, (c, (dd, (_, t1))))). pose proof (randomStatus_spec σ1) as Hr.
  destruct (@run seedE _ string handle_seed randomStatus σ1) as [(w2 & c2 & d2 & [q2 u2] & t2) target]. destruct Hr as [Ht2 Htarget]. cbn in Ht2. subst t2.
  assert (∀ t', t'.(task_ID) = ct.(task_ID) → new_to (repo_view t) [t']) as Hnew.
  { intros t' He. split; [apply NoDup_singleton|]. intros x ->%list_elem_of_singleton. by rewrite He. }
  rewrite run_bind. destruct (String.eqb_spec target StatusPending) as [-> |Hne]; cbn [negb].
  - rewrite !run_ret. cbn [snd]. split; [done|]. exists [with_version 1 ct]. split; [exact Hm|]. split; [by apply Hnew|].
    split; [by apply Forall_singleton|]. split; [done|]. split; [done|]. intros st. rewrite !app_nil_r, having_one. cbn. rewrite Hst. apply cnt_incr.
  - rewrite run_seed_task. pose proof (move_created (proc_env q2) t1 _ ct uid target Hi1 Hm Hid Hu Hst Htarget Hne) as Hs.
    destruct (run (handle_sum handle_env ht) _ _) as [[v3 t3] [x|e]]; rewrite run_ret; destruct Hs as [Hi3 Hs]; cbn [snd] in Hi3, Hs |- *; (split; [done|]).
    + destruct Hs as (t' & He & Hu' & Hst' & Hm3). exists [t']. split; [exact Hm3|]. split; [by apply Hnew|].
      split; [by apply Forall_singleton|]. split; [done|]. split; [done|]. intros st. rewrite !app_nil_r, having_one, Hst'. apply cnt_incr.
    + destruct Hs as [Hm3 Hf]. exists [with_version 1 ct]. split; [by rewrite Hm3|]. split; [by apply Hnew|].
      split; [by apply Forall_singleton|]. eexists _, _. split; [done|]. by left.
Qed.

(** ** The loops *)
Lemma counts_nil counted : counts counted counted [].
Proof. split; [cbn [length]; lia|]. intros st. unfold having. cbn. lia. Qed.
Lemma counts_app c c' c'' new new' : counts c c' new → counts c' c'' new' → counts c c'' (new' ++ new).
Proof.
  intros [Hn Hc] [Hn' Hc']. split; [rewrite length_app; lia|]. intros st. rewrite having_app, Hc', Hc. lia.
Qed.
Lemma taskLoop_spec turns j k email uid counted :
  adds (taskLoop turns j k email uid counted) (task_result uid turns counted).
Proof.
  revert j counted; induction turns as [|turns IH]; intros j counted.
  { apply adds_ret. split; [constructor|]. split; [done|apply counts_nil]. }
  cbn [taskLoop]. eapply adds_bind; [apply seedTask_spec|]. intros [counted1|e] new [Hu Hr].
  2:{ apply adds_ret. by split. }
  destruct Hr as [Hlen Hc]. intros σ Hσ. specialize (IH (j + 1) counted1 σ Hσ). destruct (run _ _ σ) as [σ' r].
  destruct IH as (Hσ' & new' & Hm & Hn & Hu' & Hr). split; [done|]. exists new'. split; [done|]. split; [done|].
  split; [by apply Forall_app|]. destruct r as [counted2|e]; [|done]. destruct Hr as [Hlen' Hc'].
  split; [rewrite length_app; lia|]. by eapply counts_app.
Qed.

(** A user could not be registered, or has another password. *)
Definition user_failed (password : string) (e : error) : Prop :=
  ∃ email err, e = wrap ("register " +:+ email) err ∨
    e = wrap (email +:+ " already exists with a different password than -password=" +:+
              quote.Quote password +:+ " (run with -reset to start over)") err.
Lemma demoUser_spec sv email password :
  elsewhere (demoUser sv email password) (λ r, match r with Ok _ => True | Err e => user_failed password e end).
Proof.
  eapply elsewhere_bind; [apply user_elsewhere|]. intros [u|e] _; [by apply elsewhere_ret|].
  destruct (negb _); [apply elsewhere_ret; exists email, e; by left|].
  eapply elsewhere_bind; [apply user_elsewhere|]. intros [u|e'] _; apply elsewhere_ret; [done|]. exists email, e'. by right.
Qed.
(** The tasks of one user after another. *)
Definition users_result (opts : seedOptions) (n : nat) (counted : Z * gmap string Z) (new : list Task)
    (r : result (Z * gmap string Z)) : Prop :=
  ∃ blocks : list (string * list Task),
    new = concat (map snd blocks) ∧ Forall (λ b, Forall (λ t, t.(task_UserID) = b.1) b.2) blocks ∧
    match r with
    | Ok counted' => length blocks = n ∧ Forall (λ b, length b.2 = Z.to_nat opts.(opt_tasksPerUser)) blocks ∧
        counts counted counted' new
    | Err e => bad_luck e ∨ user_failed opts.(opt_password) e
    end.
Lemma userLoop_spec n i sv opts counted :
  adds (userLoop n i sv opts counted) (users_result opts n counted).
Proof.
  revert i counted; induction n as [|n IH]; intros i counted.
  { apply adds_ret. exists []. split; [done|]. split; [constructor|]. split; [done|]. split; [constructor|apply counts_nil]. }
  cbn [userLoop]. cbv zeta. eapply adds_bind; [apply elsewhere_adds, demoUser_spec|]. intros [u|e] ? [-> Hu].
  2:{ apply adds_ret. exists []. split; [done|]. split; [constructor|]. by right. }
  eapply adds_bind; [apply taskLoop_spec|]. intros [counted1|e] new [Ho Hr].
  2:{ apply adds_ret. exists [(u.(user_ID), new)]. split; [cbn; by rewrite !app_nil_r|].
      split; [by apply Forall_singleton|by left]. }
  destruct Hr as [Hlen Hc]. intros σ Hσ. specialize (IH (i + 1) counted1 σ Hσ). destruct (run _ _ σ) as [σ' r].
  destruct IH as (Hσ' & new' & Hm & Hn & blocks & -> & Hb & Hr). split; [done|]. exists (concat (map snd blocks)).
  split; [done|]. split; [done|]. exists (blocks ++ [(u.(user_ID), new)]).
  split; [rewrite map_app, concat_app; cbn; by rewrite !app_nil_r|].
  split; [apply Forall_app; split; [done|by apply Forall_singleton]|].
  destruct r as [counted2|e]; [|done]. destruct Hr as (Hlb & Hlt & Hc'). split; [rewrite length_app; cbn; lia|].
  split; [apply Forall_app; split; [done|by apply Forall_singleton]|]. rewrite !app_nil_r. by eapply counts_app.
Qed.

Lemma length_blocks (blocks : list (string * list Task)) n :
  Forall (λ b, length b.2 = n) blocks → length (concat (map snd blocks)) = (length blocks * n)%nat.
Proof. induction 1 as [|b blocks Hb _ IH]; [done|]. cbn. rewrite length_app, IH, Hb. lia. Qed.

(** C27: seeding adds tasks and touches none.  Over any task repository that keeps its
    contract, whatever the user service answers, for numbers that are not negative and with
    sanitizers that trim the made-up titles and leave the descriptions alone: the tasks that were there are as
    they were, and those that are added have fresh identifiers and come in groups of one
    owner each.  If it succeeds, there is a group for each of the users asked for, with
    the number of tasks asked for, and the one line it prints says how many tasks there
    are in these groups, in all and under each status.  If it fails, it prints nothing,
    and a user could not be registered (or has another password), or the store or the
    source of randomness failed: no title, description or priority it makes up is refused
    by the checks of the service, and no status it chooses is out of reach of a new task. *)
Theorem seeding_adds_what_it_reports (sv : User.Service) (opts : seedOptions) σ :
  0 ≤ opts.(opt_users) → 0 ≤ opts.(opt_tasksPerUser) → sound σ →
  let '(σ', r) := run handle_seed (seedUsers sv opts) σ in
  let lines := omap printed (calls handle_seed (seedUsers sv opts) σ) in
  ∃ blocks : list (string * list Task), let new := concat (map snd blocks) in
    let count st := strconv.Itoa (having st new) in
    stored σ' = stored_in (stored σ) new ∧ new_to (stored σ) new ∧ stored σ ⊆ stored σ' ∧
    Forall (λ b, Forall (λ t, t.(task_UserID) = b.1) b.2) blocks ∧
    match r with
    | None =>
        Z.of_nat (length blocks) = opts.(opt_users) ∧
        Forall (λ b, Z.of_nat (length b.2) = opts.(opt_tasksPerUser)) blocks ∧
        Z.of_nat (size (stored σ')) = Z.of_nat (size (stored σ)) + Z.of_nat (length new) ∧
        lines = ["seeded " +:+ strconv.Itoa opts.(opt_users) +:+ " demo users (password: " +:+
          quote.Quote opts.(opt_password) +:+ ") and " +:+ strconv.Itoa (Z.of_nat (length new)) +:+
          " tasks (pending=" +:+ count "pending" +:+ " in_progress=" +:+ count "in_progress" +:+
          " done=" +:+ count "done" +:+ " cancelled=" +:+ count "cancelled" +:+ ")"]
    | Some e => lines = [] ∧ (bad_luck e ∨ user_failed opts.(opt_password) e)
    end.
Proof.
  intros Hu Ht Hσ. unfold seedUsers. rewrite calls_bind, omap_app, userLoop_silent, run_bind.
  pose proof (userLoop_spec (Z.to_nat opts.(opt_users)) 1 sv opts (0, ∅) σ Hσ) as Hs.
  destruct (run _ (userLoop _ _ _ _ _) σ) as [[w [c dut]] r]. destruct Hs as (_ & new & Hm & Hn & blocks & -> & Hb & Hr).
  cbn [fst snd] in *. destruct r as [[total byStatus]|e]; cbv beta iota.
  2: { exists blocks. cbn. split_and!; try done. rewrite Hm. by apply stored_in_keeps. }
  destruct Hr as (Hlb & Hlt & Htot & Hst). cbn [fst snd] in Htot, Hst. unfold cnt in Hst.
  assert (Hlines : summary_line opts (total, byStatus) = _) by (unfold summary_line; cbn [fst snd];
    rewrite !Hst, !lookup_empty, Htot; cbn [default]; rewrite !Z.add_0_l; reflexivity).
  rewrite run_bind, run_trigger. cbn. destruct (hc unit _ c) as [c' []]. cbn. exists blocks.
  rewrite Hlines, Hm, stored_in_size by done. split_and!; try done; [by apply stored_in_keeps|lia| |lia].
  eapply Forall_impl; [exact Hlt|]. cbn. lia.
Qed.
End seed.

(** The default password is one that may be registered. *)
Example default_password_accepted `{unicode.Tables} : validatePassword "password123" = None.
Proof. vm_compute. reflexivity. Qed.

(** ** Two users with two tasks each *)
#[export] Instance plain_sanitize_texts : PlainTexts.
Proof.
  split.
  - intros s Hs. change (strings.TrimSpace (strip s) = strings.TrimSpace s). f_equal. unfold strip.
    enough (List.filter printable (String.list_ascii_of_string s) = String.list_ascii_of_string s) as ->
      by apply String.string_of_list_ascii_of_string.
    unfold bytes in Hs. induction (String.list_ascii_of_string s) as [|c l IH]; [done|]. cbn [map forallb List.filter] in *.
    apply andb_true_iff in Hs as [Hc Hl]. rewrite (IH Hl). unfold printable. unfold title_char in Hc.
    assert (32 <= byte_val c) as Hb by lia. by rewrite (proj2 (Z.leb_le _ _) Hb).
  - intros s Hs _. repeat (apply elem_of_cons in Hs as [-> |Hs]; [vm_compute; reflexivity|]). by apply not_elem_of_nil in Hs.
Qed.
Definition dice : handler randE (list Z) := λ X e l,
  match e in randE X return list Z * X with
  | IntN n => (tail l, hd 0 l mod n)
  | Float64 => (tail l, hd 0 l mod 2 ^ 53)
  end.
#[export] Instance dice_range : Randomness dice.
Proof. intros n l Hn. cbn. by apply Z.mod_pos_bound. Qed.
Definition terminal : handler cmdE (list string) := λ X e l,
  match e in cmdE X return list string * X with
  | sql_Open _ | db_Ping => (l, None)
  | db_Close => (l, tt)
  | Println line => (l ++ [line], tt)
  end.
Definition no_database : handler dbE unit := λ X e s,
  match e in dbE X return unit * X with
  | ExecContext _ _ _ _ => (s, Ok (Ok 0))
  | QueryRow _ _ _ _ _ => (s, Err sql_ErrNoRows)
  | Query _ _ _ _ => (s, Ok ([], None))
  | BeginTx _ => (s, Ok 1)
  | Commit _ | Rollback _ => (s, None)
  end.
Definition demo_opts : seedOptions :=
  {| opt_users := 2; opt_password := "password123"; opt_tasksPerUser := 2; opt_reset := false;
     opt_allowRemoteReset := false |}.
(** The third task gets the greatest roll there is. *)
Definition demo_rolls : list Z :=
  [0; 0; 0; 0; 0] ++ [1; 2; 4; 1; 2 ^ 52] ++ [19; 19; 10; 2; 2 ^ 53 - 1] ++ [5; 11; 3; 0; 2 ^ 53 - 2].
Definition demo_state : list Z * (list string * (unit * ((Proc * (Env * memoryRepository)) * (Env * store)))) :=
  (demo_rolls, ([], (tt, ((proc_at (env_at [] (map (seq_bytes 16) [1; 2; 3; 4; 5; 6; 7; 8])),
    (calm, {| usersByID := ∅; usersByEmail := ∅; sessions := ∅ |})), (calm, two_tasks))))).
Definition demo_run := run (handle_seed dice terminal no_database handle_umem handle_mem)
  (userLoop (Z.to_nat 2) 1 service demo_opts (0, ∅)) demo_state.
Definition counted_of (r : result (Z * gmap string Z)) : option (Z * list Z) :=
  match r with
  | Ok (n, c) => Some (n, map (cnt c) [StatusPending; StatusInProgress; StatusDone; StatusCancelled])
  | Err _ => None
  end.
Lemma demo_counts : counted_of demo_run.2 = Some (4, [2; 1; 0; 1]).
Proof. vm_compute. reflexivity. Qed.
Definition seeding := run (handle_seed dice terminal no_database handle_umem handle_mem) (seedUsers service demo_opts) demo_state.
Example demo_report :
  seeding.1.2.1 =
  ["seeded 2 demo users (password: " +:+ quote.Quote "password123" +:+ ") and 4 tasks (pending=2 in_progress=1 done=0 cancelled=1)"].
Proof. vm_compute. reflexivity. Qed.
Lemma seeding_ok : seeding.2 = None.
Proof. vm_compute. reflexivity. Qed.
Example seeding_adds_what_it_reports_witness :
  two_tasks ⊆ repo_view seeding.1.2.2.2.2 ∧ ∃ new, length new = 4%nat ∧ repo_view seeding.1.2.2.2.2 = stored_in two_tasks new ∧
  Z.of_nat (size (repo_view seeding.1.2.2.2.2)) = 6.
Proof.
  pose proof (seeding_adds_what_it_reports dice terminal no_database handle_umem handle_mem service demo_opts demo_state
    ltac:(simpl; lia) ltac:(simpl; lia) two_tasks_wf) as Hs.
  pose proof seeding_ok as Hok. revert Hs Hok. unfold seeding.
  destruct (run _ _ demo_state) as [σ' r]. cbn [fst snd]. intros (blocks & Hnew & _ & Hsub & _ & Hr) ->. cbv iota in Hr.
  split; [exact Hsub|]. destruct Hr as (Hlb & Hlt & Hsize & _).
  assert (Hlen : length (concat (map snd blocks)) = 4%nat).
  { rewrite (length_blocks _ 2); [cbn in Hlb; lia|]. eapply Forall_impl; [exact Hlt|]. cbn. lia. }
  exists (concat (map snd blocks)). split_and!; [exact Hlen|exact Hnew|]. rewrite Hlen in Hsize. exact Hsize.
Defined.
(** A second run finds the users and adds to them; with another password it stops. *)
Example demo_again :
  let '(σ', r) := run (handle_seed dice terminal no_database handle_umem handle_mem)
    (userLoop (Z.to_nat 1) 1 service demo_opts (0, ∅)) demo_run.1 in
  match r with Err e => Is e (ErrAlreadyExists user_pkg) = false | Ok _ => True end.
Proof. vm_compute. done. Qed.

(** * When the tables are emptied *)

Section reset.
Context `{unicode.Tables, Sanitize, Validate, DatabaseURLs}.
Definition truncation (c : deadline) (args : list arg) : sigT seedE :=
  existT (P := seedE) _ (inr (inr (inl (ExecContext c None truncate_query args)))).
(** No statement outside a transaction is the one that empties the tables. *)
Definition no_truncate X (e : dbE X) : Prop :=
  match e with ExecContext _ None query _ => query ≠ truncate_query | _ => True end.
Definition spares X (e : seedE X) : Prop := match e with inr (inr (inl e)) => no_truncate X e | _ => True end.

Lemma migrations_spare files : only no_truncate (RunMigrations files migrate_timeout).
Proof.
  unfold RunMigrations, ensureMigrationsTable. cbn. split; [done|]. intros [res|err]; cbn; [|done].
  induction (sort_slice _ _) as [|p ps IH]; [done|]. cbn [applyLoop]. cbv zeta. apply only_bind; [by split|].
  intros [[]|err]; [done| |done]. destruct (ReadFile files p); [|done]. apply only_bind.
  - unfold applyMigration, in_transaction. cbn. split; [done|]. intros [tx|err]; cbn; [|done]. split; [done|].
    intros [res2|err]; cbn; [|by split]. split; [done|]. intros [res'|err]; cbn; [|by split]. split; [done|]. intros x. by split.
  - intros [err|]; [done|]. exact IH.
Qed.
Lemma seedUsers_spare sv opts : only spares (seedUsers sv opts).
Proof.
  unfold seedUsers. apply only_bind; [|by intros [c|e]]. apply userLoop_only; intros X e; [done|done|by destruct e].
Qed.

(** The tables are emptied only on request, and only in a database whose address is
    this machine's, or with the acknowledgement that it may be another's: whatever the
    database and the services answer, no other run sends the statement. *)
Theorem reset_is_acknowledged {S} (h : handler seedE S) files loaded dummy opts s c args :
  truncation c args ∈ calls h (seed_run files loaded dummy opts) s →
  opts.(opt_reset) = true ∧
  ∃ cfg, loaded = Ok cfg ∧ (opts.(opt_allowRemoteReset) = true ∨ isLocalDatabase cfg.(cfg_DatabaseURL) = true).
Proof.
  intros Hin. set (G := _ ∧ _).
  enough (only (λ X e, ¬ spares X e → G) (seed_run files loaded dummy opts)) as Ho.
  { pose proof (only_calls _ h _ s _ Ho Hin) as Hc. apply Hc. cbn. congruence. }
  clear Hin. unfold seed_run. destruct (_ <? 0); [done|]. destruct (_ <? 0); [done|]. destruct loaded as [cfg|err]; [|done].
  destruct (String.eqb _ ""); [done|]. destruct (_ && negb (isLocalDatabase _)) eqn:Hg; [done|].
  apply only_bind; [by split; [intros []|]|]. intros [err|]; [done|]. apply only_bind; [|by split; [intros []|]].
  unfold seed_in. destruct (opt_reset opts) eqn:Hr.
  - apply only_all. intros X e _. split; [done|]. exists cfg. split; [done|].
    destruct (opt_allowRemoteReset opts); [by left|right]. by destruct (isLocalDatabase _).
  - assert (∀ A (p : prog seedE A), only spares p → only (λ X e, ¬ spares X e → G) p) as Hweak.
    { intros A p. induction p as [a|X e k IH]; cbn; [done|]. intros [He Hk]. split; [by intros []|]. intros x. by apply IH. }
    apply Hweak. apply only_bind; [by split|]. intros [err|]; [done|]. apply only_bind.
    + apply only_lift. exact (migrations_spare files).
    + intros [err|]; [done|]. apply only_bind; [done|]. intros [err|]; [done|].
      destruct (_ =? 0); [by split|]. apply seedUsers_spare.
Qed.
End reset.
