(* ===== verification/Server.v ===== *)
(** [cmd/api]: the HTTP server the composition root builds (main.go, health.go): which
    patterns lead to which handlers, what stands in front of them, and in which order.
    Its calls are those of the libraries, of the user package, of the links, of the
    database connection, and of the stores of tasks and attachments. *)

From S2P Require Import Prelude GoStd GoError Http Mux Middleware Task TaskHandler.
From S2P Require Import Attachment AttachmentHandler Link Config Wiring User UserHandler.
Local Open Scope Z_scope.

(** * The calls *)
Inductive opsE : Type → Type :=
| PingContext : opsE (option error).             (* the connection pool of the database *)
Definition outE : Type → Type := sumE cairnE opsE.
Definition dataE : Type → Type := sumE repoE (sumE attachRepoE blobE).
Definition serverE (libE : Type → Type) : Type → Type := sumE libE (sumE userE (sumE outE dataE)).

Section calls.
Context {libE : Type → Type}.
Abbreviation E := (serverE libE).
Definition user_up X (e : userE X) : E X := inr (inl e).
Definition env_up X (e : envE X) : E X := user_up X (inl e).
Definition link_up X (e : cairnE X) : E X := inr (inr (inl (inl e))).
Definition ops_up X (e : opsE X) : E X := inr (inr (inl (inr e))).
Definition data_up X (e : dataE X) : E X := inr (inr (inr e)).
Definition task_up X (e : taskE X) : E X :=
  match e with inl e => env_up X e | inr e => data_up X (inl e) end.
Definition attach_up X (e : attachE X) : E X :=
  match e with inl e => env_up X e | inr e => data_up X (inr e) end.
Definition app_up X (e : appE X) : E X :=
  match e with inl e => env_up X e | inr e => data_up X e end.
#[export] Instance server_env : Subevent envE E := env_up.
End calls.

(** * The libraries *)
Inductive csrfOption :=
| WithErrorHandler (h : Request → wire → wire) | WithInsecureCookie | WithTrustedOrigins (origins : list string).

(** moat (rate limits, CSRF protection, security headers, client addresses), cairn's
    HTTP handler and expvar: constructors of middlewares and handlers.  A rate limiter
    is made of its name here, its burst, its rate and the key of a request. *)
Class Libraries (libE : Type → Type) := {
  csrf_DefaultHeaderName : string;
  ratelimit_RemoteAddrKey : Request → result string;
  ratelimit_ErrNoKey : error;
  ratelimit_New : string → Z → float64 → (Request → result string) → Middleware (serverE libE);
  realip_New : list string → result (Request → result string);
  csrf_New : string → list csrfOption → result (Middleware (serverE libE));
  secureheaders_Middleware : string → Z → Middleware (serverE libE);
  expvar_Handler : Handler (serverE libE);
  cairnhttp_NewHandler : (wire → error → wire) → Handler cairnE;
}.

(** * Small pieces of main.go and health.go *)
Definition writeCSRFError (r : Request) (w : wire) : wire :=
  Write (CJson (JObj [("error", JStr "CSRF verification failed")]))
    (WriteHeader 403 (set_header "Content-Type" "application/json" w)).

Definition attachmentsEnabled (cfg : Config) : bool :=
  negb (String.eqb cfg.(cfg_AttachmentStorageDir) "") || negb (String.eqb cfg.(cfg_AttachmentS3Endpoint) "").

Definition contentSecurityPolicy : string :=
  "default-src 'none'; base-uri 'none'; form-action 'none'; frame-ancestors 'none'".
Definition quietPaths : gmap string bool := {[ "/health" := true; "/health/ready" := true ]}.

Definition healthResponse (status : string) : json := JObj [("status", JStr status)].
Definition writeHealth (w : wire) (status : Z) (body : json) : wire :=
  Write (CJson body) (WriteHeader status (set_header "Content-Type" "application/json" w)).

Section server.
Context {libE : Type → Type} `{Lib : !Libraries libE}.
Context `{San : Sanitize, Uni : unicode.Tables, Val : Validate, Csrf : CsrfProtector}.
Context `{Multi : MultipartBody, Serve : ContentServer, Reasons : RejectReasons}.
Context `{URL : RequestURL, Redir : Redirects}.
Abbreviation E := (serverE libE).

Definition userIDKey (r : Request) : result string :=
  match UserIDFromContext r.(req_Context) with
  | Some id => if String.eqb id "" then Err ratelimit_ErrNoKey else Ok id
  | None => Err ratelimit_ErrNoKey
  end.
Definition addressKeyFunc (cfg : Config) : result (Request → result string) :=
  match cfg.(cfg_TrustedProxies) with
  | [] => Ok ratelimit_RemoteAddrKey
  | proxies =>
      match realip_New proxies with
      | Err err => Err (wrap "configure trusted proxies" err)
      | Ok key => Ok key
      end
  end.

Definition registerHealthRoute : Handler E := λ r w, finish (writeHealth w 200 (healthResponse "ok")).
(** [connected]: there is a database. *)
Definition registerReadinessRoute (connected : bool) : Handler E := λ r w,
  if connected then
    err ← Vis (ops_up _ PingContext) Ret;
    match err with
    | Some _ => finish (writeHealth w 503 (healthResponse "unavailable"))
    | None => finish (writeHealth w 200 (healthResponse "ok"))
    end
  else finish (writeHealth w 200 (healthResponse "ok")).

(** * The routes of the API *)
Inductive apiRoute :=
| RUser (route : authRoute) | RTask (route : taskRoute) | RAttachment (route : attachmentRoute)
| RLink (route : linkRoute).

Definition user_routes : list (entry apiRoute) :=
  [on "POST /auth/register" (RUser POST_register); on "POST /auth/login" (RUser POST_login);
   on "GET /auth/csrf-token" (RUser GET_csrf_token); on "POST /auth/password" (RUser POST_password);
   on "POST /auth/logout" (RUser POST_logout); on "POST /auth/logout-all" (RUser POST_logout_all);
   on "GET /auth/me" (RUser GET_me); on "DELETE /auth/me" (RUser DELETE_me);
   on "GET /auth/sessions" (RUser GET_sessions); on "DELETE /auth/sessions/{id}" (RUser DELETE_session)].
Definition task_routes : list (entry apiRoute) :=
  [on "POST /tasks" (RTask POST_tasks); on "GET /tasks" (RTask GET_tasks);
   on "GET /tasks/stats" (RTask GET_tasks_stats); on "GET /tasks/export" (RTask GET_tasks_export);
   on "GET /tasks/{id}" (RTask GET_task); on "PUT /tasks/{id}" (RTask PUT_task);
   on "PATCH /tasks/{id}/done" (RTask PATCH_task_done); on "PATCH /tasks/{id}/status" (RTask PATCH_task_status);
   on "DELETE /tasks/{id}" (RTask DELETE_task)].
Definition attachment_routes : list (entry apiRoute) :=
  [on "POST /tasks/{id}/attachments" (RAttachment POST_attachments);
   on "GET /tasks/{id}/attachments" (RAttachment GET_attachments);
   on "GET /files/{key}" (RAttachment GET_file); on "DELETE /files/{key}" (RAttachment DELETE_file)].
Definition link_routes : list (entry apiRoute) :=
  [on "POST /links" (RLink POST_links); on "GET /links" (RLink GET_links);
   on "DELETE /links/{code}" (RLink DELETE_link)].
Definition v1_routes (cfg : Config) : list (entry apiRoute) :=
  user_routes ++ task_routes ++ (if attachmentsEnabled cfg then attachment_routes else [])
  ++ (if cfg.(cfg_LinkShorteningEnabled) then link_routes else []).

(** * [newServer], from the services on *)
Section newServer.
(** The configuration; the user service; whether there is a database; and how many
    chunks of an export the client stays connected for. *)
Context (cfg : Config) (userSvc : User.Service) (database : bool) (connected : nat).

Definition attachmentSvc : Attachment.Service :=
  Attachment.NewService cfg.(cfg_AttachmentMaxBytes) cfg.(cfg_AttachmentMaxBytesPerUser).
Definition requireAuth : Middleware E := RequireAuth (λ token, lift user_up (ValidateToken token)).
Definition userLimiter : Middleware E :=
  ratelimit_New "user" cfg.(cfg_UserRateLimitBurst) cfg.(cfg_UserRateLimitPerSec) userIDKey.
Definition authenticated : Middleware E := λ next, requireAuth (userLimiter next).
Definition cascade (userID : string) : prog E (option error) :=
  lift app_up (deleteAccountCascade (attachmentsEnabled cfg) userID).

Definition serveRoute (authLimiter : Middleware E) (route : apiRoute) : Handler E :=
  match route with
  | RUser route =>
      UserHandler.RegisterRoutes userSvc cfg.(cfg_CookieInsecure) (attachmentsEnabled cfg) user_up cascade
        authenticated authLimiter route
  | RTask route => TaskHandler.RegisterRoutes task_up connected authenticated route
  | RAttachment route =>
      AttachmentHandler.RegisterRoutes attachmentSvc cfg.(cfg_AttachmentMaxBytes) attach_up authenticated route
  | RLink route => Link.RegisterRoutes cfg.(cfg_LinkPublicBaseURL) link_up authenticated route
  end.

Definition serve_with {A B : Type} (f : A → B) (e : entry A) : entry B :=
  {| ent_pattern := e.(ent_pattern); ent_handler := f e.(ent_handler) |}.
(** The inner multiplexer sees the path that [StripPrefix] leaves. *)
Definition v1 (authLimiter : Middleware E) (path : list string) : Handler E :=
  ServeMux (map (serve_with (serveRoute authLimiter)) (v1_routes cfg)) path true.
Definition mounted (authLimiter : Middleware E) : Handler E := λ r,
  StripPrefix "/v1" (CacheControl "/auth/" (v1 authLimiter (tail (url_segments r)))) r.

Definition public_handler : Handler E := λ r w,
  lift link_up (NewPublicResolveHandler cairnhttp_NewHandler r w).
Definition debug_vars : Handler E := authenticated (CacheControl "/debug/vars" expvar_Handler).
Definition mux (authLimiter : Middleware E) : list (entry (Handler E)) :=
  [on "GET /debug/vars" debug_vars] ++
  (if cfg.(cfg_LinkShorteningEnabled) then [on "/{code}" public_handler] else []) ++
  [on "/v1/" (mounted authLimiter)].

Definition root (globalLimiter authLimiter : Middleware E) : list (entry (Handler E)) :=
  [on "GET /health" registerHealthRoute; on "GET /health/ready" (registerReadinessRoute database);
   on "/" (globalLimiter (λ r, ServeMux (mux authLimiter) (url_segments r) (url_clean r) r))].

Definition rootHandler (addressKey : Request → result string) (csrfProtector : Middleware E) : Handler E :=
  let globalLimiter := ratelimit_New "global" cfg.(cfg_RateLimitBurst) cfg.(cfg_RateLimitPerSec) addressKey in
  let authLimiter := ratelimit_New "auth" cfg.(cfg_AuthRateLimitBurst) cfg.(cfg_AuthRateLimitPerSec) addressKey in
  Chain
    [RequestID; RealIP addressKey; Logging quietPaths;
     secureheaders_Middleware contentSecurityPolicy cfg.(cfg_HSTSMaxAge);
     CORS csrf_DefaultHeaderName cfg.(cfg_CORSAllowedOrigins); CSRF csrfProtector; Recovery true]
    (λ r, ServeMux (root globalLimiter authLimiter) (url_segments r) (url_clean r) r).

Definition csrfOpts : list csrfOption :=
  [WithErrorHandler writeCSRFError] ++
  (if cfg.(cfg_CookieInsecure) then [WithInsecureCookie] else []) ++
  (match cfg.(cfg_CORSAllowedOrigins) with [] => [] | origins => [WithTrustedOrigins origins] end).

(** The handler [newServer] arrives at, and what can keep it from being built. *)
Definition newHandler : result (Handler E) :=
  match csrf_New cfg.(cfg_CSRFSecret) csrfOpts with
  | Err err => Err (wrap "build csrf protector" err)
  | Ok csrfProtector =>
      match addressKeyFunc cfg with
      | Err err => Err err
      | Ok addressKey => Ok (rootHandler addressKey csrfProtector)
      end
  end.
End newServer.
End server.
