(* ===== verification/Telemetry.v ===== *)
(** [cmd/api]: what the process tells about itself: the handler that mirrors the log to
    crier and the variables of [/debug/vars] (crier.go, db_stats.go, main.go), and the
    lines and figures of the circuit breakers (db_breaker.go, attachment_breaker.go). *)

From S2P Require Import Prelude GoStd GoError Text Http.
Local Open Scope Z_scope.

(** * The mirrored log *)

(** [log/slog]: levels are numbers; a value of kind [Any] or [Group] is known by its
    text; a [LogValuer] stands for another value. *)
Definition slog_LevelDebug : Z := -4.
Definition slog_LevelInfo : Z := 0.
Definition slog_LevelWarn : Z := 4.
Definition slog_LevelError : Z := 8.
Inductive slog_value :=
| KindString (s : string) | KindBool (b : bool) | KindInt64 (n : Z) | KindUint64 (n : Z)
| KindFloat64 (bits : Z) | KindDuration (d : Z) | KindTime (t : Z)
| KindAny (text : string) | KindGroup (text : string) | KindLogValuer (v : slog_value).
Abbreviation slog_attr := (string * slog_value)%type.
Record slog_record := { rec_Time : Z; rec_Level : Z; rec_Message : string; rec_Attrs : list slog_attr }.
(** [Level.String]. *)
Definition level_String (l : Z) : string :=
  let str base d :=
    if d =? 0 then base else base +:+ (if 0 <=? d then "+" else "") +:+ strconv.Itoa d in
  if l <? slog_LevelInfo then str "DEBUG" (l - slog_LevelDebug)
  else if l <? slog_LevelWarn then str "INFO" (l - slog_LevelInfo)
  else if l <? slog_LevelError then str "WARN" (l - slog_LevelWarn)
  else str "ERROR" (l - slog_LevelError).
Example level_names : map level_String [-8; -4; 0; 2; 4; 8; 9] = ["DEBUG-4"; "DEBUG"; "INFO"; "INFO+2"; "WARN"; "ERROR"; "ERROR+1"].
Proof. reflexivity. Qed.

(** The interface [slog.Handler], over what handling changes. *)
Record SlogHandler (H S : Type) := {
  Enabled : H → Z → bool;
  Handle : H → slog_record → S → S * option error;
  WithAttrs : H → list slog_attr → H;
  WithGroup : H → string → H;
}.
Arguments Enabled {H S} s.
Arguments Handle {H S} s.
Arguments WithAttrs {H S} s.
Arguments WithGroup {H S} s.

(** crier's record; an attribute is a value it keeps, or a text. *)
Inductive Severity := SeverityDebug | SeverityInfo | SeverityWarn | SeverityError.
Inductive mirrored := Kept (v : slog_value) | Stringified (text : string).
Record LogRecord := {
  cr_Timestamp : Z;
  cr_Severity : Severity;
  cr_SeverityText : string;
  cr_Body : string;
  cr_Attributes : gmap string mirrored;
}.

Definition crierSeverity (level : Z) : Severity :=
  if slog_LevelError <=? level then SeverityError
  else if slog_LevelWarn <=? level then SeverityWarn
  else if slog_LevelInfo <=? level then SeverityInfo
  else SeverityDebug.
Fixpoint Resolve (v : slog_value) : slog_value :=
  match v with KindLogValuer v => Resolve v | _ => v end.
Definition crierAttrValue (v : slog_value) : mirrored :=
  match Resolve v with
  | KindAny text | KindGroup text => Stringified text
  | v => Kept v
  end.

Section tee.
Context {H S C : Type} (wrapped : SlogHandler H S) (crier_Log : LogRecord → C → C * option error).

Record crierTeeHandler := { tee_wrapped : H; tee_attrs : list slog_attr }.
Definition newCrierTeeHandler (h : H) : crierTeeHandler := {| tee_wrapped := h; tee_attrs := [] |}.

(** Both loops that fill [attrs]. *)
Definition fill (l : list slog_attr) (attrs : gmap string mirrored) : gmap string mirrored :=
  fold_left (λ attrs a, <[a.1 := crierAttrValue a.2]> attrs) l attrs.
Definition tee_Handle (h : crierTeeHandler) (record : slog_record) (s : S * C) : (S * C) * option error :=
  let '(s1, werr) := wrapped.(Handle) h.(tee_wrapped) record s.1 in
  let attrs := fill h.(tee_attrs) ∅ in
  let attrs := fill record.(rec_Attrs) attrs in
  let '(c1, _) := crier_Log {| cr_Timestamp := record.(rec_Time); cr_Severity := crierSeverity record.(rec_Level);
                               cr_SeverityText := level_String record.(rec_Level); cr_Body := record.(rec_Message);
                               cr_Attributes := attrs |} s.2 in
  ((s1, c1), werr).
Definition tee : SlogHandler crierTeeHandler (S * C) := {|
  Enabled h level := wrapped.(Enabled) h.(tee_wrapped) level;
  Handle := tee_Handle;
  WithAttrs h attrs := {| tee_wrapped := wrapped.(WithAttrs) h.(tee_wrapped) attrs; tee_attrs := h.(tee_attrs) ++ attrs |};
  WithGroup h name := {| tee_wrapped := wrapped.(WithGroup) h.(tee_wrapped) name; tee_attrs := h.(tee_attrs) |};
|}.
End tee.
Arguments tee_wrapped {H} c.
Arguments tee_attrs {H} c.

(** A logger: the handler that [With] and [WithGroup] derive, asked for a record when
    its level is enabled. *)
Inductive derivation := With (attrs : list slog_attr) | Group (name : string).
Section logger.
Context {H S : Type} (ops : SlogHandler H S).
Definition derive (h : H) (ds : list derivation) : H :=
  fold_left (λ h d, match d with With attrs => ops.(WithAttrs) h attrs | Group name => ops.(WithGroup) h name end) ds h.
Definition log_one (h : H) (line : list derivation * slog_record) (s : S) : S * option error :=
  let h := derive h line.1 in
  if ops.(Enabled) h line.2.(rec_Level) then ops.(Handle) h line.2 s else (s, None).
Fixpoint log_lines (h : H) (lines : list (list derivation * slog_record)) (s : S) : S * list (option error) :=
  match lines with
  | [] => (s, [])
  | line :: lines =>
      let '(s, err) := log_one h line s in
      let '(s, errs) := log_lines h lines s in (s, err :: errs)
  end.
End logger.

(** * /debug/vars *)

(** [expvar.Publish] panics ([None]) on a name that is taken; a [sync.Once] by its name. *)
Record Vars := { published : gset string; onces : gset string }.
Definition Publish (name : string) (v : Vars) : option Vars :=
  if bool_decide (name ∈ v.(published)) then None
  else Some {| published := {[name]} ∪ v.(published); onces := v.(onces) |}.
Definition Do (once : string) (f : Vars → option Vars) (v : Vars) : option Vars :=
  if bool_decide (once ∈ v.(onces)) then Some v
  else f {| published := v.(published); onces := {[once]} ∪ v.(onces) |}.
Definition publishBuildInfoOnce : Vars → option Vars :=
  Do "buildInfoOnce" (λ v, v ← Publish "version" v; Publish "commit" v).
Definition publishCrierExpvarOnce : Vars → option Vars :=
  Do "crierExpvarOnce" (λ v, v ← Publish "crier_buffer_depth" v; Publish "crier_records_dropped" v).
Definition publishAttachmentBreakerExpvarOnce : Vars → option Vars :=
  Do "attachmentBreakerExpvarOnce" (λ v, v ← Publish "attachment_s3_breaker" v; Publish "attachment_s3_list_breaker" v).
Definition publishDBBreakerExpvarOnce : Vars → option Vars := Do "dbBreakerExpvarOnce" (Publish "postgres_breaker").
Definition publishDBStatsExpvarOnce : Vars → option Vars := Do "dbStatsExpvarOnce" (Publish "db_stats").
(** [expvar] itself publishes two. *)
Definition start_vars : Vars := {| published := {["cmdline"; "memstats"]}; onces := ∅ |}.

(** ** The figures *)
Definition crierDropReasons : list string :=
  ["DropInvalid"; "DropRedactionFailed"; "DropSourceQuota"; "DropBufferFull"; "DropOldest"; "DropBackendUnavailable";
   "DropShutdownTimeout"].
(** [depth] and [dropped] of the current pipeline, if there is one. *)
Definition crier_buffer_depth (depth : option Z) : Z := default 0 depth.
Definition crier_records_dropped (dropped : option (string → Z)) : gmap string Z :=
  fold_left (λ out reason, <[reason := match dropped with Some n => n reason | None => 0 end]> out) crierDropReasons ∅.

(** bastion's breaker: its states with their names, what it counts, its events. *)
Inductive breaker_state := StateClosed | StateOpen | StateHalfOpen.
Class BreakerNames := { state_String : breaker_state → string; time_RFC3339 : Z → string; duration_String : Z → string }.
Record Counts := {
  bc_State : breaker_state;
  bc_ConsecutiveFailures : Z;
  bc_FailureThreshold : Z;
  bc_OpenedAt : option Z;
  bc_Manual : bool;
}.
Record attachmentBreakerVars := {
  bv_State : string;
  bv_ConsecutiveFailures : Z;
  bv_FailureThreshold : Z;
  bv_OpenedAt : string;
  bv_Manual : bool;
}.
Definition attachmentBreakerSnapshot `{BreakerNames} (b : option Counts) : attachmentBreakerVars :=
  match b with
  | None => {| bv_State := "disabled"; bv_ConsecutiveFailures := 0; bv_FailureThreshold := 0; bv_OpenedAt := ""; bv_Manual := false |}
  | Some c =>
      {| bv_State := state_String c.(bc_State); bv_ConsecutiveFailures := c.(bc_ConsecutiveFailures);
         bv_FailureThreshold := c.(bc_FailureThreshold);
         bv_OpenedAt := match c.(bc_OpenedAt) with Some t => time_RFC3339 t | None => "" end;
         bv_Manual := c.(bc_Manual) |}
  end.
Record StateChangeEvent := { sc_Name : string; sc_From : breaker_state; sc_To : breaker_state; sc_Manual : bool }.
Record CallEvent := { ce_Name : string; ce_State : breaker_state; ce_Counted : bool; ce_Err : option error }.

Definition OnStateChange `{BreakerNames} (msg : string) (ev : StateChangeEvent) : LogEntry :=
  let level := match ev.(sc_To) with StateOpen => LevelWarn | _ => LevelInfo end in
  {| log_level := level; log_msg := msg;
     log_attrs := [("breaker", AStr ev.(sc_Name)); ("from", AStr (state_String ev.(sc_From)));
                   ("to", AStr (state_String ev.(sc_To))); ("manual", ABool ev.(sc_Manual))] |}.
Definition OnCall `{BreakerNames} (msg : string) (ev : CallEvent) : option LogEntry :=
  match ev.(ce_Counted), ev.(ce_Err) with
  | true, Some err =>
      Some {| log_level := LevelWarn; log_msg := msg;
              log_attrs := [("breaker", AStr ev.(ce_Name)); ("state", AStr (state_String ev.(ce_State))); ("error", AErr err)] |}
  | _, _ => None
  end.
Record Hooks := { hook_StateChange : StateChangeEvent → LogEntry; hook_Call : CallEvent → option LogEntry }.
Definition attachmentBreakerHooks `{BreakerNames} : Hooks :=
  {| hook_StateChange := OnStateChange "attachment store circuit breaker state change";
     hook_Call := OnCall "attachment store call failed" |}.
Definition dbBreakerHooks `{BreakerNames} : Hooks :=
  {| hook_StateChange := OnStateChange "postgres circuit breaker state change";
     hook_Call := OnCall "postgres call failed" |}.

Record DBStats := {
  st_MaxOpenConnections : Z; st_OpenConnections : Z; st_InUse : Z; st_Idle : Z; st_WaitCount : Z; st_WaitDuration : Z;
}.
Record dbStatsVars := {
  dv_MaxOpenConnections : Z; dv_OpenConnections : Z; dv_InUse : Z; dv_Idle : Z; dv_WaitCount : Z; dv_WaitDuration : string;
}.
Definition dbStatsSnapshot `{BreakerNames} (db : option DBStats) : dbStatsVars :=
  match db with
  | None =>
      {| dv_MaxOpenConnections := 0; dv_OpenConnections := 0; dv_InUse := 0; dv_Idle := 0; dv_WaitCount := 0; dv_WaitDuration := "" |}
  | Some s =>
      {| dv_MaxOpenConnections := s.(st_MaxOpenConnections); dv_OpenConnections := s.(st_OpenConnections);
         dv_InUse := s.(st_InUse); dv_Idle := s.(st_Idle); dv_WaitCount := s.(st_WaitCount);
         dv_WaitDuration := duration_String s.(st_WaitDuration) |}
  end.

(** * Theorems *)

(** The value under a key is the last one it was given. *)
Lemma fill_lookup l m k :
  fill l m !! k = match last (base.filter (λ a, a.1 = k) l) with Some a => Some (crierAttrValue a.2) | None => m !! k end.
Proof.
  unfold fill. revert m; induction l as [|a l IH]; intros m; [done|]. cbn [fold_left]. rewrite IH, filter_cons.
  destruct (decide (a.1 = k)) as [<-|Hk].
  - rewrite last_cons. destruct (last _); [done|]. apply lookup_insert_eq.
  - destruct (last _); [done|]. by rewrite lookup_insert_ne.
Qed.
Lemma fill_app l l' m : fill (l ++ l') m = fill l' (fill l m).
Proof. apply fold_left_app. Qed.

Definition severity_rank (s : Severity) : Z :=
  match s with SeverityDebug => 0 | SeverityInfo => 1 | SeverityWarn => 2 | SeverityError => 3 end.
Lemma crierSeverity_monotone l l' : l ≤ l' → severity_rank (crierSeverity l) ≤ severity_rank (crierSeverity l').
Proof.
  intros Hl. unfold crierSeverity, slog_LevelError, slog_LevelWarn, slog_LevelInfo.
  repeat case_match; bool_to_prop; cbn; lia.
Qed.

Section transparent.
Context {H S C : Type} (wrapped : SlogHandler H S) (crier_Log : LogRecord → C → C * option error).
Abbreviation mirror := (tee wrapped crier_Log).

(** The attributes that a derived logger carries. *)
Definition carried (ds : list derivation) : list slog_attr :=
  concat (map (λ d, match d with With attrs => attrs | Group _ => [] end) ds).
(** What crier is told of one line. *)
Definition mirrored_line (line : list derivation * slog_record) : LogRecord :=
  {| cr_Timestamp := line.2.(rec_Time); cr_Severity := crierSeverity line.2.(rec_Level);
     cr_SeverityText := level_String line.2.(rec_Level); cr_Body := line.2.(rec_Message);
     cr_Attributes := fill (carried line.1 ++ line.2.(rec_Attrs)) ∅ |}.
Definition enabled_lines (h : H) (lines : list (list derivation * slog_record)) : list (list derivation * slog_record) :=
  List.filter (λ line, wrapped.(Enabled) (derive wrapped h line.1) line.2.(rec_Level)) lines.

Lemma derive_tee (h : crierTeeHandler (H := H)) ds :
  derive mirror h ds = {| tee_wrapped := derive wrapped h.(tee_wrapped) ds; tee_attrs := h.(tee_attrs) ++ carried ds |}.
Proof.
  revert h; induction ds as [|d ds IH]; intros [h attrs]; [cbn; by rewrite app_nil_r|].
  destruct d as [new|name].
  - change (derive mirror ?x (With new :: ds)) with (derive mirror (mirror.(WithAttrs) x new) ds). rewrite IH. cbn.
    by rewrite app_assoc.
  - change (derive mirror ?x (Group name :: ds)) with (derive mirror (mirror.(WithGroup) x name) ds). by rewrite IH.
Qed.
(** Mirroring the log to crier does not change it: whatever lines are written, through
    whatever loggers derived from the first, the wrapped handler ends in the state and
    answers with the errors it would without crier, even when crier refuses a record;
    and crier gets, in order, each line that was written and no other, at a severity
    that grows with the level, under every key the value it was given last, the line's
    own before the logger's. *)
Theorem tee_is_transparent (h : H) lines s c :
  let '((s', c'), errs) := log_lines mirror (newCrierTeeHandler h) lines (s, c) in
  log_lines wrapped h lines s = (s', errs) ∧
  c' = fold_left (λ c line, (crier_Log (mirrored_line line) c).1) (enabled_lines h lines) c.
Proof.
  revert s c; induction lines as [|line lines IH]; intros s c; [done|]. cbn [log_lines].
  unfold log_one. rewrite derive_tee. cbn [newCrierTeeHandler tee_wrapped tee_attrs app Enabled Handle tee].
  unfold enabled_lines in *. cbn [List.filter]. destruct (Enabled wrapped _ _).
  - unfold tee_Handle. cbn [tee_wrapped tee_attrs fst snd]. destruct (Handle wrapped _ _ s) as [s1 werr].
    rewrite <-fill_app. change {| cr_Timestamp := _ |} with (mirrored_line line). cbn [fold_left].
    destruct (crier_Log (mirrored_line line) c) as [c1 e]. cbn [fst]. specialize (IH s1 c1).
    destruct (log_lines mirror _ lines (s1, c1)) as [[s' c'] errs]. by destruct IH as [-> ->].
  - specialize (IH s c). destruct (log_lines mirror _ lines (s, c)) as [[s' c'] errs]. by destruct IH as [-> ->].
Qed.
End transparent.

(** ** Publishing *)
Definition publishers : list (Vars → option Vars) :=
  [publishBuildInfoOnce; publishCrierExpvarOnce; publishAttachmentBreakerExpvarOnce; publishDBBreakerExpvarOnce;
   publishDBStatsExpvarOnce].
(** The names each [sync.Once] guards. *)
Definition guarded_names : list (string * list string) :=
  [("buildInfoOnce", ["version"; "commit"]); ("crierExpvarOnce", ["crier_buffer_depth"; "crier_records_dropped"]);
   ("attachmentBreakerExpvarOnce", ["attachment_s3_breaker"; "attachment_s3_list_breaker"]);
   ("dbBreakerExpvarOnce", ["postgres_breaker"]); ("dbStatsExpvarOnce", ["db_stats"])].
Fixpoint publish_names (names : list string) (v : Vars) : option Vars :=
  match names with
  | [] => Some v
  | [name] => Publish name v
  | name :: names => v ← Publish name v; publish_names names v
  end.
Lemma publisher_names p :
  p ∈ publishers → ∃ once names, (once, names) ∈ guarded_names ∧ p = Do once (publish_names names).
Proof.
  intros Hp. assert (p ∈ map (λ g, Do g.1 (publish_names g.2)) guarded_names) as Hin by exact Hp.
  apply list_elem_of_fmap in Hin as ([once names] & -> & Hg). by exists once, names.
Qed.
(** Names are published with their [sync.Once], never without; they are all different. *)
Definition vars_ok (v : Vars) : Prop :=
  ∀ once names, (once, names) ∈ guarded_names → once ∈ v.(onces) ∨ ∀ n, n ∈ names → n ∉ v.(published).
Definition names_apart : Prop :=
  Forall (λ g, NoDup g.2 ∧ Forall (λ g', g.1 = g'.1 ∨ Forall (λ n, n ∉ g'.2) g.2) guarded_names) guarded_names.
Lemma names_are_apart : names_apart.
Proof. apply (bool_decide_unpack names_apart). vm_compute. exact I. Qed.

Lemma publish_names_ok names v :
  NoDup names → (∀ n, n ∈ names → n ∉ v.(published)) →
  ∃ v', publish_names names v = Some v' ∧ v'.(onces) = v.(onces) ∧ ∀ n, n ∈ v'.(published) ↔ n ∈ names ∨ n ∈ v.(published).
Proof.
  revert v; induction names as [|name names IH]; intros v Hd Hn; [exists v; set_solver|]. apply NoDup_cons in Hd as [Hni Hd].
  set (v1 := {| published := {[name]} ∪ v.(published); onces := v.(onces) |}).
  assert (Publish name v = Some v1) as Hp by (unfold Publish; rewrite bool_decide_eq_false_2; [done|apply Hn; left]).
  assert (publish_names (name :: names) v = publish_names names v1) as ->.
  { destruct names as [|n' ns]; cbn [publish_names]; by rewrite Hp. }
  destruct (IH v1 Hd) as (v' & Hv' & Ho & Hin); [unfold v1; cbn; set_solver|]. exists v'. split; [done|]. split; [done|].
  intros n. rewrite Hin. unfold v1. cbn. set_solver.
Qed.
Lemma publisher_ok p v : p ∈ publishers → vars_ok v → ∃ v', p v = Some v' ∧ vars_ok v'.
Proof.
  intros (once & names & Hg & ->)%publisher_names Hv. unfold Do. case_bool_decide as Ho; [by exists v|].
  pose proof names_are_apart as Ha. unfold names_apart in Ha. rewrite Forall_forall in Ha.
  destruct (Ha _ Hg) as [Hd Hother]. destruct (Hv _ _ Hg) as [?|Hn]; [done|].
  destruct (publish_names_ok names {| published := v.(published); onces := {[once]} ∪ v.(onces) |} Hd Hn) as (v' & -> & Ho' & Hin).
  exists v'. split; [done|]. intros once' names' Hg'. rewrite Ho'. cbn.
  rewrite Forall_forall in Hother. specialize (Hother _ Hg'). cbn in Hother, Hin.
  destruct (Hv _ _ Hg') as [?|Hn']; [left; set_solver|].
  destruct Hother as [<-|Hother]; [left; set_solver|]. right. intros n Hn1. rewrite Hin. rewrite Forall_forall in Hother.
  intros [Hc|Hc]; [by apply (Hother n Hc)|by apply (Hn' n)].
Qed.
Lemma start_vars_ok : vars_ok start_vars.
Proof.
  intros once names Hg. right.
  assert (Forall (λ g, Forall (λ n, n ∉ published start_vars) g.2) guarded_names) as Hf.
  { apply (bool_decide_unpack (Forall _ _)). vm_compute. exact I. }
  rewrite Forall_forall in Hf. specialize (Hf _ Hg). by rewrite Forall_forall in Hf.
Qed.
(** However often and in whatever order the variables are published, no name is
    published twice, which would panic. *)
Theorem publishing_never_panics (ps : list (Vars → option Vars)) :
  Forall (λ p, p ∈ publishers) ps →
  ∃ v, foldr (λ p o, v ← o; p v) (Some start_vars) ps = Some v ∧ vars_ok v.
Proof.
  induction 1 as [|p ps Hp _ (v & Hv & Hok)].
  - exists start_vars. split; [done|apply start_vars_ok].
  - destruct (publisher_ok p v Hp Hok) as (v' & Hv' & Hok'). exists v'. cbn [foldr]. by rewrite Hv.
Qed.

(** ** The breakers' lines *)
Theorem breaker_lines `{BreakerNames} hooks :
  hooks = attachmentBreakerHooks ∨ hooks = dbBreakerHooks →
  (∀ ev, (hooks.(hook_StateChange) ev).(log_level) = LevelWarn ↔ ev.(sc_To) = StateOpen) ∧
  (∀ ev, is_Some (hooks.(hook_Call) ev) ↔ ev.(ce_Counted) = true ∧ is_Some ev.(ce_Err)).
Proof.
  intros Hh. split; intros ev.
  - assert (log_level (hook_StateChange hooks ev) = match ev.(sc_To) with StateOpen => LevelWarn | _ => LevelInfo end) as ->
      by by destruct Hh as [-> | ->].
    by destruct (sc_To ev).
  - assert (is_Some (hook_Call hooks ev) ↔ match ev.(ce_Counted), ev.(ce_Err) with true, Some _ => True | _, _ => False end) as ->.
    { destruct Hh as [-> | ->]; cbn; unfold OnCall; destruct (ce_Counted ev), (ce_Err ev); rewrite ?is_Some_alt; naive_solver. }
    destruct (ce_Counted ev), (ce_Err ev); rewrite ?is_Some_alt; naive_solver.
Qed.
