(* ===== verification/Startup.v ===== *)
(** [cmd/api]: how the process comes up and goes down (main.go, crier.go): what is
    opened, in which order, what is closed when a step fails, and what [closeAll]
    closes at the end. *)

From S2P Require Import Prelude GoStd GoError Http Mux Middleware Task TaskHandler.
From S2P Require Import Attachment AttachmentHandler Link Config Wiring User UserHandler Server.
Local Open Scope Z_scope.

(** * What is opened *)
Inductive resource :=
| RCrier | RDatabase | RRedis | RGlobalLimiter | RAuthLimiter | RUserLimiter | RBlobs.
#[export] Instance resource_eq_dec : EqDecision resource.
Proof. solve_decision. Defined.
#[export] Instance resource_countable : Countable resource.
Proof.
  refine (inj_countable' (λ r, match r with
    | RCrier => 0 | RDatabase => 1 | RRedis => 2 | RGlobalLimiter => 3 | RAuthLimiter => 4 | RUserLimiter => 5
    | RBlobs => 6 end)%nat
    (λ n, match n with
    | 0 => RCrier | 1 => RDatabase | 2 => RRedis | 3 => RGlobalLimiter | 4 => RAuthLimiter | 5 => RUserLimiter
    | _ => RBlobs end)%nat _).
  by intros [].
Defined.

(** The constructors of libraries that [main] calls, and [Close] (of the database, the
    Redis client, a limiter, the store of bytes; of crier it is [Shutdown]). *)
Inductive startE : Type → Type :=
| otlp_New (endpoint : string) : startE (option error)
| crier_New : startE (option error)
| sql_Open (dsn : string) : startE (option error)
| db_PingContext : startE (option error)
| RunMigrations : startE (option error)
| bastion_New (name : string) : startE (option error)
| redis_NewClient : startE unit
| memory_New : startE (option error)
| redisstore_New : startE (option error)
| redisstore_NewBus : startE (option error)
| cistern_New : startE (option error)
| ratelimit_Make (limiter : resource) : startE unit
| NewS3BlobStore : startE (option error)
| NewFSBlobStore (dir : string) : startE (option error)
| url_Parse (s : string) : startE (option error)
| cairn_New : startE (option error)
| link_NewService : startE (option error)
| GoPeriodicCleanup (orphans : bool) : startE unit
| Close (r : resource) : startE (option error)
| Log (level : Level) (message : string) : startE unit.

Section startup.
Local Open Scope prog_scope.

(** [if err := call; err != nil { cleanup; return fmt.Errorf(what + ": %w", err) }]. *)
Definition or_fail {A} (call : prog startE (option error)) (cleanup : prog startE unit) (what : string)
    (k : prog startE (result A)) : prog startE (result A) :=
  err ← call;
  match err with
  | Some e => _ ← cleanup; mret (Err (wrap what e))
  | None => k
  end.
Definition Close_ (r : resource) : prog startE unit := _ ← trigger (Close r); mret tt.
Definition nothing : prog startE unit := mret tt.

(** ** The pieces *)
Definition buildCrier (cfg : Config) : prog startE (result bool) :=
  if String.eqb cfg.(cfg_CrierOTLPEndpoint) "" then mret (Ok false)
  else
    or_fail (trigger (otlp_New cfg.(cfg_CrierOTLPEndpoint))) nothing "crier: build otlp exporter" (
    or_fail (trigger crier_New) nothing "crier" (
    mret (Ok true))).
Definition shutdownCrier (crier : bool) : prog startE (option error) :=
  if crier then
    err ← trigger (Close RCrier);
    match err with
    | Some e => mret (Some (wrap "crier: shutdown" e))
    | None => mret None
    end
  else mret None.

(** Whether there is a database. *)
Definition openDatabase (cfg : Config) : prog startE (result bool) :=
  if String.eqb cfg.(cfg_DatabaseURL) "" then mret (Ok false)
  else
    or_fail (trigger (sql_Open cfg.(cfg_DatabaseURL))) nothing "open database" (
    or_fail (trigger db_PingContext) (Close_ RDatabase) "ping database" (
    if cfg.(cfg_DBAutoMigrate) then
      or_fail (trigger RunMigrations) (Close_ RDatabase) "run migrations" (
      _ ← trigger (Log LevelInfo "database migrations applied"); mret (Ok true))
    else mret (Ok true))).

(** Whether there is a cache to close. *)
Definition buildCachedTaskRepository (cfg : Config) : prog startE (result bool) :=
  if String.eqb cfg.(cfg_RedisAddr) "" then mret (Ok false)
  else
    _ ← trigger redis_NewClient;
    or_fail (trigger memory_New) (Close_ RRedis) "build task cache L1" (
    or_fail (trigger redisstore_New) (Close_ RRedis) "build task cache L2" (
    or_fail (trigger redisstore_NewBus) (Close_ RRedis) "build task cache bus" (
    or_fail (trigger cistern_New) (Close_ RRedis) "build cached task repository" (
    mret (Ok true))))).
(** [closeCache]; closing the cache itself does not fail. *)
Definition closeCache (cache : bool) : prog startE (option error) :=
  if cache then trigger (Close RRedis) else mret None.

Definition buildBlobStore (cfg : Config) : prog startE (result unit) :=
  if negb (String.eqb cfg.(cfg_AttachmentS3Endpoint) "") then
    err ← trigger NewS3BlobStore;
    match err with
    | Some e => mret (Err e)
    | None =>
        or_fail (trigger (bastion_New "attachment-s3")) (Close_ RBlobs) "attachment: build breaker" (
        or_fail (trigger (bastion_New "attachment-s3-list")) (Close_ RBlobs) "attachment: build breaker" (
        mret (Ok tt)))
    end
  else
    err ← trigger (NewFSBlobStore cfg.(cfg_AttachmentStorageDir));
    mret (match err with Some e => Err e | None => Ok tt end).
Definition closeBlobs (blobs : bool) : prog startE (option error) :=
  if blobs then trigger (Close RBlobs) else mret None.
Definition closeLimiters : prog startE unit :=
  _ ← Close_ RGlobalLimiter; _ ← Close_ RAuthLimiter; Close_ RUserLimiter.
Definition closeDB (database : bool) : prog startE (option error) :=
  if database then trigger (Close RDatabase) else mret None.
Definition closeDB_ (database : bool) : prog startE unit := _ ← closeDB database; mret tt.
Definition closeBlobs_ (blobs : bool) : prog startE unit := _ ← closeBlobs blobs; mret tt.
End startup.

(** * [newServer] *)
Section newServer.
Context {libE : Type → Type} `{Lib : !Libraries libE}.
Context `{San : Sanitize, Uni : unicode.Tables, Val : Validate, Csrf : CsrfProtector}.
Context `{Multi : MultipartBody, Serve : ContentServer, Reasons : RejectReasons}.
Context `{URL : RequestURL, Redir : Redirects}.
(** The hash that logins of unknown users are compared with; how many chunks of an
    export the client stays connected for. *)
Context (dummyHash : string) (connected : nat).

(** The server, and what its closing function has captured. *)
Record builtServer := {
  srv_Handler : Handler (serverE libE);
  srv_crier : bool;
  srv_database : bool;
  srv_cache : bool;
  srv_blobs : bool;
}.

Definition newUserService (cfg : Config) : User.Service :=
  {| sessionTTL := cfg.(cfg_AuthSessionTTL); maxSessionsPerUser := cfg.(cfg_AuthMaxSessionsPerUser);
     dummyPasswordHash := dummyHash |}.

Local Open Scope prog_scope.

(** From the limiters on: the stores of bytes, the links, and the server. *)
Definition newServer_rest (cfg : Config) (crier db cache : bool) (addressKey : Request → result string)
    (csrfProtector : Middleware (serverE libE)) : prog startE (result builtServer) :=
  let close_db := closeDB_ db in
  _ ← trigger (ratelimit_Make RGlobalLimiter);
  _ ← trigger (ratelimit_Make RAuthLimiter);
  _ ← trigger (ratelimit_Make RUserLimiter);
  stored ← (if attachmentsEnabled cfg then buildBlobStore cfg else mret (Ok tt));
  match stored with
  | Err e => _ ← closeLimiters; _ ← close_db; mret (Err (wrap "open attachment storage" e))
  | Ok _ =>
      let blobs := attachmentsEnabled cfg in
      let close_all := (_ ← closeLimiters; _ ← close_db; closeBlobs_ blobs) in
      let served :=
        _ ← trigger (GoPeriodicCleanup blobs);
        mret (Ok {| srv_Handler := rootHandler cfg (newUserService cfg) db connected addressKey csrfProtector;
                    srv_crier := crier; srv_database := db; srv_cache := cache; srv_blobs := blobs |}) in
      if cfg.(cfg_LinkShorteningEnabled) then
        or_fail (trigger (url_Parse cfg.(cfg_LinkPublicBaseURL))) close_all "parse LINK_PUBLIC_BASE_URL" (
        or_fail (trigger cairn_New) close_all "build link shortener" (
        or_fail (trigger link_NewService) close_all "build link service" served))
      else served
  end.

Definition newServer (cfg : Config) (crier : bool) : prog startE (result builtServer) :=
  opened ← openDatabase cfg;
  match opened with
  | Err e => mret (Err (wrap "open database" e))
  | Ok db =>
      let close_db := closeDB_ db in
      or_fail (if db then trigger (bastion_New "postgres") else mret None) close_db "build database breaker" (
      cached ← buildCachedTaskRepository cfg;
      match cached with
      | Err e => _ ← close_db; mret (Err (wrap "build cached task repository" e))
      | Ok cache =>
          match csrf_New cfg.(cfg_CSRFSecret) (csrfOpts cfg) with
          | Err e => mret (Err (wrap "build csrf protector" e))
          | Ok csrfProtector =>
              match addressKeyFunc cfg with
              | Err e => _ ← close_db; mret (Err e)
              | Ok addressKey => newServer_rest cfg crier db cache addressKey csrfProtector
              end
          end
      end)
  end.

(** The closing function of the server. *)
Definition closeAll (sv : builtServer) : prog startE (option error) :=
  _ ← closeLimiters;
  err ← closeBlobs sv.(srv_blobs);
  match err with
  | Some e => mret (Some e)
  | None =>
      err ← closeCache sv.(srv_cache);
      match err with
      | Some e => mret (Some e)
      | None =>
          err ← shutdownCrier sv.(srv_crier);
          match err with
          | Some e => mret (Some e)
          | None => closeDB sv.(srv_database)
          end
      end
  end.

(** [run], up to the server. *)
Definition start (cfg : Config) : prog startE (result builtServer) :=
  built ← buildCrier cfg;
  match built with
  | Err e => mret (Err (wrap "build crier" e))
  | Ok crier =>
      _ ← trigger (Log LevelInfo "build info");
      served ← newServer cfg crier;
      match served with
      | Err e => mret (Err (wrap "build server" e))
      | Ok sv => mret (Ok sv)
      end
  end.
End newServer.
#[global] Arguments builtServer libE : clear implicits.

(** * What is open

    [handle_start] answers calls by any oracle and keeps the set of what was opened
    and not closed since. *)
Definition ledger {X} (e : startE X) : X → gset resource → gset resource :=
  match e in startE X return X → gset resource → gset resource with
  | crier_New => λ x l, match x with None => {[ RCrier ]} ∪ l | Some _ => l end
  | sql_Open _ => λ x l, match x with None => {[ RDatabase ]} ∪ l | Some _ => l end
  | redis_NewClient => λ _ l, {[ RRedis ]} ∪ l
  | ratelimit_Make r => λ _ l, {[ r ]} ∪ l
  | NewS3BlobStore => λ x l, match x with None => {[ RBlobs ]} ∪ l | Some _ => l end
  | NewFSBlobStore _ => λ x l, match x with None => {[ RBlobs ]} ∪ l | Some _ => l end
  | Close r => λ _ l, l ∖ {[ r ]}
  | _ => λ _ l, l
  end.
Definition handle_start {O} (oracle : handler startE O) : handler startE (O * gset resource) :=
  λ X e '(o, l), let '(o', x) := oracle X e o in ((o', ledger e x l), x).

(** What a program may end with, whatever the calls answer. *)
Fixpoint may_end {A} (p : prog startE A) (l : gset resource) (Q : A → gset resource → Prop) : Prop :=
  match p with
  | Ret a => Q a l
  | Vis e k => ∀ x, may_end (k x) (ledger e x l) Q
  end.
Lemma may_end_run {A O} (p : prog startE A) (oracle : handler startE O) o l Q : may_end p l Q →
  let '((_, l'), a) := run (handle_start oracle) p (o, l) in Q a l'.
Proof.
  revert o l; induction p as [a|X e k IH]; intros o l; cbn; [done|].
  intros Hk. destruct (oracle X e o) as [o' x]. cbn. by apply IH.
Qed.
Lemma may_end_bind {A B} (p : prog startE A) (f : A → prog startE B) l Q :
  may_end p l (λ a l', may_end (f a) l' Q) → may_end (p ≫= f) l Q.
Proof.
  change (p ≫= f) with (prog_bind f p). revert l; induction p as [a|X e k IH]; intros l; cbn; [done|]. auto.
Qed.
Lemma may_end_weaken {A} (p : prog startE A) l (P Q : A → gset resource → Prop) :
  (∀ a l', P a l' → Q a l') → may_end p l P → may_end p l Q.
Proof. intros HPQ. revert l; induction p as [a|X e k IH]; intros l; cbn; auto. Qed.
Lemma may_end_or_fail {A} call cleanup what (k : prog startE (result A)) l Q :
  may_end call l (λ r l', match r with
    | Some e => may_end cleanup l' (λ _ l'', Q (Err (wrap what e)) l'')
    | None => may_end k l' Q
    end) →
  may_end (or_fail call cleanup what k) l Q.
Proof.
  intros Hc. apply may_end_bind. eapply may_end_weaken; [|exact Hc]. intros [e|] l' Hr; [|done].
  by apply may_end_bind.
Qed.
