(* ===== verification/Lifecycle.v ===== *)
(** [cmd/api]: [run] once the server is built (main.go): the goroutine that serves, the
    one that waits for a signal and shuts down, and the one that cleans up. *)

From S2P Require Import Prelude GoStd GoError Http Mux Middleware Task TaskHandler.
From S2P Require Import Attachment AttachmentHandler Link Config Wiring User UserHandler Server Startup Drain.
Local Open Scope Z_scope.

(** * [run]

    The protocol of [Drain], with the configured delay; the deferred call is that of the
    server's [close]. *)
Section run.
Context {libE : Type → Type} {O : Type} (oracle : handler startE O).
Context (cfg : Config) (sv : builtServer libE).

Definition deferred_close : O * gset resource → (O * gset resource) * option error :=
  run (handle_start oracle) (closeAll sv).
Definition step : process_state → process_state → Prop :=
  Drain.step cfg.(cfg_PreShutdownDelay) deferred_close.
End run.

(** * [runPeriodicCleanup] *)
Section cleanup.
Context {libE : Type → Type}.
Abbreviation E := (serverE libE).
Local Open Scope prog_scope.

(** One tick; the lines it logs, after those of the ticks before. *)
Definition cleanup_pass (orphans : bool) (minAge : Z) (lines : list (Level * string))
    : prog E (list (Level * string)) :=
  err ← lift user_up PruneExpiredSessions;
  let lines := match err with Some _ => lines ++ [(LevelError, "session cleanup failed")] | None => lines end in
  if orphans then
    collected ← lift attach_up (CollectOrphans minAge);
    mret (match collected with
          | (_, Some _) => lines ++ [(LevelError, "orphan blob cleanup failed")]
          | (deleted, None) => if 0 <? deleted then lines ++ [(LevelInfo, "orphan blobs removed")] else lines
          end)
  else mret lines.
(** The loop, for the ticks that come before the context is done. *)
Fixpoint runPeriodicCleanup (orphans : bool) (minAge : Z) (ticks : nat)
    (lines : list (Level * string)) : prog E (list (Level * string)) :=
  match ticks with
  | 0%nat => mret lines
  | Datatypes.S ticks =>
      lines ← cleanup_pass orphans minAge lines;
      runPeriodicCleanup orphans minAge ticks lines
  end.
End cleanup.
