(* ===== verification/StartupSpec.v ===== *)
(** What is open after [newServer] returned, and after [closeAll] did, whatever the
    calls in between answered. *)

From S2P Require Import Prelude GoStd GoError Http Mux Middleware Task TaskHandler.
From S2P Require Import Attachment AttachmentHandler Link Config Wiring User UserHandler Server Startup.
Local Open Scope Z_scope.

(** * What is open *)
Definition if_open (b : bool) (r : resource) : gset resource := if b then {[ r ]} else ∅.

(** Walk through the calls of a piece. *)
Ltac walk :=
  repeat first
    [ apply may_end_or_fail
    | apply may_end_bind
    | progress cbn [may_end trigger ledger inject subevent_refl]
    | match goal with |- ∀ x : option error, _ => intros [?|] | |- ∀ _ : unit, _ => intros [] end ].

Section pieces.
Context (cfg : Config).

Lemma buildCrier_ends l : RCrier ∉ l → may_end (buildCrier cfg) l (λ res l',
  match res with
  | Ok crier => l' = if_open crier RCrier ∪ l ∧ crier = negb (String.eqb cfg.(cfg_CrierOTLPEndpoint) "")
  | Err _ => l' = l
  end).
Proof.
  intros Hl. unfold buildCrier. destruct (String.eqb _ _); cbn; [by rewrite union_empty_l_L|].
  walk; done.
Qed.
Lemma openDatabase_ends l : RDatabase ∉ l → may_end (openDatabase cfg) l (λ res l',
  match res with
  | Ok db => l' = if_open db RDatabase ∪ l ∧ db = negb (String.eqb cfg.(cfg_DatabaseURL) "")
  | Err _ => l' = l
  end).
Proof.
  intros Hl. unfold openDatabase. destruct (String.eqb _ _); cbn; [by rewrite union_empty_l_L|].
  destruct (cfg_DBAutoMigrate cfg); walk; (done || set_solver).
Qed.
Lemma buildCachedTaskRepository_ends l : RRedis ∉ l → may_end (buildCachedTaskRepository cfg) l (λ res l',
  match res with
  | Ok cache => l' = if_open cache RRedis ∪ l ∧ cache = negb (String.eqb cfg.(cfg_RedisAddr) "")
  | Err _ => l' = l
  end).
Proof.
  intros Hl. unfold buildCachedTaskRepository. destruct (String.eqb _ _); cbn; [by rewrite union_empty_l_L|].
  walk; (done || set_solver).
Qed.
Lemma buildBlobStore_ends l : RBlobs ∉ l → may_end (buildBlobStore cfg) l (λ res l',
  match res with Ok _ => l' = {[ RBlobs ]} ∪ l | Err _ => l' = l end).
Proof.
  intros Hl. unfold buildBlobStore. destruct (negb _); walk; (done || set_solver).
Qed.
End pieces.

Definition limiters : gset resource := {[ RGlobalLimiter; RAuthLimiter; RUserLimiter ]}.

Lemma closeLimiters_ends l : may_end closeLimiters l (λ _ l', l' = l ∖ limiters).
Proof. unfold closeLimiters, Close_, limiters. walk; set_solver. Qed.
Lemma closeDB_ends b l : may_end (closeDB b) l (λ _ l', l' = l ∖ if_open b RDatabase).
Proof. unfold closeDB. destruct b; walk; set_solver. Qed.
Lemma closeBlobs_ends b l : may_end (closeBlobs b) l (λ _ l', l' = l ∖ if_open b RBlobs).
Proof. unfold closeBlobs. destruct b; walk; set_solver. Qed.
Lemma closeCache_ends b l : may_end (closeCache b) l (λ _ l', l' = l ∖ if_open b RRedis).
Proof. unfold closeCache. destruct b; walk; set_solver. Qed.
Lemma shutdownCrier_ends b l : may_end (shutdownCrier b) l (λ _ l', l' = l ∖ if_open b RCrier).
Proof. unfold shutdownCrier. destruct b; walk; set_solver. Qed.

Ltac piece H := eapply may_end_weaken; [|apply H]; cbn beta.

Section server.
Context {libE : Type → Type} `{Lib : !Libraries libE}.
Context `{San : Sanitize, Uni : unicode.Tables, Val : Validate, Csrf : CsrfProtector}.
Context `{Multi : MultipartBody, Serve : ContentServer, Reasons : RejectReasons}.
Context `{URL : RequestURL, Redir : Redirects}.
Context (dummyHash : string) (connected : nat) (cfg : Config).

(** What a server that was built holds. *)
Definition held (sv : builtServer libE) : gset resource :=
  if_open sv.(srv_crier) RCrier ∪ if_open sv.(srv_database) RDatabase ∪ if_open sv.(srv_cache) RRedis ∪
  limiters ∪ if_open sv.(srv_blobs) RBlobs.
Definition as_configured (sv : builtServer libE) : Prop :=
  sv.(srv_crier) = negb (String.eqb cfg.(cfg_CrierOTLPEndpoint) "") ∧
  sv.(srv_database) = negb (String.eqb cfg.(cfg_DatabaseURL) "") ∧
  sv.(srv_cache) = negb (String.eqb cfg.(cfg_RedisAddr) "") ∧
  sv.(srv_blobs) = attachmentsEnabled cfg ∧
  newHandler cfg (newUserService dummyHash cfg) sv.(srv_database) connected = Ok sv.(srv_Handler).

(** What stays open when [newServer] fails: never the limiters or the store of bytes,
    the database only if it was the CSRF protection that failed, and the Redis
    client. *)
Definition left_open (l : gset resource) : Prop :=
  l ⊆ {[ RCrier; RDatabase; RRedis ]} ∧
  (RCrier ∈ l → cfg.(cfg_CrierOTLPEndpoint) ≠ "") ∧
  (RRedis ∈ l → cfg.(cfg_RedisAddr) ≠ "") ∧
  (RDatabase ∈ l → cfg.(cfg_DatabaseURL) ≠ "" ∧ ∃ e, csrf_New cfg.(cfg_CSRFSecret) (csrfOpts cfg) = Err e).

Definition server_open (res : result (builtServer libE)) (l : gset resource) : Prop :=
  match res with Ok sv => l = held sv ∧ as_configured sv | Err _ => left_open l end.
Definition held_by (crier db cache : bool) : gset resource :=
  if_open cache RRedis ∪ (if_open db RDatabase ∪ if_open crier RCrier).

Lemma closeDB__ends db l : may_end (closeDB_ db) l (λ _ l', l' = l ∖ if_open db RDatabase).
Proof. apply may_end_bind. by piece closeDB_ends. Qed.

Lemma newServer_rest_ends crier db cache key protector :
  (∀ l, l ⊆ if_open crier RCrier ∪ if_open cache RRedis → left_open l) →
  (∀ sv, sv.(srv_Handler) = rootHandler cfg (newUserService dummyHash cfg) db connected key protector →
     sv.(srv_crier) = crier → sv.(srv_database) = db → sv.(srv_cache) = cache →
     sv.(srv_blobs) = attachmentsEnabled cfg → as_configured sv) →
  may_end (newServer_rest dummyHash connected cfg crier db cache key protector) (held_by crier db cache) server_open.
Proof.
  intros Hleft Hconf. unfold newServer_rest. set (l1 := held_by crier db cache). set (l2 := l1 ∪ limiters).
  assert (Hl1 : l1 ∖ if_open db RDatabase ⊆ if_open crier RCrier ∪ if_open cache RRedis).
  { subst l1. unfold held_by. destruct db, crier, cache; set_solver. }
  do 3 (apply may_end_bind; cbn [may_end trigger ledger inject subevent_refl]; intros []).
  replace ({[RUserLimiter]} ∪ ({[RAuthLimiter]} ∪ ({[RGlobalLimiter]} ∪ l1))) with l2 by (unfold l2, limiters; set_solver).
  apply may_end_bind. eapply (may_end_weaken _ _ (λ res l', match res with
    | Ok _ => l' = l2 ∪ if_open (attachmentsEnabled cfg) RBlobs | Err _ => l' = l2 end)).
  2:{ destruct (attachmentsEnabled cfg); [piece buildBlobStore_ends|cbn; subst l2; set_solver].
      - intros [[]|e] l ->; subst l2; set_solver.
      - subst l2 l1. unfold limiters, held_by. destruct db, crier, cache; set_solver. }
  intros [[]|e] l ->.
  2:{ apply may_end_bind. piece closeLimiters_ends. intros _ l ->. apply may_end_bind. piece closeDB__ends. intros _ l ->.
      apply Hleft. subst l2. set_solver. }
  set (blobs := attachmentsEnabled cfg) in *. cbv zeta.
  match goal with |- context [or_fail (trigger (url_Parse _)) ?c _ _] =>
    assert (Hall : may_end c (l2 ∪ if_open blobs RBlobs) (λ _ l', left_open l')) end.
  { apply may_end_bind. piece closeLimiters_ends. intros _ l ->. apply may_end_bind. piece closeDB__ends. intros _ l ->.
    apply may_end_bind. piece closeBlobs_ends. intros _ l ->. apply Hleft. subst l2. set_solver. }
  match goal with |- context [or_fail (trigger link_NewService) _ _ ?k] =>
    assert (Hserved : may_end k (l2 ∪ if_open blobs RBlobs) server_open) end.
  { apply may_end_bind. cbn [may_end trigger ledger inject subevent_refl]. intros []. cbn [may_end]. split; [|by apply Hconf].
    unfold held. cbn. subst l2 l1. unfold held_by. set_solver. }
  destruct (cfg_LinkShorteningEnabled cfg); [|exact Hserved].
  do 3 (apply may_end_or_fail; cbn [may_end trigger ledger inject subevent_refl]; intros [?|]; [exact Hall|]).
  exact Hserved.
Qed.

Lemma newServer_ends crier : crier = negb (String.eqb cfg.(cfg_CrierOTLPEndpoint) "") →
  may_end (newServer dummyHash connected cfg crier) (if_open crier RCrier) server_open.
Proof.
  intros Hcrier. set (url := String.eqb cfg.(cfg_DatabaseURL) ""). set (redis := String.eqb cfg.(cfg_RedisAddr) "").
  assert (Hleft : ∀ l, l ⊆ if_open crier RCrier ∪ if_open (negb redis) RRedis → left_open l).
  { intros l Hl. subst redis. unfold left_open.
    destruct crier; destruct (String.eqb_spec (cfg_CrierOTLPEndpoint cfg) ""), (String.eqb_spec (cfg_RedisAddr cfg) "");
      try discriminate Hcrier; cbn in Hl; set_solver. }
  unfold newServer. apply may_end_bind. piece openDatabase_ends; [|destruct crier; set_solver].
  intros [db|e] l Hl; [destruct Hl as [-> Hdb]|apply Hleft; subst; set_solver].
  set (l0 := if_open db RDatabase ∪ if_open crier RCrier).
  assert (Hl0 : l0 ∖ if_open db RDatabase ⊆ if_open crier RCrier) by (subst l0; destruct db, crier; set_solver).
  apply may_end_or_fail. eapply (may_end_weaken _ _ (λ _ l', l' = l0)); [|destruct db; walk; done].
  intros [e|] l ->; [piece closeDB__ends; intros _ l ->; apply Hleft; set_solver|].
  apply may_end_bind. piece buildCachedTaskRepository_ends; [|subst l0; destruct db, crier; set_solver].
  intros [cache|e] l Hl; [destruct Hl as [-> Hcache]|apply may_end_bind; subst l; piece closeDB__ends; intros _ l ->;
    apply Hleft; set_solver].
  subst cache. fold redis. change (if_open (negb redis) RRedis ∪ l0) with (held_by crier db (negb redis)).
  destruct (csrf_New (cfg_CSRFSecret cfg) (csrfOpts cfg)) as [protector|e] eqn:Ecsrf.
  2:{ cbn. unfold left_open, held_by. subst l0 db redis url.
      destruct crier; destruct (String.eqb_spec (cfg_CrierOTLPEndpoint cfg) ""), (String.eqb_spec (cfg_RedisAddr cfg) ""),
        (String.eqb_spec (cfg_DatabaseURL cfg) ""); try discriminate Hcrier; cbn; set_solver by eauto. }
  destruct (addressKeyFunc cfg) as [key|e] eqn:Ekey.
  2:{ apply may_end_bind. piece closeDB__ends. intros _ l ->. apply Hleft. unfold held_by. destruct db, crier, redis; set_solver. }
  apply newServer_rest_ends; [done|]. intros sv Hh Hc Hd Hca Hb. unfold as_configured.
  rewrite Hc, Hd, Hca, Hb, Hh. split_and!; try done. unfold newHandler. by rewrite Ecsrf, Ekey.
Qed.

Lemma start_ends : may_end (start dummyHash connected cfg) ∅ server_open.
Proof.
  unfold start. apply may_end_bind. piece buildCrier_ends; [|set_solver].
  intros [crier|e] l Hl; [destruct Hl as [-> Hcrier]|subst l; cbn; unfold left_open; set_solver].
  apply may_end_bind. cbn [may_end trigger ledger inject subevent_refl]. intros []. rewrite union_empty_r_L.
  apply may_end_bind. piece newServer_ends; [|done]. intros [sv|e] l Hl; exact Hl.
Qed.

(** Closing stops at the first failure. *)
Lemma closeAll_ends sv l : may_end (closeAll sv) l (λ res l', l' ## limiters ∧ l' ⊆ l ∧
  l' ## if_open sv.(srv_blobs) RBlobs ∧ (res = None → l' = l ∖ held sv)).
Proof.
  unfold closeAll, held. apply may_end_bind. piece closeLimiters_ends. intros _ l1 ->.
  apply may_end_bind. piece closeBlobs_ends. intros [e|] l2 ->; [cbn; set_solver|].
  apply may_end_bind. piece closeCache_ends. intros [e|] l3 ->; [cbn; set_solver|].
  apply may_end_bind. piece shutdownCrier_ends. intros [e|] l4 ->; [cbn; set_solver|].
  piece closeDB_ends. intros [e|] l5 ->; set_solver.
Qed.
End server.
