(* ===== verification/ServerSpec.v ===== *)
(** What the server must keep to: laws of the libraries in front of the handlers, the
    effect that one request may have, and the proof that middlewares, multiplexers and
    handlers keep to it. *)

From S2P Require Import Prelude GoStd GoError Uuid Http Mux Middleware Task TaskMemory TaskSpec TaskService TaskConcurrent TaskHandler.
From S2P Require Import Attachment AttachmentMemory AttachmentSpec AttachmentService.
From S2P Require Import AttachmentHandler AttachmentHandlerTheorems Link Config Wiring User UserSpec UserService UserHandler Server.
Local Open Scope Z_scope.

(** * The stores together *)
Definition handle_data {D B} (h : handler repoE D) (ha : handler attachRepoE D) (hb : handler blobE B)
    : handler dataE (D * B) := λ X e '(d, b),
  match e with
  | inl e => let '(d, x) := h X e d in ((d, b), x)
  | inr (inl e) => let '(d, x) := ha X e d in ((d, b), x)
  | inr (inr e) => let '(b, x) := hb X e b in ((d, b), x)
  end.

Section server.
Context {libE : Type → Type} `{Lib : !Libraries libE}.
Context `{San : Sanitize, Uni : unicode.Tables, Val : Validate, Csrf : CsrfProtector, Bc : Bcrypt}.
Context `{Multi : MultipartBody, Serve : ContentServer, Reasons : RejectReasons}.
Context `{URL : RequestURL, Redir : Redirects}.
Context {L R K D B : Type}.
Context (hl : handler libE L) (hu : handler userRepoE R) (ho : handler outE K).
Context (h : handler repoE D) (ha : handler attachRepoE D) (hb : handler blobE B).
Context `{!TaskRepository h, !AttachmentRepository ha, !Linked h ha, !BlobStore hb}.

Abbreviation E := (serverE libE).
(** The state: of the libraries; of the process and the accounts; of the links and the
    database connection; of tasks and attachments, and of the blobs. *)
Definition St : Type := L * ((Proc * R) * (K * (D * B))).
Definition H : handler E St :=
  handle_sum hl (handle_sum (handle_user hu) (handle_sum ho (handle_data h ha hb))).
Definition data (s : St) : D * B := s.2.2.2.
Definition accounts (s : St) : R := s.2.1.2.
Definition process (s : St) : Proc := s.2.1.1.
Definition set_lib (l : L) (s : St) : St := (l, s.2).
Definition set_user (w : Proc * R) (s : St) : St := (s.1, (w, s.2.2)).
Definition set_out (k : K) (s : St) : St := (s.1, (s.2.1, (k, s.2.2.2))).
Definition set_app (w : Env * (D * B)) (s : St) : St :=
  (s.1, ((set_env w.1 (process s), accounts s), (s.2.2.1, w.2))).
Definition app_of (s : St) : Env * (D * B) := (proc_env (process s), data s).

(** A service's program runs on its part of the state. *)
Lemma run_user {A} (p : prog userE A) s :
  run H (lift user_up p) s = let '(w, a) := run (handle_user hu) p s.2.1 in (set_user w s, a).
Proof.
  apply (run_lift (handle_user hu) H user_up (λ s, s.2.1) set_user). split; try done.
  - intros X e [l [w x]]. cbn. by destruct (handle_user hu X e w).
  - by intros [l [w x]].
Qed.
Lemma run_app {A} (p : prog appE A) s :
  run H (lift app_up p) s = let '(w, a) := run (handle_app h ha hb) p (app_of s) in (set_app w s, a).
Proof.
  apply (run_lift (handle_app h ha hb) H app_up app_of set_app). split.
  - intros X e [l [[[env c bo sl] r] [k [d b]]]]. destruct e as [e|[e|[e|e]]]; cbn.
    + by destruct (handle_env X e env).
    + by destruct (h X e d).
    + by destruct (ha X e d).
    + by destruct (hb X e b).
  - by intros [env [d b]] [l [[p0 r] [k [d' b']]]].
  - by intros [env [d b]] w' [l [[p0 r] [k [d' b']]]].
  - by intros [l [[[env c bo sl] r] [k [d b]]]].
Qed.

(** * What one request may do *)

(** The steps in front of a handler: libraries and the environment moved, accounts,
    cached tokens, tasks, attachments and blobs did not. *)
Definition ready (s s' : St) : Prop :=
  accounts s' = accounts s ∧ proc_cache (process s') = proc_cache (process s) ∧ data s' = data s.
#[local] Instance ready_preorder : PreOrder ready.
Proof.
  split; [done|]. intros s1 s2 s3 (H1 & H2 & H3) (H4 & H5 & H6).
  split_and!; etransitivity; eassumption.
Qed.

(** What a request of the user [u] may have done to tasks and attachments: tasks of
    others are as they were, rows on tasks of others as well, and a new row is on a
    task of [u]. *)
Record undisturbed (u : string) (d d' : D) : Prop := {
  und_inv : app_inv h ha d';
  und_tasks : others_same u (repo_view d) (repo_view d');
  und_rows : ∀ i a t, repo_view d !! a.(att_TaskID) = Some t → t.(task_UserID) ≠ u →
    arepo_rows d !! i = Some a → arepo_rows d' !! i = Some a;
  und_new : ∀ i a, arepo_rows d' !! i = Some a →
    arepo_rows d !! i = Some a ∨ is_Some (owned (repo_view d) u a.(att_TaskID));
}.
Abbreviation dinv d := (app_inv h ha d).

Lemma undisturbed_refl u d : dinv d → undisturbed u d d.
Proof. split; [done..|]. auto. Qed.

(** The credential was validated, with the accounts as they were when the request came
    in, for a user [u], and all else is what a request of [u] may do. *)
Definition authorised (token : string) (s s' : St) : Prop :=
  ∃ s1 w u, ready s s1 ∧ run (handle_user hu) (ValidateToken token) s1.2.1 = (w, Ok u) ∧
    undisturbed u (data s).1 (data s').1.
Definition effect (token : string) (s s' : St) : Prop :=
  data s' = data s ∨ authorised token s s'.

Lemma authorised_around token s s1 s2 s' :
  ready s s1 → authorised token s1 s2 → data s' = data s2 → authorised token s s'.
Proof.
  intros Hr (sv & w & u & Hv & Hrun & Hund) Hd. exists sv, w, u. split_and!; [by etransitivity|done|].
  destruct Hr as (_ & _ & Hr). by rewrite Hd, <-Hr.
Qed.

(** * Handlers and middlewares *)
Definition token_of (r : Request) : string := (credentialSource r).2.
Definition same_request (r r' : Request) : Prop :=
  req_Method r' = req_Method r ∧ req_Header r' = req_Header r ∧ req_Cookies r' = req_Cookies r ∧
  url_segments r' = url_segments r.
Lemma same_token r r' : same_request r r' → token_of r' = token_of r.
Proof. intros (_ & Hh & Hc & _). unfold token_of, credentialSource, bearerToken, Cookie. by rewrite Hh, Hc. Qed.

(** An answer that is not a success, with nothing touched. *)
Definition turned_away (s : St) (res : St * (wire * outcome)) : Prop :=
  data res.1 = data s ∧ res.2.2 = Returned ∧ ∃ code hd, w_sent res.2.1 = Some (code, hd) ∧ 300 ≤ code.

Definition sound (hdl : Handler E) : Prop := ∀ r w s,
  dinv (data s).1 → w_sent w = None → effect (token_of r) s (run H (hdl r w) s).1.
Definition guarded (P : Request → Prop) (hdl : Handler E) : Prop := ∀ r w s,
  dinv (data s).1 → w_sent w = None → P r →
  authorised (token_of r) s (run H (hdl r w) s).1 ∨ turned_away s (run H (hdl r w) s).

(** A middleware that only acts before and after what it wraps: it either runs it once,
    on the same request but for its context, or answers itself. *)
Definition closing (post : St → wire * outcome → St * (wire * outcome)) : Prop := ∀ s w o,
  let '(s', (w', o')) := post s (w, o) in
  ready s s' ∧ ∀ x, w_sent w = Some x → o = Returned → w_sent w' = Some x ∧ o' = Returned.
Definition passes (P : Request → Prop) (m : Middleware E) : Prop := ∀ next r w s, w_sent w = None →
  (∃ s1 r1 w1 post, ready s s1 ∧ same_request r r1 ∧ w_sent w1 = None ∧ closing post ∧
     run H (m next r w) s = let '(s', a) := run H (next r1 w1) s1 in post s' a) ∨
  (data (run H (m next r w) s).1 = data s ∧ (P r → turned_away s (run H (m next r w) s))).

Lemma passes_sound P m hdl : passes P m → sound hdl → sound (m hdl).
Proof.
  intros Hm Hh r w s Hi Hw. destruct (Hm hdl r w s Hw) as [(s1 & r1 & w1 & post & Hr & Hsame & Hw1 & Hp & Hrun)|[Hd _]].
  2:{ by left. }
  rewrite Hrun. specialize (Hh r1 w1 s1). rewrite (same_token r r1 Hsame) in Hh.
  pose proof Hr as (_ & _ & Hd). rewrite Hd in Hh. specialize (Hh Hi Hw1).
  destruct (run H (hdl r1 w1) s1) as [s2 [w2 o2]]. specialize (Hp s2 w2 o2).
  destruct (post s2 (w2, o2)) as [s3 [w3 o3]]. cbn [fst] in *. destruct Hp as [(_ & _ & Hp) _].
  destruct Hh as [Hh|Hh]; [left; congruence|right]. by eapply authorised_around.
Qed.
Lemma passes_guarded P m hdl : (∀ r r', same_request r r' → P r → P r') →
  passes P m → guarded P hdl → guarded P (m hdl).
Proof.
  intros HP Hm Hh r w s Hi Hw Hpr.
  destruct (Hm hdl r w s Hw) as [(s1 & r1 & w1 & post & Hr & Hsame & Hw1 & Hp & Hrun)|[Hd Ht]].
  2:{ right. by apply Ht. }
  rewrite Hrun. specialize (Hh r1 w1 s1). rewrite (same_token r r1 Hsame) in Hh.
  pose proof Hr as (_ & _ & Hd). rewrite Hd in Hh. specialize (Hh Hi Hw1 (HP r r1 Hsame Hpr)).
  destruct (run H (hdl r1 w1) s1) as [s2 [w2 o2]]. specialize (Hp s2 w2 o2).
  destruct (post s2 (w2, o2)) as [s3 [w3 o3]] eqn:Epost. cbn [fst] in *. destruct Hp as [(_ & _ & Hp) Hkeep].
  destruct Hh as [Hh|(Hq & Ho & code & hd & Hs & Hcode)]; [left; by eapply authorised_around|right].
  cbn in Hq, Ho, Hs. destruct (Hkeep (code, hd) Hs Ho) as [Hs3 Ho3].
  split_and!; cbn; [congruence|done|by exists code, hd].
Qed.

(** ** Each middleware *)

(** A middleware of a library moves only its own state, then runs the handler on the
    request or answers itself with a status that is not a success. *)
Definition gate (m : Middleware E) : Prop := ∀ next r w s, w_sent w = None →
  (∃ l w1, w_sent w1 = None ∧ run H (m next r w) s = run H (next r w1) (set_lib l s)) ∨
  (∃ l w1 code hd, run H (m next r w) s = (set_lib l s, (w1, Returned)) ∧
     w_sent w1 = Some (code, hd) ∧ 300 ≤ code).

Lemma same_request_context c r : same_request r (WithContext c r).
Proof. split_and!; try done. apply url_of_context. Qed.
Lemma closing_ret : closing (λ s a, (s, a)).
Proof. by intros s w o. Qed.
Lemma run_pair {A} (x : St * A) : (let '(s', a) := x in (s', a)) = x.
Proof. by destruct x. Qed.

Lemma gate_passes P m : gate m → passes P m.
Proof.
  intros Hg next r w s Hw. destruct (Hg next r w s Hw) as [(l & w1 & Hw1 & Hrun)|(l & w1 & code & hd & Hrun & Hs & Hc)].
  - left. exists (set_lib l s), r, w1, (λ s a, (s, a)). rewrite run_pair.
    split_and!; [by split_and!..|done|apply closing_ret|done].
  - right. rewrite Hrun. split; [done|]. intros _. split_and!; [done|done|]. by exists code, hd.
Qed.

(** A middleware that changes only the context and the header, after calls of the
    environment. *)
Lemma env_call {X} (e : envE X) s : ∃ s1 x, ready s s1 ∧ H X (env_up X e) s = (s1, x).
Proof.
  destruct s as [l [[p us] x]]. cbn. destruct (handle_env X e (proc_env p)) as [env y].
  exists (l, ((set_env env p, us), x)), y. by split_and!.
Qed.
Lemma context_passes P (m : Middleware E) (f : Request → Context) (g : Request → wire → wire) :
  (∀ next r w, m next r w = next (WithContext (f r) r) (g r w)) →
  (∀ r w, w_sent (g r w) = w_sent w) → passes P m.
Proof.
  intros Hm Hg next r w s Hw. left. exists s, (WithContext (f r) r), (g r w), (λ s a, (s, a)).
  rewrite run_pair, Hm, Hg. split_and!; [done..|apply same_request_context|done|apply closing_ret|done].
Qed.

Lemma RequestID_passes P : passes P RequestID.
Proof.
  intros next r w s Hw. unfold RequestID. set (id0 := Header_Get (req_Header r) HeaderRequestID).
  assert (Hid : ∃ s1 id, ready s s1 ∧
    run H (if negb (isValidRequestID id0) then newRequestID else mret id0) s = (s1, id)).
  { destruct (isValidRequestID id0); cbn [negb]; [by exists s, id0|].
    unfold newRequestID. rewrite run_bind. rewrite run_trigger.
    destruct (env_call (RandRead 16) s) as (s1 & x & Hr & Hx).
    change (H _ (inject (RandRead 16)) s) with (H _ (env_up _ (RandRead 16)) s). rewrite Hx.
    destruct x as [b|e]; [by exists s1, (hex.EncodeToString b)|].
    rewrite run_bind, run_trigger. destruct (env_call Now s1) as (s2 & now & Hr2 & Hx2).
    change (H _ (inject Now) s1) with (H _ (env_up _ Now) s1). rewrite Hx2.
    exists s2, ("fallback-" +:+ strconv.Itoa now). split; [by etransitivity|done]. }
  destruct Hid as (s1 & id & Hr & Hrun). left. rewrite run_bind, Hrun.
  exists s1, (WithContext (with_requestID id (req_Context r)) r), (set_header HeaderRequestID id w), (λ s a, (s, a)).
  rewrite run_pair. split_and!; [apply Hr..|apply same_request_context|done|apply closing_ret|done].
Qed.

Lemma RealIP_passes P key : passes P (RealIP key).
Proof. by eapply (context_passes P _ (λ r, with_realIP _ (req_Context r)) (λ _ w, w)). Qed.

Lemma Logging_passes P quiet : passes P (Logging quiet).
Proof.
  intros next r w s Hw. left. unfold Logging. rewrite run_bind, run_trigger.
  destruct (env_call Now s) as (s1 & start & Hr & Hx).
  change (H _ (inject Now) s) with (H _ (env_up _ Now) s). rewrite Hx. cbv zeta. rewrite run_bind.
  eexists s1, (WithContext (with_cell (req_Context r)) r), (set_cell "" w), (λ s a, run H _ s).
  split_and!; [apply Hr..|apply same_request_context|done| |reflexivity].
  intros s2 w2 o2. cbn beta iota. destruct o2; [|by rewrite run_ret].
  rewrite run_bind, run_trigger. destruct (env_call Now s2) as (s3 & now & Hr3 & Hx3).
  change (H _ (inject Now) s2) with (H _ (env_up _ Now) s2). rewrite Hx3. cbv zeta.
  unfold finish. rewrite run_ret. by split.
Qed.

Definition not_options (r : Request) : Prop := req_Method r ≠ MethodOptions.
Lemma CORS_passes header allowed : passes not_options (CORS header allowed).
Proof.
  intros next r w s Hw. unfold CORS. destruct (Nat.eqb _ 0) eqn:E0.
  { left. exists s, r, w, (λ s a, (s, a)). by rewrite run_pair. }
  destruct (_ || _) eqn:Eo.
  { left. exists s, r, (add_header "Vary" "Origin" w), (λ s a, (s, a)). by rewrite run_pair. }
  destruct (String.eqb_spec (req_Method r) MethodOptions) as [Hm|Hm].
  - right. unfold finish. rewrite run_ret. split; [done|]. intros Hn. by destruct Hn.
  - left. do 2 eexists. eexists (set_header _ _ (set_header _ _ (set_header _ _ (add_header _ _ w)))), (λ s a, (s, a)).
    rewrite run_pair. split_and!; [..|reflexivity]; done.
Qed.

Lemma CSRF_passes P m : passes P m → passes P (CSRF m).
Proof.
  intros Hm next r w s Hw. unfold CSRF. destruct (_ && _); [|by apply Hm].
  left. exists s, r, w, (λ s a, (s, a)). by rewrite run_pair.
Qed.

Lemma Recovery_passes P recorded : passes P (Recovery recorded).
Proof.
  intros next r w s Hw. left. unfold Recovery. rewrite run_bind.
  eexists s, r, w, (λ s a, run H _ s). split_and!; [done..| |reflexivity].
  intros s2 w2 o2. cbn beta iota. destruct o2 as [|[|v]]; [by rewrite run_ret| |]; cbn beta iota.
  - rewrite run_ret. by split.
  - destruct (responseStarted recorded w2); unfold finish; rewrite run_ret; by split.
Qed.

Lemma CacheControl_passes P prefix : passes P (CacheControl prefix).
Proof.
  intros next r w s Hw. left. unfold CacheControl.
  eexists s, r, _, (λ s a, (s, a)). rewrite run_pair. split_and!; [..|reflexivity]; try done. by case_match.
Qed.

(** ** Chains *)
Lemma Chain_sound P ms hdl : Forall (passes P) ms → sound hdl → sound (Chain ms hdl).
Proof. unfold Chain. induction 1; cbn; [done|]. intros Hh. eapply passes_sound; eauto. Qed.
Lemma Chain_guarded P ms hdl : (∀ r r', same_request r r' → P r → P r') →
  Forall (passes P) ms → guarded P hdl → guarded P (Chain ms hdl).
Proof. intros HP. unfold Chain. induction 1; cbn; [done|]. intros Hh. eapply passes_guarded; eauto. Qed.
Lemma passes_weaken (P Q : Request → Prop) m : (∀ r, Q r → P r) → passes P m → passes Q m.
Proof.
  intros HQ Hm next r w s Hw. destruct (Hm next r w s Hw) as [Hl|[Hd Ht]]; [by left|right; auto].
Qed.

(** ** Authentication *)

(** A handler that acts for the user of the request. *)
Definition acts (hdl : Handler E) : Prop := ∀ r w s u,
  dinv (data s).1 → w_sent w = None → UserIDFromContext r.(req_Context) = Some u →
  undisturbed u (data s).1 (data (run H (hdl r w) s).1).1.

Lemma gate_acts m hdl : gate m → acts hdl → acts (m hdl).
Proof.
  intros Hg Hh r w s u Hi Hw Hu. destruct (Hg hdl r w s Hw) as [(l & w1 & Hw1 & Hrun)|(l & w1 & code & hd & Hrun & _)];
    rewrite Hrun; [|by apply undisturbed_refl].
  by apply (Hh r w1 (set_lib l s) u).
Qed.

Lemma requireAuth_guarded P hdl : acts hdl → guarded P (requireAuth hdl).
Proof.
  intros Hh r w s Hi Hw _. unfold requireAuth, RequireAuth, token_of.
  destruct (credentialSource r) as [kind token]. cbn [snd].
  assert (Herr : ∀ w0 code msg, w_sent w0 = None → 300 ≤ code → ∀ s', data s' = data s →
    turned_away s (s', (writeAuthError w0 code msg, Returned))).
  { intros w0 code msg Hw0 Hc s' Hd. split_and!; [done|done|]. unfold writeAuthError.
    destruct (respond_fresh code "Content-Type" "application/json" (CJson (JObj [("error", JStr msg)])) w0 Hw0) as (Hs & _).
    eauto. }
  destruct (String.eqb token ""). { right. unfold finish. rewrite run_ret. by apply Herr. }
  rewrite run_bind, run_user. destruct (run (handle_user hu) (ValidateToken token) s.2.1) as [us [u|e]] eqn:Hv.
  - left. exists s, us, u. split_and!; [done|done|].
    apply (Hh _ _ (set_user us s) u Hi); [|done]. unfold RecordUserIDForLog. by case_match.
  - right. destruct (Is e _); unfold finish; rewrite run_ret; by apply Herr.
Qed.
Lemma always_guarded_sound hdl : guarded (λ _, True) hdl → sound hdl.
Proof. intros Hg r w s Hi Hw. destruct (Hg r w s Hi Hw I) as [Ha|(Hd & _)]; [by right|by left]. Qed.
End server.
