(* ===== verification/ServerRoutes.v ===== *)
(** What the handlers of the API do on behalf of a user: each of them keeps to what a
    request of that user may do. *)

From S2P Require Import Prelude GoStd GoError Uuid Http Mux Middleware Task TaskMemory TaskSpec TaskService TaskConcurrent TaskHandler.
From S2P Require Import Attachment AttachmentMemory AttachmentSpec AttachmentService.
From S2P Require Import AttachmentHandler AttachmentHandlerTheorems Link Config Wiring User UserSpec UserService UserHandler Server ServerSpec.
Local Open Scope Z_scope.

(** * Requests on tasks *)

(** Dropping the outcome of a program does not change its calls. *)
Lemma own_ignore {A} u (p : prog taskE A) : own u (p ≫= λ _, mret ()) → own u p.
Proof.
  change (p ≫= λ _, mret ()) with (prog_bind (λ _, mret ()) p).
  induction p as [a|X e k IH]; cbn; [done|]. intros [He Hk]. split; [done|]. intros w x <- Hx.
  by apply IH, Hk.
Qed.
Lemma own_then {A B} u (p : prog taskE A) (f : A → prog taskE B) :
  own u p → (∀ a, own u (f a)) → own u (p ≫= f).
Proof. intros Hp Hf. apply (follows_bind _ _ _ any_outcome); [done|]. intros w a <- _. apply Hf. Qed.

Section task_routes.
Context `{San : Sanitize, Uni : unicode.Tables}.
Lemma own_call {A} u (p : prog taskE A) : request_of u (p ≫= λ _, mret ()) → own u p.
Proof. intros Hp. by apply own_ignore, own_request. Qed.

Lemma own_handler connected route r w : own (TaskHandler.user_of r) (serveTasks connected route r w).
Proof.
  destruct route; cbn [serveTasks].
  all: unfold createTask, listTasks, taskStats, exportTasks, getTask, updateTask, completeTask,
         transitionStatus, deleteTask.
  all: repeat case_match; try done.
  all: apply own_then; [apply own_call; constructor|intros []].
  all: unfold respond, finish; try done.
  all: repeat (cbn; case_match || split || intros ?); done.
Qed.
End task_routes.

(** * What is left undisturbed *)
Section undisturbed.
Context {D B : Type} (h : handler repoE D) (ha : handler attachRepoE D) (hb : handler blobE B).
Context `{!TaskRepository h, !AttachmentRepository ha, !Linked h ha, !BlobStore hb}.

(** Rows that only go, and only with tasks of [u]. *)
Record gone (u : string) (d d' : D) : Prop := {
  gone_tasks : others_same u (repo_view d) (repo_view d');
  gone_rows : ∀ i a t, repo_view d !! a.(att_TaskID) = Some t → t.(task_UserID) ≠ u →
    arepo_rows d !! i = Some a → arepo_rows d' !! i = Some a;
  gone_sub : arepo_rows d' ⊆ arepo_rows d;
}.
#[export] Instance gone_preorder u : PreOrder (gone u).
Proof.
  split; [by split|]. intros d1 d2 d3 [Ht1 Hr1 Hs1] [Ht2 Hr2 Hs2]. split.
  - by etransitivity.
  - intros i a t Ht Hu Hi. apply (Hr2 i a t); [by apply Ht1|done|by eapply Hr1].
  - by etransitivity.
Qed.
Lemma gone_undisturbed u d d' : app_inv h ha d' → gone u d d' → undisturbed h ha u d d'.
Proof. intros Hi [Ht Hr Hs]. split; try done. intros i a Ha. left. by eapply lookup_weaken. Qed.

(** A program of the task service that acts for [u]. *)
Lemma tasks_undisturbed {A} u (p : prog taskE A) env d : own u p → app_inv h ha d →
  undisturbed h ha u d (run (handle_sum handle_env h) p (env, d)).1.2.
Proof.
  intros Hp Hd. pose (R := λ st st' : Env * D, gone u st.2 st'.2).
  assert (PreOrder R) by (split; [intros st; red; done|intros s1 s2 s3 H1 H2; red; by etransitivity]).
  enough (Hstep : ∀ X (e : taskE X) st, app_inv h ha st.2 → acts_for u X e →
    app_inv h ha (handle_sum handle_env h X e st).1.2 ∧ R st (handle_sum handle_env h X e st).1 ∧
    reads_own X e (handle_sum handle_env h X e st).2).
  { destruct (follows_run eq (λ u, acts_for u) (λ _, reads_own) any_outcome (handle_sum handle_env h)
      (λ st, app_inv h ha st.2) R u Hstep p (env, d) Hp Hd) as (Hi & Hr & _). by apply gone_undisturbed. }
  intros X e [env0 d0] Hd0 Ha. destruct (call_isolated h u X e (env0, d0) (proj1 Hd0) Ha) as (Hi & Ho & Hx).
  subst R. destruct e as [e|e]; cbn in *.
  { destruct (handle_env X e env0) as [env1 x]. cbn in *. split_and!; try done. }
  pose proof (link_task_inv X e d0 (proj1 Hd0) (proj2 Hd0)) as Hi2.
  pose proof (λ i a, rows_after h ha X e d0 i a Hd0) as Hrows.
  pose proof (proj1 (link_rows X e d0 (proj1 Hd0) (proj2 Hd0))) as Hsub.
  destruct (h X e d0) as [d1 x]. cbn in *. split_and!; try done. split; try done.
  intros i a t Ht Hu Hi'. destruct (Hrows i a Hi') as [|[_ Hn]]; [done|].
  apply (Ho _ _ Hu) in Ht. congruence.
Qed.

(** The cascade of an account's deletion. *)
Lemma footprint_undisturbed u d b d' b' : footprint h ha hb u d b d' b' → undisturbed h ha u d d'.
Proof.
  intros [Hi Ht Ho Hr Hor _ _]. apply gone_undisturbed; [done|]. split; [|intros i a t Hta Hu Hia|done].
  - intros id t Hu. split; [by intros; apply Ho|]. intros Hid. by eapply lookup_weaken.
  - apply Hor; [done|]. intros [t' Ht']. apply owned_Some in Ht' as [Ht' Hu']. congruence.
Qed.

(** At most one row comes or goes, and it is on a task of [u]. *)
Definition one_row (u : string) (d d' : D) : Prop :=
  arepo_rows d' = arepo_rows d ∨
  ∃ a, arepo_owns d a.(att_TaskID) u = true ∧
    (arepo_rows d !! a.(att_ID) = None ∧ arepo_rows d' = <[a.(att_ID) := a]> (arepo_rows d) ∨
     arepo_rows d !! a.(att_ID) = Some a ∧ arepo_rows d' = delete a.(att_ID) (arepo_rows d)).
Lemma one_row_undisturbed u d d' : app_inv h ha d → app_inv h ha d' → repo_view d' = repo_view d →
  one_row u d d' → undisturbed h ha u d d'.
Proof.
  intros Hd Hd' Hv Hr. destruct Hr as [Hr|(a & Ho & Hr)].
  { apply gone_undisturbed; [done|]. split; by rewrite ?Hv, ?Hr. }
  rewrite (link_owns d _ _ (proj1 Hd)), bool_decide_eq_true in Ho.
  split; [done|by rewrite Hv| |].
  - intros i a' t Ht Hu Hi. destruct Hr as [[Hn ->]|[Ha ->]].
    + rewrite lookup_insert_ne; [done|]. intros <-. congruence.
    + rewrite lookup_delete_ne; [done|]. intros <-. assert (a' = a) as -> by congruence.
      destruct Ho as [t' Ht']. apply owned_Some in Ht' as [Ht' Hu']. congruence.
  - intros i a' Hi. destruct Hr as [[Hn Hr]|[Ha Hr]]; rewrite Hr in Hi.
    + apply lookup_insert_Some in Hi as [[<- <-]|[_ Hi]]; auto.
    + apply lookup_delete_Some in Hi as [_ Hi]. auto.
Qed.

(** ** The handlers of attachments *)
Section attachment_routes.
Context `{San : Sanitize, Uni : unicode.Tables, Multi : MultipartBody, Serve : ContentServer}.
Context (sv : Attachment.Service) (maxBytes : Z) (Hbound : sv.(Attachment.maxBytes) < int64.max).
Abbreviation svc := (handle_sum handle_env (handle_sum ha hb)).

Lemma partLoop_one_row u r w parts ended env d b : arepo_inv d →
  one_row u d (run svc (partLoop sv u r w parts ended) (env, (d, b))).1.2.1.
Proof.
  intros Hd. induction parts as [|part parts IH]; cbn [partLoop].
  { case_match; unfold finish; rewrite run_ret; by left. }
  destruct (negb _); [done|]. rewrite run_bind.
  pose proof (Upload_spec ha hb sv Hbound env d b u (PathValue r "id") (part_FileName part) (part_Reader part) Hd) as Hs.
  match type of Hs with context [run ?hh ?p ?st] => destruct (run hh p st) as [[env' [d' b']] [att|e]] end;
    unfold finish; rewrite run_ret; cbn; destruct Hs as (_ & _ & Hs); [right|by left; destruct Hs].
  destruct Hs as (_ & Ht & Ho & _ & _ & _ & _ & _ & _ & _ & _ & _ & _ & Hn & _ & Hm & _).
  exists att. rewrite Ht. auto.
Qed.
Lemma attachment_handler_one_row route r w u env d b : arepo_inv d →
  UserIDFromContext r.(req_Context) = Some u →
  one_row u d (run svc (serveAttachments sv maxBytes route r w) (env, (d, b))).1.2.1.
Proof.
  intros Hd Hu. destruct route; cbn [serveAttachments];
    unfold upload, listHandler, download, deleteHandler, AttachmentHandler.authenticated; rewrite Hu.
  - destruct (MultipartReader _ _) as [[parts ended]|]; [by apply partLoop_one_row|]. by left.
  - rewrite run_bind. pose proof (ListByTask_spec ha hb env d b u (PathValue r "id") Hd) as Hs.
    match type of Hs with context [run ?hh ?p ?st] => destruct (run hh p st) as [[env' [d' b']] res] end.
    destruct Hs as (_ & Hs & _). left. by case_match.
  - rewrite run_bind. pose proof (Download_spec ha hb env d b u (PathValue r "key") Hd) as Hs.
    match type of Hs with context [run ?hh ?p ?st] => destruct (run hh p st) as [[env' [d' b']] res] end.
    destruct Hs as (_ & Hs & _). left. by repeat case_match.
  - rewrite run_bind. pose proof (Delete_spec ha hb env d b u (PathValue r "key") Hd) as Hs.
    match type of Hs with context [run ?hh ?p ?st] => destruct (run hh p st) as [[env' [d' b']] [e|]] end;
      destruct Hs as (_ & _ & Hs); unfold finish; rewrite run_ret; cbn; [left; by destruct Hs|right].
    destruct Hs as (a & [Ha _] & Ho & Hr & _). exists a. auto.
Qed.
Lemma attachments_undisturbed route r w u env d b : app_inv h ha d →
  UserIDFromContext r.(req_Context) = Some u →
  undisturbed h ha u d (run svc (serveAttachments sv maxBytes route r w) (env, (d, b))).1.2.1.
Proof.
  intros Hd Hu. pose proof (attachment_handler_one_row route r w u env d b (proj2 Hd) Hu) as Hone.
  pose proof (attachment_run_linked h ha hb (serveAttachments sv maxBytes route r w) env d b Hd) as Hl.
  match type of Hl with context [run ?hh ?p ?st] => destruct (run hh p st) as [[env' [d' b']] res] end.
  destruct Hl as [Hd' Hv]. by apply one_row_undisturbed.
Qed.
End attachment_routes.
End undisturbed.

(** * The routes of the server *)
Section routes.
Context {libE : Type → Type} `{Lib : !Libraries libE}.
Context `{San : Sanitize, Uni : unicode.Tables, Val : Validate, Csrf : CsrfProtector, Bc : Bcrypt}.
Context `{Multi : MultipartBody, Serve : ContentServer, Reasons : RejectReasons}.
Context `{URL : RequestURL, Redir : Redirects}.
Context {L R K D B : Type}.
Context (hl : handler libE L) (hu : handler userRepoE R) (ho : handler outE K).
Context (h : handler repoE D) (ha : handler attachRepoE D) (hb : handler blobE B).
Context `{!TaskRepository h, !AttachmentRepository ha, !Linked h ha, !BlobStore hb}.
Abbreviation E := (serverE libE).
Abbreviation St := (ServerSpec.St (L := L) (R := R) (K := K) (D := D) (B := B)).
Abbreviation H := (ServerSpec.H hl hu ho h ha hb).
Abbreviation sound := (ServerSpec.sound hl hu ho h ha hb).
Abbreviation guarded := (ServerSpec.guarded hl hu ho h ha hb).
Abbreviation acts := (ServerSpec.acts hl hu ho h ha hb).
Abbreviation gate := (ServerSpec.gate hl hu ho h ha hb).

(** The other services' programs, on their parts of the state. *)
Lemma run_tasks {A} (p : prog taskE A) (s : St) :
  run H (lift task_up p) s = let '((env, d), a) := run (handle_sum handle_env h) p (proc_env (process s), (data s).1) in
    (set_app (env, (d, (data s).2)) s, a).
Proof.
  rewrite (run_lift (handle_sum handle_env h) H task_up (λ s : St, (proc_env (process s), (data s).1))
    (λ (w : Env * D) s, set_app (w.1, (w.2, (data s).2)) s)).
  { match goal with |- context [run ?hh p ?st] => by destruct (run hh p st) as [[env d] a] end. }
  split.
  - intros X e [l [[[env c bo sl] r] [k [d b]]]]. destruct e as [e|e]; cbn.
    + by destruct (handle_env X e env).
    + by destruct (h X e d).
  - by intros [env d] [l [[p0 r] [k [d' b']]]].
  - by intros [env d] w' [l [[p0 r] [k [d' b']]]].
  - by intros [l [[[env c bo sl] r] [k [d b]]]].
Qed.
Lemma run_attachments {A} (p : prog attachE A) (s : St) :
  run H (lift attach_up p) s = let '(w, a) := run (handle_sum handle_env (handle_sum ha hb)) p (app_of s) in
    (set_app w s, a).
Proof.
  apply (run_lift _ H attach_up app_of set_app). split.
  - intros X e [l [[[env c bo sl] r] [k [d b]]]]. destruct e as [e|[e|e]]; cbn.
    + by destruct (handle_env X e env).
    + by destruct (ha X e d).
    + by destruct (hb X e b).
  - by intros [env [d b]] [l [[p0 r] [k [d' b']]]].
  - by intros [env [d b]] w' [l [[p0 r] [k [d' b']]]].
  - by intros [l [[[env c bo sl] r] [k [d b]]]].
Qed.
Definition handle_links : handler cairnE K := λ X e, ho X (inl e).
Lemma run_links {A} (p : prog cairnE A) (s : St) :
  run H (lift link_up p) s = let '(k, a) := run handle_links p s.2.2.1 in (set_out k s, a).
Proof.
  apply (run_lift _ H link_up (λ s, s.2.2.1) set_out). split; try done.
  - intros X e [l [us [k x]]]. unfold handle_links. cbn. by destruct (ho X (inl e) k).
  - by intros [l [us [k x]]].
Qed.

(** ** Handlers that leave tasks and attachments alone *)
Definition steady (hdl : Handler E) : Prop := ∀ r w s, data (run H (hdl r w) s).1 = data s.
Lemma steady_sound hdl : steady hdl → sound hdl.
Proof. intros Hs r w s _ _. left. apply Hs. Qed.
Lemma steady_acts hdl : steady hdl → acts hdl.
Proof. intros Hs r w s u Hi _ _. rewrite Hs. by apply undisturbed_refl. Qed.
Lemma user_steady (hdl : Handler userE) : steady (λ r w, lift user_up (hdl r w)).
Proof. intros r w s. rewrite run_user. by destruct (run _ _ _). Qed.
Lemma links_steady (hdl : Handler cairnE) : steady (λ r w, lift link_up (hdl r w)).
Proof. intros r w s. rewrite run_links. by destruct (run _ _ _). Qed.

(** ** Handlers that act for the user of the request *)
Lemma user_of_request r u : UserIDFromContext r.(req_Context) = Some u → user_of r = u.
Proof. unfold user_of. by intros ->. Qed.

Lemma tasks_act connected route : acts (λ r w, lift task_up (serveTasks connected route r w)).
Proof.
  intros r w s u Hi Hw Hu. rewrite run_tasks.
  assert (TaskHandler.user_of r = u) as <- by (unfold TaskHandler.user_of; by rewrite Hu).
  pose proof (tasks_undisturbed h ha (TaskHandler.user_of r) _ (proc_env (process s)) (data s).1
    (own_handler connected route r w) Hi) as Hund.
  by destruct (run _ _ _) as [[env d] a].
Qed.
Lemma attachments_act sv maxBytes route : sv.(Attachment.maxBytes) < int64.max →
  acts (λ r w, lift attach_up (serveAttachments sv maxBytes route r w)).
Proof.
  intros Hb r w s u Hi Hw Hu. rewrite run_attachments. unfold app_of.
  pose proof (attachments_undisturbed h ha hb sv maxBytes Hb route r w u (proc_env (process s)) (data s).1 (data s).2 Hi Hu) as Hund.
  rewrite <-(surjective_pairing (data s)) in Hund.
  by destruct (run _ _ _) as [[env [d b]] a].
Qed.

Lemma deleteAccount_acts cfg : acts (deleteAccount cfg.(cfg_CookieInsecure) user_up (cascade cfg)).
Proof.
  intros r w s u Hi Hw Hu. unfold deleteAccount, with_body. destruct (Decode _ _ _) as [req|].
  2:{ by apply undisturbed_refl. }
  rewrite (user_of_request r u Hu), run_bind, run_user. destruct (run (handle_user hu) _ _) as [us [e|]].
  { by apply undisturbed_refl. }
  rewrite run_bind. unfold cascade. rewrite run_app. unfold app_of.
  set (s1 := set_user us s). change (data s1) with (data s).
  pose proof (deleteAccountCascade_app h ha hb (proc_env (process s1)) (data s).1 (data s).2 u (attachmentsEnabled cfg) Hi) as Hc.
  rewrite <-(surjective_pairing (data s)) in Hc.
  match type of Hc with context [run ?hh ?p ?st] => destruct (run hh p st) as [[env' [d' b']] res] end.
  destruct Hc as [Hf _]. apply (footprint_undisturbed h ha hb) in Hf. destruct res as [e|]; [done|].
  rewrite run_bind, run_user. by destruct (run (handle_user hu) _ _) as [us2 [e|]].
Qed.

(** ** The libraries in front of the handlers

    A rate limiter, the CSRF protection and the security headers run the handler or
    refuse; the handler of expvar has nothing to do with tasks. *)
Class LibraryLaws := {
  limiter_gate : ∀ name burst rate key, gate (ratelimit_New name burst rate key);
  csrf_gate : ∀ secret opts protector, csrf_New secret opts = Ok protector → gate protector;
  headers_gate : ∀ csp maxAge, gate (secureheaders_Middleware csp maxAge);
  expvar_steady : steady expvar_Handler;
}.
Context `{Laws : LibraryLaws}.
Context (cfg : Config) (userSvc : User.Service) (database : bool) (connected : nat).
Hypothesis Hbound : cfg.(cfg_AttachmentMaxBytes) < int64.max.

Lemma authenticated_guarded P hdl : acts hdl → guarded P (authenticated cfg hdl).
Proof. intros Hh. apply requireAuth_guarded, gate_acts; [apply limiter_gate|done]. Qed.

(** ** One route *)
Definition open_route (route : apiRoute) : bool :=
  match route with RUser (POST_register | POST_login | GET_csrf_token) => true | _ => false end.

Lemma serveRoute_guarded authLimiter route P : open_route route = false →
  guarded P (serveRoute cfg userSvc connected authLimiter route).
Proof.
  intros Ho. destruct route as [[]|route|route|route]; cbn [serveRoute UserHandler.RegisterRoutes open_route] in *;
    try discriminate Ho; unfold TaskHandler.RegisterRoutes, AttachmentHandler.RegisterRoutes, Link.RegisterRoutes;
    apply authenticated_guarded; auto using steady_acts, user_steady, links_steady, tasks_act, deleteAccount_acts.
  by apply attachments_act.
Qed.
Lemma gate_sound m hdl : gate m → sound hdl → sound (m hdl).
Proof. intros Hm. by apply (passes_sound hl hu ho h ha hb (λ _, True)), gate_passes. Qed.
Lemma serveRoute_sound authLimiter route : gate authLimiter →
  sound (serveRoute cfg userSvc connected authLimiter route).
Proof.
  intros Hg. destruct (open_route route) eqn:Ho; [|by apply always_guarded_sound, serveRoute_guarded].
  destruct route as [[]|?|?|?]; try discriminate Ho; cbn [serveRoute UserHandler.RegisterRoutes].
  - by apply gate_sound, steady_sound, user_steady.
  - by apply gate_sound, steady_sound, user_steady.
  - apply steady_sound, user_steady.
Qed.
End routes.
