(* ===== verification/ServerTheorems.v ===== *)
(** Theorems about the server: no request reaches the tasks or the attachments but
    through authentication, and the routes lead where they should. *)

From S2P Require Import Prelude GoStd GoError Uuid Http Mux Middleware Task TaskMemory TaskSpec TaskService TaskConcurrent TaskHandler.
From S2P Require Import Attachment AttachmentMemory AttachmentSpec AttachmentService.
From S2P Require Import AttachmentHandler AttachmentHandlerTheorems AttachmentTheorems Link LinkTheorems Config Wiring User UserMemory UserSpec UserService UserHandler UserHandlerTheorems.
From S2P Require Import BlobStorage ConcreteStore Concrete ConcreteUser Server ServerSpec ServerRoutes.
Local Open Scope Z_scope.

Section server.
Context {libE : Type → Type} `{Lib : !Libraries libE}.
Context `{San : Sanitize, Uni : unicode.Tables, Val : Validate, Csrf : CsrfProtector, Bc : Bcrypt}.
Context `{Multi : MultipartBody, Serve : ContentServer, Reasons : RejectReasons}.
Context `{URL : RequestURL, Redir : Redirects}.
Context {L R K D B : Type}.
Context (hl : handler libE L) (hu : handler userRepoE R) (ho : handler outE K).
Context (h : handler repoE D) (ha : handler attachRepoE D) (hb : handler blobE B).
Context `{!TaskRepository h, !AttachmentRepository ha, !Linked h ha, !BlobStore hb}.
Abbreviation E := (serverE libE).
Abbreviation St := (ServerSpec.St (L := L) (R := R) (K := K) (D := D) (B := B)).
Abbreviation H := (ServerSpec.H hl hu ho h ha hb).
Abbreviation sound := (ServerSpec.sound hl hu ho h ha hb).
Abbreviation guarded := (ServerSpec.guarded hl hu ho h ha hb).
Abbreviation turned_away := (ServerSpec.turned_away (L := L) (R := R) (K := K) (D := D) (B := B)).

(** * Multiplexers *)
Lemma refused_finish (s : St) w code hd : w_sent w = Some (code, hd) → 300 ≤ code →
  turned_away s (run H (finish w) s).
Proof. intros Hs Hc. unfold finish. rewrite run_ret. split_and!; [done|done|eauto]. Qed.
Lemma Error_sent message code w : w_sent w = None → ∃ hd, w_sent (Error_ message code w) = Some (code, hd).
Proof. intros Hw. unfold Error_, Write, WriteHeader, set_header, with_header. cbn. rewrite Hw. cbn. eauto. Qed.

Lemma ServeMux_run (P : St → Request → wire → St * (wire * outcome) → Prop) mux path clean r w s :
  w_sent w = None →
  (∀ res, turned_away s res → P s r w res) →
  (∀ e m, e ∈ mux → ent_matches e r.(req_Method) path →
     P s r w (run H (e.(ent_handler) (with_path_values m r) w) s)) →
  P s r w (run H (ServeMux mux path clean r w) s).
Proof.
  intros Hw Haway Hent. unfold ServeMux. case_match.
  { apply Haway. destruct (redirect_sent r w Hw) as [hd Hs]. by apply (refused_finish s _ 301 hd). }
  destruct (matchMethodAndPath mux (req_Method r) path) as [[e ms]|] eqn:Hm.
  { destruct (matchMethodAndPath_sound _ _ _ _ _ Hm) as [Hin He]. by apply Hent. }
  apply Haway. unfold NotFound, MethodNotAllowed. case_match.
  - destruct (Error_sent "404 page not found" 404 w Hw) as [hd Hs]. by apply (refused_finish s _ 404 hd).
  - match goal with |- context [Error_ ?m ?c ?w'] => destruct (Error_sent m c w' Hw) as [hd Hs] end.
    by apply (refused_finish s _ 405 hd).
Qed.
Lemma ServeMux_sound mux path clean : Forall (λ e, sound e.(ent_handler)) mux → sound (ServeMux mux path clean).
Proof.
  intros Hall r w s Hi Hw. apply (ServeMux_run (λ s r w res, effect hu h ha (token_of r) s res.1)); [done| |].
  - intros res (Hd & _). by left.
  - intros e m Hin _. rewrite Forall_forall in Hall. by apply (Hall e Hin (with_path_values m r) w s).
Qed.
Lemma ServeMux_guarded P mux path clean : (∀ m r, P r → P (with_path_values m r)) →
  Forall (λ e, guarded (λ r, P r ∧ ent_matches e r.(req_Method) path) e.(ent_handler)) mux →
  guarded P (ServeMux mux path clean).
Proof.
  intros HP Hall r w s Hi Hw Hr.
  apply (ServeMux_run (λ s r w res, authorised hu h ha (token_of r) s res.1 ∨ turned_away s res)); [done|auto|].
  intros e m Hin He. rewrite Forall_forall in Hall.
  apply (Hall e Hin (with_path_values m r) w s Hi Hw). auto.
Qed.

(** What is mounted under a prefix. *)
Lemma StripPrefix_guarded P prefix hdl : (∀ r, P r → P (TrimPath prefix r)) → guarded P hdl → guarded P (StripPrefix prefix hdl).
Proof.
  intros HP Hh r w s Hi Hw Hr. unfold StripPrefix. destruct (url_has_prefix prefix r); [by apply (Hh (TrimPath prefix r)); auto|].
  right. unfold NotFound. destruct (Error_sent "404 page not found" 404 w Hw) as [hd Hs].
  by apply (refused_finish s _ 404 hd).
Qed.
Lemma StripPrefix_sound prefix hdl : sound hdl → sound (StripPrefix prefix hdl).
Proof.
  intros Hh r w s Hi Hw. unfold StripPrefix. destruct (url_has_prefix prefix r); [by apply (Hh (TrimPath prefix r))|by left].
Qed.

(** * The server's multiplexers *)
Context `{Laws : !LibraryLaws hl hu ho h ha hb}.
Context (cfg : Config) (userSvc : User.Service) (database : bool) (connected : nat).
Hypothesis Hbound : cfg.(cfg_AttachmentMaxBytes) < int64.max.

Lemma pat_matches_lits l path : pat_matches (map Lit l) path = true → path = l.
Proof.
  revert path; induction l as [|a l IH]; intros [|b path]; cbn; try done.
  intros [[->%String.eqb_eq _]%andb_true_iff Hm]%andb_true_iff. by rewrite (IH path Hm).
Qed.

Lemma pat_matches_mount v path : pat_matches [Lit v; Rest] path = true → ∃ path', path = v :: path'.
Proof.
  destruct path as [|a path]; cbn; [done|]. intros [[->%String.eqb_eq _]%andb_true_iff _]%andb_true_iff. eauto.
Qed.

(** The paths that are open to everyone. *)
Definition public (path : list string) : bool :=
  bool_decide (path ∈ [["health"]; ["health"; "ready"];
    ["v1"; "auth"; "register"]; ["v1"; "auth"; "login"]; ["v1"; "auth"; "csrf-token"]]) ||
  cfg.(cfg_LinkShorteningEnabled) && Nat.eqb (length path) 1.

Lemma open_entries e path : e ∈ v1_routes cfg → open_route e.(ent_handler) = true →
  pat_matches e.(ent_pattern).(pat_path) path = true → public ("v1" :: path) = true.
Proof.
  intros Hin Ho Hm. unfold v1_routes in Hin. rewrite !elem_of_app in Hin.
  assert (Hnone : ∀ l : list (entry apiRoute), forallb (λ e, negb (open_route e.(ent_handler))) l = true → e ∈ l → False).
  { intros l Hl Hel. rewrite forallb_forall in Hl. apply list_elem_of_In, Hl in Hel. by rewrite Ho in Hel. }
  destruct Hin as [Hin|[Hin|[Hin|Hin]]].
  - assert (path ∈ [["auth"; "register"]; ["auth"; "login"]; ["auth"; "csrf-token"]]) as Hp.
    { unfold user_routes in Hin. repeat (apply elem_of_cons in Hin as [->|Hin]; [try discriminate Ho|]).
      all: try (apply (pat_matches_lits ["auth"; _]) in Hm as ->; set_solver). by apply elem_of_nil in Hin. }
    unfold public. rewrite bool_decide_eq_true_2; [done|].
    rewrite !elem_of_cons in Hp. destruct Hp as [->|[->|[->|[]%elem_of_nil]]]; set_solver.
  - by destruct (Hnone task_routes).
  - destruct (attachmentsEnabled cfg); [by destruct (Hnone attachment_routes)|by apply elem_of_nil in Hin].
  - destruct (cfg_LinkShorteningEnabled cfg); [by destruct (Hnone link_routes)|by apply elem_of_nil in Hin].
Qed.

Lemma v1_guarded authLimiter path : public ("v1" :: path) = false →
  guarded (λ _, True) (v1 cfg userSvc connected authLimiter path).
Proof.
  intros Hn. apply ServeMux_guarded; [done|]. apply Forall_map, Forall_forall.
  intros e Hin. cbn [serve_with ent_handler]. destruct (open_route e.(ent_handler)) eqn:Ho.
  2:{ by eapply serveRoute_guarded. }
  intros r w s _ _ (_ & He & _). cbn in He. rewrite (open_entries e path) in Hn; done.
Qed.
Lemma v1_sound authLimiter path : gate hl hu ho h ha hb authLimiter →
  sound (v1 cfg userSvc connected authLimiter path).
Proof.
  intros Hg. apply ServeMux_sound, Forall_map, Forall_forall. intros e _. cbn [serve_with ent_handler].
  by eapply serveRoute_sound.
Qed.

Lemma mounted_guarded authLimiter :
  guarded (λ r, public (url_segments r) = false ∧ hd "" (url_segments r) = "v1" ∧ url_segments r ≠ [])
    (mounted cfg userSvc connected authLimiter).
Proof.
  intros r w s Hi Hw (Hn & Hv & Hne). unfold mounted. destruct (url_segments r) as [|v path]; [done|]. cbn in Hv |- *. subst v.
  apply (StripPrefix_guarded (λ _, True)); [done| |done..].
  apply (passes_guarded hl hu ho h ha hb (λ _, True)); [done|apply CacheControl_passes|by apply v1_guarded].
Qed.
Lemma mounted_sound authLimiter : gate hl hu ho h ha hb authLimiter →
  sound (mounted cfg userSvc connected authLimiter).
Proof.
  intros Hg r w s. apply StripPrefix_sound, (passes_sound hl hu ho h ha hb (λ _, True)).
  - apply CacheControl_passes.
  - by apply v1_sound.
Qed.

Lemma debug_vars_guarded P : guarded P (debug_vars cfg).
Proof.
  apply (authenticated_guarded hl hu ho h ha hb), steady_acts. intros r w s. apply (expvar_steady hl hu ho h ha hb).
Qed.
Lemma public_handler_sound : sound public_handler.
Proof. apply steady_sound, links_steady. Qed.

(** The multiplexer behind the global limiter. *)
Abbreviation behind authLimiter :=
  (λ r, ServeMux (mux cfg userSvc connected authLimiter) (url_segments r) (url_clean r) r).
Definition closed (r : Request) : Prop := public (url_segments r) = false.
Lemma closed_same r r' : same_request r r' → closed r → closed r'.
Proof. intros (_ & _ & _ & Hu). unfold closed. by rewrite Hu. Qed.
Lemma closed_values m r : closed r → closed (with_path_values m r).
Proof. unfold closed. by rewrite url_of_values. Qed.

Lemma mux_guarded authLimiter : guarded closed (behind authLimiter).
Proof.
  intros r w s Hi Hw Hr.
  apply (ServeMux_guarded (λ r', closed r' ∧ url_segments r' = url_segments r)); [| |done..|done].
  { intros m r' [Hc Hs]. rewrite url_of_values. split; [by apply closed_values|done]. }
  unfold mux. rewrite !Forall_app. split_and!.
  - constructor; [|done]. apply debug_vars_guarded.
  - destruct (cfg_LinkShorteningEnabled cfg) eqn:Hl; [|done]. constructor; [|done].
    intros r' w' s' _ _ ((Hc & Hs) & Hm & _). cbn in Hm. unfold closed, public in Hc. rewrite Hs, Hl in Hc.
    destruct (url_segments r) as [|s0 []]; [done| |by rewrite andb_false_r in Hm].
    by rewrite orb_true_r in Hc.
  - constructor; [|done]. intros r' w' s' Hi' Hw' ((Hc & Hs) & Hm & _).
    apply mounted_guarded; [done..|]. split; [done|]. rewrite Hs.
    by destruct (pat_matches_mount "v1" _ Hm) as [path ->].
Qed.
Lemma mux_sound authLimiter : gate hl hu ho h ha hb authLimiter → sound (behind authLimiter).
Proof.
  intros Hg r w s. apply ServeMux_sound. unfold mux. rewrite !Forall_app. split_and!.
  - constructor; [|done]. apply always_guarded_sound, debug_vars_guarded.
  - destruct (cfg_LinkShorteningEnabled cfg); [|done]. constructor; [|done]. apply public_handler_sound.
  - constructor; [|done]. by apply mounted_sound.
Qed.

(** The outermost one, and the chain in front of it. *)
Abbreviation outermost globalLimiter authLimiter :=
  (λ r, ServeMux (root cfg userSvc database connected globalLimiter authLimiter) (url_segments r) (url_clean r) r).
Lemma health_steady : steady hl hu ho h ha hb registerHealthRoute.
Proof. intros r w s. done. Qed.
Lemma readiness_steady : steady hl hu ho h ha hb (registerReadinessRoute database).
Proof.
  intros r w [l [us [k d]]]. unfold registerReadinessRoute. destruct database; [|done]. cbn.
  destruct (ho _ (inr PingContext) k) as [k' [e|]]; done.
Qed.

Lemma root_guarded globalLimiter authLimiter : gate hl hu ho h ha hb globalLimiter →
  guarded closed (outermost globalLimiter authLimiter).
Proof.
  intros Hg r w s Hi Hw Hr.
  apply (ServeMux_guarded (λ r', closed r' ∧ url_segments r' = url_segments r)); [| |done..|done].
  { intros m r' [Hc Hs]. rewrite url_of_values. split; [by apply closed_values|done]. }
  assert (Hopen : ∀ l, public l = true → ∀ r', (closed r' ∧ url_segments r' = url_segments r) →
    pat_matches (map Lit l) (url_segments r) = true → False).
  { intros l Hl r' [Hc Hs] Hm%pat_matches_lits. unfold closed in Hc. rewrite Hs, Hm in Hc. congruence. }
  unfold root. rewrite !Forall_cons. split_and!; [..|done].
  - intros r' w' s' _ _ (Hc & Hm & _). by destruct (Hopen ["health"] eq_refl r' Hc).
  - intros r' w' s' _ _ (Hc & Hm & _). by destruct (Hopen ["health"; "ready"] eq_refl r' Hc).
  - intros r' w' s' Hi' Hw' ((Hc & _) & _).
    by apply (passes_guarded hl hu ho h ha hb closed _ _ closed_same (gate_passes _ _ _ _ _ _ _ _ Hg) (mux_guarded authLimiter)).
Qed.
Lemma root_sound globalLimiter authLimiter :
  gate hl hu ho h ha hb globalLimiter → gate hl hu ho h ha hb authLimiter →
  sound (outermost globalLimiter authLimiter).
Proof.
  intros Hg Ha r w s. apply ServeMux_sound. unfold root. rewrite !Forall_cons. split_and!; [..|done].
  - by apply (steady_sound hl hu ho h ha hb).
  - apply (steady_sound hl hu ho h ha hb), readiness_steady.
  - by apply (gate_sound hl hu ho h ha hb), mux_sound.
Qed.

Definition chained (r : Request) : Prop := closed r ∧ not_options r.
Lemma chain_passes addressKey protector : gate hl hu ho h ha hb protector →
  Forall (passes hl hu ho h ha hb not_options)
    [RequestID; RealIP addressKey; Logging quietPaths;
     secureheaders_Middleware contentSecurityPolicy cfg.(cfg_HSTSMaxAge);
     CORS csrf_DefaultHeaderName cfg.(cfg_CORSAllowedOrigins); CSRF protector; Recovery true].
Proof.
  intros Hp. rewrite !Forall_cons. split_and!; [..|done].
  - apply RequestID_passes.
  - apply RealIP_passes.
  - apply Logging_passes.
  - apply (gate_passes hl hu ho h ha hb), (headers_gate hl hu ho h ha hb).
  - apply CORS_passes.
  - by apply CSRF_passes, (gate_passes hl hu ho h ha hb).
  - apply Recovery_passes.
Qed.

Lemma newHandler_sound server : newHandler cfg userSvc database connected = Ok server →
  sound server ∧ guarded chained server.
Proof.
  unfold newHandler. destruct (csrf_New _ _) as [protector|] eqn:Hp; [|done].
  destruct (addressKeyFunc cfg) as [addressKey|]; [|done]. intros [= <-].
  pose proof (chain_passes addressKey protector (csrf_gate _ _ _ _ _ _ _ _ _ Hp)) as Hall. unfold rootHandler. split.
  - eapply Chain_sound; [exact Hall|]. apply root_sound; apply (limiter_gate hl hu ho h ha hb).
  - eapply Chain_guarded; [|eapply Forall_impl; [exact Hall|]|].
    + intros r r' Hr [Hc Ho]. split; [by eapply closed_same|]. unfold not_options. by rewrite (proj1 Hr).
    + intros m. apply passes_weaken. by intros r [_ Ho].
    + intros r w s Hi Hw [Hc _]. apply root_guarded; [apply (limiter_gate hl hu ho h ha hb)|done..].
Qed.
End server.

(** * The properties *)

(** C3: no request reaches tasks or attachments but through authentication.
    Whatever the server is asked, tasks, attachments and their bytes are as they were
    unless the credential of the request is one that the service of accounts accepts,
    with accounts and cached tokens as they were when the request arrived; and then
    nothing changed but what a request of that one user may change: tasks of others,
    and the rows on them, are as they were, and what was added is on a task of the
    user's own.  Every path but those of health, registration, login, the CSRF token
    and short links answers anything but an error or a redirect (to anything but a
    preflight) only after that. *)
Theorem requests_are_mediated {libE : Type → Type} `{Lib : !Libraries libE}
    `{Sanitize, unicode.Tables, Validate, CsrfProtector, Bcrypt, MultipartBody, ContentServer, RejectReasons}
    `{RequestURL, Redirects} {L R K D B : Type}
    (hl : handler libE L) (hu : handler userRepoE R) (ho : handler outE K)
    (h : handler repoE D) (ha : handler attachRepoE D) (hb : handler blobE B)
    `{!TaskRepository h, !AttachmentRepository ha, !Linked h ha, !BlobStore hb}
    `{!LibraryLaws hl hu ho h ha hb} (cfg : Config) (userSvc : User.Service) (database : bool) (connected : nat)
    (server : Handler (serverE libE)) (r : Request) (s : ServerSpec.St) :
  newHandler cfg userSvc database connected = Ok server →
  cfg.(cfg_AttachmentMaxBytes) < int64.max → app_inv h ha (data s).1 →
  let '(s', (w, _)) := run (ServerSpec.H hl hu ho h ha hb) (server r fresh_wire) s in
  (data s' = data s ∨ authorised hu h ha (token_of r) s s') ∧
  (public cfg (url_segments r) = false → req_Method r ≠ MethodOptions →
     authorised hu h ha (token_of r) s s' ∨
     data s' = data s ∧ ∃ code, status w = Some code ∧ 300 ≤ code).
Proof.
  intros Hs Hb Hi. destruct (newHandler_sound hl hu ho h ha hb cfg userSvc database connected Hb server Hs) as [Hsound Hguard].
  specialize (Hsound r fresh_wire s Hi eq_refl). specialize (Hguard r fresh_wire s Hi eq_refl).
  destruct (run _ (server r fresh_wire) s) as [s' [w o]]. split; [exact Hsound|].
  intros Hn Ho. destruct (Hguard (conj Hn Ho)) as [Ha|(Hd & _ & code & hd & Hw & Hc)]; [by left|right].
  split; [done|]. exists code. unfold status. cbn in Hw. by rewrite Hw.
Qed.

(** ** A concrete server *)
Inductive noE : Type → Type := .
Definition refuse : Handler (serverE noE) := λ r w, finish (Error_ "refused" 403 w).
Definition limiter (key : Request → result string) : Middleware (serverE noE) := λ next r w,
  match key r with Ok _ => next r w | Err _ => refuse r w end.
Definition protector : Middleware (serverE noE) := λ next r w,
  if String.eqb (Header_Get r.(req_Header) "X-Csrf-Token") "" &&
     negb (bool_decide (r.(req_Method) ∈ [MethodGet; MethodHead; MethodOptions]))
  then refuse r w else next r w.
#[local] Instance plain_libraries : Libraries noE := {
  csrf_DefaultHeaderName := "X-CSRF-Token";
  ratelimit_RemoteAddrKey := λ _, Ok "127.0.0.1";
  ratelimit_ErrNoKey := Opaque "no key";
  ratelimit_New := λ _ _ _ key, limiter key;
  realip_New := λ _, Ok (λ _, Ok "127.0.0.1");
  csrf_New := λ secret _, if String.eqb secret "" then Err (Opaque "short secret") else Ok protector;
  secureheaders_Middleware := λ csp _ next r w, next r (set_header "Content-Security-Policy" csp w);
  expvar_Handler := λ r w, finish (WriteHeader 200 w);
  cairnhttp_NewHandler := λ fail r w, finish (fail w (Opaque "no link"));
}.
#[local] Program Instance split_url : RequestURL := {|
  url_segments r := tail (strings.Split r.(req_Path) "/"); url_clean r := true;
  url_has_prefix prefix r := strings.HasPrefix r.(req_Path) prefix |}.
Next Obligation. done. Qed.
Next Obligation. done. Qed.
#[local] Program Instance bare_redirects : Redirects := {| Redirect := λ r w, WriteHeader 301 w |}.
Next Obligation. intros r w Hw. unfold WriteHeader. rewrite Hw. cbn. eauto. Qed.
#[local] Existing Instance AttachmentHandlerTheorems.serve_plain.
#[local] Existing Instance AttachmentHandlerTheorems.two_parts.
#[local] Existing Instance LinkTheorems.no_reasons.
#[local] Existing Instance AttachmentTheorems.mem_owners_instance.
#[local] Existing Instance AttachmentTheorems.mem_linked_instance.

Definition no_library : handler noE unit := λ X e, match e with end.
Definition outside : handler outE (gmap string Link) := λ X e m,
  match e with
  | inl e => store_of_links X e m
  | inr e => match e in opsE X return _ * X with PingContext => (m, None) end
  end.
Abbreviation concrete_H :=
  (ServerSpec.H no_library (handle_umem) outside mem_tasks mem_attachments fs_store).
#[local] Instance plain_laws : LibraryLaws no_library handle_umem outside mem_tasks mem_attachments fs_store.
Proof.
  assert (Hrefuse : ∀ r w s, w_sent w = None → ∃ l w1 code hd,
    run concrete_H (refuse r w) s = (set_lib l s, (w1, Returned)) ∧ w_sent w1 = Some (code, hd) ∧ 300 ≤ code).
  { intros r w [l x] Hw. destruct (Error_sent "refused" 403 w Hw) as [hd Hs]. exists l, (Error_ "refused" 403 w), 403, hd.
    split_and!; [|done|done]. reflexivity. }
  split.
  - intros name burst rate key next r w s Hw. cbn. unfold limiter. destruct (key r); [left|by right; apply Hrefuse].
    exists s.1, w. by destruct s.
  - intros secret opts p Hp next r w s Hw. cbn in Hp. destruct (String.eqb secret ""); [done|]. injection Hp as <-.
    unfold protector. case_match; [by right; apply Hrefuse|left]. exists s.1, w. by destruct s.
  - intros csp age next r w s Hw. left. exists s.1, (set_header "Content-Security-Policy" csp w). by destruct s.
  - intros r w s. reflexivity.
Qed.

Definition plain_config : Config :=
  {| cfg_Addr := ":8080"; cfg_ReadTimeout := 1; cfg_WriteTimeout := 1; cfg_IdleTimeout := 1; cfg_ShutdownTimeout := 1;
     cfg_PreShutdownDelay := 0; cfg_LogLevel := LevelInfo; cfg_DatabaseURL := ""; cfg_DBMaxOpenConns := 1;
     cfg_DBMaxIdleConns := 1; cfg_DBConnMaxLifetime := 1; cfg_DBCallTimeout := 1; cfg_StorageCallTimeout := 1;
     cfg_DBAutoMigrate := false; cfg_AuthSessionTTL := 1; cfg_AuthMaxSessionsPerUser := 2; cfg_CORSAllowedOrigins := [];
     cfg_HSTSMaxAge := 0; cfg_TrustedProxies := []; cfg_AttachmentStorageDir := "/data"; cfg_AttachmentMaxBytes := 100;
     cfg_AttachmentMaxBytesPerUser := 1000; cfg_AttachmentS3Endpoint := ""; cfg_AttachmentS3Bucket := "";
     cfg_AttachmentS3AccessKey := ""; cfg_AttachmentS3SecretKey := ""; cfg_AttachmentS3Region := "";
     cfg_AttachmentS3UseSSL := true; cfg_AttachmentOrphanMinAge := 1; cfg_RateLimitBurst := 1;
     cfg_RateLimitPerSec := Finite 1 0; cfg_AuthRateLimitBurst := 1; cfg_AuthRateLimitPerSec := Finite 1 0;
     cfg_UserRateLimitBurst := 1; cfg_UserRateLimitPerSec := Finite 1 0; cfg_CrierOTLPEndpoint := "";
     cfg_CSRFSecret := "0123456789abcdef0123456789abcdef"; cfg_CookieInsecure := false;
     cfg_LinkShorteningEnabled := true; cfg_LinkPublicBaseURL := "https://s.example.com"; cfg_RedisAddr := "";
     cfg_RedisUsername := ""; cfg_RedisPassword := ""; cfg_RedisUseTLS := false; cfg_RedisCacheTTL := 1;
     cfg_RedisCacheL1TTL := 1 |}.

Definition ask (method path token : string) : Request :=
  {| req_Method := method; req_Path := path; req_Query := ∅;
     req_Header := if String.eqb token "" then ∅ else {[ "Authorization" := ["Bearer " +:+ token] ]};
     req_Cookies := []; req_PathValue := ∅; req_Body := {| body_value := None; body_end := 0 |};
     req_Context := background |}.
Definition concrete_state : Type :=
  ServerSpec.St (L := unit) (R := Env * memoryRepository) (K := gmap string Link) (D := mem_store) (B := Env * dir).
Definition state0 : concrete_state :=
  ((), ((proc_at calm_env, (calm, alice_store)), (∅, (seeded calm_env, seeded_blobs)))).
Definition serve (r : Request) : concrete_state * (wire * outcome) :=
  match newHandler plain_config service true 10 with
  | Ok server => run concrete_H (server r fresh_wire) state0
  | Err _ => (state0, (fresh_wire, Returned))
  end.

(** The routes, end to end. *)
Example statuses :
  map (λ r, status (serve r).2.1)
    [ask "GET" "/health" ""; ask "GET" "/health/ready" ""; ask "GET" "/v1/tasks" ""; ask "GET" "/v1/tasks" "t1";
     ask "GET" "/v1/tasks/stats" "t1"; ask "GET" ("/v1/tasks/" +:+ id1) "t1"; ask "GET" ("/v1/tasks/" +:+ id2) "t1";
     ask "HEAD" "/v1/tasks" "t1"; ask "PUT" "/v1/tasks" "t1"; ask "GET" "/v1/nowhere" "t1"; 
     ask "GET" "/debug/vars" ""; ask "GET" "/debug/vars" "t1"; ask "DELETE" ("/v1/tasks/" +:+ id1) "t1";
     ask "POST" "/v1/auth/logout" ""] =
  [Some 200; Some 200; Some 401; Some 200; Some 200; Some 200; Some 404; Some 200; Some 405; Some 404;
   Some 401; Some 200; Some 204; Some 403].
Proof. vm_compute. reflexivity. Qed.

Definition delete_request : Request := ask "DELETE" ("/v1/tasks/" +:+ id1) "t1".
Lemma concrete_server : ∃ server, newHandler plain_config service true 10 = Ok server.
Proof. eexists. unfold newHandler. reflexivity. Qed.
Lemma concrete_status : status (serve delete_request).2.1 = Some 204.
Proof. vm_compute. reflexivity. Qed.
Lemma concrete_open : public plain_config (url_segments delete_request) = false.
Proof. vm_compute. reflexivity. Qed.
Example requests_are_mediated_witness :
  status (serve delete_request).2.1 = Some 204 ∧
  authorised handle_umem mem_tasks mem_attachments "t1" state0 (serve delete_request).1.
Proof.
  pose proof concrete_status as Hst. split; [exact Hst|]. unfold serve in *.
  destruct concrete_server as [server Hs]. rewrite Hs in *.
  pose proof (requests_are_mediated no_library handle_umem outside mem_tasks mem_attachments fs_store
    plain_config service true 10 server delete_request state0 Hs eq_refl
    (conj two_tasks_wf (seeded_inv calm_env))) as Ht.
  match type of Ht with context [run ?hh ?p ?st] => destruct (run hh p st) as [s' [w o]] end.
  destruct Ht as [_ Ht]. destruct (Ht concrete_open ltac:(discriminate)) as [Ha|(_ & code & Hc & Hle)]; [exact Ha|].
  cbn [fst snd] in Hst. rewrite Hst in Hc. injection Hc as <-. by destruct (Hle eq_refl).
Defined.
