(* ===== verification/LifecycleTheorems.v ===== *)
(** Theorems about the life of the process: what is open after it came up or failed
    to, how it comes down, and what its maintenance leaves alone. *)

From S2P Require Import Prelude GoStd GoError Http Mux Middleware Task TaskMemory TaskSpec TaskService TaskHandler.
From S2P Require Import Attachment AttachmentMemory AttachmentSpec AttachmentService AttachmentHandler.
From S2P Require Import Link Config Wiring User UserMemory UserSpec UserService UserHandler.
From S2P Require Import Server ServerSpec ServerRoutes ServerTheorems Startup Drain Lifecycle StartupSpec.
From S2P Require Import BlobStorage ConcreteStore Concrete ConcreteUser LinkTheorems AttachmentTheorems AttachmentHandlerTheorems UserHandlerTheorems.
Local Open Scope Z_scope.

(** * The end of the process *)
(** C33: what is open after the process came up, and after it went down.  When the
    server could be built, exactly what its configuration asks for is open (the log
    shipping, the database, the Redis client, the three rate limiters, the store of
    attachments) and its handler is the one of the configuration; [closeAll] then
    closes all of it when it reports no error, and the limiters in any case.  When it
    could not be built, the limiters and the store of attachments are closed again,
    and the database unless it was the CSRF protection that could not be built. *)
Theorem what_is_open {libE : Type → Type} `{Lib : !Libraries libE}
    `{Sanitize, unicode.Tables, Validate, CsrfProtector, MultipartBody, ContentServer, RejectReasons}
    `{RequestURL, Redirects} {O : Type} (oracle : handler startE O) (o : O)
    (dummyHash : string) (connected : nat) (cfg : Config) :
  let '((o', l), res) := run (handle_start oracle) (Startup.start dummyHash connected cfg) (o, ∅) in
  match res with
  | Ok sv => l = held sv ∧ as_configured dummyHash connected cfg sv ∧
      let '((_, l'), err) := run (handle_start oracle) (closeAll sv) (o', l) in
      (err = None → l' = ∅) ∧ l' ## limiters
  | Err _ => left_open cfg l
  end.
Proof.
  pose proof (may_end_run (Startup.start dummyHash connected cfg) oracle o ∅ _ (start_ends dummyHash connected cfg)) as Hs.
  destruct (run _ (Startup.start dummyHash connected cfg) (o, ∅)) as [[o' l] [sv|e]]; [|exact Hs].
  destruct Hs as [-> Hconf]. split_and!; [done|done|].
  pose proof (may_end_run (closeAll sv) oracle o' (held sv) _ (closeAll_ends sv (held sv))) as Hc.
  destruct (run _ (closeAll sv) (o', held sv)) as [[o2 l'] err]. destruct Hc as (Hlim & _ & _ & Hn).
  split; [|done]. intros He. rewrite (Hn He). set_solver.
Qed.

(** C32: the process comes down when asked to.  As long as there is no signal and the
    listener has not returned, it serves.  After the first of the two, whatever the
    interleaving of the signal, the server's goroutine, the drain and the shutdown,
    every run ends with [run] returned, in boundedly many steps and without a message
    lost between the goroutines; nothing is closed before that, and all of it then,
    if closing reports no error.  The exit status is 0 exactly if there was a signal, the
    call of [Shutdown] returned without an error, and the listener returned that it was
    closed; it is 1 otherwise, and then the error is the one the listener failed with or
    the one that [Shutdown] returned. *)
Theorem shutdown_completes {libE : Type → Type} `{Lib : !Libraries libE} {O : Type} (oracle : handler startE O)
    (cfg : Config) (sv : builtServer libE) (o : O) (c : process_state) :
  rtc (Lifecycle.step oracle cfg sv) (launched (o, held sv)) c →
  (¬ exited c → c.(opened).2 = held sv) ∧
  (c.(signalled) = false → listening c = true → c.(at_) = Serving) ∧
  (c.(signalled) = true ∨ listening c = false →
     inevitably (Lifecycle.step oracle cfg sv) exited c) ∧
  (∀ res err, c.(at_) = Exited res err →
     (exit_status res = 0 ↔
        c.(signalled) = true ∧ c.(shutdown) = Some None ∧
        ∃ e, c.(served) = Some e ∧ Is e http_ErrServerClosed = true) ∧
     (exit_status res = 0 ∨ exit_status res = 1) ∧
     (∀ e, res = Some e → went_wrong e c) ∧
     (err = None → c.(opened).2 = ∅)).
Proof.
  intros Hr. destruct (drained cfg.(cfg_PreShutdownDelay) (deferred_close oracle sv) (λ p, p.2 = held sv)
    (λ p err, err = None → p.2 = ∅)) with (o := (o, held sv)) (c := c) as (Hopen & Hserve & Hdown & Hexit); [|done|done|].
  { intros [o' l] Hl. cbn in Hl. subst l. unfold deferred_close.
    pose proof (may_end_run (closeAll sv) oracle o' (held sv) _ (closeAll_ends sv (held sv))) as Hc.
    destruct (run _ (closeAll sv) (o', held sv)) as [[o2 l'] err]. destruct Hc as (_ & _ & _ & Hn).
    cbn. intros He. rewrite (Hn He). set_solver. }
  split_and!; [done|done|exact Hdown|]. intros res err Hp. destruct (Hexit res err Hp) as (Hd & Hc).
  apply returned_status in Hd. unfold came_down in Hd. tauto.
Qed.

(** ** Concrete runs *)
#[local] Existing Instance ServerTheorems.plain_libraries.
#[local] Existing Instance ServerTheorems.split_url.
#[local] Existing Instance ServerTheorems.bare_redirects.
#[local] Existing Instance AttachmentHandlerTheorems.serve_plain.
#[local] Existing Instance AttachmentHandlerTheorems.two_parts.
#[local] Existing Instance LinkTheorems.no_reasons.

(** Everything works, but for what [fails] says. *)
Definition calls_fail (fails : ∀ X, startE X → bool) : handler startE unit := λ X e o,
  let err := if fails X e then Some (Opaque "failed") else None in
  (o, match e in startE X return X with
      | redis_NewClient | ratelimit_Make _ | GoPeriodicCleanup _ | Log _ _ => tt
      | otlp_New _ | crier_New | sql_Open _ | db_PingContext | RunMigrations | bastion_New _ | memory_New
      | redisstore_New | redisstore_NewBus | cistern_New | Startup.NewS3BlobStore | NewFSBlobStore _ | url_Parse _
      | cairn_New | link_NewService | Close _ => err
      end).
Definition all_well : handler startE unit := calls_fail (λ _ _, false).

Definition small_server : builtServer ServerTheorems.noE :=
  {| srv_Handler := ServerTheorems.refuse; srv_crier := false; srv_database := true; srv_cache := false; srv_blobs := true |}.
(** A run to its end: the signal, the shutdown at once, with [err], and the listener's
    return. *)
Definition after_launch (err : option error) : process_state :=
  shutdown_returns err (server_returns http_ErrServerClosed (call_Shutdown (signal (launched (tt, held small_server))))).
Definition run_ended (err res : option error) : process_state :=
  let c := match err with None => receive_last http_ErrServerClosed (after_launch err) | Some _ => after_launch err end in
  let p := deferred_close all_well small_server c.(opened) in closed res p.2 p.1 c.
Lemma runs_to_after_launch err :
  rtc (Lifecycle.step all_well ServerTheorems.plain_config small_server) (launched (tt, held small_server)) (after_launch err).
Proof.
  do 4 (eapply rtc_r; [|first [by apply SignalArrives|by apply (SelectSignal 0)|by apply ServerCloses|by apply ShutdownReturns]]).
  apply rtc_refl.
Qed.
Lemma runs_to_end err : rtc (Lifecycle.step all_well ServerTheorems.plain_config small_server) (launched (tt, held small_server))
  (run_ended err (match err with Some e => Some (wrap "shutdown" e) | None => None end)).
Proof.
  pose proof (runs_to_after_launch err) as Hr. destruct err as [e|].
  - eapply rtc_r; [exact Hr|]. by apply (DeferredClose _ _ (after_launch (Some e)) (Some (wrap "shutdown" e))).
  - eapply rtc_r; [eapply rtc_r; [exact Hr|by apply (ReceiveErr _ _ (after_launch None) http_ErrServerClosed)]|].
    by apply (DeferredClose _ _ (receive_last http_ErrServerClosed (after_launch None)) None).
Qed.

Definition timed_out : error := context_DeadlineExceeded.
Definition signalled_start : process_state := signal (launched (tt, held small_server)).
Example shutdown_completes_witness :
  inevitably (Lifecycle.step all_well ServerTheorems.plain_config small_server) exited signalled_start ∧
  came_down (run_ended None None) ∧ ¬ came_down (run_ended (Some timed_out) (Some (wrap "shutdown" timed_out))).
Proof.
  split_and!.
  - apply (shutdown_completes all_well ServerTheorems.plain_config small_server tt signalled_start).
    + apply rtc_once. by apply SignalArrives.
    + by left.
  - by apply (shutdown_completes all_well ServerTheorems.plain_config small_server tt (run_ended None None)
      (runs_to_end None)) with (res := None) (err := None).
  - intros Hd. apply (shutdown_completes all_well ServerTheorems.plain_config small_server tt _
      (runs_to_end (Some timed_out))) with (res := Some (wrap "shutdown" timed_out)) (err := None) in Hd; done.
Defined.

(** A configuration with everything in it. *)
Definition full_config (csrf : string) : Config :=
  let c := ServerTheorems.plain_config in
  {| cfg_Addr := cfg_Addr c; cfg_ReadTimeout := 1; cfg_WriteTimeout := 1; cfg_IdleTimeout := 1; cfg_ShutdownTimeout := 1;
     cfg_PreShutdownDelay := 0; cfg_LogLevel := LevelInfo; cfg_DatabaseURL := "postgres://db"; cfg_DBMaxOpenConns := 1;
     cfg_DBMaxIdleConns := 1; cfg_DBConnMaxLifetime := 1; cfg_DBCallTimeout := 1; cfg_StorageCallTimeout := 1;
     cfg_DBAutoMigrate := true; cfg_AuthSessionTTL := 1; cfg_AuthMaxSessionsPerUser := 2; cfg_CORSAllowedOrigins := [];
     cfg_HSTSMaxAge := 0; cfg_TrustedProxies := []; cfg_AttachmentStorageDir := "/data"; cfg_AttachmentMaxBytes := 100;
     cfg_AttachmentMaxBytesPerUser := 1000; cfg_AttachmentS3Endpoint := ""; cfg_AttachmentS3Bucket := "";
     cfg_AttachmentS3AccessKey := ""; cfg_AttachmentS3SecretKey := ""; cfg_AttachmentS3Region := "";
     cfg_AttachmentS3UseSSL := true; cfg_AttachmentOrphanMinAge := 1; cfg_RateLimitBurst := 1;
     cfg_RateLimitPerSec := Finite 1 0; cfg_AuthRateLimitBurst := 1; cfg_AuthRateLimitPerSec := Finite 1 0;
     cfg_UserRateLimitBurst := 1; cfg_UserRateLimitPerSec := Finite 1 0; cfg_CrierOTLPEndpoint := "http://logs";
     cfg_CSRFSecret := csrf; cfg_CookieInsecure := false; cfg_LinkShorteningEnabled := true;
     cfg_LinkPublicBaseURL := "https://s.example.com"; cfg_RedisAddr := "redis:6379"; cfg_RedisUsername := "";
     cfg_RedisPassword := ""; cfg_RedisUseTLS := false; cfg_RedisCacheTTL := 1; cfg_RedisCacheL1TTL := 1 |}.
Definition start_leaves (oracle : handler startE unit) (csrf : string) : list resource :=
  elements (run (handle_start oracle) (Startup.start "dummy" 1 (full_config csrf)) (tt, ∅)).1.2.
(** What is left when the CSRF protection, the links, or the store of attachments cannot
    be built: the database in the first case, the Redis client in all of them. *)
Example start_leaves_ex :
  let no_links := calls_fail (λ _ e, match e with cairn_New => true | _ => false end) in
  let no_blobs := calls_fail (λ _ e, match e with NewFSBlobStore _ => true | _ => false end) in
  (RDatabase ∈ (start_leaves all_well "") ∧ RRedis ∈ (start_leaves all_well "")) ∧
  ((RDatabase ∉ start_leaves no_links "s") ∧ RRedis ∈ (start_leaves no_links "s")) ∧
  ((RDatabase ∉ start_leaves no_blobs "s") ∧ RRedis ∈ (start_leaves no_blobs "s")).
Proof. cbv zeta. split_and!; (apply (bool_decide_eq_true_1 _) || apply (bool_decide_eq_false_1 _)); vm_compute; reflexivity. Qed.
(** If the store of attachments cannot be closed, the database stays open. *)
Example close_stops :
  let stuck := calls_fail (λ _ e, match e with Close RBlobs => true | _ => false end) in
  let '((_, l), err) := run (handle_start stuck) (closeAll small_server) (tt, held small_server) in
  RDatabase ∈ (elements l) ∧ is_Some err.
Proof. cbv zeta. split; [apply (bool_decide_eq_true_1 _)|]; vm_compute; [reflexivity|eauto]. Qed.

(** * Maintenance *)
Section cleanup.
Context {libE : Type → Type}.
Context `{San : Sanitize, Uni : unicode.Tables, Val : Validate, Bc : Bcrypt}.
Context {L R K D B : Type}.
Context (hl : handler libE L) (hu : handler userRepoE R) (ho : handler outE K).
Context (h : handler repoE D) (ha : handler attachRepoE D) (hb : handler blobE B).
Context `{!UserRepository hu, !TaskRepository h, !AttachmentRepository ha, !Linked h ha, !BlobStore hb}.
Context (T minAge : Z) (orphans : bool).
Abbreviation H := (ServerSpec.H hl hu ho h ha hb).
Abbreviation St := (ServerSpec.St (L := L) (R := R) (K := K) (D := D) (B := B)).

(** Every reading of the clock is at most [T]. *)
Definition read_by (env : Env) : Prop := Forall (λ t, t ≤ T) env.(env_clock) ∧ 0 ≤ T.
Lemma handle_env_read_by X (e : envE X) env : read_by env → read_by (handle_env X e env).1.
Proof.
  destruct env as [c b ctx sd]. intros [Hc HT]. cbn in Hc.
  destruct e; cbn; [destruct c as [|t l]|destruct b|destruct ctx|destruct sd]; cbn; split; try done.
  by apply Forall_cons in Hc as [_ Hc].
Qed.
Lemma now_read_by env : read_by env → (handle_env _ Now env).2 ≤ T.
Proof. intros [Hc HT]. cbn. destruct (env_clock env) as [|t l]; cbn; [done|]. by apply Forall_cons in Hc as [? _]. Qed.

(** Nothing went but sessions that expired before [T], and blobs without a row that were
    written more than [minAge] before [T]. *)
Record maintained (s s' : St) : Prop := {
  mt_tasks : repo_view (data s').1 = repo_view (data s).1;
  mt_rows : arepo_rows (data s').1 = arepo_rows (data s).1;
  mt_users : acc_users (urepo_view (accounts s')) = acc_users (urepo_view (accounts s));
  mt_sessions : acc_sessions (urepo_view (accounts s')) ⊆ acc_sessions (urepo_view (accounts s));
  mt_live : ∀ k x, acc_sessions (urepo_view (accounts s)) !! k = Some x → T ≤ x.(sess_ExpiresAt) →
    acc_sessions (urepo_view (accounts s')) !! k = Some x;
  mt_blobs : blob_view (data s').2 ⊆ blob_view (data s).2;
  mt_kept : ∀ k blob, blob_view (data s).2 !! k = Some blob →
    orphans = false ∨ ¬ no_key (arepo_rows (data s).1) k ∨ T - minAge ≤ blob.(blob_ModTime) →
    blob_view (data s').2 !! k = Some blob;
}.
#[local] Instance maintained_preorder : PreOrder maintained.
Proof.
  split; [by split|]. intros s1 s2 s3 [Ht1 Hr1 Hu1 Hs1 Hl1 Hb1 Hk1] [Ht2 Hr2 Hu2 Hs2 Hl2 Hb2 Hk2].
  split; try congruence; try (by etransitivity); auto. intros k blob Hk Hcase. apply Hk2; [by apply Hk1|]. by rewrite Hr1.
Qed.
Definition sane (s : St) : Prop :=
  app_inv h ha (data s).1 ∧ urepo_inv (accounts s) ∧ read_by (proc_env (process s)).

Lemma prune_run p r : read_by (proc_env p) → ∃ p' now, read_by (proc_env p') ∧ now ≤ T ∧
  (run (handle_user hu) PruneExpiredSessions (p, r)).1 = (p', (hu _ (DeleteExpiredSessions now) r).1).
Proof.
  intros Hc.
  assert (Htick : ∀ q, read_by (proc_env q) → read_by (proc_env (tick q).1) ∧ (tick q).2 ≤ T).
  { intros q Hq. unfold tick. pose proof (handle_env_read_by _ Now (proc_env q) Hq). pose proof (now_read_by (proc_env q) Hq).
    by destruct (handle_env _ Now (proc_env q)). }
  unfold PruneExpiredSessions, try_. cbn -[handle_env].
  destruct (Htick p Hc) as [Hc1 _]. destruct (tick p) as [p1 t1]. cbn -[handle_env] in *.
  destruct (Htick (set_cache (tokenCache.sweep t1 (proc_cache p1)) p1) Hc1) as [Hc2 _].
  destruct (tick _) as [p2 t2]. cbn -[handle_env] in *.
  pose proof (handle_env_read_by _ Now (proc_env p2) Hc2) as Hc3. pose proof (now_read_by (proc_env p2) Hc2) as Ht.
  destruct (handle_env _ Now (proc_env p2)) as [env now] eqn:He. cbn in *. clear He.
  exists (set_env env (set_backoff (loginBackoff.sweep t2 (proc_backoff p2)) p2)), now.
  destruct (hu _ (DeleteExpiredSessions now) r) as [r' [e|]]; cbn; by split_and!.
Qed.

Lemma prune_maintained s : sane s →
  let '(s', _) := run H (lift user_up PruneExpiredSessions) s in sane s' ∧ maintained s s'.
Proof.
  intros (Hd & Hu & Hc). rewrite run_user. destruct s as [l [[p r] [k [d b]]]]. cbn in Hd, Hu, Hc. cbn [fst snd].
  destruct (prune_run p r Hc) as (p' & now & Hc' & Hnow & Hrun).
  destruct (run (handle_user hu) _ (p, r)) as [w err]. cbn [fst] in Hrun. subst w.
  pose proof (urepo_step_inv _ (DeleteExpiredSessions now) r Hu I) as Hi.
  pose proof (urepo_sound _ (DeleteExpiredSessions now) r Hu I) as Hs.
  destruct (hu _ (DeleteExpiredSessions now) r) as [r' x]. cbn [fst snd] in *.
  assert (Hs' : ∀ k x0, acc_sessions (urepo_view r') !! k = Some x0 → acc_sessions (urepo_view r) !! k = Some x0).
  { intros k0 x0. destruct x as [e|]; [by destruct Hs as [-> _]|]. rewrite Hs. intros Hx.
    apply lookup_delete_where in Hx. tauto. }
  split; [done|]. split; cbn; try done.
  - destruct x; [by destruct Hs as [-> _]|by rewrite Hs].
  - apply map_subseteq_spec. exact Hs'.
  - intros k0 x0 Hx HT. destruct x as [e|]; [by destruct Hs as [-> _]|]. rewrite Hs. apply lookup_delete_where.
    split; [done|]. unfold time.Before. apply Z.ltb_ge. lia.
Qed.

Lemma collect_maintained s : orphans = true → sane s →
  let '(s', _) := run H (lift attach_up (CollectOrphans minAge)) s in sane s' ∧ maintained s s'.
Proof.
  intros Ho (Hd & Hu & Hc). rewrite run_attachments. destruct s as [l [[p r] [k [d b]]]]. cbn in Hd, Hu, Hc.
  unfold app_of. cbn [process data fst snd].
  pose proof (CollectOrphans_spec ha hb (proc_env p) d b minAge (proj2 Hd)) as Hs.
  pose proof (attachment_run_linked h ha hb (CollectOrphans minAge) (proc_env p) d b Hd) as Hl.
  pose proof (run_invariant (handle_sum handle_env (handle_sum ha hb)) (λ w, read_by w.1) (CollectOrphans minAge)) as Hr.
  specialize (Hr ltac:(intros X e [env x]; destruct e as [e|e]; cbn;
    [intros He; pose proof (handle_env_read_by X e env He); by destruct (handle_env X e env)|
     by destruct (handle_sum ha hb X e x)]) (proc_env p, (d, b)) Hc).
  destruct (run (handle_sum handle_env (handle_sum ha hb)) (CollectOrphans minAge) (proc_env p, (d, b))) as [[env' [d' b']] [deleted err]].
  destruct Hs as (_ & Hrows & Hsub & Hkeep & _), Hl as [Hd' Hv]. cbn [fst] in Hr.
  split; [done|]. split; try done. cbn. intros k0 blob Hk Hcase. rewrite Hkeep; [done|].
  left. intros [(blob' & Hk' & Hold) Hno]. assert (blob' = blob) as -> by congruence.
  pose proof (now_read_by (proc_env p) Hc) as Hnow. destruct (proc_env p) as [c eb ctx sd]. cbn in Hnow, Hold.
  destruct (pop 0 c) as [now c']. cbn in Hnow, Hold. destruct Hcase as [Hf|[Hn|Hy]]; [congruence|done|lia].
Qed.

Lemma pass_maintained s lines : sane s →
  let '(s', _) := run H (cleanup_pass orphans minAge lines) s in sane s' ∧ maintained s s'.
Proof.
  intros Hs. unfold cleanup_pass. rewrite run_bind. pose proof (prune_maintained s Hs) as Hp.
  destruct (run H (lift user_up PruneExpiredSessions) s) as [s1 err]. destruct Hp as [Hs1 Hp].
  destruct orphans eqn:Ho; [|done]. rewrite run_bind. pose proof (collect_maintained s1) as Hc.
  rewrite Ho in Hc. specialize (Hc eq_refl Hs1). destruct (run H (lift attach_up _) s1) as [s2 [deleted e]]. destruct Hc as [Hs2 Hc].
  destruct e; cbn; (split; [done|by etransitivity]).
Qed.
Lemma cleanup_maintained ticks s lines : sane s →
  let '(s', _) := run H (runPeriodicCleanup orphans minAge ticks lines) s in sane s' ∧ maintained s s'.
Proof.
  revert s lines; induction ticks as [|ticks IH]; intros s lines Hs; cbn [runPeriodicCleanup]; [done|].
  rewrite run_bind. pose proof (pass_maintained s lines Hs) as Hp.
  destruct (run H (cleanup_pass orphans minAge lines) s) as [s1 lines1]. destruct Hp as [Hs1 Hp].
  specialize (IH s1 lines1 Hs1). destruct (run H (runPeriodicCleanup _ _ _ _) s1) as [s2 lines2]. destruct IH as [Hs2 IH].
  split; [done|by etransitivity].
Qed.
End cleanup.

(** C34: maintenance takes nothing that is in use.  Through any number of ticks, with
    whatever failures, no task, no attachment and no account changes; a session that
    has not expired by [T], the latest time the clock showed, is still there; and so
    is every blob that a row refers to or that is younger than the minimum age at [T]
    (all of them when attachments are off). *)
Theorem maintenance_is_harmless {libE : Type → Type} `{Sanitize, unicode.Tables, Validate, Bcrypt}
    {L R K D B : Type} (hl : handler libE L) (hu : handler userRepoE R) (ho : handler outE K)
    (h : handler repoE D) (ha : handler attachRepoE D) (hb : handler blobE B)
    `{!UserRepository hu, !TaskRepository h, !AttachmentRepository ha, !Linked h ha, !BlobStore hb}
    (orphans : bool) (minAge T : Z) (ticks : nat) lines (s : ServerSpec.St) :
  app_inv h ha (data s).1 → urepo_inv (accounts s) → read_by T (proc_env (process s)) →
  let '(s', _) := run (ServerSpec.H hl hu ho h ha hb) (runPeriodicCleanup orphans minAge ticks lines) s in
  maintained hu h ha hb T minAge orphans s s'.
Proof.
  intros Hd Hu Hc. pose proof (cleanup_maintained hl hu ho h ha hb T minAge orphans ticks s lines (conj Hd (conj Hu Hc))) as Hm.
  match type of Hm with context [run ?hh ?p ?st] => destruct (run hh p st) as [s' lines'] end. apply Hm.
Qed.

(** Ten hours, with a session that has expired and a stray blob. *)
Definition worn_state : ServerTheorems.concrete_state :=
  ((), ((proc_at (env_at (repeat 2000 40) []), (calm, alice_store)), (∅, (seeded calm_env, seeded_blobs)))).
#[local] Existing Instance AttachmentTheorems.mem_owners_instance.
#[local] Existing Instance AttachmentTheorems.mem_linked_instance.
Definition maintenance_run :=
  run (ServerSpec.H ServerTheorems.no_library handle_umem ServerTheorems.outside mem_tasks mem_attachments fs_store)
    (runPeriodicCleanup true 10 10 []) worn_state.
Example maintenance_is_harmless_witness :
  maintained handle_umem mem_tasks mem_attachments fs_store 2000 10 true worn_state maintenance_run.1 ∧
  acc_sessions (urepo_view (accounts maintenance_run.1)) !! hashToken "t1" = None.
Proof.
  split; [|vm_compute; reflexivity].
  pose proof (maintenance_is_harmless ServerTheorems.no_library handle_umem ServerTheorems.outside mem_tasks mem_attachments
    fs_store true 10 2000 10 [] worn_state (conj two_tasks_wf (seeded_inv calm_env)) alice_store_inv) as Hm.
  assert (Hr : read_by 2000 (proc_env (process worn_state))).
  { split; [|done]. cbn. repeat (apply Forall_cons; split; [done|]). by apply Forall_nil. }
  specialize (Hm Hr). unfold maintenance_run.
  match type of Hm with context [run ?hh ?p ?st] => destruct (run hh p st) as [s' lines'] end. exact Hm.
Defined.
